(** * Except: structured exception handling for C (try / catch / finally / throw)

    A shallow embedding of the routines of "Except.c", the macros of
    "Except.h" and [AssertAction] of "Assert.c", together with the properties
    of the dispatch engine, the signal bridge and the debug auditor; and of
    the collaborators: the allocation routines of "Alloc.c", the LIFO buffer
    of "Lifo.c", the doubly linked list of "List.c" and the hash table of
    "Hash.c".

    Conventions of the embedding:
    - C objects that are shared through pointers live in explicit stores:
      the statically defined [Class] records in a map from class addresses,
      the calloc'ed exception handles ([Except]) in a map from handle
      addresses, the per thread contexts in the context hash table;
    - a nullable pointer is an [option];
    - a routine that leaves by [siglongjmp], [raise] or [abort] returns an
      [Outcome] saying so, next to the store it leaves behind;
    - [ExceptPrintDebug] is the empty macro (EXCEPT_DEBUG is not defined). *)

From stdpp Require Import gmap strings list fin_maps.
From Stdlib Require Import ZArith DecimalString.

Local Open Scope Z_scope.

(** ** Class registry ("Except.h": struct _Class) *)

(** A [ClassRef] is the address of a statically allocated class record. *)
Abbreviation ClassRef := nat.

Record Class := mkClass {
  c_notRethrown : Z;              (* always 1 (used by throw()) *)
  c_parent : option ClassRef;     (* parent class *)
  c_name : string;                (* this class name string *)
  c_signalNumber : Z              (* optional signal number *)
}.

(** [except_class_define(child, parent)] is [Class child = { 1, parent, #child }];
    the omitted [signalNumber] is zero initialised. *)
Definition except_class_define (child : string) (parent : option ClassRef) : Class :=
  {| c_notRethrown := 1; c_parent := parent; c_name := child; c_signalNumber := 0 |}.

(** Addresses of the class records defined in "Except.c". *)
Definition Throwable : ClassRef := 1%nat.
Definition Exception : ClassRef := 2%nat.
Definition OutOfMemoryError : ClassRef := 3%nat.
Definition FailedAssertion : ClassRef := 4%nat.
Definition RuntimeException : ClassRef := 5%nat.
Definition AbnormalTermination : ClassRef := 6%nat.
Definition ArithmeticException : ClassRef := 7%nat.
Definition IllegalInstruction : ClassRef := 8%nat.
Definition SegmentationFault : ClassRef := 9%nat.
Definition BusError : ClassRef := 10%nat.
Definition ReturnEvent : ClassRef := 11%nat.
(** ... and of the two classes that "Test.c" adds. *)
Definition Level1Exception : ClassRef := 12%nat.
Definition Level2Exception : ClassRef := 13%nat.

(** The class records as "Except.c" initialises them. *)
Definition declared_classes : gmap nat Class :=
  list_to_map
    [ (Throwable,           except_class_define "Throwable" None);
      (Exception,           except_class_define "Exception" (Some Throwable));
      (OutOfMemoryError,    except_class_define "OutOfMemoryError" (Some Exception));
      (FailedAssertion,     except_class_define "FailedAssertion" (Some Exception));
      (RuntimeException,    except_class_define "RuntimeException" (Some Exception));
      (AbnormalTermination, except_class_define "AbnormalTermination" (Some RuntimeException));
      (ArithmeticException, except_class_define "ArithmeticException" (Some RuntimeException));
      (IllegalInstruction,  except_class_define "IllegalInstruction" (Some RuntimeException));
      (SegmentationFault,   except_class_define "SegmentationFault" (Some RuntimeException));
      (BusError,            except_class_define "BusError" (Some RuntimeException));
      (ReturnEvent,         except_class_define "ReturnEvent" None) ].

(** The class records of the test program: those above and its own two. *)
Definition test_classes : gmap nat Class :=
  <[Level2Exception := except_class_define "Level2Exception" (Some Level1Exception)]>
  (<[Level1Exception := except_class_define "Level1Exception" (Some Exception)]>
   declared_classes).

(** *** ExceptIsDerived

<<
    while (class->parent != NULL && class != base)
        class = class->parent;
    return class == base;
>>
    Every test of the loop condition reads [class->parent]; the model gives
    [None] when that read hits an address without class record, or when the
    loop has gone round more often than there are class records (the parent
    links then form a cycle, on which the C loop would not come to an end). *)
Fixpoint ExceptIsDerived_loop (fuel : nat) (classes : gmap nat Class)
    (class base : ClassRef) : option bool :=
  match classes !! class with
  | None => None
  | Some cl =>
      match c_parent cl with
      | None => Some (bool_decide (class = base))
      | Some p =>
          if decide (class = base) then Some true
          else match fuel with
               | O => None
               | S fuel' => ExceptIsDerived_loop fuel' classes p base
               end
      end
  end.

Definition ExceptIsDerived (classes : gmap nat Class) (class base : ClassRef) : option bool :=
  ExceptIsDerived_loop (size classes) classes class base.

(** [parent_of classes c p]: the record at [c] has the parent link [p]. *)
Definition parent_of (classes : gmap nat Class) (c : ClassRef) (p : option ClassRef) : Prop :=
  ∃ cl, classes !! c = Some cl ∧ c_parent cl = p.

(** [on_chain classes c b]: [b] occurs on the chain of parent links that
    starts at [c], [c] itself included. *)
Inductive on_chain (classes : gmap nat Class) : ClassRef → ClassRef → Prop :=
  | on_chain_here c : on_chain classes c c
  | on_chain_up c p b :
      parent_of classes c (Some p) → on_chain classes p b → on_chain classes c b.

(** [rooted classes c n]: following the parent links from [c] reaches, after
    [n] links, a record whose parent link is empty (a root). *)
Inductive rooted (classes : gmap nat Class) : ClassRef → nat → Prop :=
  | rooted_root c : parent_of classes c None → rooted classes c O
  | rooted_child c p n :
      parent_of classes c (Some p) → rooted classes p n → rooted classes c (S n).

(** ** Exception handles, contexts and the store ("Except.h") *)

Inductive Scope := OUTSIDE | INTERNAL | TRY | CATCH | FINALLY.
Inductive State := EMPTY | PENDING | CAUGHT.

#[global] Instance Scope_eq_dec : EqDecision Scope.
Proof. solve_decision. Defined.
#[global] Instance State_eq_dec : EqDecision State.
Proof. solve_decision. Defined.

(** What a [JMP_BUF] holds: nothing yet (cleared by calloc), or the place
    whose [SETJMP] armed it. *)
Inductive JMP_BUF :=
  | jb_cleared
  | jb_try (handle : nat)        (* SETJMP(pC->pEx->throwBuf) of the 'try' macro *)
  | jb_finally (handle : nat)    (* SETJMP(pC->pEx->finalBuf) of the 'finally' macro *)
  | jb_return (site : nat).      (* SETJMP of the 'return' macro, on the buffer behind pData *)

(** A [void *] as the package passes it around in [pData]. *)
Inductive VoidPtr :=
  | NULL
  | StrPtr (s : string)          (* a C string, e.g. the failed expression *)
  | JmpBufPtr (b : JMP_BUF)      (* the malloc'ed return destination, with its content *)
  | OtherPtr (address : Z).

(** The first argument of [ExceptThrow]: a class, or (rethrow) a handle. *)
Inductive ExceptOrClass :=
  | ClassPtr (c : ClassRef)
  | ExceptPtr (e : nat).

(** One entry of the 'catch' check list (struct _Check of [ExceptCheck]). *)
Record Check := mkCheck { k_class : ClassRef; k_line : Z }.

Record Except := mkExcept {
  e_notRethrown : Z;                   (* always 0 (used by throw()) *)
  e_state : State;                     (* current state of this handle *)
  e_throwBuf : JMP_BUF;                (* start-'catching' destination *)
  e_finalBuf : JMP_BUF;                (* perform-'finally' destination *)
  e_class : option ClassRef;           (* occurred exception class *)
  e_pData : VoidPtr;                   (* exception associated (user) data *)
  e_file : option string;              (* exception file name *)
  e_line : Z;                          (* exception line number *)
  e_ready : Z;                         (* macro code control flow flag *)
  e_scope : Scope;                     (* exception handling scope *)
  e_first : bool;                      (* flag if first try in function *)
  e_checkList : option (list Check);   (* list used by 'catch' checking *)
  e_tryFile : option string;           (* source file name of 'try' *)
  e_tryLine : Z;                       (* source line number of 'try' *)
  e_getClass : bool;                   (* the four method pointers: set or NULL *)
  e_getMessage : bool;
  e_getData : bool;
  e_printTryTrace : bool
}.

(** [calloc(sizeof(Except), 1)]: all fields zero. INTERNAL is the scope
    with value 0, EMPTY the state with value 0. *)
Definition Except_zero : Except :=
  {| e_notRethrown := 0; e_state := EMPTY; e_throwBuf := jb_cleared;
     e_finalBuf := jb_cleared; e_class := None; e_pData := NULL; e_file := None;
     e_line := 0; e_ready := 0; e_scope := INTERNAL; e_first := false;
     e_checkList := None; e_tryFile := None; e_tryLine := 0; e_getClass := false;
     e_getMessage := false; e_getData := false; e_printTryTrace := false |}.

(** Assignments to single members of a handle. *)
Definition set_state (v : State) (e : Except) : Except :=
  let 'mkExcept a _ c d f g h i j k l m n o p q r s := e in mkExcept a v c d f g h i j k l m n o p q r s.
Definition set_throwBuf (v : JMP_BUF) (e : Except) : Except :=
  let 'mkExcept a b _ d f g h i j k l m n o p q r s := e in mkExcept a b v d f g h i j k l m n o p q r s.
Definition set_finalBuf (v : JMP_BUF) (e : Except) : Except :=
  let 'mkExcept a b c _ f g h i j k l m n o p q r s := e in mkExcept a b c v f g h i j k l m n o p q r s.
Definition set_class (v : option ClassRef) (e : Except) : Except :=
  let 'mkExcept a b c d _ g h i j k l m n o p q r s := e in mkExcept a b c d v g h i j k l m n o p q r s.
Definition set_pData (v : VoidPtr) (e : Except) : Except :=
  let 'mkExcept a b c d f _ h i j k l m n o p q r s := e in mkExcept a b c d f v h i j k l m n o p q r s.
Definition set_file (v : option string) (e : Except) : Except :=
  let 'mkExcept a b c d f g _ i j k l m n o p q r s := e in mkExcept a b c d f g v i j k l m n o p q r s.
Definition set_line (v : Z) (e : Except) : Except :=
  let 'mkExcept a b c d f g h _ j k l m n o p q r s := e in mkExcept a b c d f g h v j k l m n o p q r s.
Definition set_ready (v : Z) (e : Except) : Except :=
  let 'mkExcept a b c d f g h i _ k l m n o p q r s := e in mkExcept a b c d f g h i v k l m n o p q r s.
Definition set_scope (v : Scope) (e : Except) : Except :=
  let 'mkExcept a b c d f g h i j _ l m n o p q r s := e in mkExcept a b c d f g h i j v l m n o p q r s.
Definition set_first (v : bool) (e : Except) : Except :=
  let 'mkExcept a b c d f g h i j k _ m n o p q r s := e in mkExcept a b c d f g h i j k v m n o p q r s.
Definition set_checkList (v : option (list Check)) (e : Except) : Except :=
  let 'mkExcept a b c d f g h i j k l _ n o p q r s := e in mkExcept a b c d f g h i j k l v n o p q r s.
Definition set_tryFile (v : option string) (e : Except) : Except :=
  let 'mkExcept a b c d f g h i j k l m _ o p q r s := e in mkExcept a b c d f g h i j k l m v o p q r s.
Definition set_tryLine (v : Z) (e : Except) : Except :=
  let 'mkExcept a b c d f g h i j k l m n _ p q r s := e in mkExcept a b c d f g h i j k l m n v p q r s.
Definition set_methods (e : Except) : Except :=
  let 'mkExcept a b c d f g h i j k l m n o p _ _ _ := e in mkExcept a b c d f g h i j k l m n o p true true true.

(** [typedef void ( * Handler)(int)]: what can stand in a signal disposition. *)
Inductive Handler :=
  | SIG_DFL
  | SIG_IGN
  | ExceptThrowSignal_handler      (* the address of [ExceptThrowSignal] *)
  | UserHandler (id : nat).

(** A context pointer: the static [defaultContext], or the context that the
    hash table holds for a thread. *)
Inductive ContextRef :=
  | defaultContext_ref
  | thread_context (threadId : Z).

#[global] Instance ContextRef_eq_dec : EqDecision ContextRef.
Proof. solve_decision. Defined.

Record Context := mkContext {
  pEx : option nat;                (* current exception handle *)
  exStack : option (list nat);     (* exception handle stack, top first *)
  sigAbrtHandler : Handler;        (* default SIGABRT handler *)
  sigFpeHandler : Handler;         (* default SIGFPE handler *)
  sigIllHandler : Handler;         (* default SIGILL handler *)
  sigSegvHandler : Handler;        (* default SIGSEGV handler *)
  sigBusHandler : Handler          (* default SIGBUS handler *)
}.

(** A zeroed context (static storage, or calloc). *)
Definition Context_zero : Context :=
  {| pEx := None; exStack := None; sigAbrtHandler := SIG_DFL; sigFpeHandler := SIG_DFL;
     sigIllHandler := SIG_DFL; sigSegvHandler := SIG_DFL; sigBusHandler := SIG_DFL |}.

Definition set_pEx (v : option nat) (c : Context) : Context :=
  let 'mkContext _ b d f g h i := c in mkContext v b d f g h i.
Definition set_exStack (v : option (list nat)) (c : Context) : Context :=
  let 'mkContext a _ d f g h i := c in mkContext a v d f g h i.

(** ** Build configuration and platform constants

    The preprocessor symbols that select the code, and the signal numbers of
    <signal.h>, which the package takes from the platform. *)
Record Config := mkConfig {
  MULTI_THREADING : bool;      (* EXCEPT_MT_SHARED or EXCEPT_MT_PRIVATE is defined *)
  SHARE_HANDLERS : bool;       (* EXCEPT_MT_SHARED is defined *)
  DO_ABORT : bool;             (* ASSERT_ABORT is defined ("Assert.h") *)
  SIGABRT : Z;
  SIGFPE : Z;
  SIGILL : Z;
  SIGSEGV : Z;
  SIGBUS : option Z            (* None where SIGBUS is not defined *)
}.

(** The store: every object the package reads or writes. *)
Record World := mkWorld {
  classes : gmap nat Class;                  (* the static Class records *)
  handles : gmap nat Except;                 (* the calloc'ed exception handles *)
  defaultContext : Context;                  (* used when single-threaded *)
  pContextHash : option (gmap Z Context);    (* thread context hash-table, or NULL *)
  numThreadsTry : Z;                         (* number of threads in 'try' stmt. *)
  sharedSigAbrtHandler : Handler;
  sharedSigFpeHandler : Handler;
  sharedSigIllHandler : Handler;
  sharedSigSegvHandler : Handler;
  sharedSigBusHandler : Handler;
  dispositions : gmap Z Handler;             (* handler per signal; absent: SIG_DFL *)
  stderr : list string;                      (* the fprintf(stderr, ...) output, in order *)
  thread_self : Z                            (* what EXCEPT_THREAD_ID_FUNC() returns *)
}.

Definition set_classes (v : gmap nat Class) (w : World) : World :=
  let 'mkWorld _ b c d f g h i j k l m n := w in mkWorld v b c d f g h i j k l m n.
Definition set_handles (v : gmap nat Except) (w : World) : World :=
  let 'mkWorld a _ c d f g h i j k l m n := w in mkWorld a v c d f g h i j k l m n.
Definition set_defaultContext (v : Context) (w : World) : World :=
  let 'mkWorld a b _ d f g h i j k l m n := w in mkWorld a b v d f g h i j k l m n.
Definition set_pContextHash (v : option (gmap Z Context)) (w : World) : World :=
  let 'mkWorld a b c _ f g h i j k l m n := w in mkWorld a b c v f g h i j k l m n.
Definition set_numThreadsTry (v : Z) (w : World) : World :=
  let 'mkWorld a b c d _ g h i j k l m n := w in mkWorld a b c d v g h i j k l m n.
Definition set_dispositions (v : gmap Z Handler) (w : World) : World :=
  let 'mkWorld a b c d f g h i j k _ m n := w in mkWorld a b c d f g h i j k v m n.
Definition set_stderr (v : list string) (w : World) : World :=
  let 'mkWorld a b c d f g h i j k l _ n := w in mkWorld a b c d f g h i j k l v n.

(** How a routine ends. *)
Inductive Outcome (A : Type) :=
  | Return (a : A)             (* it returns [a] to its caller *)
  | LongJmp (b : JMP_BUF)      (* LONGJMP(b, 1) *)
  | Raise (sig : Z)            (* raise(sig): control goes to the disposition of [sig] *)
  | Abort                      (* abort() *)
  | Fault.                     (* undefined: a NULL or dangling pointer is read *)
Arguments Return {A} a.
Arguments LongJmp {A} b.
Arguments Raise {A} sig.
Arguments Abort {A}.
Arguments Fault {A}.

(** What follows a call: the rest runs when the call returns, and is
    skipped when the call leaves by a jump, a signal, abort or a fault. *)
Definition and_then {A B : Type} (m : World * Outcome A) (k : World → A → World * Outcome B)
    : World * Outcome B :=
  match m with
  | (w, Return a) => k w a
  | (w, LongJmp b) => (w, LongJmp b)
  | (w, Raise s) => (w, Raise s)
  | (w, Abort) => (w, Abort)
  | (w, Fault) => (w, Fault)
  end.
Infix ">>>" := and_then (at level 61, left associativity).

(** *** The collaborators, as far as the package uses them *)

(** "Lifo.c", on the list of the stacked objects (top first). *)
Definition LifoCount (l : list nat) : Z := Z.of_nat (length l).
Definition LifoPush (l : list nat) (pObject : nat) : list nat := pObject :: l.
Definition LifoPop (l : list nat) : option nat * list nat :=
  match l with
  | [] => (None, [])
  | x :: l' => (Some x, l')
  end.
Definition LifoPeek (l : list nat) (number : Z) : option nat :=
  if decide (0 < number ∧ number ≤ LifoCount l) then l !! Z.to_nat (number - 1) else None.

(** [signal(sig, handler)]: installs [handler], returns the one it replaces. *)
Definition signal (sig : Z) (handler : Handler) (w : World) : Handler * World :=
  (default SIG_DFL (dispositions w !! sig),
   set_dispositions (<[sig := handler]> (dispositions w)) w).

(** [fprintf(stderr, ...)] with the text already formatted. *)
Definition fprintf_stderr (text : string) (w : World) : World :=
  set_stderr (stderr w ++ [text]) w.

(** printf's %d, the double quote and the newline. *)
Definition fmt_d (n : Z) : string := NilZero.string_of_int (Z.to_int n).
Definition dquote : string := String (Ascii.ascii_of_nat 34) EmptyString.
Definition newline : string := String (Ascii.ascii_of_nat 10) EmptyString.

(** *** Contexts *)

Definition read_context (w : World) (r : ContextRef) : option Context :=
  match r with
  | defaultContext_ref => Some (defaultContext w)
  | thread_context t => h ← pContextHash w; h !! t
  end.

Definition write_context (r : ContextRef) (c : Context) (w : World) : World :=
  match r with
  | defaultContext_ref => set_defaultContext c w
  | thread_context t => set_pContextHash (insert t c <$> pContextHash w) w
  end.

(** ExceptGetContext
<<
#if     MULTI_THREADING
    if (pC == NULL && pContextHash != NULL)
        pC = HashLookup(pContextHash, EXCEPT_THREAD_ID_FUNC());
    return pC;
#else
    return &defaultContext;
#endif
>> *)
Definition ExceptGetContext (cfg : Config) (w : World) (pC : option ContextRef)
    : option ContextRef :=
  if MULTI_THREADING cfg then
    match pC, pContextHash w with
    | None, Some h =>
        match h !! thread_self w with
        | Some _ => Some (thread_context (thread_self w))
        | None => None
        end
    | _, _ => pC
    end
  else Some defaultContext_ref.

(** [if (pC == NULL) pC = ExceptGetContext(NULL);] *)
Definition resolve_pC (cfg : Config) (w : World) (pC : option ContextRef) : option ContextRef :=
  match pC with
  | None => ExceptGetContext cfg w None
  | Some _ => pC
  end.

(** [pC->pEx] followed to the handle it points to (the address and what
    is stored there); [None] when a pointer on the way is NULL or dangling. *)
Definition deref_pEx (w : World) (r : ContextRef) : option (nat * Except) :=
  ctx ← read_context w r; top ← pEx ctx; ex ← handles w !! top; Some (top, ex).

(** ** The dispatch engine ("Except.c") *)

(** ExceptGetScope
<<
    if (pC == NULL)
        pC = ExceptGetContext(NULL);
    if (pC == NULL || pC->pEx == NULL)
        scope = OUTSIDE;
    else
        scope = ((Except * )LifoPeek(pC->exStack, 1))->scope;
>> *)
Definition ExceptGetScope (cfg : Config) (w : World) (pC : option ContextRef) : option Scope :=
  match resolve_pC cfg w pC with
  | None => Some OUTSIDE
  | Some r =>
      ctx ← read_context w r;
      match pEx ctx with
      | None => Some OUTSIDE
      | Some _ =>
          stack ← exStack ctx; top ← LifoPeek stack 1; ex ← handles w !! top;
          Some (e_scope ex)
      end
  end.

(** [((ClassRef)pExceptOrClass)->notRethrown]: the first member of a class
    record and of an exception handle alike. *)
Definition read_notRethrown (w : World) (p : ExceptOrClass) : option Z :=
  match p with
  | ClassPtr c => c_notRethrown <$> classes w !! c
  | ExceptPtr e => e_notRethrown <$> handles w !! e
  end.

(** [((ClassRef)pExceptOrClass)->name]: defined for a class record only. *)
Definition read_name (w : World) (p : ExceptOrClass) : option string :=
  match p with
  | ClassPtr c => c_name <$> classes w !! c
  | ExceptPtr _ => None
  end.

(** The text of ["%s lost: file \"%s\", line %d.\n"]. *)
Definition lost_message (name file : string) (line : Z) : string :=
  name ++ " lost: file " ++ dquote ++ file ++ dquote ++ ", line " ++ fmt_d line
       ++ "." ++ newline.

Definition throw_lost (w : World) (p : ExceptOrClass) (file : option string) (line : Z)
    : World * Outcome unit :=
  match read_name w p, file with
  | Some name, Some f => (fprintf_stderr (lost_message name f line) w, Return ())
  | _, _ => (w, Fault)
  end.

(** The assignments of a normal throw: class, data, file, line and the
    three method pointers. *)
Definition throw_store (p : ExceptOrClass) (pData : VoidPtr) (file : option string)
    (line : Z) (ex : Except) : option Except :=
  match p with
  | ClassPtr c =>
      Some (set_methods (set_line line (set_file file (set_pData pData
              (set_class (Some c) ex)))))
  | ExceptPtr _ => None
  end.

(** [switch (pC->pEx->scope)]: no case for OUTSIDE and INTERNAL. *)
Definition throw_dispatch (ex : Except) : Outcome unit :=
  match e_scope ex with
  | TRY => LongJmp (e_throwBuf ex)
  | CATCH => LongJmp (e_finalBuf ex)
  | FINALLY => LongJmp (e_finalBuf ex)
  | OUTSIDE | INTERNAL => Return ()
  end.

(** ExceptThrow
<<
    if (pC == NULL)
        pC = ExceptGetContext(NULL);
    if (pC == NULL || pC->exStack == NULL || LifoCount(pC->exStack) == 0)
    {
        fprintf(stderr, "%s lost: file \"%s\", line %d.\n",
                ((ClassRef)pExceptOrClass)->name, file, line);
        return;
    }
    if (((ClassRef)pExceptOrClass)->notRethrown)
    {   pC->pEx->class = (ClassRef)pExceptOrClass;  pC->pEx->pData = pData;
        pC->pEx->file  = file;                      pC->pEx->line  = line;
        pC->pEx->getMessage = ...; pC->pEx->getData = ...; pC->pEx->printTryTrace = ...;
    }
    pC->pEx->state = PENDING;
    switch (pC->pEx->scope) { case TRY: LONGJMP(pC->pEx->throwBuf, 1);
      case CATCH: LONGJMP(pC->pEx->finalBuf, 1); case FINALLY: LONGJMP(pC->pEx->finalBuf, 1); }
>> *)
Definition ExceptThrow (cfg : Config) (w : World) (pC : option ContextRef)
    (pExceptOrClass : ExceptOrClass) (pData : VoidPtr) (file : option string) (line : Z)
    : World * Outcome unit :=
  match resolve_pC cfg w pC with
  | None => throw_lost w pExceptOrClass file line
  | Some r =>
      match read_context w r with
      | None => (w, Fault)
      | Some ctx =>
          match exStack ctx with
          | None => throw_lost w pExceptOrClass file line
          | Some stack =>
              if decide (LifoCount stack = 0) then throw_lost w pExceptOrClass file line
              else
                match read_notRethrown w pExceptOrClass, deref_pEx w r with
                | Some nr, Some (top, ex) =>
                    match (if decide (nr = 0) then Some ex
                           else throw_store pExceptOrClass pData file line ex) with
                    | Some ex' =>
                        (set_handles (<[top := set_state PENDING ex']> (handles w)) w,
                         throw_dispatch ex')
                    | None => (w, Fault)
                    end
                | _, _ => (w, Fault)
                end
          end
      end
  end.

(** ExceptCatch
<<
    if (pC == NULL)
        pC = ExceptGetContext(NULL);
    if (pC->pEx->state == PENDING && ExceptIsDerived(pC->pEx->class, class))
        pC->pEx->state = CAUGHT;
    return pC->pEx->state == CAUGHT;
>> *)
Definition ExceptCatch (cfg : Config) (w : World) (pC : option ContextRef) (class : ClassRef)
    : World * Outcome bool :=
  match r ← resolve_pC cfg w pC; deref_pEx w r with
  | None => (w, Fault)
  | Some (top, ex) =>
      if decide (e_state ex = PENDING) then
        match c ← e_class ex; ExceptIsDerived (classes w) c class with
        | None => (w, Fault)
        | Some true =>
            (set_handles (<[top := set_state CAUGHT ex]> (handles w)) w, Return true)
        | Some false => (w, Return false)
        end
      else (w, Return (bool_decide (e_state ex = CAUGHT)))
  end.

(** AssertAction ("Assert.c")
<<
    Scope       scope = ExceptGetScope(pC);
    if (scope == TRY || scope == CATCH || scope == FINALLY)
    {
        if (pC == NULL)
            pC = ExceptGetContext(NULL);
        ExceptThrow(pC, FailedAssertion, expr, file, line);
    }
    else
    {
        fprintf(stderr, "Assertion failed %s: %s, file \"%s\", line %d.\n",
                doAbort ? EMPTY_STRING : "(no abort)", expr, file, line);
        if (doAbort)
            abort();
    }
>> *)
Definition assertion_message (doAbort : bool) (expr file : string) (line : Z) : string :=
  "Assertion failed " ++ (if doAbort then EmptyString else "(no abort)") ++ ": " ++ expr
    ++ ", file " ++ dquote ++ file ++ dquote ++ ", line " ++ fmt_d line ++ "." ++ newline.

Definition AssertAction (cfg : Config) (w : World) (pC : option ContextRef) (doAbort : bool)
    (expr : VoidPtr) (file : option string) (line : Z) : World * Outcome unit :=
  match ExceptGetScope cfg w pC with
  | None => (w, Fault)
  | Some scope =>
      if decide (scope = TRY ∨ scope = CATCH ∨ scope = FINALLY) then
        ExceptThrow cfg w (resolve_pC cfg w pC) (ClassPtr FailedAssertion) expr file line
      else
        match expr, file with
        | StrPtr e, Some f =>
            (fprintf_stderr (assertion_message doAbort e f line) w,
             if doAbort then Abort else Return ())
        | _, _ => (w, Fault)
        end
  end.

(** *** The signal bridge *)

Definition set_shared_handlers (abrt fpe ill segv bus : Handler) (w : World) : World :=
  let 'mkWorld a b c d f _ _ _ _ _ l m n := w in mkWorld a b c d f abrt fpe ill segv bus l m n.
Definition set_context_handlers (abrt fpe ill segv bus : Handler) (c : Context) : Context :=
  let 'mkContext a b _ _ _ _ _ := c in mkContext a b abrt fpe ill segv bus.

(** The four or five [signal(SIG..., handler)] calls of an install or a
    restore; the fifth stands under [#ifdef SIGBUS]. The result holds the
    handlers that were replaced; for SIGBUS not defined, [keep_bus]. *)
Definition signal_traps (cfg : Config) (abrt fpe ill segv bus keep_bus : Handler) (w : World)
    : (Handler * Handler * Handler * Handler * Handler) * World :=
  let '(old_abrt, w) := signal (SIGABRT cfg) abrt w in
  let '(old_fpe, w) := signal (SIGFPE cfg) fpe w in
  let '(old_ill, w) := signal (SIGILL cfg) ill w in
  let '(old_segv, w) := signal (SIGSEGV cfg) segv w in
  match SIGBUS cfg with
  | Some sigbus =>
      let '(old_bus, w) := signal sigbus bus w in
      ((old_abrt, old_fpe, old_ill, old_segv, old_bus), w)
  | None => ((old_abrt, old_fpe, old_ill, old_segv, keep_bus), w)
  end.

(** ExceptInstallHandlers
<<
    if (pC->exStack == NULL)
    {
        pC->exStack = LifoCreate();
        if (MULTI_THREADING && SHARE_HANDLERS && numThreadsTry++ == 0)
        {   sharedSigAbrtHandler = signal(SIGABRT, ExceptThrowSignal); ...  stored = 1; }
        else if (!MULTI_THREADING || !SHARE_HANDLERS)
        {   pC->sigAbrtHandler = signal(SIGABRT, ExceptThrowSignal); ...    stored = 1; }
    }
    return stored;
>> *)
Definition ExceptInstallHandlers (cfg : Config) (w : World) (r : ContextRef)
    : option (World * bool) :=
  ctx ← read_context w r;
  match exStack ctx with
  | Some _ => Some (w, false)
  | None =>
      let ctx := set_exStack (Some []) ctx in
      let h := ExceptThrowSignal_handler in
      if MULTI_THREADING cfg && SHARE_HANDLERS cfg then
        let n := numThreadsTry w in
        let w := set_numThreadsTry (n + 1) (write_context r ctx w) in
        if decide (n = 0) then
          let '((a, f, i, s, b), w) := signal_traps cfg h h h h h (sharedSigBusHandler w) w in
          Some (set_shared_handlers a f i s b w, true)
        else Some (w, false)
      else
        let '((a, f, i, s, b), w) := signal_traps cfg h h h h h (sigBusHandler ctx) w in
        Some (write_context r (set_context_handlers a f i s b ctx) w, true)
  end.

(** ExceptRestoreHandlers
<<
    if (MULTI_THREADING && SHARE_HANDLERS && --numThreadsTry == 0)
    {   signal(SIGABRT, sharedSigAbrtHandler); ...   restored = 1; }
    else if (!MULTI_THREADING || !SHARE_HANDLERS)
    {   signal(SIGABRT, pC->sigAbrtHandler); ...     restored = 1; }
    return restored;
>> *)
Definition ExceptRestoreHandlers (cfg : Config) (w : World) (r : ContextRef)
    : option (World * bool) :=
  if MULTI_THREADING cfg && SHARE_HANDLERS cfg then
    let n := numThreadsTry w - 1 in
    let w := set_numThreadsTry n w in
    if decide (n = 0) then
      Some ((signal_traps cfg (sharedSigAbrtHandler w) (sharedSigFpeHandler w)
               (sharedSigIllHandler w) (sharedSigSegvHandler w) (sharedSigBusHandler w)
               SIG_DFL w).2, true)
    else Some (w, false)
  else
    ctx ← read_context w r;
    Some ((signal_traps cfg (sigAbrtHandler ctx) (sigFpeHandler ctx) (sigIllHandler ctx)
             (sigSegvHandler ctx) (sigBusHandler ctx) SIG_DFL w).2, true).

(** ExceptThrowSignal
<<
    switch (number)
    {
    case SIGABRT: class = AbnormalTermination; break;
    case SIGFPE:  class = ArithmeticException; break;
    case SIGILL:  class = IllegalInstruction;  break;
    case SIGSEGV: class = SegmentationFault;   break;
#ifdef  SIGBUS
    case SIGBUS:  class = BusError;            break;
#endif
    }
    signal(number, ExceptThrowSignal);
    class->signalNumber = number;
    ExceptThrow(NULL, class, NULL, "?", 0);
>>
    For any other number [class] is not initialised. *)
Definition signal_class (cfg : Config) (number : Z) : option ClassRef :=
  if decide (number = SIGABRT cfg) then Some AbnormalTermination
  else if decide (number = SIGFPE cfg) then Some ArithmeticException
  else if decide (number = SIGILL cfg) then Some IllegalInstruction
  else if decide (number = SIGSEGV cfg) then Some SegmentationFault
  else if decide (Some number = SIGBUS cfg) then Some BusError
  else None.

Definition set_signalNumber (v : Z) (c : Class) : Class :=
  let 'mkClass a b d _ := c in mkClass a b d v.

Definition ExceptThrowSignal (cfg : Config) (w : World) (number : Z) : World * Outcome unit :=
  match signal_class cfg number with
  | None => (w, Fault)
  | Some class =>
      let w := (signal number ExceptThrowSignal_handler w).2 in
      match classes w !! class with
      | None => (w, Fault)
      | Some cl =>
          let w := set_classes (<[class := set_signalNumber number cl]> (classes w)) w in
          ExceptThrow cfg w None (ClassPtr class) NULL (Some "?") 0
      end
  end.

(** *** ExceptTry, ExceptFinally, ExceptReturn *)

(** ExceptCreateContext (multi-threading only): a calloc'ed context is
    added to the hash table under the id of the calling thread. *)
Definition ExceptCreateContext (cfg : Config) (w : World) : World * option ContextRef :=
  if MULTI_THREADING cfg then
    (set_pContextHash (insert (thread_self w) Context_zero <$> pContextHash w) w,
     Some (thread_context (thread_self w)))
  else (w, None).

(** ExceptTry
<<
#if     MULTI_THREADING
    if (pContextHash == NULL)
        pContextHash = HashCreate();
#endif
    if (first = (pC == NULL))
        pC = ExceptGetContext(NULL);
    if (pC == NULL)
        pC = ExceptCreateContext();
    ExceptInstallHandlers(pC);
    LifoPush(pC->exStack, pC->pEx = calloc(sizeof(Except), 1));
    pC->pEx->first = first;
    pC->pEx->tryFile = file;
    pC->pEx->tryLine = line;
>>
    calloc returns an address other than NULL at which no handle lives. *)
Definition ExceptTry (cfg : Config) (w : World) (pC : option ContextRef)
    (file : option string) (line : Z) : World * Outcome unit :=
  let w := if MULTI_THREADING cfg
           then match pContextHash w with
                | None => set_pContextHash (Some ∅) w
                | Some _ => w
                end
           else w in
  let first := bool_decide (pC = None) in
  let pC := resolve_pC cfg w pC in
  let '(w, pC) := match pC with
                  | None => ExceptCreateContext cfg w
                  | Some _ => (w, pC)
                  end in
  match r ← pC; w' ← ExceptInstallHandlers cfg w r; ctx ← read_context w'.1 r;
        stack ← exStack ctx; Some (r, w'.1, ctx, stack) with
  | None => (w, Fault)
  | Some (r, w, ctx, stack) =>
      let new := fresh ({[ 0%nat ]} ∪ dom (handles w)) in
      let ex := set_tryLine line (set_tryFile file (set_first first Except_zero)) in
      (set_handles (<[new := ex]> (handles w))
         (write_context r (set_exStack (Some (LifoPush stack new)) (set_pEx (Some new) ctx)) w),
       Return ())
  end.

(** The two statements that give up the frame stack of a context
<<
    LifoDestroy(pC->exStack);
    if (MULTI_THREADING)
        free(HashRemove(pContextHash, EXCEPT_THREAD_ID_FUNC()));
    else
        pC->exStack = NULL;
>> *)
Definition destroy_context (cfg : Config) (r : ContextRef) (w : World) : World :=
  if MULTI_THREADING cfg then
    set_pContextHash (delete (thread_self w) <$> pContextHash w) w
  else
    match read_context w r with
    | Some ctx => write_context r (set_exStack None ctx) w
    | None => w
    end.

(** [*(JMP_BUF * )ex.pData] *)
Definition deref_JMP_BUF (p : VoidPtr) : option JMP_BUF :=
  match p with
  | JmpBufPtr b => Some b
  | _ => None
  end.

(** The outermost level of ExceptFinally: the default action. *)
Definition finally_outermost (cfg : Config) (w : World) (r : ContextRef) (ex : Except)
    : World * Outcome Z :=
  match ExceptRestoreHandlers cfg w r with
  | None => (w, Fault)
  | Some (w, restored) =>
      let done (w : World) : World * Outcome Z := (destroy_context cfg r w, Return 0) in
      if decide (e_state ex = PENDING) then
        if decide (e_class ex = Some FailedAssertion) then
          AssertAction cfg w (Some r) (DO_ABORT cfg) (e_pData ex) (e_file ex) (e_line ex)
            >>> λ w _, done w
        else
          match c ← e_class ex; d ← ExceptIsDerived (classes w) c RuntimeException;
                cl ← classes w !! c; Some (c, d, cl) with
          | None => (w, Fault)
          | Some (c, derived, cl) =>
              if derived && restored then
                (destroy_context cfg r w, Raise (c_signalNumber cl))
              else if decide (c = ReturnEvent) then
                match deref_JMP_BUF (e_pData ex) with
                | Some b => (destroy_context cfg r w, LongJmp b)
                | None => (destroy_context cfg r w, Fault)
                end
              else
                match e_file ex with
                | Some f => done (fprintf_stderr (lost_message (c_name cl) f (e_line ex)) w)
                | None => (w, Fault)
                end
          end
      else done w
  end.

(** The inner level of ExceptFinally: propagate. *)
Definition finally_inner (cfg : Config) (w : World) (r : ContextRef) (ex : Except)
    : World * Outcome Z :=
  if decide (e_state ex = PENDING) then
    if bool_decide (e_class ex = Some ReturnEvent) && e_first ex then
      match deref_JMP_BUF (e_pData ex) with
      | Some b => (w, LongJmp b)
      | None => (w, Fault)
      end
    else
      match e_class ex with
      | None => (w, Fault)
      | Some c =>
          ExceptThrow cfg w (Some r) (ClassPtr c) (e_pData ex) (e_file ex) (e_line ex)
            >>> λ w _, (w, Return 0)
      end
  else (w, Return 0).

(** ExceptFinally
<<
    if (pC == NULL)
        pC = ExceptGetContext(NULL);
    ex = *(pEx = LifoPop(pC->exStack));
    free(pEx);
    pC->pEx = LifoCount(pC->exStack) ? LifoPeek(pC->exStack, 1) : NULL;
    if (LifoCount(pC->exStack) == 0)
        { /* outermost level - default action */ }
    else
        { /* inner level - propagate */ }
    return 0;
>> *)
Definition ExceptFinally (cfg : Config) (w : World) (pC : option ContextRef)
    : World * Outcome Z :=
  match r ← resolve_pC cfg w pC; ctx ← read_context w r; stack ← exStack ctx;
        Some (r, ctx, LifoPop stack) with
  | Some (r, ctx, (Some popped, stack)) =>
      match handles w !! popped with
      | None => (w, Fault)
      | Some ex =>
          let w := set_handles (delete popped (handles w)) w in
          let top := if decide (LifoCount stack = 0) then None else LifoPeek stack 1 in
          let w := write_context r (set_pEx top (set_exStack (Some stack) ctx)) w in
          if decide (LifoCount stack = 0) then finally_outermost cfg w r ex
          else finally_inner cfg w r ex
      end
  | _ => (w, Fault)
  end.

(** ExceptReturn
<<
    if (pC == NULL)
        pC = ExceptGetContext(NULL);
    pC->pEx->class = ReturnEvent;       /* may overrule pending exception */
    pC->pEx->state = PENDING;           /* in case of return() inside 'catch' */
    LONGJMP(pC->pEx->finalBuf, 1);
>> *)
Definition ExceptReturn (cfg : Config) (w : World) (pC : option ContextRef)
    : World * Outcome unit :=
  match r ← resolve_pC cfg w pC; deref_pEx w r with
  | None => (w, Fault)
  | Some (top, ex) =>
      (set_handles (<[top := set_state PENDING (set_class (Some ReturnEvent) ex)]> (handles w)) w,
       LongJmp (e_finalBuf ex))
  end.

(** ** The debug auditor ("Except.c": ExceptCheckBegin, ExceptCheck) *)

Definition no_catch_message (file : string) (line : Z) : string :=
  "Warning: No catch clause(s): file " ++ dquote ++ file ++ dquote ++ ", line "
    ++ fmt_d line ++ "." ++ newline.

Definition duplicate_message (name file : string) (line previous : Z) : string :=
  "Duplicate catch(" ++ name ++ "): file " ++ dquote ++ file ++ dquote ++ ", line "
    ++ fmt_d line ++ "; already caught at line " ++ fmt_d previous ++ "." ++ newline.

Definition superfluous_message (name file : string) (line : Z) (by_name : string)
    (previous : Z) : string :=
  "Superfluous catch(" ++ name ++ "): file " ++ dquote ++ file ++ dquote ++ ", line "
    ++ fmt_d line ++ "; already caught by " ++ by_name ++ " at line " ++ fmt_d previous
    ++ "." ++ newline.

(** [pC->pEx->checkList = v] *)
Definition store_checkList (w : World) (top : nat) (ex : Except) (v : option (list Check))
    : World :=
  set_handles (<[top := set_checkList v ex]> (handles w)) w.

(** ExceptCheckBegin. [checked] is the value of [*pChecked] at the call; the
    value returned is the value of [*pChecked] at the return as well.
<<
    if (pC->pEx->checkList == NULL && !*pChecked)
        pC->pEx->checkList = ListCreate();
    else
    {
        if (!*pChecked)
        {
            if (ListCount(pC->pEx->checkList) == 0)
                fprintf(stderr, "Warning: No catch clause(s): file \"%s\", line %d.\n",
                        file, line);
            ListDestroyData(pC->pEx->checkList);
            pC->pEx->checkList = NULL;
            *pChecked = 1;
        }
    }
    return *pChecked;
>> *)
Definition ExceptCheckBegin (w : World) (r : ContextRef) (checked : bool)
    (file : option string) (line : Z) : World * Outcome bool :=
  match deref_pEx w r with
  | None => (w, Fault)
  | Some (top, ex) =>
      match e_checkList ex, checked with
      | None, false => (store_checkList w top ex (Some []), Return false)
      | _, true => (w, Return true)
      | Some l, false =>
          if decide (length l = 0%nat) then
            match file with
            | Some f =>
                (store_checkList (fprintf_stderr (no_catch_message f line) w) top ex None,
                 Return true)
            | None => (w, Fault)
            end
          else (store_checkList w top ex None, Return true)
      end
  end.

(** The loop of ExceptCheck over the entries from ListHead on: [Some (Some
    text)] when it breaks with a warning, [Some None] when it comes to the
    end of the list ([pCheck == NULL]).
<<
        while (pCheck != NULL)
        {
            if (class == pCheck->class)
            {   fprintf(stderr, "Duplicate catch(%s): ...", class->name, file, line, pCheck->line);
                break; }
            if (ExceptIsDerived(class, pCheck->class))
            {   fprintf(stderr, "Superfluous catch(%s): ...", class->name, file, line,
                        pCheck->class->name, pCheck->line);
                break; }
            pCheck = ListNext(pC->pEx->checkList);
        }
>> *)
Fixpoint ExceptCheck_loop (classes : gmap nat Class) (class : ClassRef) (file : option string)
    (line : Z) (l : list Check) : option (option string) :=
  match l with
  | [] => Some None
  | pCheck :: l' =>
      if decide (class = k_class pCheck) then
        cl ← classes !! class; f ← file;
        Some (Some (duplicate_message (c_name cl) f line (k_line pCheck)))
      else
        d ← ExceptIsDerived classes class (k_class pCheck);
        if d : bool then
          cl ← classes !! class; f ← file; by_cl ← classes !! k_class pCheck;
          Some (Some (superfluous_message (c_name cl) f line (c_name by_cl) (k_line pCheck)))
        else ExceptCheck_loop classes class file line l'
  end.

(** ExceptCheck
<<
    if (!*pChecked)
    {
        pCheck = ListHead(pC->pEx->checkList);
        while (pCheck != NULL) { ... }
        if (pCheck == NULL)
        {
            pCheck = malloc(sizeof(Check));
            pCheck->class = class;
            pCheck->line  = line;
            ListAddTail(pC->pEx->checkList, pCheck);
        }
    }
    return *pChecked;
>> *)
Definition ExceptCheck (w : World) (r : ContextRef) (checked : bool) (class : ClassRef)
    (file : option string) (line : Z) : World * Outcome bool :=
  if checked then (w, Return true)
  else
    match '(top, ex) ← deref_pEx w r; l ← e_checkList ex;
          found ← ExceptCheck_loop (classes w) class file line l; Some (top, ex, l, found) with
    | None => (w, Fault)
    | Some (top, ex, l, Some text) => (fprintf_stderr text w, Return false)
    | Some (top, ex, l, None) =>
        (store_checkList w top ex (Some (l ++ [mkCheck class line])), Return false)
    end.

(** ** The macros of "Except.h"

    Each macro is given by what its code does with the store between the
    pieces of user code; [pC] is the variable of that name which the macro
    finds in scope (the global one, always NULL, or the local one of an
    enclosing 'try'). *)

(** [pC->pEx-> ... = ...]: an update of the current handle. *)
Definition update_pEx (f : nat → Except → Except) (w : World) (r : ContextRef) : option World :=
  '(top, ex) ← deref_pEx w r;
  Some (set_handles (<[top := f top ex]> (handles w)) w).

(** 'try', from ExceptTry up to the user's block. The loop is gone through
    twice: the first pass arms [finalBuf] and sets [ready], the second arms
    [throwBuf] and enters the block with [scope = TRY]. The result is the
    local [pC].
<<
    ExceptTry(pC, __FILE__, __LINE__);
    while (1)
    {
        Context * pTmpC = ExceptGetContext(pC);
        Context * pC = pTmpC;
        if (CHECK_BEGIN(...) && pC->pEx->ready && SETJMP(pC->pEx->throwBuf) == 0)
        {
            pC->pEx->scope = TRY;
            ...
        if (!pC->pEx->ready && SETJMP(pC->pEx->finalBuf) == 0)
            pC->pEx->ready = 1;
        else
            break;
    }
>> *)
Definition try_macro (cfg : Config) (w : World) (pC : option ContextRef)
    (file : option string) (line : Z) : World * Outcome ContextRef :=
  ExceptTry cfg w pC file line >>> λ w _,
  match r ← ExceptGetContext cfg w pC;
        w' ← update_pEx (λ top ex, set_scope TRY (set_throwBuf (jb_try top)
                           (set_ready 1 (set_finalBuf (jb_finally top) ex)))) w r;
        Some (w', r) with
  | Some (w', r) => (w', Return r)
  | None => (w, Fault)
  end.

(** One 'catch (class, e)' clause, reached after a jump to [throwBuf]: the
    result tells whether the block of the clause is entered.
<<
        else if (CHECK(...) && pC->pEx->ready && ExceptCatch(pC, class))
        {
            Except *e = LifoPeek(pC->exStack, 1);
            pC->pEx->scope = CATCH;
>> *)
Definition catch_macro (cfg : Config) (w : World) (r : ContextRef) (class : ClassRef)
    : World * Outcome bool :=
  match deref_pEx w r with
  | None => (w, Fault)
  | Some (_, ex) =>
      if decide (e_ready ex = 0) then (w, Return false)
      else
        ExceptCatch cfg w (Some r) class >>> λ w caught,
        if caught : bool then
          match update_pEx (λ _, set_scope CATCH) w r with
          | Some w' => (w', Return true)
          | None => (w, Fault)
          end
        else (w, Return false)
  end.

(** 'finally'. The first statement, and the tests of the two loops up to
    the user's block ([Return None]: the block runs now) or up to the return
    of ExceptFinally ([Return (Some v)]). [inner] says at which test the
    control stands: that of the inner loop (after the block) or not.
<<
    ExceptGetContext(pC)->pEx->scope = FINALLY;
    while (ExceptGetContext(pC)->pEx->ready > 0 || ExceptFinally(pC))
        while (ExceptGetContext(pC)->pEx->ready-- > 0)
>> *)
Definition finally_scope (cfg : Config) (w : World) (pC : option ContextRef) : World * Outcome unit :=
  match r ← ExceptGetContext cfg w pC; update_pEx (λ _, set_scope FINALLY) w r with
  | Some w' => (w', Return ())
  | None => (w, Fault)
  end.

(** [ExceptGetContext(pC)->pEx->ready--]: the value before the decrement. *)
Definition ready_decrement (cfg : Config) (w : World) (pC : option ContextRef)
    : World * Outcome Z :=
  match r ← ExceptGetContext cfg w pC; ex ← deref_pEx w r;
        w' ← update_pEx (λ _ ex, set_ready (e_ready ex - 1) ex) w r; Some (w', e_ready ex.2) with
  | Some (w', ready) => (w', Return ready)
  | None => (w, Fault)
  end.

(** The test of the outer loop, and what it leads to. *)
Definition finally_outer_test (cfg : Config) (w : World) (pC : option ContextRef)
    : World * Outcome (option Z) :=
  match r ← ExceptGetContext cfg w pC; deref_pEx w r with
  | None => (w, Fault)
  | Some (_, ex) =>
      if decide (0 < e_ready ex) then
        ready_decrement cfg w pC >>> λ w _, (w, Return None)
      else ExceptFinally cfg w pC >>> λ w v, (w, Return (Some v))
  end.

Definition finally_tests (cfg : Config) (w : World) (pC : option ContextRef) (inner : bool)
    : World * Outcome (option Z) :=
  if inner then
    ready_decrement cfg w pC >>> λ w ready,
    if decide (0 < ready) then (w, Return None) else finally_outer_test cfg w pC
  else finally_outer_test cfg w pC.

(** 'throw (pExceptOrClass, pData)' *)
Definition throw_macro (cfg : Config) (w : World) (pC : option ContextRef)
    (pExceptOrClass : ExceptOrClass) (pData : VoidPtr) (file : option string) (line : Z)
    : World * Outcome unit :=
  ExceptThrow cfg w pC pExceptOrClass pData file line.

(** 'return (x)', up to the native return statement. The buffer that pData
    points to is armed by the SETJMP that follows the assignment; the model
    stores the pointer together with what the buffer then holds.
<<
        if (ExceptGetScope(pC) != OUTSIDE)
        {
            void * pData = malloc(sizeof(JMP_BUF));
            ExceptGetContext(pC)->pEx->pData = pData;
            if (SETJMP( *(JMP_BUF * )pData) == 0)
                ExceptReturn(pC);
>> *)
Definition return_macro (cfg : Config) (w : World) (pC : option ContextRef) (site : nat)
    : World * Outcome unit :=
  match ExceptGetScope cfg w pC with
  | None => (w, Fault)
  | Some OUTSIDE => (w, Return ())
  | Some _ =>
      match r ← ExceptGetContext cfg w pC;
            update_pEx (λ _, set_pData (JmpBufPtr (jb_return site))) w r with
      | Some w' => ExceptReturn cfg w' pC
      | None => (w, Fault)
      end
  end.

(** 'pending' *)
Definition pending (cfg : Config) (w : World) (pC : option ContextRef) : option bool :=
  r ← ExceptGetContext cfg w pC; ex ← deref_pEx w r;
  Some (bool_decide (e_state ex.2 = PENDING)).

(** ** Notions for the properties *)

(** The descriptor of the exception in a handle. *)
Definition descriptor (ex : Except) : option ClassRef * VoidPtr * option string * Z :=
  (e_class ex, e_pData ex, e_file ex, e_line ex).

(** The handle at an address of a store, for looking at a store. *)
Definition handle_at (w : World) (a : nat) : Except :=
  default Except_zero (handles w !! a).

(** The handle that [pC->pEx] points to, for looking at a store. *)
Definition current (cfg : Config) (w : World) : option Except :=
  r ← ExceptGetContext cfg w None; ex ← deref_pEx w r; Some ex.2.


(** The trap signals of the platform, each with its class. *)
Definition traps (cfg : Config) : list (Z * ClassRef) :=
  [ (SIGABRT cfg, AbnormalTermination); (SIGFPE cfg, ArithmeticException);
    (SIGILL cfg, IllegalInstruction); (SIGSEGV cfg, SegmentationFault) ]
  ++ match SIGBUS cfg with
     | Some sigbus => [ (sigbus, BusError) ]
     | None => []
     end.




(** Two stores that differ at most in the signal dispositions and in the
    count of threads inside a 'try'. *)
Definition same_memory (w w' : World) : Prop :=
  classes w' = classes w ∧ handles w' = handles w ∧
  defaultContext w' = defaultContext w ∧ pContextHash w' = pContextHash w ∧
  stderr w' = stderr w ∧ thread_self w' = thread_self w.

(** The 'finally' of a statement whose 'finally' block is empty, entered by
    a jump to [finalBuf] out of a 'catch' block: the scope is set, the tests
    of the loops lead into the block and out of it, up to ExceptFinally. *)
Definition finally_macro_empty (cfg : Config) (w : World) (pC : option ContextRef)
    : World * Outcome (option Z) :=
  finally_scope cfg w pC >>> λ w _,
  finally_tests cfg w pC false >>> λ w _,
  finally_tests cfg w pC true.

(** ** The audit pass *)

(** The audit pass of the 'try' macro (DEBUG defined) over the 'catch'
    clauses of the statement, each given by its class and line: the first
    pass through the loop calls ExceptCheckBegin and then ExceptCheck for each
    clause in turn; the second pass calls ExceptCheckBegin again. *)
Fixpoint audit_clauses (w : World) (r : ContextRef) (clauses : list (ClassRef * Z))
    (file : option string) : World * Outcome bool :=
  match clauses with
  | [] => (w, Return false)
  | (class, line) :: rest =>
      ExceptCheck w r false class file line >>> λ w _, audit_clauses w r rest file
  end.

Definition audit_pass (w : World) (r : ContextRef) (clauses : list (ClassRef * Z))
    (file : option string) (line : Z) : World * Outcome bool :=
  ExceptCheckBegin w r false file line >>> λ w _,
  audit_clauses w r clauses file >>> λ w checked,
  ExceptCheckBegin w r checked file line.

(** The check lists that the auditor builds: the empty list that
    ExceptCheckBegin creates, and a list to which ExceptCheck has added a
    clause at the tail, its loop having come to the end of the list. *)
Inductive audited (classes : gmap nat Class) : list Check → Prop :=
  | audited_nil : audited classes []
  | audited_tail l class file line :
      audited classes l →
      ExceptCheck_loop classes class file line l = Some None →
      audited classes (l ++ [mkCheck class line]).

(** The same lists, seen from the head: no entry repeats the class of an
    entry before it or has a class derived from one. *)
Fixpoint clean (classes : gmap nat Class) (l : list Check) : Prop :=
  match l with
  | [] => True
  | k0 :: l' =>
      (∀ k, k ∈ l' → k_class k ≠ k_class k0 ∧
                      ExceptIsDerived classes (k_class k) (k_class k0) = Some false) ∧
      clean classes l'
  end.

(** ** The frame state machine

    The operations of a flow of control, as the macros and the signal
    delivery make them, and the stores that a program can reach with them. *)

(** A [pC] at hand in the program: the global one, which is NULL, or the
    local one of an enclosing 'try', which points to the context of the flow
    ("a local <pC> that already points to the current context"). *)
Definition valid_pC (cfg : Config) (w : World) (pC : option ContextRef) : Prop :=
  pC = None ∨ (is_Some pC ∧ pC = ExceptGetContext cfg w None).

Inductive Op :=
  | op_try (pC : option ContextRef) (file : option string) (line : Z)
  | op_throw (pC : option ContextRef) (p : ExceptOrClass) (pData : VoidPtr)
      (file : option string) (line : Z)
  | op_catch (r : ContextRef) (class : ClassRef) (taken : bool)
  | op_finally_scope (pC : option ContextRef)
  | op_finally_tests (pC : option ContextRef) (inner : bool)
  | op_return (pC : option ContextRef) (site : nat)
  | op_signal (number : Z)
  | op_assert (pC : option ContextRef) (expr : VoidPtr) (file : option string) (line : Z)
  | op_check_begin (r : ContextRef) (checked : bool) (file : option string) (line : Z)
  | op_check (r : ContextRef) (checked : bool) (class : ClassRef) (file : option string)
      (line : Z).

(** [step cfg w op w']: the operation [op], done in the store [w], leaves
    the store [w'] (and does not fault). *)
Inductive step (cfg : Config) (w : World) : Op → World → Prop :=
  | step_try pC file line w' r :
      valid_pC cfg w pC →
      try_macro cfg w pC file line = (w', Return r) →
      step cfg w (op_try pC file line) w'
  | step_throw pC p pData file line w' o :
      valid_pC cfg w pC →
      throw_macro cfg w pC p pData file line = (w', o) → o ≠ Fault →
      step cfg w (op_throw pC p pData file line) w'
  | step_catch r class w' taken :
      Some r = ExceptGetContext cfg w None →
      catch_macro cfg w r class = (w', Return taken) →
      step cfg w (op_catch r class taken) w'
  | step_finally_scope pC w' o :
      valid_pC cfg w pC →
      finally_scope cfg w pC = (w', o) → o ≠ Fault →
      step cfg w (op_finally_scope pC) w'
  | step_finally_tests pC inner w' o :
      valid_pC cfg w pC →
      finally_tests cfg w pC inner = (w', o) → o ≠ Fault →
      step cfg w (op_finally_tests pC inner) w'
  | step_return pC site w' o :
      valid_pC cfg w pC →
      return_macro cfg w pC site = (w', o) → o ≠ Fault →
      step cfg w (op_return pC site) w'
  | step_signal number w' o :
      ExceptThrowSignal cfg w number = (w', o) → o ≠ Fault →
      step cfg w (op_signal number) w'
  | step_assert pC expr file line w' o :
      valid_pC cfg w pC →
      AssertAction cfg w pC (DO_ABORT cfg) expr file line = (w', o) → o ≠ Fault →
      step cfg w (op_assert pC expr file line) w'
  | step_check_begin r checked file line w' o :
      Some r = ExceptGetContext cfg w None →
      ExceptCheckBegin w r checked file line = (w', o) → o ≠ Fault →
      step cfg w (op_check_begin r checked file line) w'
  | step_check r checked class file line w' o :
      Some r = ExceptGetContext cfg w None →
      ExceptCheck w r checked class file line = (w', o) → o ≠ Fault →
      step cfg w (op_check r checked class file line) w'.

(** The store at program start: no handle, the static objects zeroed. *)
Definition initial (w : World) : Prop :=
  handles w = ∅ ∧ defaultContext w = Context_zero ∧ pContextHash w = None ∧
  numThreadsTry w = 0.

Inductive reachable (cfg : Config) : World → Prop :=
  | reachable_initial w : initial w → reachable cfg w
  | reachable_step w op w' : reachable cfg w → step cfg w op w' → reachable cfg w'.


(** How an operation other than 'try' and a taken 'catch' changes a handle:
    the first member stays, the scope does not become TRY, the state does
    not become CAUGHT or EMPTY, PENDING stays PENDING, and unless the
    operation throws the state stays what it is. *)
Definition evolves (thrown : bool) (ex ex' : Except) : Prop :=
  e_notRethrown ex' = e_notRethrown ex ∧
  (e_scope ex' = TRY → e_scope ex = TRY) ∧
  (e_state ex' = CAUGHT → e_state ex = CAUGHT) ∧
  (e_state ex' = EMPTY → e_state ex = EMPTY) ∧
  (e_state ex = PENDING → e_state ex' = PENDING) ∧
  (thrown = false → e_state ex' = e_state ex).

(** ... and the same for all handles of a store: none is created, each
    that is still there has evolved. *)
Definition quiet (thrown : bool) (h h' : gmap nat Except) : Prop :=
  ∀ a ex', h' !! a = Some ex' → ∃ ex, h !! a = Some ex ∧ evolves thrown ex ex'.

(** ** Concrete stores: the test program on a single-threaded Linux build *)

Definition linux_single : Config :=
  {| MULTI_THREADING := false; SHARE_HANDLERS := false; DO_ABORT := false;
     SIGABRT := 6; SIGFPE := 8; SIGILL := 4; SIGSEGV := 11; SIGBUS := Some 7 |}.

Definition linux_shared : Config :=
  {| MULTI_THREADING := true; SHARE_HANDLERS := true; DO_ABORT := false;
     SIGABRT := 6; SIGFPE := 8; SIGILL := 4; SIGSEGV := 11; SIGBUS := Some 7 |}.

(** The store at program start. *)
Definition start (cls : gmap nat Class) : World :=
  {| classes := cls; handles := ∅; defaultContext := Context_zero; pContextHash := None;
     numThreadsTry := 0; sharedSigAbrtHandler := SIG_DFL; sharedSigFpeHandler := SIG_DFL;
     sharedSigIllHandler := SIG_DFL; sharedSigSegvHandler := SIG_DFL;
     sharedSigBusHandler := SIG_DFL; dispositions := ∅; stderr := []; thread_self := 1 |}.

(** "Test.c", the rethrow test:
<<
    try
        try
        {
            throw (Exception, "Hello");
        }
        catch (Exception, e)
            throw (e, "there!");
        finally;
    catch (Exception, e)
        printf("%s\n", e->getData());
    finally;
>>
    The stores after: the outer 'try'; the inner 'try'; the throw; the inner
    'catch' taken; the rethrow; the inner 'finally' block; ExceptFinally of the
    inner level. *)
Definition rethrow_outer_try : World :=
  (try_macro linux_single (start test_classes) None (Some "Test.c") 570).1.
Definition rethrow_inner_try : World :=
  (try_macro linux_single rethrow_outer_try (Some defaultContext_ref) (Some "Test.c") 571).1.
Definition rethrow_thrown : World :=
  (throw_macro linux_single rethrow_inner_try (Some defaultContext_ref) (ClassPtr Exception)
     (StrPtr "Hello") (Some "Test.c") 574).1.
Definition rethrow_caught : World :=
  (catch_macro linux_single rethrow_thrown defaultContext_ref Exception).1.
Definition rethrow_rethrown : World :=
  (throw_macro linux_single rethrow_caught (Some defaultContext_ref) (ExceptPtr 2)
     (StrPtr "there!") (Some "Test.c") 577).1.
Definition rethrow_inner_finally : World :=
  (finally_tests linux_single
     (finally_scope linux_single rethrow_rethrown (Some defaultContext_ref)).1
     (Some defaultContext_ref) false).1.
Definition rethrow_propagated : World :=
  (finally_tests linux_single rethrow_inner_finally (Some defaultContext_ref) true).1.

(** The handle of the inner 'try' of the rethrow test after the throw. *)
Definition rethrow_thrown_handle : Except :=
  default Except_zero (current linux_single rethrow_thrown).

(** "Test.c": an exception that no clause of the only 'try' catches.
<<
    try
    {
        throw (Level1Exception, NULL);
    }
    catch (Level2Exception, e);
    finally;
>>
    The store after the throw; a signal, a failed assertion or a 'return' in
    the 'try' block instead of the throw give the three stores after it. *)
Definition single_try : World :=
  (try_macro linux_single (start test_classes) None (Some "Test.c") 80).1.
Definition uncaught_thrown : World :=
  (throw_macro linux_single single_try (Some defaultContext_ref) (ClassPtr Level1Exception)
     NULL (Some "Test.c") 82).1.
Definition uncaught_signal : World :=
  (ExceptThrowSignal linux_single single_try 6).1.
Definition uncaught_assertion : World :=
  (AssertAction linux_single single_try (Some defaultContext_ref) false (StrPtr "0")
     (Some "Test.c") 133).1.
Definition uncaught_return : World :=
  (return_macro linux_single single_try (Some defaultContext_ref) 7).1.

(** The audit of the 'try' at line 80 of the test, begun, and with one
    clause, [catch (RuntimeException, e)] at line 85, recorded. *)
Definition audit_begun : World :=
  (ExceptCheckBegin single_try defaultContext_ref false (Some "Test.c") 80).1.
Definition audit_one : World :=
  (ExceptCheck audit_begun defaultContext_ref false RuntimeException (Some "Test.c") 85).1.

(** A 'try' with the clauses [catch (Exception, e)] at line 10 and
    [catch (RuntimeException, e)] at line 12, after the audit of both. *)
Definition audit_two : World :=
  (audit_clauses (ExceptCheckBegin single_try defaultContext_ref false (Some "Test.c") 8).1
     defaultContext_ref [(Exception, 10); (RuntimeException, 12)] (Some "Test.c")).1.

(** ** Statements of the specification, word for word

    Some sentences of the specification are at odds with the code; they are
    written down here as they stand, to be compared with the routines. *)

(** Frame stack table, row catch_match: "if PENDING and is_derived(top.exn_class,
    class): state→CAUGHT, return true; else return false", for a top frame
    whose state is PENDING or CAUGHT. *)
Definition catch_match_as_specified : Prop :=
  ∀ (cfg : Config) (w : World) (r : ContextRef) (top : nat) (ex : Except)
    (class c : ClassRef) (derived : bool),
    deref_pEx w r = Some (top, ex) →
    e_state ex = PENDING ∨ e_state ex = CAUGHT →
    e_class ex = Some c →
    ExceptIsDerived (classes w) c class = Some derived →
    ExceptCatch cfg w (Some r) class =
      if bool_decide (e_state ex = PENDING) && derived
      then (set_handles (<[top := set_state CAUGHT ex]> (handles w)) w, Return true)
      else (w, Return false).

(** Testable property 5, rethrow: "throw(e, data2) inside catch preserves
    the original class and file/line of the first throw, but replaces data
    with data2". What a frame holds as its pending exception is what its
    'finally' hands to the enclosing handler, so the sentence is read on the
    frame right after the throw. *)
Definition rethrow_as_specified : Prop :=
  ∀ (cfg : Config) (w w' : World) (pC : option ContextRef) (r : ContextRef) (top : nat)
    (ex : Except) (data2 : VoidPtr) (file2 : option string) (line2 : Z)
    (o : Outcome unit),
    resolve_pC cfg w pC = Some r →
    deref_pEx w r = Some (top, ex) →
    e_scope ex = CATCH →
    e_state ex = CAUGHT →
    ExceptThrow cfg w pC (ExceptPtr top) data2 file2 line2 = (w', o) →
    ∃ ex', deref_pEx w' r = Some (top, ex') ∧
           e_class ex' = e_class ex ∧ e_file ex' = e_file ex ∧ e_line ex' = e_line ex ∧
           e_pData ex' = data2.


(** The debug auditor, read on the 'catch' clauses of the statement: "if its
    class equals the class of an earlier clause of the same try, a duplicate
    warning naming both line numbers is emitted; otherwise, if its class is
    derived from the class of an earlier clause, a superfluous warning is
    emitted; otherwise the (class, line) pair is appended to the clause
    list". [earlier] are the clauses of the 'try' before the new one, which
    the audit pass has gone through. *)
Definition audit_as_specified : Prop :=
  ∀ (w w1 : World) (r : ContextRef) (top : nat) (ex : Except) (l : list Check)
    (earlier : list (ClassRef * Z)) (class : ClassRef) (cl : Class) (file : string)
    (line try_line : Z) (b : bool),
    audit_clauses (ExceptCheckBegin w r false (Some file) try_line).1 r earlier (Some file)
    = (w1, Return b) →
    classes w1 !! class = Some cl →
    deref_pEx w1 r = Some (top, ex) →
    e_checkList ex = Some l →
    let result := ExceptCheck w1 r false class (Some file) line in
    let is_duplicate := ∃ previous, (class, previous) ∈ earlier in
    let is_derived := ∃ c previous, (c, previous) ∈ earlier ∧
                                    ExceptIsDerived (classes w1) class c = Some true in
    (is_duplicate →
     ∃ previous, (class, previous) ∈ earlier ∧
       result = (fprintf_stderr (duplicate_message (c_name cl) file line previous) w1,
                 Return false)) ∧
    (¬ is_duplicate → is_derived →
     ∃ c previous by_cl, (c, previous) ∈ earlier ∧ classes w1 !! c = Some by_cl ∧
       result = (fprintf_stderr
                   (superfluous_message (c_name cl) file line (c_name by_cl) previous) w1,
                 Return false)) ∧
    (¬ is_duplicate → ¬ is_derived →
     result = (store_checkList w1 top ex (Some (l ++ [mkCheck class line])), Return false)).

(** The handler in place for a signal. *)
Definition handler_of (w : World) (sig : Z) : Handler :=
  default SIG_DFL (dispositions w !! sig).

(** The handler that a call of [signal_traps] leaves in place for [sig]. *)
Definition trapped (cfg : Config) (abrt fpe ill segv bus : Handler) (w : World) (sig : Z)
    : Handler :=
  if decide (Some sig = SIGBUS cfg) then bus
  else if decide (sig = SIGSEGV cfg) then segv
  else if decide (sig = SIGILL cfg) then ill
  else if decide (sig = SIGFPE cfg) then fpe
  else if decide (sig = SIGABRT cfg) then abrt
  else handler_of w sig.

(** A thread of a multi-threaded build, with its context just created. *)
Definition thread_started : World :=
  (ExceptCreateContext linux_shared (set_pContextHash (Some ∅) (start test_classes))).1.

(** The frame stack of a context, top first; empty when there is none. *)
Definition stack_of (c : Context) : list nat := default [] (exStack c).

(** The frames of the flow are in order: [pEx] points to the top of the
    frame stack (it is NULL when the stack is empty or not there), no handle
    is on the stack twice, and the handles that are allocated are exactly
    those on the stack. Without a context there is no handle. *)
Definition frames_ok (cfg : Config) (w : World) : Prop :=
  match ExceptGetContext cfg w None with
  | Some r =>
      ∃ c, read_context w r = Some c ∧ pEx c = head (stack_of c) ∧ NoDup (stack_of c) ∧
           dom (handles w) = list_to_set (stack_of c)
  | None => handles w = ∅
  end.

(** Two stores with the same contexts and the same handles allocated, each
    with its [getClass] member as it was. *)
Definition same_frames (w w' : World) : Prop :=
  defaultContext w' = defaultContext w ∧ pContextHash w' = pContextHash w ∧
  thread_self w' = thread_self w ∧
  ∀ a, e_getClass <$> handles w' !! a = e_getClass <$> handles w !! a.

(** No handle of the store has its [getClass] member set. *)
Definition getClass_unset (w : World) : Prop :=
  ∀ a ex, handles w !! a = Some ex → e_getClass ex = false.

(** From [w] to [w'] no handle has come, and none has its [getClass] member
    changed. *)
Definition getClass_kept (w w' : World) : Prop :=
  ∀ a ex', handles w' !! a = Some ex' →
           ∃ ex, handles w !! a = Some ex ∧ e_getClass ex' = e_getClass ex.

(** A function that is called in the 'try' block of the rethrow test's
    outer 'try' and has a 'try' statement of its own: the store in the 'try'
    block of that statement. *)
Definition called_try : World :=
  (try_macro linux_single rethrow_outer_try None (Some "Test.c") 262).1.

(** The store in the middle of an audit pass: the check list of the frame
    at [top] is [l], and [msgs] have been written to stderr. *)
Definition auditing (w : World) (top : nat) (ex : Except) (l : list Check)
    (msgs : list string) : World :=
  set_stderr (stderr w ++ msgs)
    (set_handles (<[top := set_checkList (Some l) ex]> (handles w)) w).

(** ** The methods of an exception handle ("Except.c")

    ExceptThrow stores the addresses of ExceptGetMessage, ExceptGetData and
    ExceptPrintTryTrace in the handle; the user calls them through the handle
    [e] of a 'catch' clause. *)

(** The text of ["%s: file \"%s\", line %d."]. *)
Definition message_text (name file : string) (line : Z) : string :=
  name ++ ": file " ++ dquote ++ file ++ dquote ++ ", line " ++ fmt_d line ++ ".".

(** ExceptGetMessage
<<
    Context *   pC = ExceptGetContext(NULL);
    sprintf(pC->message, "%s: file \"%s\", line %d.",
            pC->pEx->class->name, pC->pEx->file, pC->pEx->line);
    return pC->message;
>>
    The result is the text that [pC->message] holds at the return; the
    member is declared [char message[1024]], so that a longer text overruns
    it. *)
Definition ExceptGetMessage (cfg : Config) (w : World) : Outcome string :=
  match r ← ExceptGetContext cfg w None; ex ← deref_pEx w r; c ← e_class ex.2;
        cl ← classes w !! c; f ← e_file ex.2;
        Some (message_text (c_name cl) f (e_line ex.2)) with
  | Some text => if decide (String.length text < 1024)%nat then Return text else Fault
  | None => Fault
  end.

(** ExceptGetClass: [return pC->pEx->class;] with [pC = ExceptGetContext(NULL)]. *)
Definition ExceptGetClass (cfg : Config) (w : World) : Outcome (option ClassRef) :=
  match r ← ExceptGetContext cfg w None; deref_pEx w r with
  | Some (_, ex) => Return (e_class ex)
  | None => Fault
  end.

(** ExceptGetData: [return pC->pEx->pData;] with [pC = ExceptGetContext(NULL)]. *)
Definition ExceptGetData (cfg : Config) (w : World) : Outcome VoidPtr :=
  match r ← ExceptGetContext cfg w None; deref_pEx w r with
  | Some (_, ex) => Return (e_pData ex)
  | None => Fault
  end.

(** A [FILE *] argument: NULL, stderr, or a stream that the store does not
    keep. *)
Inductive FilePtr := file_NULL | file_stderr | file_other (id : nat).

(** The texts of ["%s occurred in thread %d:\n"] or ["%s occurred:\n"], and of
    ["        in 'try' at %s:%d\n"]. *)
Definition trace_header (cfg : Config) (w : World) (name : string) : string :=
  if MULTI_THREADING cfg
  then name ++ " occurred in thread " ++ fmt_d (thread_self w) ++ ":" ++ newline
  else name ++ " occurred:" ++ newline.

Definition trace_line (file : string) (line : Z) : string :=
  "        in 'try' at " ++ file ++ ":" ++ fmt_d line ++ newline.

(** The loop of ExceptPrintTryTrace, from [n] on, with [todo] rounds to go
<<
    for (n = 1; n <= LifoCount(pC->exStack); n++)
    {
        Except *    pEx = LifoPeek(pC->exStack, n);
        fprintf(pFile, "        in 'try' at %s:%d\n", pEx->tryFile, pEx->tryLine);
    }
>> *)
Fixpoint ExceptPrintTryTrace_loop (w : World) (stack : list nat) (n : Z) (todo : nat)
    : option (list string) :=
  match todo with
  | O => Some []
  | S todo' =>
      a ← LifoPeek stack n; ex ← handles w !! a; f ← e_tryFile ex;
      rest ← ExceptPrintTryTrace_loop w stack (n + 1) todo';
      Some (trace_line f (e_tryLine ex) :: rest)
  end.

(** ExceptPrintTryTrace
<<
    Context *   pC = ExceptGetContext(NULL);
    if (pFile == NULL)
        pFile = stderr;
    fprintf(pFile, "%s occurred:\n", pC->pEx->class->name);
    for (n = 1; n <= LifoCount(pC->exStack); n++) ...
>> *)
Definition ExceptPrintTryTrace (cfg : Config) (w : World) (pFile : FilePtr)
    : World * Outcome unit :=
  match r ← ExceptGetContext cfg w None; ctx ← read_context w r; ex ← deref_pEx w r;
        c ← e_class ex.2; cl ← classes w !! c; stack ← exStack ctx;
        lines ← ExceptPrintTryTrace_loop w stack 1 (Z.to_nat (LifoCount stack));
        Some (trace_header cfg w (c_name cl) :: lines) with
  | Some texts =>
      match pFile with
      | file_other _ => (w, Return ())
      | _ => (set_stderr (stderr w ++ texts) w, Return ())
      end
  | None => (w, Fault)
  end.

(** [e->getMessage()], [e->getData()], [e->getClass()]: a call through a
    member of the handle at [e]; the member may be NULL. *)
Definition call_method {A : Type} (w : World) (e : nat) (member : Except → bool)
    (routine : Outcome A) : Outcome A :=
  match handles w !! e with
  | Some ex => if member ex then routine else Fault
  | None => Fault
  end.

(** ** Allocation ("Alloc.c")

    [calloc], [malloc] and [realloc] of the C library give a pointer or NULL;
    what they give is an argument of the model. *)

(** AllocCalloc
<<
    pMem = calloc(number, size);
    if (pMem == NULL)
        ExceptThrow(pC, OutOfMemoryError, NULL, file, line);
    return pMem;
>> *)
Definition AllocCalloc (cfg : Config) (w : World) (pC : option ContextRef) (calloc : VoidPtr)
    (file : option string) (line : Z) : World * Outcome VoidPtr :=
  match calloc with
  | NULL =>
      ExceptThrow cfg w pC (ClassPtr OutOfMemoryError) NULL file line >>> λ w _, (w, Return NULL)
  | pMem => (w, Return pMem)
  end.

(** AllocMalloc: the same with [pMem = malloc(size)]. *)
Definition AllocMalloc (cfg : Config) (w : World) (pC : option ContextRef) (malloc : VoidPtr)
    (file : option string) (line : Z) : World * Outcome VoidPtr :=
  match malloc with
  | NULL =>
      ExceptThrow cfg w pC (ClassPtr OutOfMemoryError) NULL file line >>> λ w _, (w, Return NULL)
  | pMem => (w, Return pMem)
  end.

(** AllocRealloc: the same with [pMem = realloc(p, size)]. *)
Definition AllocRealloc (cfg : Config) (w : World) (pC : option ContextRef) (realloc : VoidPtr)
    (file : option string) (line : Z) : World * Outcome VoidPtr :=
  match realloc with
  | NULL =>
      ExceptThrow cfg w pC (ClassPtr OutOfMemoryError) NULL file line >>> λ w _, (w, Return NULL)
  | pMem => (w, Return pMem)
  end.

(** ** The LIFO buffer ("Lifo.c", "Lifo.h")

    The routines on the buffer itself: an array of object pointers that grows
    when it is full, with the stack pointer as index of the first free item.
    The module is built without DEBUG: [assert] is empty and [validate] makes
    the routine return its second argument. [malloc] and [realloc] succeed. *)
Module Lifo_c.

Definition INCR_SIZE : Z := 32.
Definition INT_MAX : Z := 2147483647.

(** An item of the array: indeterminate as malloc leaves it, or a pointer
    that was assigned to it (NULL, or the address of an object). *)
Inductive Item :=
  | indeterminate
  | assigned (pObject : option nat).

Record Lifo := mkLifo {
  pObjects : list Item;     (* user object 'array' *)
  size : Z;                 (* size of object 'array' *)
  pointer : Z               (* stack pointer points to free 'array' item *)
}.

(** [array[i]] as a value: undefined outside the array, and where nothing
    was assigned. *)
Definition item (array : list Item) (i : Z) : option (option nat) :=
  if decide (0 ≤ i) then
    match array !! Z.to_nat i with
    | Some (assigned p) => Some p
    | _ => None
    end
  else None.

(** [array[i] = pObject]: undefined outside the array. *)
Definition assign (array : list Item) (i : Z) (pObject : option nat) : option (list Item) :=
  if decide (0 ≤ i < Z.of_nat (length array))
  then Some (<[Z.to_nat i := assigned pObject]> array)
  else None.

(** [realloc(array, n * sizeof(void * ))]: the items up to the lesser of the
    old and the new size are kept, new ones are indeterminate. *)
Definition realloc (array : list Item) (n : Z) : list Item :=
  take (Z.to_nat n) array ++ replicate (Z.to_nat n - length array) indeterminate.


(** LifoPush
<<
    if (pLifo->pointer == pLifo->size) {
        pLifo->size += INCR_SIZE;
        pLifo->pObjects = realloc(pLifo->pObjects, pLifo->size * sizeof(void * ));
    }
    pLifo->pObjects[pLifo->pointer++] = pObject;
>>
    [size] is an int: the addition must not pass INT_MAX. *)
Definition LifoPush (pLifo : Lifo) (pObject : option nat) : option Lifo :=
  grown ← (if decide (pointer pLifo = size pLifo) then
             if decide (size pLifo + INCR_SIZE ≤ INT_MAX) then
               Some (mkLifo (realloc (pObjects pLifo) (size pLifo + INCR_SIZE))
                            (size pLifo + INCR_SIZE) (pointer pLifo))
             else None
           else Some pLifo);
  array ← assign (pObjects grown) (pointer grown) pObject;
  Some (mkLifo array (size grown) (pointer grown + 1)).

(** LifoPop
<<
    validate(pLifo->pointer > 0, NULL);
    return pLifo->pObjects[--pLifo->pointer];
>> *)
Definition LifoPop (pLifo : Lifo) : option (option nat * Lifo) :=
  if decide (pointer pLifo > 0) then
    pObject ← item (pObjects pLifo) (pointer pLifo - 1);
    Some (pObject, mkLifo (pObjects pLifo) (size pLifo) (pointer pLifo - 1))
  else Some (None, pLifo).

(** LifoPeek
<<
    validate(pLifo->pointer > 0, NULL);
    validate(number > 0 && number <= pLifo->pointer, NULL);
    return pLifo->pObjects[pLifo->pointer - number];
>> *)
Definition LifoPeek (pLifo : Lifo) (number : Z) : option (option nat) :=
  if decide (pointer pLifo > 0) then
    if decide (number > 0 ∧ number ≤ pointer pLifo)
    then item (pObjects pLifo) (pointer pLifo - number)
    else Some None
  else Some None.

(** LifoCount: [return pLifo->pointer;] *)
Definition LifoCount (pLifo : Lifo) : Z := pointer pLifo.



(** LifoDestroy: [free(pLifo->pObjects); free(pLifo);] frees no user object. *)
Definition LifoDestroy (pLifo : Lifo) : list (option nat) := [].

End Lifo_c.

(** The buffer holds the objects of [stack] (top first): they stand in the
    array from item 0 (the bottom) up to the stack pointer; the array has
    [size] items, at least one. *)
Definition holds_stack (pLifo : Lifo_c.Lifo) (stack : list nat) : Prop :=
  Lifo_c.size pLifo = Z.of_nat (length (Lifo_c.pObjects pLifo)) ∧
  0 < Lifo_c.size pLifo ∧
  Lifo_c.pointer pLifo = Z.of_nat (length stack) ∧
  take (length stack) (Lifo_c.pObjects pLifo)
  = (λ a, Lifo_c.assigned (Some a)) <$> reverse stack.

(** ** The hash value ("Hash.c") *)

Definition HASH_SIZE : Z := 256.

(** HashValue, with the line that it writes to stderr, if any. [key] is
    an [unsigned], of 32 bits; so is the product with HASH_SIZE.
<<
    value = (HASH_SIZE * ((key * 40503) & 65535)) >> 16;
    if (value >= HASH_SIZE || value < 0)
        fprintf(stderr, "INVALID HashValue: %d\n", value);
    return value;
>> *)
Definition HashValue (key : Z) : Z * option string :=
  let value :=
    Z.shiftr ((HASH_SIZE * Z.land ((key * 40503) mod 2 ^ 32) 65535) mod 2 ^ 32) 16 in
  (value,
   if decide (value >= HASH_SIZE ∨ value < 0)
   then Some ("INVALID HashValue: " ++ fmt_d value ++ newline)%string
   else None).


(** ** The doubly linked list ("List.c", "List.h")

    The routines on the nodes themselves. The nodes live in a heap, a finite
    map from addresses to nodes; a routine that calls [malloc] takes the
    address that [malloc] returns as its argument [new] ([malloc] succeeds).
    A result [None] stands for undefined behaviour: a node that is not
    allocated is accessed, a member is read that nothing was assigned to, or
    the count leaves the range of int; and for a loop that does not end. The
    module is built without DEBUG: [assert] is empty and [validate] makes the
    routine return its second argument. *)
Module List_c.

Definition INT_MAX : Z := 2147483647.
Definition INT_MIN : Z := -2147483648.

(** A node. [pNext] and [pPrev] are [None] as long as nothing was assigned
    to them (no routine stores NULL there); [pData] is a user pointer, NULL
    or an address, once it is assigned. *)
Record ListNode := mkListNode {
  pNext : option nat;            (* next node ('down', 'after') *)
  pPrev : option nat;            (* next node ('up', 'before') *)
  pData : Lifo_c.Item            (* pointer to user data *)
}.

Abbreviation Heap := (gmap nat ListNode).

Record List := mkList {
  pHead : nat;                   (* pointer to dummy list head node *)
  pNodeLast : option nat;        (* pointer to last accessed node *)
  count : Z                      (* number of user nodes in list *)
}.

(** [malloc(sizeof(ListNode))] returned [new]: no member is assigned. *)
Definition malloc (new : nat) (h : Heap) : Heap :=
  <[new := mkListNode None None Lifo_c.indeterminate]> h.

(** [free(p)]: [p] must be allocated. *)
Definition free (p : nat) (h : Heap) : option Heap :=
  match h !! p with
  | Some _ => Some (delete p h)
  | None => None
  end.

(** [p->pNext], [p->pPrev] and [p->pData] as values. *)
Definition next (h : Heap) (p : nat) : option nat := h !! p ≫= pNext.
Definition prev (h : Heap) (p : nat) : option nat := h !! p ≫= pPrev.
Definition data (h : Heap) (p : nat) : option (option nat) :=
  nd ← h !! p;
  match pData nd with
  | Lifo_c.assigned v => Some v
  | Lifo_c.indeterminate => None
  end.

(** [p->pNext = v], [p->pPrev = v] and [p->pData = v]. *)
Definition set_next (p v : nat) (h : Heap) : option Heap :=
  nd ← h !! p; Some (<[p := mkListNode (Some v) (pPrev nd) (pData nd)]> h).
Definition set_prev (p v : nat) (h : Heap) : option Heap :=
  nd ← h !! p; Some (<[p := mkListNode (pNext nd) (Some v) (pData nd)]> h).
Definition set_data (p : nat) (v : option nat) (h : Heap) : option Heap :=
  nd ← h !! p; Some (<[p := mkListNode (pNext nd) (pPrev nd) (Lifo_c.assigned v)]> h).

(** [count++] and [count--] on an int. *)
Definition incr (n : Z) : option Z := if decide (n < INT_MAX) then Some (n + 1) else None.
Definition decr (n : Z) : option Z := if decide (INT_MIN < n) then Some (n - 1) else None.

(** ListCreate
<<
    pList->pHead = malloc(sizeof(ListNode));
    pList->pHead->pNext = pList->pHead->pPrev = pList->pHead;
    pList->pNodeLast = NULL;
    pList->count = 0;
>>
    The data member of the dummy node is left as [malloc] gave it. *)
Definition ListCreate (new : nat) (h : Heap) : option (Heap * List) :=
  h ← set_prev new new (malloc new h);
  h ← set_next new new h;
  Some (h, mkList new None 0).

(** The loop of ListDestroy and ListDestroyData, with the user pointers that
    it passes to [free], in order
<<
    while (pNode != pList->pHead)
    {
        pNext = pNode->pNext;
        free(pNode->pData);         (ListDestroyData only)
        free(pNode);
        pNode = pNext;
    }
>> *)
Fixpoint ListDestroy_loop (withData : bool) (h : Heap) (head pNode : nat) (fuel : nat)
    : option (Heap * list (option nat)) :=
  match fuel with
  | O => None
  | S fuel' =>
      if decide (pNode ≠ head) then
        pNext ← next h pNode;
        freed ← (if withData then v ← data h pNode; Some [v] else Some []);
        h ← free pNode h;
        '(h, rest) ← ListDestroy_loop withData h head pNext fuel';
        Some (h, freed ++ rest)
      else Some (h, [])
  end.

(** ListDestroy and ListDestroyData
<<
    pNode = pList->pHead->pNext;
    while ...
    free(pList->pHead);
    free(pList);
>> *)
Definition ListDestroy_with (withData : bool) (h : Heap) (pList : List)
    : option (Heap * list (option nat)) :=
  pNode ← next h (pHead pList);
  '(h, freed) ← ListDestroy_loop withData h (pHead pList) pNode (S (size h));
  h ← free (pHead pList) h;
  Some (h, freed).

Definition ListDestroy (h : Heap) (pList : List) : option (Heap * list (option nat)) :=
  ListDestroy_with false h pList.

Definition ListDestroyData (h : Heap) (pList : List) : option (Heap * list (option nat)) :=
  ListDestroy_with true h pList.

(** ListAddHead
<<
    pNode = malloc(sizeof(ListNode));
    pNode->pData = pData;
    (pNode->pNext = pList->pHead->pNext)->pPrev = pNode;
    (pList->pHead->pNext = pNode)->pPrev = pList->pHead;
    pList->pNodeLast = pNode;
    pList->count++;
>> *)
Definition ListAddHead (new : nat) (h : Heap) (pList : List) (v : option nat)
    : option (Heap * List) :=
  h ← set_data new v (malloc new h);
  n ← next h (pHead pList);
  h ← set_next new n h;
  h ← set_prev n new h;
  h ← set_next (pHead pList) new h;
  h ← set_prev new (pHead pList) h;
  c ← incr (count pList);
  Some (h, mkList (pHead pList) (Some new) c).

(** ListAddTail
<<
    pNode->pData = pData;
    (pNode->pPrev = pList->pHead->pPrev)->pNext = pNode;
    (pList->pHead->pPrev = pNode)->pNext = pList->pHead;
    pList->pNodeLast = pNode;
    pList->count++;
>> *)
Definition ListAddTail (new : nat) (h : Heap) (pList : List) (v : option nat)
    : option (Heap * List) :=
  h ← set_data new v (malloc new h);
  p ← prev h (pHead pList);
  h ← set_prev new p h;
  h ← set_next p new h;
  h ← set_prev (pHead pList) new h;
  h ← set_next new (pHead pList) h;
  c ← incr (count pList);
  Some (h, mkList (pHead pList) (Some new) c).

(** ListAddBefore
<<
    validate(pList->pNodeLast != NULL, NOTHING);
    pNode = malloc(sizeof(ListNode));
    pNode->pData = pData;
    (pNode->pPrev = pList->pNodeLast->pPrev)->pNext = pNode;
    (pList->pNodeLast->pPrev = pNode)->pNext = pList->pNodeLast;
    pList->pNodeLast = pNode;
    pList->count++;
>> *)
Definition ListAddBefore (new : nat) (h : Heap) (pList : List) (v : option nat)
    : option (Heap * List) :=
  match pNodeLast pList with
  | None => Some (h, pList)
  | Some last =>
      h ← set_data new v (malloc new h);
      p ← prev h last;
      h ← set_prev new p h;
      h ← set_next p new h;
      h ← set_prev last new h;
      h ← set_next new last h;
      c ← incr (count pList);
      Some (h, mkList (pHead pList) (Some new) c)
  end.

(** ListAddAfter
<<
    validate(pList->pNodeLast != NULL, NOTHING);
    pNode = malloc(sizeof(ListNode));
    pNode->pData = pData;
    (pNode->pNext = pList->pNodeLast->pNext)->pPrev = pNode;
    (pList->pNodeLast->pNext = pNode)->pPrev = pList->pNodeLast;
    pList->pNodeLast = pNode;
    pList->count++;
>> *)
Definition ListAddAfter (new : nat) (h : Heap) (pList : List) (v : option nat)
    : option (Heap * List) :=
  match pNodeLast pList with
  | None => Some (h, pList)
  | Some last =>
      h ← set_data new v (malloc new h);
      n ← next h last;
      h ← set_next new n h;
      h ← set_prev n new h;
      h ← set_next last new h;
      h ← set_prev new last h;
      c ← incr (count pList);
      Some (h, mkList (pHead pList) (Some new) c)
  end.





(** ListRemoveLast
<<
    validate(pList->pNodeLast != NULL, NULL);
    pData = pList->pNodeLast->pData;
    pNext = pList->pNodeLast->pNext;
    pList->pNodeLast->pNext->pPrev = pList->pNodeLast->pPrev;
    pList->pNodeLast->pPrev->pNext = pList->pNodeLast->pNext;
    free(pList->pNodeLast);
    pList->pNodeLast = pNext;
    pList->count--;
    return pData;
>> *)
Definition ListRemoveLast (h : Heap) (pList : List) : option (Heap * List * option nat) :=
  match pNodeLast pList with
  | None => Some (h, pList, None)
  | Some last =>
      v ← data h last;
      pNext ← next h last;
      n ← next h last;
      p ← prev h last;
      h ← set_prev n p h;
      p ← prev h last;
      n ← next h last;
      h ← set_next p n h;
      h ← free last h;
      c ← decr (count pList);
      Some (h, mkList (pHead pList) (Some pNext) c, v)
  end.

(** ListHead
<<
    if (pList->count == 0)
        return NULL;
    else
        return 0, (pList->pNodeLast = pList->pHead->pNext)->pData;
>> *)
Definition ListHead (h : Heap) (pList : List) : option (List * option nat) :=
  if decide (count pList = 0) then Some (pList, None)
  else
    n ← next h (pHead pList);
    v ← data h n;
    Some (mkList (pHead pList) (Some n) (count pList), v).

(** ListTail
<<
    if (pList->count == 0)
        return NULL;
    else
        return 0, (pList->pNodeLast = pList->pHead->pPrev)->pData;
>> *)
Definition ListTail (h : Heap) (pList : List) : option (List * option nat) :=
  if decide (count pList = 0) then Some (pList, None)
  else
    p ← prev h (pHead pList);
    v ← data h p;
    Some (mkList (pHead pList) (Some p) (count pList), v).

(** ListLast
<<
    if (pList->pNodeLast == NULL)
        return NULL;
    else
        return pList->pNodeLast->pData;
>> *)
Definition ListLast (h : Heap) (pList : List) : option (option nat) :=
  match pNodeLast pList with
  | None => Some None
  | Some last => data h last
  end.

(** ListNext
<<
    validate(pList->pNodeLast != NULL, NULL);
    if ((pList->pNodeLast = pList->pNodeLast->pNext) == pList->pHead)
    {
        pList->pNodeLast = NULL;
        return NULL;
    }
    else
        return pList->pNodeLast->pData;
>> *)
Definition ListNext (h : Heap) (pList : List) : option (List * option nat) :=
  match pNodeLast pList with
  | None => Some (pList, None)
  | Some last =>
      n ← next h last;
      if decide (n = pHead pList) then Some (mkList (pHead pList) None (count pList), None)
      else v ← data h n; Some (mkList (pHead pList) (Some n) (count pList), v)
  end.

(** ListPrev
<<
    validate(pList->pNodeLast != NULL, NULL);
    if ((pList->pNodeLast = pList->pNodeLast->pPrev) == pList->pHead)
    {
        pList->pNodeLast = NULL;
        return NULL;
    }
    else
        return pList->pNodeLast->pData;
>> *)
Definition ListPrev (h : Heap) (pList : List) : option (List * option nat) :=
  match pNodeLast pList with
  | None => Some (pList, None)
  | Some last =>
      p ← prev h last;
      if decide (p = pHead pList) then Some (mkList (pHead pList) None (count pList), None)
      else v ← data h p; Some (mkList (pHead pList) (Some p) (count pList), v)
  end.



(** The counting loop of ListSplitBefore and ListSplitAfter: the counts of
    the two lists after it
<<
    while (pNodeOrg != stop)
    {
        pListOrg->count--;
        pListNew->count++;
        pNodeOrg = pNodeOrg->pNext;
    }
>> *)
Fixpoint ListSplit_loop (h : Heap) (stop pNodeOrg : nat) (countOrg countNew : Z)
    (fuel : nat) : option (Z * Z) :=
  match fuel with
  | O => None
  | S fuel' =>
      if decide (pNodeOrg ≠ stop) then
        countOrg ← decr countOrg;
        countNew ← incr countNew;
        pNext ← next h pNodeOrg;
        ListSplit_loop h stop pNext countOrg countNew fuel'
      else Some (countOrg, countNew)
  end.

(** ListSplitBefore; [newHead] is the dummy node of the new list. The result
    holds the original list, and the new list unless NULL is returned.
<<
    validate(pListOrg->count > 0, NULL);
    validate(pListOrg->pNodeLast != NULL, NULL);
    pListNew->pHead = malloc(sizeof(ListNode));
    pListNew->pHead->pData = NULL;
    pListNew->count = 0;
    pNodeOrg = pListOrg->pHead->pNext;
    while (pNodeOrg != pListOrg->pNodeLast) ...
    if (pListNew->count == 0)
    {
        pListNew->pHead->pPrev = pListNew->pHead->pNext = pListNew->pHead;
    }
    else
    {
        pListNew->pHead->pNext = pListOrg->pHead->pNext;
        pListNew->pHead->pNext->pPrev = pListNew->pHead;
        pListNew->pHead->pPrev = pListOrg->pNodeLast->pPrev;
        pListNew->pHead->pPrev->pNext = pListNew->pHead;
        pListOrg->pHead->pNext = pListOrg->pNodeLast;
        pListOrg->pNodeLast->pPrev = pListOrg->pHead;
    }
    pListNew->pNodeLast = NULL;
    return pListNew;
>> *)
Definition ListSplitBefore (newHead : nat) (h : Heap) (pListOrg : List)
    : option (Heap * List * option List) :=
  if decide (count pListOrg > 0) then
    match pNodeLast pListOrg with
    | None => Some (h, pListOrg, None)
    | Some last =>
        h ← set_data newHead None (malloc newHead h);
        pNodeOrg ← next h (pHead pListOrg);
        '(countOrg, countNew) ← ListSplit_loop h last pNodeOrg (count pListOrg) 0 (S (size h));
        h ← (if decide (countNew = 0) then
               h ← set_next newHead newHead h;
               set_prev newHead newHead h
             else
               n ← next h (pHead pListOrg);
               h ← set_next newHead n h;
               n ← next h newHead;
               h ← set_prev n newHead h;
               p ← prev h last;
               h ← set_prev newHead p h;
               p ← prev h newHead;
               h ← set_next p newHead h;
               h ← set_next (pHead pListOrg) last h;
               set_prev last (pHead pListOrg) h);
        Some (h, mkList (pHead pListOrg) (Some last) countOrg,
              Some (mkList newHead None countNew))
    end
  else Some (h, pListOrg, None).

(** ListSplitAfter
<<
    validate(pListOrg->count > 0, NULL);
    validate(pListOrg->pNodeLast != NULL, NULL);
    ...
    pNodeOrg = pListOrg->pNodeLast->pNext;
    while (pNodeOrg != pListOrg->pHead) ...
    if (pListNew->count == 0)
    {
        pListNew->pHead->pPrev = pListNew->pHead->pNext = pListNew->pHead;
    }
    else
    {
        pListNew->pHead->pNext = pListOrg->pNodeLast->pNext;
        pListNew->pHead->pNext->pPrev = pListNew->pHead;
        pListNew->pHead->pPrev = pListOrg->pHead->pPrev;
        pListNew->pHead->pPrev->pNext = pListNew->pHead;
        pListOrg->pNodeLast->pNext = pListOrg->pHead;
        pListOrg->pHead->pPrev = pListOrg->pNodeLast;
    }
    pListNew->pNodeLast = NULL;
    return pListNew;
>> *)
Definition ListSplitAfter (newHead : nat) (h : Heap) (pListOrg : List)
    : option (Heap * List * option List) :=
  if decide (count pListOrg > 0) then
    match pNodeLast pListOrg with
    | None => Some (h, pListOrg, None)
    | Some last =>
        h ← set_data newHead None (malloc newHead h);
        pNodeOrg ← next h last;
        '(countOrg, countNew) ← ListSplit_loop h (pHead pListOrg) pNodeOrg (count pListOrg) 0
                                               (S (size h));
        h ← (if decide (countNew = 0) then
               h ← set_next newHead newHead h;
               set_prev newHead newHead h
             else
               n ← next h last;
               h ← set_next newHead n h;
               n ← next h newHead;
               h ← set_prev n newHead h;
               p ← prev h (pHead pListOrg);
               h ← set_prev newHead p h;
               p ← prev h newHead;
               h ← set_next p newHead h;
               h ← set_next last (pHead pListOrg) h;
               set_prev (pHead pListOrg) last h);
        Some (h, mkList (pHead pListOrg) (Some last) countOrg,
              Some (mkList newHead None countNew))
    end
  else Some (h, pListOrg, None).

(** ListConcat
<<
    switch (((pListAdd->count > 0) << 1) | (pListDst->count > 0))
    {
    case 0: case 1:
        break;
    case 2:
        pListDst->pHead->pNext = pListAdd->pHead->pNext;
        pListDst->pHead->pNext->pPrev = pListDst->pHead;
        pListDst->pHead->pPrev = pListAdd->pHead->pPrev;
        pListDst->pHead->pPrev->pNext = pListDst->pHead;
        break;
    case 3:
        pListAdd->pHead->pPrev->pNext = pListDst->pHead;
        pListDst->pHead->pPrev->pNext = pListAdd->pHead->pNext;
        pListAdd->pHead->pNext->pPrev = pListDst->pHead->pPrev;
        pListDst->pHead->pPrev = pListAdd->pHead->pPrev;
        break;
    }
    pListDst->pNodeLast = NULL;
    pListDst->count += pListAdd->count;
    free(pListAdd->pHead);
    free(pListAdd);
    return pListDst;
>> *)
Definition ListConcat (h : Heap) (pListDst pListAdd : List) : option (Heap * List) :=
  h ← (if decide (count pListAdd > 0) then
         if decide (count pListDst > 0) then
           p ← prev h (pHead pListAdd);
           h ← set_next p (pHead pListDst) h;
           p ← prev h (pHead pListDst);
           n ← next h (pHead pListAdd);
           h ← set_next p n h;
           n ← next h (pHead pListAdd);
           p ← prev h (pHead pListDst);
           h ← set_prev n p h;
           p ← prev h (pHead pListAdd);
           set_prev (pHead pListDst) p h
         else
           n ← next h (pHead pListAdd);
           h ← set_next (pHead pListDst) n h;
           n ← next h (pHead pListDst);
           h ← set_prev n (pHead pListDst) h;
           p ← prev h (pHead pListAdd);
           h ← set_prev (pHead pListDst) p h;
           p ← prev h (pHead pListDst);
           set_next p (pHead pListDst) h
       else Some h);
  c ← (if decide (INT_MIN ≤ count pListDst + count pListAdd ≤ INT_MAX)
       then Some (count pListDst + count pListAdd) else None);
  h ← free (pHead pListAdd) h;
  Some (h, mkList (pHead pListDst) None c).

End List_c.

(** The address of the first and of the last of the cells (address and value
    of a user node), or [d] when there is none. *)
Definition first_or (cells : list (nat * option nat)) (d : nat) : nat :=
  from_option fst d (head cells).
Definition last_or (cells : list (nat * option nat)) (d : nat) : nat :=
  from_option fst d (last cells).

(** The nodes at the addresses of [cells] are linked in this order, hold the
    values of [cells], and lie between the nodes [before] and [after]. *)
Fixpoint linked (h : List_c.Heap) (before : nat) (cells : list (nat * option nat))
    (after : nat) : Prop :=
  match cells with
  | [] => True
  | (a, v) :: rest =>
      h !! a = Some (List_c.mkListNode (Some (first_or rest after)) (Some before)
                                       (Lifo_c.assigned v)) ∧
      linked h a rest after
  end.

(** The list [pList] is a well-formed ring in [h]: the dummy node and the
    user nodes at the addresses of [cells], all different, in this order from
    head to tail; the data member of the dummy node is [d]; [count] is the
    number of user nodes; the last accessed node is not set or is a node of
    the ring. *)
Definition holds_ring (d : Lifo_c.Item) (h : List_c.Heap) (pList : List_c.List)
    (cells : list (nat * option nat)) : Prop :=
  NoDup (List_c.pHead pList :: cells.*1) ∧
  List_c.count pList = Z.of_nat (length cells) ∧
  h !! List_c.pHead pList
    = Some (List_c.mkListNode (Some (first_or cells (List_c.pHead pList)))
                              (Some (last_or cells (List_c.pHead pList))) d) ∧
  linked h (List_c.pHead pList) cells (List_c.pHead pList) ∧
  (∀ last, List_c.pNodeLast pList = Some last → last ∈ List_c.pHead pList :: cells.*1).

(** A list that ListCreate made: the data of its dummy node was never
    assigned. *)
Definition holds_list : List_c.Heap → List_c.List → list (nat * option nat) → Prop :=
  holds_ring Lifo_c.indeterminate.

(** [h'] is [h] with the [pNext] of [p] set to [p_next] and the [pPrev] of
    [n] set to [n_prev], but for the node [except]. *)
Definition rewired (h h' : List_c.Heap) (p p_next n n_prev except : nat) : Prop :=
  ∀ x, x ≠ except →
    h' !! x = (λ nd, List_c.mkListNode
                       (if decide (x = p) then Some p_next else List_c.pNext nd)
                       (if decide (x = n) then Some n_prev else List_c.pPrev nd)
                       (List_c.pData nd)) <$> h !! x.

(** A list as the routines build it: ListCreate, then 7 and 9 added at the
    tail; and the same with the last accessed node on the first user node. *)
Definition ring_7_9 : List_c.Heap :=
  <[10%nat := List_c.mkListNode (Some 11%nat) (Some 12%nat) Lifo_c.indeterminate]>
    (<[11%nat := List_c.mkListNode (Some 12%nat) (Some 10%nat) (Lifo_c.assigned (Some 7%nat))]>
       (<[12%nat := List_c.mkListNode (Some 10%nat) (Some 11%nat)
                                      (Lifo_c.assigned (Some 9%nat))]> ∅)).
Definition list_7_9 : List_c.List := List_c.mkList 10 (Some 12%nat) 2.
Definition list_7_9_at_7 : List_c.List := List_c.mkList 10 (Some 11%nat) 2.

(** ** The hash table ("Hash.c", "Hash.h")

    The table is an array of HASH_SIZE lists of hash nodes; a hash node holds
    a key and the user data. The list nodes live in the heap of the list
    routines, the hash nodes in a heap of their own; as for the lists, a
    routine takes the addresses that its calls of [malloc] return as
    arguments, and [None] stands for undefined behaviour or a loop that does
    not end. A key is an [int]; HashValue takes it as [unsigned], which does
    not change the product modulo 2^32 that it computes. *)
Module Hash_c.

Record HashNode := mkHashNode {
  pData : option nat;              (* pointer to the user data *)
  key : Z                          (* key number *)
}.

Abbreviation HashNodes := (gmap nat HashNode).

Record Hash := mkHash {
  pNodeLists : list List_c.List;   (* node lists *)
  count : Z                        (* number of stored nodes *)
}.

(** The value of HashValue as an index of [pNodeLists]. The line that
    HashValue may write is left out here: it is never written. *)
Definition index (key : Z) : nat := Z.to_nat (HashValue key).1.

(** The loop of HashCreate, from [n] on; [new n] is the head node that the
    n-th ListCreate allocates
<<
    for (n = 0; n < HASH_SIZE; n++)
        pHash->pNodeLists[n] = ListCreate();
>> *)
Fixpoint HashCreate_loop (new : nat → nat) (h : List_c.Heap) (n : nat) (rounds : nat)
    : option (List_c.Heap * list List_c.List) :=
  match rounds with
  | O => Some (h, [])
  | S rounds' =>
      '(h, pList) ← List_c.ListCreate (new n) h;
      '(h, lists) ← HashCreate_loop new h (S n) rounds';
      Some (h, pList :: lists)
  end.

(** HashCreate
<<
    pHash->count = 0;
    pHash->pNodeLists = malloc(HASH_SIZE * sizeof(List * ));
    for ...
>> *)
Definition HashCreate (new : nat → nat) (h : List_c.Heap) : option (List_c.Heap * Hash) :=
  '(h, lists) ← HashCreate_loop new h 0 (Z.to_nat HASH_SIZE);
  Some (h, mkHash lists 0).

(** The loop of HashLookup
<<
    while (pNode != NULL)
    {
        if (pNode->key == key)
        {
            return pNode->pData;
        }
        pNode = ListNext(nodeList);
    }
    return NULL;
>> *)
Fixpoint HashLookup_loop (h : List_c.Heap) (hn : HashNodes) (nodeList : List_c.List)
    (pNode : option nat) (k : Z) (fuel : nat) : option (List_c.List * option nat) :=
  match fuel with
  | O => None
  | S fuel' =>
      match pNode with
      | None => Some (nodeList, None)
      | Some p =>
          node ← hn !! p;
          if decide (key node = k) then Some (nodeList, pData node)
          else
            '(nodeList, pNode) ← List_c.ListNext h nodeList;
            HashLookup_loop h hn nodeList pNode k fuel'
      end
  end.

(** HashLookup. The list routines move the last accessed node of the list.
<<
    nodeList = pHash->pNodeLists[HashValue(pHash, key)];
    pNode = ListHead(nodeList);
    while ...
>> *)
Definition HashLookup (h : List_c.Heap) (hn : HashNodes) (pHash : Hash) (k : Z)
    : option (Hash * option nat) :=
  nodeList ← pNodeLists pHash !! index k;
  '(nodeList, pNode) ← List_c.ListHead h nodeList;
  '(nodeList, v) ← HashLookup_loop h hn nodeList pNode k (S (size h));
  Some (mkHash (<[index k := nodeList]> (pNodeLists pHash)) (count pHash), v).

(** HashAdd; [newNode] is the hash node and [new] the list node that are
    allocated
<<
    validate(pData != 0, NOTHING);
    pNode = malloc(sizeof(HashNode));
    pNode->key   = key;
    pNode->pData = pData;
    ListAddHead(pHash->pNodeLists[HashValue(pHash, key)], pNode);
    pHash->count++;
>> *)
Definition HashAdd (newNode new : nat) (h : List_c.Heap) (hn : HashNodes) (pHash : Hash)
    (k : Z) (v : option nat) : option (List_c.Heap * HashNodes * Hash) :=
  match v with
  | None => Some (h, hn, pHash)
  | Some _ =>
      let hn := <[newNode := mkHashNode v k]> hn in
      nodeList ← pNodeLists pHash !! index k;
      '(h, nodeList) ← List_c.ListAddHead new h nodeList (Some newNode);
      c ← List_c.incr (count pHash);
      Some (h, hn, mkHash (<[index k := nodeList]> (pNodeLists pHash)) c)
  end.

(** The loop of HashRemove, with the flag that a node was removed
<<
    while (pNode != NULL)
    {
        if (pNode->key == key)
        {
            ListRemoveLast(nodeList);
            pData = pNode->pData;
            free(pNode);
            pHash->count--;
            return pData;
        }
        pNode = ListNext(nodeList);
    }
    return NULL;
>> *)
Fixpoint HashRemove_loop (h : List_c.Heap) (hn : HashNodes) (nodeList : List_c.List)
    (pNode : option nat) (k : Z) (fuel : nat)
    : option (List_c.Heap * HashNodes * List_c.List * bool * option nat) :=
  match fuel with
  | O => None
  | S fuel' =>
      match pNode with
      | None => Some (h, hn, nodeList, false, None)
      | Some p =>
          node ← hn !! p;
          if decide (key node = k) then
            '(h, nodeList, _) ← List_c.ListRemoveLast h nodeList;
            node ← hn !! p;
            Some (h, delete p hn, nodeList, true, pData node)
          else
            '(nodeList, pNode) ← List_c.ListNext h nodeList;
            HashRemove_loop h hn nodeList pNode k fuel'
      end
  end.

(** HashRemove
<<
    nodeList = pHash->pNodeLists[HashValue(pHash, key)];
    pNode = ListHead(nodeList);
    while ...
>> *)
Definition HashRemove (h : List_c.Heap) (hn : HashNodes) (pHash : Hash) (k : Z)
    : option (List_c.Heap * HashNodes * Hash * option nat) :=
  nodeList ← pNodeLists pHash !! index k;
  '(nodeList, pNode) ← List_c.ListHead h nodeList;
  '(h, hn, nodeList, removed, v) ← HashRemove_loop h hn nodeList pNode k (S (size h));
  c ← (if removed : bool then List_c.decr (count pHash) else Some (count pHash));
  Some (h, hn, mkHash (<[index k := nodeList]> (pNodeLists pHash)) c, v).

(** HashCount: [return pHash->count;] *)
Definition HashCount (pHash : Hash) : Z := count pHash.

(** [free] on each of the pointers, in order: [free(NULL)] does nothing; a
    pointer must be an allocated hash node. *)
Fixpoint free_nodes (ps : list (option nat)) (hn : HashNodes) : option HashNodes :=
  match ps with
  | [] => Some hn
  | None :: ps => free_nodes ps hn
  | Some p :: ps =>
      match hn !! p with
      | Some _ => free_nodes ps (delete p hn)
      | None => None
      end
  end.

(** The loop of HashDestroyData on one list, with the user data that it
    passes to [free], in order
<<
    pNode = ListHead(pHash->pNodeLists[n]);
    while (pNode != NULL)
    {
        free(pNode->pData);
        pNode = ListNext(pHash->pNodeLists[n]);
    }
>> *)
Fixpoint HashDestroyData_loop (h : List_c.Heap) (hn : HashNodes) (nodeList : List_c.List)
    (pNode : option nat) (fuel : nat) : option (List_c.List * list (option nat)) :=
  match fuel with
  | O => None
  | S fuel' =>
      match pNode with
      | None => Some (nodeList, [])
      | Some p =>
          node ← hn !! p;
          '(nodeList, pNode) ← List_c.ListNext h nodeList;
          '(nodeList, freed) ← HashDestroyData_loop h hn nodeList pNode fuel';
          Some (nodeList, pData node :: freed)
      end
  end.

(** The loop over the lists of HashDestroy and HashDestroyData, from [n] on,
    with the user data that is freed. ListDestroyData frees the hash nodes,
    which are the data of the list.
<<
    for (n = 0; n < HASH_SIZE; n++)
    {
        ...                         (HashDestroyData only: the loop above)
        ListDestroyData(pHash->pNodeLists[n]);
    }
>> *)
Fixpoint HashDestroy_loop (withData : bool) (h : List_c.Heap) (hn : HashNodes)
    (lists : list List_c.List) (n : nat) (rounds : nat)
    : option (List_c.Heap * HashNodes * list (option nat)) :=
  match rounds with
  | O => Some (h, hn, [])
  | S rounds' =>
      nodeList ← lists !! n;
      '(nodeList, freed) ← (if withData then
                              '(nodeList, pNode) ← List_c.ListHead h nodeList;
                              HashDestroyData_loop h hn nodeList pNode (S (size h))
                            else Some (nodeList, []));
      '(h, nodes) ← List_c.ListDestroyData h nodeList;
      hn ← free_nodes nodes hn;
      '(h, hn, rest) ← HashDestroy_loop withData h hn lists (S n) rounds';
      Some (h, hn, freed ++ rest)
  end.

(** HashDestroy and HashDestroyData: the loop, then
    [free(pHash->pNodeLists); free(pHash);]. *)
Definition HashDestroy (h : List_c.Heap) (hn : HashNodes) (pHash : Hash)
    : option (List_c.Heap * HashNodes * list (option nat)) :=
  HashDestroy_loop false h hn (pNodeLists pHash) 0 (Z.to_nat HASH_SIZE).

Definition HashDestroyData (h : List_c.Heap) (hn : HashNodes) (pHash : Hash)
    : option (List_c.Heap * HashNodes * list (option nat)) :=
  HashDestroy_loop true h hn (pNodeLists pHash) 0 (Z.to_nat HASH_SIZE).

End Hash_c.

(** An entry of the table: the list node, the hash node that it points to,
    the key and the user data of the hash node. *)
Record Entry := mkEntry {
  t_node : nat;
  t_hnode : nat;
  t_key : Z;
  t_data : nat
}.

(** A bucket: the list, and its entries from head to tail. *)
Abbreviation Bucket := (List_c.List * list Entry)%type.

Definition cells_of (entries : list Entry) : list (nat * option nat) :=
  (λ t, (t_node t, Some (t_hnode t))) <$> entries.

(** The list nodes of a bucket, with the dummy node. *)
Definition ring_of (b : Bucket) : list nat := List_c.pHead b.1 :: (t_node <$> b.2).

(** The table [pHash] is well formed, with the buckets [B]: every list is a
    well-formed ring of the nodes of its entries; no list node is in two
    rings, no hash node in two entries; the hash node of an entry holds its
    key and its data, which is not NULL; [count] is the number of entries. *)
Definition holds_buckets (h : List_c.Heap) (hn : Hash_c.HashNodes) (pHash : Hash_c.Hash)
    (B : list Bucket) : Prop :=
  Hash_c.pNodeLists pHash = B.*1 ∧
  length B = Z.to_nat HASH_SIZE ∧
  Hash_c.count pHash = Z.of_nat (length (B ≫= snd)) ∧
  (∀ i b, B !! i = Some b → holds_list h b.1 (cells_of b.2)) ∧
  NoDup (B ≫= ring_of) ∧
  NoDup (t_hnode <$> (B ≫= snd)) ∧
  (∀ t, t ∈ B ≫= snd →
     hn !! t_hnode t = Some (Hash_c.mkHashNode (Some (t_data t)) (t_key t))).

(** The data stored under the key [k], the most recently added first. *)
Definition stored (B : list Bucket) (k : Z) : list nat :=
  t_data <$> filter (λ t, t_key t = k) (default [] (snd <$> B !! Hash_c.index k)).

(** The table holds, for every key [k], the data [stacks k] (the most
    recently added first). *)
Definition holds_hash (h : List_c.Heap) (hn : Hash_c.HashNodes) (pHash : Hash_c.Hash)
    (stacks : Z → list nat) : Prop :=
  ∃ B, holds_buckets h hn pHash B ∧ ∀ k, stored B k = stacks k.
(** Where the loops of HashLookup and HashRemove stand when the entries
    [todo] of the list are still to be examined: [pNode] is the hash node of
    the first of them, which is the last accessed node of the list; or NULL
    when none is left. *)
Definition examining (nodeList : List_c.List) (pNode : option nat) (todo : list Entry)
    : Prop :=
  match todo with
  | [] => pNode = None
  | t :: _ => pNode = Some (t_hnode t) ∧ List_c.pNodeLast nodeList = Some (t_node t)
  end.
(** The table that HashCreate makes in the empty heap when the n-th
    [malloc] of a list node returns the address n. *)
Definition created_table : List_c.Heap * Hash_c.Hash :=
  default (∅, Hash_c.mkHash [] 0) (Hash_c.HashCreate id ∅).

(** * Properties *)

(** ** Properties of the class registry *)

Section class_registry.
Variable classes : gmap nat Class.

Lemma parent_of_inj c p q : parent_of classes c p → parent_of classes c q → p = q.
Proof. intros (cl & Hc & <-) (cl' & Hc' & <-). congruence. Qed.

Lemma rooted_inj c n m : rooted classes c n → rooted classes c m → n = m.
Proof.
  intros Hn. revert m.
  induction Hn as [c Hc | c p n Hc Hp IH]; intros m Hm; inversion Hm as [? Hc' | ? q k Hc' Hq]; subst.
  - done.
  - by pose proof (parent_of_inj _ _ _ Hc Hc').
  - by pose proof (parent_of_inj _ _ _ Hc Hc').
  - pose proof (parent_of_inj _ _ _ Hc Hc') as [= ->]. f_equal. by apply IH.
Qed.

(** The classes on a chain of [n] links are [n + 1] different records. *)
Lemma rooted_chain_set c n :
  rooted classes c n →
  ∃ X : gset nat, X ⊆ dom classes ∧ size X = S n ∧
                  ∀ x, x ∈ X → ∃ k, (k ≤ n)%nat ∧ rooted classes x k.
Proof.
  induction 1 as [c Hc | c p n Hc Hp (X & Hsub & Hsz & Hall)].
  - exists {[ c ]}. split_and!.
    + destruct Hc as (cl & Hc & _). apply singleton_subseteq_l, elem_of_dom. eauto.
    + by rewrite size_singleton.
    + intros x ->%elem_of_singleton. exists O. split; [lia | by constructor].
  - assert (c ∉ X) as Hfresh.
    { intros (k & Hk & Hck)%Hall.
      assert (rooted classes c (S n)) as Hcn by (econstructor; eauto).
      pose proof (rooted_inj _ _ _ Hck Hcn). lia. }
    exists ({[ c ]} ∪ X). split_and!.
    + destruct Hc as (cl & Hc & _).
      apply union_subseteq. split; [| done].
      apply singleton_subseteq_l, elem_of_dom. eauto.
    + rewrite size_union by set_solver. rewrite size_singleton. lia.
    + intros x [->%elem_of_singleton | Hx]%elem_of_union.
      * exists (S n). split; [lia | econstructor; eauto].
      * destruct (Hall x Hx) as (k & Hk & Hxk). exists k. split; [lia | done].
Qed.

Lemma rooted_lt_size c n : rooted classes c n → (n < size classes)%nat.
Proof.
  intros (X & Hsub & Hsz & _)%rooted_chain_set.
  apply subseteq_size in Hsub. rewrite size_dom in Hsub. lia.
Qed.

(** With enough fuel for the links up to the root, the loop returns, and
    returns whether [base] is on the chain. *)
Lemma ExceptIsDerived_loop_rooted c n base fuel :
  rooted classes c n → (n ≤ fuel)%nat →
  ∃ b, ExceptIsDerived_loop fuel classes c base = Some b ∧
       (b = true ↔ on_chain classes c base).
Proof.
  intros Hn. revert fuel.
  induction Hn as [c (cl & Hc & Hp) | c p n (cl & Hc & Hp) Hr IH]; intros fuel Hfuel.
  - exists (bool_decide (c = base)). split.
    + destruct fuel; simpl; by rewrite Hc, Hp.
    + rewrite bool_decide_eq_true. split.
      * intros ->. constructor.
      * inversion 1 as [| ? q ? Hq]; [done |].
        destruct Hq as (cl' & Hc' & Hp'). congruence.
  - destruct fuel as [| fuel]; [lia |].
    simpl. rewrite Hc, Hp. destruct (decide (c = base)) as [-> | Hne].
    + exists true. split; [done |]. split; [constructor | done].
    + destruct (IH fuel ltac:(lia)) as (b & Hb & Hiff).
      exists b. split; [done |]. rewrite Hiff. split.
      * intros Hon. econstructor; [exists cl; eauto | done].
      * inversion 1 as [| ? q ? Hq Hon]; [done |]. subst.
        destruct Hq as (cl' & Hc' & Hp'). congruence.
Qed.

Lemma ExceptIsDerived_rooted c n base :
  rooted classes c n →
  ∃ b, ExceptIsDerived classes c base = Some b ∧ (b = true ↔ on_chain classes c base).
Proof.
  intros Hn. apply ExceptIsDerived_loop_rooted with (n := n); [done |].
  apply rooted_lt_size in Hn. lia.
Qed.

Lemma ExceptIsDerived_loop_refl fuel c :
  is_Some (classes !! c) → ExceptIsDerived_loop fuel classes c c = Some true.
Proof.
  intros [cl Hc]. destruct fuel; simpl; rewrite Hc; destruct (c_parent cl);
    by rewrite ?decide_True, ?bool_decide_eq_true_2.
Qed.
End class_registry.

(** C1. For a class [C] whose parent links lead to a root (a record with
    empty parent link) and any class [P]: [ExceptIsDerived C C] returns true;
    [ExceptIsDerived C P] returns, and returns true if and only if [P] occurs
    on the chain of parent links that starts at [C], [C] included. *)
Theorem ExceptIsDerived_reflexive_chain (classes : gmap nat Class) (C P : ClassRef) (n : nat) :
  rooted classes C n →
  ExceptIsDerived classes C C = Some true ∧
  ∃ b, ExceptIsDerived classes C P = Some b ∧ (b = true ↔ on_chain classes C P).
Proof.
  intros Hn. split.
  - apply ExceptIsDerived_loop_refl.
    inversion Hn as [? (cl & Hc & _) | ? ? ? (cl & Hc & _)]; eauto.
  - by apply ExceptIsDerived_rooted with (n := n).
Qed.

(** ** The rethrow test, step by step *)

Example rethrow_caught_current :
  (λ ex, (e_state ex, e_scope ex, e_class ex, e_pData ex, e_line ex))
    <$> current linux_single rethrow_caught
  = Some (CAUGHT, CATCH, Some Exception, StrPtr "Hello", 574).
Proof. vm_compute. reflexivity. Qed.

Example rethrow_propagated_current :
  (λ ex, (e_state ex, e_scope ex, e_class ex, e_pData ex, e_line ex))
    <$> current linux_single rethrow_propagated
  = Some (PENDING, TRY, Some Exception, StrPtr "Hello", 574).
Proof. vm_compute. reflexivity. Qed.

(** ** The class tree of the package *)

Lemma test_classes_dom :
  dom test_classes = list_to_set (seq 1 13).
Proof. vm_compute. reflexivity. Qed.

(** Every class of the package and of the test program leads to a root. *)
Lemma test_classes_rooted (c : ClassRef) :
  is_Some (test_classes !! c) → ∃ n, rooted test_classes c n.
Proof.
  intros Hc%elem_of_dom. rewrite test_classes_dom in Hc.
  assert (Hroot : ∀ c name, test_classes !! c = Some (except_class_define name None) →
                            rooted test_classes c 0).
  { intros c' name H'. constructor. eexists. split; [exact H' | done]. }
  assert (Hchild : ∀ c p name n, test_classes !! c = Some (except_class_define name (Some p)) →
                                 rooted test_classes p n → rooted test_classes c (S n)).
  { intros c' p name n H' Hp. econstructor; [| exact Hp]. eexists. split; [exact H' | done]. }
  pose proof (Hroot Throwable _ eq_refl) as H1.
  pose proof (Hchild Exception _ _ _ eq_refl H1) as H2.
  pose proof (Hchild RuntimeException _ _ _ eq_refl H2) as H5.
  pose proof (Hchild Level1Exception _ _ _ eq_refl H2) as H12.
  simpl in Hc. set_unfold in Hc.
  destruct Hc as [-> | [-> | [-> | [-> | [-> | [-> | [-> | [-> | [-> | [-> | [-> | [-> | [-> | []]]]]]]]]]]]]].
  - by exists 0%nat.
  - by exists 1%nat.
  - exists 2%nat. exact (Hchild OutOfMemoryError _ _ _ eq_refl H2).
  - exists 2%nat. exact (Hchild FailedAssertion _ _ _ eq_refl H2).
  - by exists 2%nat.
  - exists 3%nat. exact (Hchild AbnormalTermination _ _ _ eq_refl H5).
  - exists 3%nat. exact (Hchild ArithmeticException _ _ _ eq_refl H5).
  - exists 3%nat. exact (Hchild IllegalInstruction _ _ _ eq_refl H5).
  - exists 3%nat. exact (Hchild SegmentationFault _ _ _ eq_refl H5).
  - exists 3%nat. exact (Hchild BusError _ _ _ eq_refl H5).
  - exists 0%nat. exact (Hroot ReturnEvent _ eq_refl).
  - by exists 2%nat.
  - exists 3%nat. exact (Hchild Level2Exception _ _ _ eq_refl H12).
Qed.

Lemma SegmentationFault_rooted : rooted test_classes SegmentationFault 3.
Proof.
  apply rooted_child with (p := RuntimeException); [by eexists |].
  apply rooted_child with (p := Exception); [by eexists |].
  apply rooted_child with (p := Throwable); [by eexists |].
  apply rooted_root. by eexists.
Defined.

Lemma ExceptIsDerived_reflexive_chain_witness :
  ExceptIsDerived test_classes SegmentationFault SegmentationFault = Some true ∧
  ∃ b, ExceptIsDerived test_classes SegmentationFault Exception = Some b ∧
       (b = true ↔ on_chain test_classes SegmentationFault Exception).
Proof.
  exact (ExceptIsDerived_reflexive_chain test_classes SegmentationFault Exception 3
           SegmentationFault_rooted).
Defined.

(** Inheritance works in the right direction ("Test.c"): a Level2Exception
    is a Level1Exception, not the other way round. *)
Example ExceptIsDerived_Level2_Level1 :
  ExceptIsDerived test_classes Level2Exception Level1Exception = Some true ∧
  ExceptIsDerived test_classes Level1Exception Level2Exception = Some false ∧
  ExceptIsDerived test_classes ReturnEvent Throwable = Some false.
Proof. vm_compute. done. Qed.

(** ** ExceptCatch *)

Lemma resolve_pC_Some cfg w r : resolve_pC cfg w (Some r) = Some r.
Proof. done. Qed.

(** C2, as amended. ExceptCatch on a top frame whose state is PENDING or
    CAUGHT: if the state is PENDING and the class of the exception is derived
    from the class of the clause, the state becomes CAUGHT and true is
    returned; if it is PENDING and the class is not derived, false is
    returned and nothing changes; if it is CAUGHT already, true is returned
    and nothing changes. *)
Theorem ExceptCatch_pending_or_caught (cfg : Config) (w : World) (pC : option ContextRef)
    (r : ContextRef) (top : nat) (ex : Except) (class c : ClassRef) (derived : bool) :
  resolve_pC cfg w pC = Some r →
  deref_pEx w r = Some (top, ex) →
  e_state ex = PENDING ∨ e_state ex = CAUGHT →
  e_class ex = Some c →
  ExceptIsDerived (classes w) c class = Some derived →
  ExceptCatch cfg w pC class =
    match e_state ex, derived with
    | PENDING, true =>
        (set_handles (<[top := set_state CAUGHT ex]> (handles w)) w, Return true)
    | PENDING, false => (w, Return false)
    | _, _ => (w, Return true)
    end.
Proof.
  intros Hr Hex Hst Hc Hd. unfold ExceptCatch. rewrite Hr. simpl. rewrite Hex.
  destruct Hst as [Hst | Hst]; rewrite Hst; simpl.
  - rewrite Hc. simpl. rewrite Hd. by destruct derived.
  - done.
Qed.

Lemma ExceptCatch_pending_or_caught_witness :
  ExceptCatch linux_single rethrow_thrown (Some defaultContext_ref) Exception =
    (set_handles (<[2%nat := set_state CAUGHT rethrow_thrown_handle]> (handles rethrow_thrown))
       rethrow_thrown, Return true).
Proof.
  apply (ExceptCatch_pending_or_caught linux_single rethrow_thrown
           (Some defaultContext_ref) defaultContext_ref 2%nat
           rethrow_thrown_handle Exception Exception true).
  - reflexivity.
  - vm_compute. reflexivity.
  - left. vm_compute. reflexivity.
  - vm_compute. reflexivity.
  - vm_compute. reflexivity.
Defined.

(** The row of the specification does not hold: on the frame of the rethrow
    test that has caught its Exception (state CAUGHT), ExceptCatch returns
    true where the row says false. *)
Lemma catch_match_as_specified_fails : ¬ catch_match_as_specified.
Proof.
  intros H.
  specialize (H linux_single rethrow_caught defaultContext_ref 2%nat
                (default Except_zero (current linux_single rethrow_caught))
                Exception Exception true).
  assert (ExceptCatch linux_single rethrow_caught (Some defaultContext_ref) Exception
          = (rethrow_caught, Return true)) as Hrun by (vm_compute; reflexivity).
  rewrite Hrun in H.
  assert ((rethrow_caught, @Return bool true) = (rethrow_caught, Return false)) as Habs.
  { apply H.
    - vm_compute. reflexivity.
    - right. vm_compute. reflexivity.
    - vm_compute. reflexivity.
    - vm_compute. reflexivity. }
  discriminate Habs.
Qed.

(** C10. If the state of the top frame is CAUGHT already, ExceptCatch
    returns true for every class, derived or not, and leaves the store as it
    is: the state and the descriptor of the exception with it. *)
Theorem ExceptCatch_already_caught (cfg : Config) (w : World) (pC : option ContextRef)
    (r : ContextRef) (top : nat) (ex : Except) (class : ClassRef) :
  resolve_pC cfg w pC = Some r →
  deref_pEx w r = Some (top, ex) →
  e_state ex = CAUGHT →
  ExceptCatch cfg w pC class = (w, Return true).
Proof.
  intros Hr Hex Hst. unfold ExceptCatch. rewrite Hr. simpl. rewrite Hex, Hst. done.
Qed.

(** The caught Exception of the rethrow test is not a SegmentationFault, and
    yet a clause for SegmentationFault would be taken. *)
Lemma ExceptCatch_already_caught_witness :
  ExceptIsDerived (classes rethrow_caught) Exception SegmentationFault = Some false ∧
  ExceptCatch linux_single rethrow_caught (Some defaultContext_ref) SegmentationFault
  = (rethrow_caught, Return true).
Proof.
  split; [vm_compute; reflexivity |].
  apply (ExceptCatch_already_caught linux_single rethrow_caught (Some defaultContext_ref)
           defaultContext_ref 2%nat (default Except_zero (current linux_single rethrow_caught))).
  - reflexivity.
  - vm_compute. reflexivity.
  - vm_compute. reflexivity.
Defined.

(** ** ExceptThrow outside any 'try' *)


(** Only [stderr] differs between a store and [set_stderr] of it. *)
Lemma set_stderr_frame (v : list string) (w : World) :
  classes (set_stderr v w) = classes w ∧ handles (set_stderr v w) = handles w ∧
  defaultContext (set_stderr v w) = defaultContext w ∧
  pContextHash (set_stderr v w) = pContextHash w ∧
  numThreadsTry (set_stderr v w) = numThreadsTry w ∧
  dispositions (set_stderr v w) = dispositions w ∧
  stderr (set_stderr v w) = v.
Proof. by destruct w. Qed.


Example lost_message_text :
  lost_message "Exception" "Test.c" 43
  = ("Exception lost: file " ++ dquote ++ "Test.c" ++ dquote ++ ", line 43." ++ newline)%string.
Proof. reflexivity. Qed.

(** ** The signal handler *)

Lemma signal_class_traps (cfg : Config) (number : Z) (class : ClassRef) :
  NoDup (traps cfg).*1 → (number, class) ∈ traps cfg → signal_class cfg number = Some class.
Proof.
  unfold traps, signal_class. intros Hnd Hin.
  rewrite !decide_bool_decide.
  destruct (SIGBUS cfg) as [sigbus |]; simpl in *;
    repeat (apply NoDup_cons in Hnd as [? Hnd]);
    repeat (apply elem_of_cons in Hin as [[= -> ->] | Hin]);
    try (by apply elem_of_nil in Hin);
    repeat first [ rewrite bool_decide_eq_true_2 by done
                 | rewrite bool_decide_eq_false_2 by set_solver ];
    done.
Qed.

(** C8. Delivered one of the trap signals, the handler installs itself
    again for that signal, stores the signal number in the class that belongs
    to the signal (AbnormalTermination for the abort signal, ArithmeticException
    for FP, IllegalInstruction, SegmentationFault, BusError), and calls
    ExceptThrow with no context, that class, no data, file "?" and line 0. *)
Theorem ExceptThrowSignal_trap (cfg : Config) (w : World) (number : Z) (class : ClassRef)
    (cl : Class) :
  NoDup (traps cfg).*1 →
  (number, class) ∈ traps cfg →
  classes w !! class = Some cl →
  let w' := set_classes (<[class := set_signalNumber number cl]> (classes w))
              (set_dispositions (<[number := ExceptThrowSignal_handler]> (dispositions w)) w) in
  dispositions w' !! number = Some ExceptThrowSignal_handler ∧
  c_signalNumber <$> classes w' !! class = Some number ∧
  ExceptThrowSignal cfg w number
  = ExceptThrow cfg w' None (ClassPtr class) NULL (Some "?") 0.
Proof.
  intros Hnd Hin Hcl w'. split_and!.
  - subst w'. destruct w; simpl. apply lookup_insert_eq.
  - subst w'. destruct w; simpl. rewrite lookup_insert_eq. by destruct cl.
  - unfold ExceptThrowSignal. rewrite (signal_class_traps _ _ _ Hnd Hin).
    unfold signal. simpl.
    replace (classes (set_dispositions _ w)) with (classes w) by (by destruct w).
    rewrite Hcl. done.
Qed.

(** A segmentation fault in the 'try' block of the outer 'try' of the test
    ("Test.c" dereferences a null pointer there). *)
Lemma ExceptThrowSignal_trap_witness :
  let cl := except_class_define "SegmentationFault" (Some RuntimeException) in
  let w' := set_classes (<[SegmentationFault := set_signalNumber 11 cl]> (classes rethrow_outer_try))
              (set_dispositions (<[11 := ExceptThrowSignal_handler]> (dispositions rethrow_outer_try))
                 rethrow_outer_try) in
  dispositions w' !! 11 = Some ExceptThrowSignal_handler ∧
  c_signalNumber <$> classes w' !! SegmentationFault = Some 11 ∧
  ExceptThrowSignal linux_single rethrow_outer_try 11
  = ExceptThrow linux_single w' None (ClassPtr SegmentationFault) NULL (Some "?") 0.
Proof.
  apply (ExceptThrowSignal_trap linux_single rethrow_outer_try 11 SegmentationFault).
  - apply (bool_decide_unpack _). vm_compute. exact I.
  - apply (bool_decide_unpack _). vm_compute. exact I.
  - vm_compute. reflexivity.
Defined.

(** What that throw does: the frame holds a pending SegmentationFault with
    file "?" and line 0, and control goes to the 'catch' clauses. *)
Example ExceptThrowSignal_segv_in_try :
  let r := ExceptThrowSignal linux_single rethrow_outer_try 11 in
  r.2 = LongJmp (jb_try 1) ∧
  (λ ex, (e_state ex, e_class ex, e_pData ex, e_file ex, e_line ex)) <$> current linux_single r.1
  = Some (PENDING, Some SegmentationFault, NULL, Some "?", 0).
Proof. vm_compute. done. Qed.

(** ** Reading and writing the store *)

Lemma read_context_set_handles h w r : read_context (set_handles h w) r = read_context w r.
Proof. by destruct w, r. Qed.

Lemma read_context_set_stderr v w r : read_context (set_stderr v w) r = read_context w r.
Proof. by destruct w, r. Qed.

Lemma handles_set_handles h w : handles (set_handles h w) = h.
Proof. by destruct w. Qed.

Lemma classes_set_handles h w : classes (set_handles h w) = classes w.
Proof. by destruct w. Qed.

Lemma handles_write_context r c w : handles (write_context r c w) = handles w.
Proof. by destruct w, r. Qed.

Lemma classes_write_context r c w : classes (write_context r c w) = classes w.
Proof. by destruct w, r. Qed.

Lemma read_write_context w r c c0 :
  read_context w r = Some c0 → read_context (write_context r c w) r = Some c.
Proof.
  destruct w, r as [| t]; simpl; [done |].
  destruct pContextHash0 as [h |]; simpl; [| done].
  intros _. apply lookup_insert_eq.
Qed.

Lemma deref_pEx_Some w r top ex :
  deref_pEx w r = Some (top, ex) ↔
  ∃ ctx, read_context w r = Some ctx ∧ pEx ctx = Some top ∧ handles w !! top = Some ex.
Proof.
  unfold deref_pEx. split.
  - destruct (read_context w r) as [ctx |]; simpl; [| done].
    destruct (pEx ctx) as [t |] eqn:Hp; simpl; [| done].
    destruct (handles w !! t) as [e |] eqn:He; simpl; [| done].
    intros [= <- <-]. by exists ctx.
  - intros (ctx & -> & Hp & He). simpl. rewrite Hp. simpl. by rewrite He.
Qed.

(** After an assignment to a member of the current handle, [pC->pEx] still
    points to that handle, which now holds the assigned value. *)
Lemma deref_pEx_insert w r top ex ex' :
  deref_pEx w r = Some (top, ex) →
  deref_pEx (set_handles (<[top := ex']> (handles w)) w) r = Some (top, ex').
Proof.
  intros (ctx & Hc & Hp & He)%deref_pEx_Some. apply deref_pEx_Some.
  exists ctx. rewrite read_context_set_handles, handles_set_handles, lookup_insert_eq. done.
Qed.

Lemma update_pEx_Some f w r top ex :
  deref_pEx w r = Some (top, ex) →
  update_pEx f w r = Some (set_handles (<[top := f top ex]> (handles w)) w).
Proof. intros H. unfold update_pEx. by rewrite H. Qed.

Lemma ExceptGetContext_set_handles cfg h w pC :
  ExceptGetContext cfg (set_handles h w) pC = ExceptGetContext cfg w pC.
Proof. by destruct w. Qed.

Lemma resolve_pC_set_handles cfg h w pC :
  resolve_pC cfg (set_handles h w) pC = resolve_pC cfg w pC.
Proof. destruct pC; [done | apply ExceptGetContext_set_handles]. Qed.

Lemma LifoCount_cons x l : LifoCount (x :: l) ≠ 0.
Proof. unfold LifoCount. simpl. lia. Qed.

Lemma LifoPeek_top x l : LifoPeek (x :: l) 1 = Some x.
Proof.
  unfold LifoPeek. rewrite decide_True; [done |].
  unfold LifoCount. simpl. lia.
Qed.

(** ** ExceptThrow inside a 'try' statement *)

(** With a frame on the stack, ExceptThrow stores the exception in the
    current handle (unless the first member of what it is given reads zero),
    marks it PENDING and jumps as the scope says. *)
Lemma ExceptThrow_in_frame cfg w pC r ctx x stack top ex p nr pData file line :
  resolve_pC cfg w pC = Some r →
  read_context w r = Some ctx →
  exStack ctx = Some (x :: stack) →
  pEx ctx = Some top →
  handles w !! top = Some ex →
  read_notRethrown w p = Some nr →
  ExceptThrow cfg w pC p pData file line =
    match (if decide (nr = 0) then Some ex else throw_store p pData file line ex) with
    | Some ex' =>
        (set_handles (<[top := set_state PENDING ex']> (handles w)) w, throw_dispatch ex')
    | None => (w, Fault)
    end.
Proof.
  intros Hr Hctx Hst Hp Hex Hnr. unfold ExceptThrow.
  rewrite Hr, Hctx, Hst. rewrite decide_False by apply LifoCount_cons.
  rewrite Hnr. replace (deref_pEx w r) with (Some (top, ex)); [done |].
  symmetry. apply deref_pEx_Some. eauto.
Qed.

Lemma descriptor_set_state s ex : descriptor (set_state s ex) = descriptor ex.
Proof. by destruct ex. Qed.

Lemma descriptor_throw_store c pData file line ex ex' :
  throw_store (ClassPtr c) pData file line ex = Some ex' →
  descriptor ex' = (Some c, pData, file, line) ∧
  e_scope ex' = e_scope ex ∧ e_throwBuf ex' = e_throwBuf ex ∧ e_finalBuf ex' = e_finalBuf ex.
Proof. intros [= <-]. by destruct ex. Qed.

(** ** ExceptFinally at an inner level: propagation *)

(** The inner level with a pending exception, in full. *)
Lemma ExceptFinally_inner_pending (cfg : Config) (w : World) (pC : option ContextRef)
    (r : ContextRef) (ctx : Context) (popped below : nat) (rest : list nat)
    (ex outer : Except) (c : ClassRef) (cl : Class) :
  resolve_pC cfg w pC = Some r →
  read_context w r = Some ctx →
  exStack ctx = Some (popped :: below :: rest) →
  popped ≠ below →
  handles w !! popped = Some ex →
  handles w !! below = Some outer →
  e_state ex = PENDING →
  e_class ex = Some c →
  ¬ (c = ReturnEvent ∧ e_first ex = true) →
  classes w !! c = Some cl →
  c_notRethrown cl = 1 →
  ∃ (w' : World) (outer' : Except),
    ExceptFinally cfg w pC
    = (w', match e_scope outer with
           | TRY => LongJmp (e_throwBuf outer)
           | CATCH | FINALLY => LongJmp (e_finalBuf outer)
           | OUTSIDE | INTERNAL => Return 0
           end) ∧
    deref_pEx w' r = Some (below, outer') ∧
    handles w' !! popped = None ∧
    exStack <$> read_context w' r = Some (Some (below :: rest)) ∧
    e_state outer' = PENDING ∧
    descriptor outer' = (Some c, e_pData ex, e_file ex, e_line ex) ∧
    ∀ class : ClassRef,
      ExceptIsDerived (classes w) c class = Some true →
      ∃ (w'' : World) (e : Except),
        ExceptCatch cfg w' (Some r) class = (w'', Return true) ∧
        deref_pEx w'' r = Some (below, e) ∧
        e_state e = CAUGHT ∧
        descriptor e = (Some c, e_pData ex, e_file ex, e_line ex).
Proof.
  intros Hr Hctx Hst Hne Hex Hout Hpend Hc Hret Hcl Hnr.
  set (w1 := set_handles (delete popped (handles w)) w).
  set (ctx' := set_pEx (Some below) (set_exStack (Some (below :: rest)) ctx)).
  set (w2 := write_context r ctx' w1).
  assert (read_context w2 r = Some ctx') as Hctx2.
  { apply read_write_context with (c0 := ctx). subst w1. by rewrite read_context_set_handles. }
  assert (handles w2 = delete popped (handles w)) as Hh2.
  { subst w2 w1. by rewrite handles_write_context, handles_set_handles. }
  assert (classes w2 = classes w) as Hc2.
  { subst w2 w1. by rewrite classes_write_context, classes_set_handles. }
  destruct (throw_store (ClassPtr c) (e_pData ex) (e_file ex) (e_line ex) outer)
    as [stored |] eqn:Hstore; [| done].
  destruct (descriptor_throw_store _ _ _ _ _ _ Hstore) as (Hd & Hsc & Htb & Hfb).
  set (w3 := set_handles (<[below := set_state PENDING stored]> (handles w2)) w2).
  assert (ExceptThrow cfg w2 (Some r) (ClassPtr c) (e_pData ex) (e_file ex) (e_line ex)
          = (w3, throw_dispatch stored)) as Hthrow.
  { rewrite (ExceptThrow_in_frame cfg w2 (Some r) r ctx' below rest below outer
               (ClassPtr c) 1); try done.
    - rewrite decide_False by done. by rewrite Hstore.
    - subst ctx'. by destruct ctx.
    - subst ctx'. by destruct ctx.
    - rewrite Hh2. by rewrite lookup_delete_ne.
    - simpl. rewrite Hc2, Hcl. simpl. by rewrite Hnr. }
  assert (deref_pEx w3 r = Some (below, set_state PENDING stored)) as Hderef.
  { subst w3. apply deref_pEx_insert with (ex := outer). apply deref_pEx_Some.
    exists ctx'. split_and!; [done | subst ctx'; by destruct ctx |].
    rewrite Hh2. by rewrite lookup_delete_ne. }
  exists w3, (set_state PENDING stored). split_and!.
  - unfold ExceptFinally. rewrite Hr. simpl. rewrite Hctx. simpl. rewrite Hst. simpl.
    rewrite Hex, LifoPeek_top.
    fold w1. fold ctx'. fold w2. unfold finally_inner.
    rewrite decide_True by done. rewrite Hc.
    replace (bool_decide (Some c = Some ReturnEvent) && e_first ex) with false.
    + rewrite Hthrow. unfold throw_dispatch. rewrite Hsc, Htb, Hfb.
      by destruct (e_scope outer).
    + symmetry. apply andb_false_iff.
      destruct (decide (c = ReturnEvent)) as [-> | Hn].
      * right. destruct (e_first ex); [| done]. by destruct Hret.
      * left. apply bool_decide_eq_false. congruence.
  - done.
  - subst w3. rewrite handles_set_handles, Hh2.
    rewrite lookup_insert_ne by done. apply lookup_delete_eq.
  - subst w3. rewrite read_context_set_handles, Hctx2. subst ctx'. by destruct ctx.
  - by destruct stored.
  - by rewrite descriptor_set_state.
  - intros class Hder.
    exists (set_handles (<[below := set_state CAUGHT (set_state PENDING stored)]> (handles w3)) w3),
           (set_state CAUGHT (set_state PENDING stored)).
    split_and!.
    + unfold ExceptCatch. simpl. rewrite Hderef.
      rewrite decide_True by (by destruct stored).
      replace (e_class (set_state PENDING stored)) with (Some c)
        by (destruct stored; by injection Hd).
      simpl. subst w3. rewrite classes_set_handles, Hc2, Hder. done.
    + by apply deref_pEx_insert with (ex := set_state PENDING stored).
    + by destruct stored.
    + rewrite !descriptor_set_state. done.
Qed.

(** C3. ExceptFinally pops a PENDING frame while another frame remains on
    the stack, and the exception is not a ReturnEvent of a first 'try': the
    popped handle is freed, and the exception is thrown again into the frame
    that is now on top, with the class, data, file and line it was first
    thrown with; control goes where a throw in that frame goes. A 'catch'
    clause of that frame for a class the exception is derived from then
    matches, and finds this class, data, file and line in the handle. *)
Theorem ExceptFinally_propagates (cfg : Config) (w : World) (pC : option ContextRef)
    (r : ContextRef) (ctx : Context) (popped below : nat) (rest : list nat)
    (ex outer : Except) (c : ClassRef) (cl : Class) :
  resolve_pC cfg w pC = Some r →
  read_context w r = Some ctx →
  exStack ctx = Some (popped :: below :: rest) →
  popped ≠ below →
  handles w !! popped = Some ex →
  handles w !! below = Some outer →
  e_state ex = PENDING →
  e_class ex = Some c →
  ¬ (c = ReturnEvent ∧ e_first ex = true) →
  classes w !! c = Some cl →
  c_notRethrown cl = 1 →
  ∃ (w' : World) (outer' : Except),
    ExceptFinally cfg w pC
    = (w', match e_scope outer with
           | TRY => LongJmp (e_throwBuf outer)
           | CATCH | FINALLY => LongJmp (e_finalBuf outer)
           | OUTSIDE | INTERNAL => Return 0
           end) ∧
    deref_pEx w' r = Some (below, outer') ∧
    handles w' !! popped = None ∧
    exStack <$> read_context w' r = Some (Some (below :: rest)) ∧
    e_state outer' = PENDING ∧
    descriptor outer' = (Some c, e_pData ex, e_file ex, e_line ex) ∧
    ∀ class : ClassRef,
      ExceptIsDerived (classes w) c class = Some true →
      ∃ (w'' : World) (e : Except),
        ExceptCatch cfg w' (Some r) class = (w'', Return true) ∧
        deref_pEx w'' r = Some (below, e) ∧
        e_state e = CAUGHT ∧
        descriptor e = (Some c, e_pData ex, e_file ex, e_line ex).
Proof. apply ExceptFinally_inner_pending. Qed.

(** The inner level of the rethrow test hands its Exception to the outer. *)
Lemma ExceptFinally_propagates_witness :
  ∃ (w' : World) (outer' : Except),
    ExceptFinally linux_single rethrow_rethrown (Some defaultContext_ref)
    = (w', LongJmp (jb_try 1)) ∧
    deref_pEx w' defaultContext_ref = Some (1%nat, outer') ∧
    e_state outer' = PENDING ∧
    descriptor outer' = (Some Exception, StrPtr "Hello", Some "Test.c", 574).
Proof.
  destruct (ExceptFinally_propagates linux_single rethrow_rethrown (Some defaultContext_ref)
              defaultContext_ref (defaultContext rethrow_rethrown) 2%nat 1%nat []
              (handle_at rethrow_rethrown 2) (handle_at rethrow_rethrown 1) Exception
              (except_class_define "Exception" (Some Throwable)))
    as (w' & outer' & Hrun & Hderef & _ & _ & Hstate & Hdesc & _).
  - reflexivity.
  - reflexivity.
  - vm_compute. reflexivity.
  - lia.
  - vm_compute. reflexivity.
  - vm_compute. reflexivity.
  - vm_compute. reflexivity.
  - vm_compute. reflexivity.
  - intros [Hc _]. vm_compute in Hc. lia.
  - vm_compute. reflexivity.
  - reflexivity.
  - exists w', outer'. split_and!; [| done | done |].
    + replace (e_scope (handle_at rethrow_rethrown 1)) with TRY in Hrun
        by (vm_compute; reflexivity).
      exact Hrun.
    + exact Hdesc.
Defined.

(** ** Rethrow *)

(** A throw whose first argument is a handle stores nothing: the handle
    reads 0 where a class reads 1. *)
Lemma ExceptThrow_handle cfg w pC r ctx x stack top ex e caught data2 file2 line2 :
  resolve_pC cfg w pC = Some r →
  read_context w r = Some ctx →
  exStack ctx = Some (x :: stack) →
  pEx ctx = Some top →
  handles w !! top = Some ex →
  handles w !! e = Some caught →
  e_notRethrown caught = 0 →
  ExceptThrow cfg w pC (ExceptPtr e) data2 file2 line2
  = (set_handles (<[top := set_state PENDING ex]> (handles w)) w, throw_dispatch ex).
Proof.
  intros Hr Hctx Hst Hp Hex He Hnr.
  rewrite (ExceptThrow_in_frame cfg w pC r ctx x stack top ex (ExceptPtr e) 0); try done.
  simpl. rewrite He. simpl. by rewrite Hnr.
Qed.

Lemma finally_scope_top cfg w pC r top ex :
  ExceptGetContext cfg w pC = Some r →
  deref_pEx w r = Some (top, ex) →
  finally_scope cfg w pC
  = (set_handles (<[top := set_scope FINALLY ex]> (handles w)) w, Return ()).
Proof.
  intros Hr Hex. unfold finally_scope. rewrite Hr. simpl.
  by rewrite (update_pEx_Some _ _ _ _ _ Hex).
Qed.

Lemma ready_decrement_top cfg w pC r top ex :
  ExceptGetContext cfg w pC = Some r →
  deref_pEx w r = Some (top, ex) →
  ready_decrement cfg w pC
  = (set_handles (<[top := set_ready (e_ready ex - 1) ex]> (handles w)) w, Return (e_ready ex)).
Proof.
  intros Hr Hex. unfold ready_decrement. rewrite Hr. simpl. rewrite Hex. simpl.
  by rewrite (update_pEx_Some _ _ _ _ _ Hex).
Qed.

Lemma finally_tests_block cfg w pC r top ex :
  ExceptGetContext cfg w pC = Some r →
  deref_pEx w r = Some (top, ex) →
  0 < e_ready ex →
  finally_tests cfg w pC false
  = (set_handles (<[top := set_ready (e_ready ex - 1) ex]> (handles w)) w, Return None).
Proof.
  intros Hr Hex Hready. unfold finally_tests, finally_outer_test. rewrite Hr. simpl.
  rewrite Hex. rewrite decide_True by done.
  by rewrite (ready_decrement_top cfg w pC r top ex).
Qed.

Lemma finally_tests_leave cfg w pC r top ex :
  ExceptGetContext cfg w pC = Some r →
  deref_pEx w r = Some (top, ex) →
  e_ready ex ≤ 0 →
  finally_tests cfg w pC true
  = ExceptFinally cfg (set_handles (<[top := set_ready (e_ready ex - 1) ex]> (handles w)) w) pC
      >>> λ w v, (w, Return (Some v)).
Proof.
  intros Hr Hex Hready. unfold finally_tests.
  rewrite (ready_decrement_top cfg w pC r top ex) by done. cbn [and_then].
  rewrite decide_False by lia. unfold finally_outer_test.
  rewrite ExceptGetContext_set_handles, Hr. simpl.
  rewrite (deref_pEx_insert _ _ _ _ _ Hex).
  rewrite decide_False; [done |]. destruct ex; simpl in *; lia.
Qed.

(** What an assignment to a member of the handle at [top] leaves alone. *)
Lemma assign_frame cfg w top e' :
  let w' := set_handles (<[top := e']> (handles w)) w in
  (∀ r, read_context w' r = read_context w r) ∧
  classes w' = classes w ∧
  (∀ pC, ExceptGetContext cfg w' pC = ExceptGetContext cfg w pC) ∧
  (∀ pC, resolve_pC cfg w' pC = resolve_pC cfg w pC) ∧
  handles w' !! top = Some e' ∧
  (∀ a, a ≠ top → handles w' !! a = handles w !! a).
Proof.
  intros w'. subst w'. split_and!.
  - intros r. apply read_context_set_handles.
  - apply classes_set_handles.
  - intros pC. apply ExceptGetContext_set_handles.
  - intros pC. apply resolve_pC_set_handles.
  - rewrite handles_set_handles. apply lookup_insert_eq.
  - intros a Ha. rewrite handles_set_handles. by apply lookup_insert_ne.
Qed.

(** C5, as amended. A throw inside a 'catch' block whose first argument is
    the handle [e] of that block (a rethrow) stores neither the new data nor
    the new file and line: the frame keeps the class, file, line and data of
    the original throw, is marked PENDING, and control goes to [finalBuf].
    The 'finally' of the statement (with an empty block) then hands this
    class, file, line and data to the enclosing frame. *)
Theorem rethrow_keeps_descriptor (cfg : Config) (w : World) (pC pC_outer : option ContextRef)
    (r : ContextRef) (ctx : Context) (top below : nat) (rest : list nat)
    (ex outer : Except) (c : ClassRef) (cl : Class)
    (data2 : VoidPtr) (file2 : option string) (line2 : Z) :
  resolve_pC cfg w pC = Some r →
  resolve_pC cfg w pC_outer = Some r →
  ExceptGetContext cfg w pC_outer = Some r →
  read_context w r = Some ctx →
  exStack ctx = Some (top :: below :: rest) →
  pEx ctx = Some top →
  top ≠ below →
  handles w !! top = Some ex →
  handles w !! below = Some outer →
  e_notRethrown ex = 0 →
  e_scope ex = CATCH →
  e_ready ex = 1 →
  e_class ex = Some c →
  ¬ (c = ReturnEvent ∧ e_first ex = true) →
  classes w !! c = Some cl →
  c_notRethrown cl = 1 →
  ∃ (w1 : World) (ex1 : Except),
    throw_macro cfg w pC (ExceptPtr top) data2 file2 line2 = (w1, LongJmp (e_finalBuf ex)) ∧
    deref_pEx w1 r = Some (top, ex1) ∧
    e_state ex1 = PENDING ∧
    descriptor ex1 = descriptor ex ∧
    ∃ (w2 : World) (o : Outcome (option Z)) (outer' : Except),
      finally_macro_empty cfg w1 pC_outer = (w2, o) ∧
      deref_pEx w2 r = Some (below, outer') ∧
      e_state outer' = PENDING ∧
      descriptor outer' = descriptor ex.
Proof.
  intros Hr Hro Hgo Hctx Hst Hp Hne Hex Hout Hnr Hsc Hready Hc Hret Hcl Hcnr.
  assert (deref_pEx w r = Some (top, ex)) as Hd0 by (apply deref_pEx_Some; eauto).
  set (ex1 := set_state PENDING ex).
  set (w1 := set_handles (<[top := ex1]> (handles w)) w).
  destruct (assign_frame cfg w top ex1) as (Hrc1 & Hcl1 & Hg1 & Hr1 & Ht1 & Ho1). fold w1 in Hrc1, Hcl1, Hg1, Hr1, Ht1, Ho1.
  assert (deref_pEx w1 r = Some (top, ex1)) as Hd1 by (by apply deref_pEx_insert with (ex := ex)).
  exists w1, ex1. split_and!.
  { unfold throw_macro.
    rewrite (ExceptThrow_handle cfg w pC r ctx top (below :: rest) top ex top ex); try done.
    unfold throw_dispatch. by rewrite Hsc. }
  { done. }
  { subst ex1. by destruct ex. }
  { apply descriptor_set_state. }
  set (ex2 := set_scope FINALLY ex1).
  set (w2 := set_handles (<[top := ex2]> (handles w1)) w1).
  destruct (assign_frame cfg w1 top ex2) as (Hrc2 & Hcl2 & Hg2 & Hr2 & Ht2 & Ho2). fold w2 in Hrc2, Hcl2, Hg2, Hr2, Ht2, Ho2.
  assert (deref_pEx w2 r = Some (top, ex2)) as Hd2 by (by apply deref_pEx_insert with (ex := ex1)).
  set (ex3 := set_ready (e_ready ex2 - 1) ex2).
  set (w3 := set_handles (<[top := ex3]> (handles w2)) w2).
  destruct (assign_frame cfg w2 top ex3) as (Hrc3 & Hcl3 & Hg3 & Hr3 & Ht3 & Ho3). fold w3 in Hrc3, Hcl3, Hg3, Hr3, Ht3, Ho3.
  assert (deref_pEx w3 r = Some (top, ex3)) as Hd3 by (by apply deref_pEx_insert with (ex := ex2)).
  set (ex4 := set_ready (e_ready ex3 - 1) ex3).
  set (w4 := set_handles (<[top := ex4]> (handles w3)) w3).
  destruct (assign_frame cfg w3 top ex4) as (Hrc4 & Hcl4 & Hg4 & Hr4 & Ht4 & Ho4). fold w4 in Hrc4, Hcl4, Hg4, Hr4, Ht4, Ho4.
  assert (e_ready ex2 = 1) as Hready2 by (subst ex2 ex1; by destruct ex).
  assert (e_ready ex3 = 0) as Hready3 by (subst ex3; rewrite Hready2; by destruct ex2).
  destruct (ExceptFinally_inner_pending cfg w4 pC_outer r ctx top below rest ex4 outer c cl)
    as (w5 & outer' & Hrun & Hd5 & _ & _ & Hst5 & Hdesc5 & _).
  { by rewrite Hr4, Hr3, Hr2, Hr1. }
  { by rewrite Hrc4, Hrc3, Hrc2, Hrc1. }
  { done. }
  { done. }
  { done. }
  { by rewrite Ho4, Ho3, Ho2, Ho1. }
  { subst ex4 ex3 ex2 ex1. by destruct ex. }
  { subst ex4 ex3 ex2 ex1. by destruct ex. }
  { intros [-> Hf]. apply Hret. split; [done |]. subst ex4 ex3 ex2 ex1. by destruct ex. }
  { by rewrite Hcl4, Hcl3, Hcl2, Hcl1. }
  { done. }
  exists w5, (match e_scope outer with
              | TRY => LongJmp (e_throwBuf outer)
              | CATCH | FINALLY => LongJmp (e_finalBuf outer)
              | OUTSIDE | INTERNAL => Return (Some 0)
              end), outer'.
  split_and!.
  - unfold finally_macro_empty.
    rewrite (finally_scope_top cfg w1 pC_outer r top ex1) by (by rewrite ?Hg1).
    cbn [and_then]. fold ex2. fold w2.
    rewrite (finally_tests_block cfg w2 pC_outer r top ex2)
      by (rewrite ?Hg2, ?Hg1; first [done | lia]).
    cbn [and_then]. fold ex3. fold w3.
    rewrite (finally_tests_leave cfg w3 pC_outer r top ex3)
      by (rewrite ?Hg3, ?Hg2, ?Hg1; first [done | lia]).
    fold ex4. fold w4. rewrite Hrun. by destruct (e_scope outer).
  - done.
  - done.
  - rewrite Hdesc5. subst ex4 ex3 ex2 ex1. by destruct ex; simpl in *; subst.
Qed.

(** The rethrow test of "Test.c" expects Hello, not there!: after
    [throw (e, "there!")] the frame still holds the data of the first throw. *)
Lemma rethrow_as_specified_fails : ¬ rethrow_as_specified.
Proof.
  intros H.
  destruct (H linux_single rethrow_caught rethrow_rethrown (Some defaultContext_ref)
              defaultContext_ref 2%nat (handle_at rethrow_caught 2) (StrPtr "there!")
              (Some "Test.c") 577 (LongJmp (jb_finally 2)))
    as (ex' & Hderef & _ & _ & _ & Hdata).
  - reflexivity.
  - vm_compute. reflexivity.
  - vm_compute. reflexivity.
  - vm_compute. reflexivity.
  - vm_compute. reflexivity.
  - assert (deref_pEx rethrow_rethrown defaultContext_ref
            = Some (2%nat, handle_at rethrow_rethrown 2)) as Hd by (vm_compute; reflexivity).
    rewrite Hd in Hderef. injection Hderef as <-.
    vm_compute in Hdata. discriminate Hdata.
Qed.

Lemma rethrow_keeps_descriptor_witness :
  ∃ (w1 : World) (ex1 : Except),
    throw_macro linux_single rethrow_caught (Some defaultContext_ref) (ExceptPtr 2)
      (StrPtr "there!") (Some "Test.c") 577 = (w1, LongJmp (jb_finally 2)) ∧
    descriptor ex1 = (Some Exception, StrPtr "Hello", Some "Test.c", 574) ∧
    deref_pEx w1 defaultContext_ref = Some (2%nat, ex1) ∧
    ∃ (w2 : World) (o : Outcome (option Z)) (outer' : Except),
      finally_macro_empty linux_single w1 None = (w2, o) ∧
      deref_pEx w2 defaultContext_ref = Some (1%nat, outer') ∧
      descriptor outer' = (Some Exception, StrPtr "Hello", Some "Test.c", 574).
Proof.
  destruct (rethrow_keeps_descriptor linux_single rethrow_caught (Some defaultContext_ref) None
              defaultContext_ref (defaultContext rethrow_caught) 2%nat 1%nat []
              (handle_at rethrow_caught 2) (handle_at rethrow_caught 1) Exception
              (except_class_define "Exception" (Some Throwable))
              (StrPtr "there!") (Some "Test.c") 577)
    as (w1 & ex1 & Hthrow & Hd1 & _ & Hdesc1 & w2 & o & outer' & Hfin & Hd2 & _ & Hdesc2).
  - reflexivity.
  - reflexivity.
  - reflexivity.
  - reflexivity.
  - vm_compute. reflexivity.
  - vm_compute. reflexivity.
  - lia.
  - vm_compute. reflexivity.
  - vm_compute. reflexivity.
  - vm_compute. reflexivity.
  - vm_compute. reflexivity.
  - vm_compute. reflexivity.
  - vm_compute. reflexivity.
  - intros [Hc _]. vm_compute in Hc. lia.
  - vm_compute. reflexivity.
  - reflexivity.
  - exists w1, ex1. split_and!; [exact Hthrow | exact Hdesc1 | exact Hd1 |].
    exists w2, o, outer'. split_and!; [exact Hfin | exact Hd2 | exact Hdesc2].
Defined.

(** ** ExceptFinally at the outermost level: the default action *)

Lemma same_memory_read_context w w' r : same_memory w w' → read_context w' r = read_context w r.
Proof. intros (_ & _ & Hd & Hh & _). destruct r; simpl; by rewrite ?Hd, ?Hh. Qed.

Lemma signal_same_memory sig h w : same_memory w (signal sig h w).2.
Proof. by destruct w. Qed.

Lemma same_memory_trans w1 w2 w3 : same_memory w1 w2 → same_memory w2 w3 → same_memory w1 w3.
Proof. unfold same_memory. intros (-> & -> & -> & -> & -> & ->) (-> & -> & -> & -> & -> & ->). done. Qed.

Lemma signal_traps_same_memory cfg a f i s b k w : same_memory w (signal_traps cfg a f i s b k w).2.
Proof.
  unfold signal_traps.
  destruct (signal (SIGABRT cfg) a w) as [o1 w1] eqn:H1.
  destruct (signal (SIGFPE cfg) f w1) as [o2 w2] eqn:H2.
  destruct (signal (SIGILL cfg) i w2) as [o3 w3] eqn:H3.
  destruct (signal (SIGSEGV cfg) s w3) as [o4 w4] eqn:H4.
  pose proof (signal_same_memory (SIGABRT cfg) a w) as S1. rewrite H1 in S1.
  pose proof (signal_same_memory (SIGFPE cfg) f w1) as S2. rewrite H2 in S2.
  pose proof (signal_same_memory (SIGILL cfg) i w2) as S3. rewrite H3 in S3.
  pose proof (signal_same_memory (SIGSEGV cfg) s w3) as S4. rewrite H4 in S4.
  simpl in *.
  assert (same_memory w w4) as S by eauto using same_memory_trans.
  destruct (SIGBUS cfg) as [sigbus |]; [| done].
  pose proof (signal_same_memory sigbus b w4) as S5.
  simpl in *. eauto using same_memory_trans.
Qed.

(** ExceptRestoreHandlers touches the signal dispositions and the thread
    count only, and reports 1 unless the handlers are shared and another
    thread is still inside a 'try'. *)
Lemma ExceptRestoreHandlers_spec cfg w r w' restored :
  ExceptRestoreHandlers cfg w r = Some (w', restored) →
  same_memory w w' ∧
  restored = negb (MULTI_THREADING cfg && SHARE_HANDLERS cfg)
             || bool_decide (numThreadsTry w - 1 = 0).
Proof.
  unfold ExceptRestoreHandlers.
  destruct (MULTI_THREADING cfg && SHARE_HANDLERS cfg) eqn:Hshared; simpl.
  - case_decide as Hn.
    + intros [= <- <-]. split; [| by rewrite bool_decide_eq_true_2].
      eapply same_memory_trans; [| apply signal_traps_same_memory]. by destruct w.
    + intros [= <- <-]. split; [by destruct w | by rewrite bool_decide_eq_false_2].
  - destruct (read_context w r) as [ctx |]; simpl; [| done].
    intros [= <- <-]. split; [apply signal_traps_same_memory | done].
Qed.








(** The four default actions on the single-threaded build: a lost
    Level1Exception; an abort signal that nothing caught ("Test.c" raises
    SIGABRT in a 'try'); a failed assertion; a 'return' out of the 'try'. *)
Example ExceptFinally_four_actions :
  (let r := ExceptFinally linux_single uncaught_thrown None in (r.2, stderr r.1))
  = (Return 0, [lost_message "Level1Exception" "Test.c" 82]) ∧
  (let r := ExceptFinally linux_single uncaught_signal None in (r.2, stderr r.1))
  = (Raise 6, []) ∧
  (let r := ExceptFinally linux_single uncaught_assertion None in (r.2, stderr r.1))
  = (Return 0, [assertion_message false "0" "Test.c" 133]) ∧
  (let r := ExceptFinally linux_single uncaught_return None in (r.2, stderr r.1))
  = (LongJmp (jb_return 7), []).
Proof. vm_compute. done. Qed.

(** ** The debug auditor *)

Section audit_loop.
Variable classes : gmap nat Class.

(** The loop comes to the end of the list exactly when no entry has the
    class of the clause or a class that the class of the clause is derived
    from. *)
Lemma ExceptCheck_loop_end class file line l :
  ExceptCheck_loop classes class file line l = Some None ↔
  ∀ k, k ∈ l → k_class k ≠ class ∧ ExceptIsDerived classes class (k_class k) = Some false.
Proof.
  induction l as [| k0 l IH]; simpl.
  - split; [| done]. intros _ k Hk. by apply elem_of_nil in Hk.
  - destruct (decide (class = k_class k0)) as [-> | Hne].
    + split.
      * by destruct (classes !! k_class k0), file.
      * intros H. destruct (H k0 ltac:(left)) as [Hk _]. done.
    + destruct (ExceptIsDerived classes class (k_class k0)) as [[|] |] eqn:Hd; simpl.
      * split.
        -- by destruct (classes !! class), file, (classes !! k_class k0).
        -- intros H. destruct (H k0 ltac:(left)) as [_ Hk]. congruence.
      * rewrite IH. split.
        -- intros H k [-> | Hk]%elem_of_cons; [done | by apply H].
        -- intros H k Hk. apply H. by right.
      * split; [done |]. intros H. destruct (H k0 ltac:(left)) as [_ Hk]. congruence.
Qed.

Lemma clean_tail l class line :
  clean classes l →
  (∀ k, k ∈ l → k_class k ≠ class ∧ ExceptIsDerived classes class (k_class k) = Some false) →
  clean classes (l ++ [mkCheck class line]).
Proof.
  induction l as [| k0 l IH]; simpl.
  - intros _ _. split; [| done]. intros k Hk. by apply elem_of_nil in Hk.
  - intros [Hk0 Hl] Hall. split.
    + intros k [Hk | ->%list_elem_of_singleton]%elem_of_app; [by apply Hk0 |].
      simpl. destruct (Hall k0 ltac:(left)) as [? ?]. split; [congruence | done].
    + apply IH; [done |]. intros k Hk. apply Hall. by right.
Qed.

Lemma audited_clean l : audited classes l → clean classes l.
Proof.
  induction 1 as [| l class file line _ IH Hloop]; [done |].
  apply clean_tail; [done |]. exact (proj1 (ExceptCheck_loop_end _ _ _ _) Hloop).
Qed.

(** An entry with the class of the clause stops the loop with the warning
    for a duplicate, which names the line of that entry. *)
Lemma ExceptCheck_loop_duplicate class cl file line l k :
  clean classes l →
  classes !! class = Some cl →
  k ∈ l →
  k_class k = class →
  ExceptCheck_loop classes class (Some file) line l
  = Some (Some (duplicate_message (c_name cl) file line (k_line k))).
Proof.
  intros Hclean Hcl. induction l as [| k0 l IH]; intros Hk Hkc.
  - by apply elem_of_nil in Hk.
  - simpl in *. destruct Hclean as [Hk0 Hl].
    apply elem_of_cons in Hk as [-> | Hk].
    + rewrite decide_True by done. by rewrite Hcl.
    + destruct (Hk0 k Hk) as [Hne Hnd]. rewrite Hkc in Hne, Hnd.
      rewrite decide_False by done. rewrite Hnd. simpl. by apply IH.
Qed.

(** Without such an entry, an entry from whose class the class of the
    clause is derived stops the loop with the warning for a superfluous
    clause, which names the first such entry. *)
Lemma ExceptCheck_loop_superfluous class cl file line l :
  classes !! class = Some cl →
  (∀ k, k ∈ l → k_class k ≠ class ∧ is_Some (classes !! k_class k) ∧
                 is_Some (ExceptIsDerived classes class (k_class k))) →
  (∃ k, k ∈ l ∧ ExceptIsDerived classes class (k_class k) = Some true) →
  ∃ k by_cl, k ∈ l ∧ ExceptIsDerived classes class (k_class k) = Some true ∧
    classes !! k_class k = Some by_cl ∧
    ExceptCheck_loop classes class (Some file) line l
    = Some (Some (superfluous_message (c_name cl) file line (c_name by_cl) (k_line k))).
Proof.
  intros Hcl. induction l as [| k0 l IH]; intros Hall (k & Hk & Hd).
  - by apply elem_of_nil in Hk.
  - simpl. destruct (Hall k0 ltac:(left)) as (Hne & [by_cl Hby] & [d Hd0]).
    rewrite decide_False by done. rewrite Hd0. simpl. destruct d.
    + exists k0, by_cl. rewrite Hcl, Hby. simpl. split_and!; [by left | done | done | done].
    + destruct IH as (k' & by' & Hk' & Hd' & Hby' & Hloop).
      * intros k1 Hk1. apply Hall. by right.
      * apply elem_of_cons in Hk as [-> | Hk]; [congruence | eauto].
      * exists k', by'. split_and!; [by right | done | done | done].
Qed.
End audit_loop.

Lemma ExceptCheck_found w r top ex l class file line found :
  deref_pEx w r = Some (top, ex) →
  e_checkList ex = Some l →
  ExceptCheck_loop (classes w) class file line l = Some found →
  ExceptCheck w r false class file line
  = match found with
    | Some text => (fprintf_stderr text w, Return false)
    | None => (store_checkList w top ex (Some (l ++ [mkCheck class line])), Return false)
    end.
Proof.
  intros Hex Hl Hloop. unfold ExceptCheck. rewrite Hex. simpl. rewrite Hl. simpl.
  rewrite Hloop. simpl. by destruct found.
Qed.

(** C9, as amended. A new 'catch' clause is checked against the clauses that the
    auditor has recorded for the 'try' so far (those that drew no warning).
    If one of them has the class of the new clause, the warning for a
    duplicate is written, with the lines of both; else, if the class of the
    new clause is derived from the class of one of them, the warning for a
    superfluous clause is written; else the class and the line are added at
    the tail of the list. When the 'try' is completed with an empty list, the
    warning that there is no catch clause is written, with the file and line
    of the 'try'. *)
Theorem ExceptCheck_audit (w : World) (r : ContextRef) (top : nat) (ex : Except)
    (l : list Check) (class : ClassRef) (cl : Class) (n : nat) (file : string)
    (line try_line : Z) :
  deref_pEx w r = Some (top, ex) →
  e_checkList ex = Some l →
  audited (classes w) l →
  classes w !! class = Some cl →
  rooted (classes w) class n →
  (∀ k, k ∈ l → is_Some (classes w !! k_class k)) →
  (∀ k, k ∈ l → k_class k = class →
     ExceptCheck w r false class (Some file) line
     = (fprintf_stderr (duplicate_message (c_name cl) file line (k_line k)) w, Return false)) ∧
  ((∀ k, k ∈ l → k_class k ≠ class) →
   (∃ k, k ∈ l ∧ ExceptIsDerived (classes w) class (k_class k) = Some true) →
   ∃ k by_cl,
     k ∈ l ∧ ExceptIsDerived (classes w) class (k_class k) = Some true ∧
     classes w !! k_class k = Some by_cl ∧
     ExceptCheck w r false class (Some file) line
     = (fprintf_stderr (superfluous_message (c_name cl) file line (c_name by_cl) (k_line k)) w,
        Return false)) ∧
  ((∀ k, k ∈ l → k_class k ≠ class ∧
                  ExceptIsDerived (classes w) class (k_class k) = Some false) →
   ExceptCheck w r false class (Some file) line
   = (store_checkList w top ex (Some (l ++ [mkCheck class line])), Return false) ∧
   audited (classes w) (l ++ [mkCheck class line])) ∧
  ExceptCheckBegin w r false (Some file) try_line
  = (if decide (l = [])
     then store_checkList (fprintf_stderr (no_catch_message file try_line) w) top ex None
     else store_checkList w top ex None,
     Return true).
Proof.
  intros Hex Hl Haud Hcl Hroot Hin. split_and!.
  - intros k Hk Hkc.
    rewrite (ExceptCheck_found w r top ex l class (Some file) line
               (Some (duplicate_message (c_name cl) file line (k_line k)))); try done.
    apply ExceptCheck_loop_duplicate; try done. by apply audited_clean.
  - intros Hne Hsome.
    destruct (ExceptCheck_loop_superfluous (classes w) class cl file line l Hcl)
      as (k & by_cl & Hk & Hd & Hby & Hloop); [| done |].
    + intros k Hk. split_and!; [by apply Hne | by apply Hin |].
      destruct (ExceptIsDerived_rooted (classes w) class n (k_class k) Hroot) as (b & -> & _).
      eauto.
    + exists k, by_cl. split_and!; try done.
      by rewrite (ExceptCheck_found w r top ex l class (Some file) line _ Hex Hl Hloop).
  - intros Hnone.
    assert (ExceptCheck_loop (classes w) class (Some file) line l = Some None) as Hloop
      by (by apply ExceptCheck_loop_end).
    split.
    + by rewrite (ExceptCheck_found w r top ex l class (Some file) line _ Hex Hl Hloop).
    + by apply audited_tail with (file := Some file).
  - unfold ExceptCheckBegin. rewrite Hex, Hl. by destruct l.
Qed.

Lemma audit_one_audited : audited (classes audit_one) [mkCheck RuntimeException 85].
Proof. apply (audited_tail _ [] RuntimeException None 85); [constructor | reflexivity]. Defined.

Lemma RuntimeException_rooted : rooted (classes audit_one) RuntimeException 2.
Proof.
  apply rooted_child with (p := Exception); [by eexists |].
  apply rooted_child with (p := Throwable); [by eexists |].
  apply rooted_root. by eexists.
Defined.

(** A second [catch (RuntimeException, e)], at line 90. *)
Lemma ExceptCheck_audit_witness :
  ExceptCheck audit_one defaultContext_ref false RuntimeException (Some "Test.c") 90
  = (fprintf_stderr (duplicate_message "RuntimeException" "Test.c" 90 85) audit_one,
     Return false).
Proof.
  destruct (ExceptCheck_audit audit_one defaultContext_ref 1%nat (handle_at audit_one 1)
              [mkCheck RuntimeException 85] RuntimeException
              (except_class_define "RuntimeException" (Some Exception)) 2 "Test.c" 90 80)
    as (Hdup & _).
  - vm_compute. reflexivity.
  - vm_compute. reflexivity.
  - exact audit_one_audited.
  - vm_compute. reflexivity.
  - exact RuntimeException_rooted.
  - intros k ->%list_elem_of_singleton. vm_compute. eauto.
  - apply (Hdup (mkCheck RuntimeException 85)); [by left | reflexivity].
Defined.

(** Every list that the audit pass builds is [audited]. *)
Lemma ExceptCheck_keeps_audited w r top ex l class file line w' b :
  deref_pEx w r = Some (top, ex) →
  e_checkList ex = Some l →
  audited (classes w) l →
  ExceptCheck w r false class file line = (w', Return b) →
  ∃ ex' l', deref_pEx w' r = Some (top, ex') ∧ e_checkList ex' = Some l' ∧
            audited (classes w') l'.
Proof.
  intros Hex Hl Haud. unfold ExceptCheck. rewrite Hex. simpl. rewrite Hl. simpl.
  destruct (ExceptCheck_loop (classes w) class file line l) as [[text |] |] eqn:Hloop; simpl.
  - intros [= <- <-]. exists ex, l. split_and!; [| done | by destruct w].
    apply deref_pEx_Some in Hex as (ctx & ? & ? & ?). apply deref_pEx_Some.
    exists ctx. by destruct w, r.
  - intros [= <- <-].
    exists (set_checkList (Some (l ++ [mkCheck class line])) ex), (l ++ [mkCheck class line]).
    split_and!.
    + by apply deref_pEx_insert with (ex := ex).
    + by destruct ex.
    + unfold store_checkList. rewrite classes_set_handles. by eapply audited_tail.
  - done.
Qed.

Lemma audit_clauses_audited clauses : ∀ w r top ex l file w' b,
  deref_pEx w r = Some (top, ex) →
  e_checkList ex = Some l →
  audited (classes w) l →
  audit_clauses w r clauses file = (w', Return b) →
  ∃ ex' l', deref_pEx w' r = Some (top, ex') ∧ e_checkList ex' = Some l' ∧
            audited (classes w') l'.
Proof.
  induction clauses as [| [class line] rest IH]; intros w r top ex l file w' b Hex Hl Haud;
    cbn [audit_clauses].
  - intros [= <- <-]. eauto.
  - destruct (ExceptCheck w r false class file line) as [w1 [b1 | | | |]] eqn:Hcheck;
      cbn [and_then]; try done.
    destruct (ExceptCheck_keeps_audited _ _ _ _ _ _ _ _ _ _ Hex Hl Haud Hcheck)
      as (ex1 & l1 & Hex1 & Hl1 & Haud1).
    by apply IH with (ex := ex1) (l := l1).
Qed.

(** The audit pass on statements of "Test.c": a clause given twice; clauses
    in the good order; no clause at all. What is written to stderr. *)
Example audit_pass_duplicate :
  stderr (audit_pass single_try defaultContext_ref
            [(Level1Exception, 561); (Level1Exception, 562)] (Some "Test.c") 556).1
  = [duplicate_message "Level1Exception" "Test.c" 562 561].
Proof. vm_compute. reflexivity. Qed.

Example audit_pass_good_order :
  stderr (audit_pass single_try defaultContext_ref
            [(RuntimeException, 490); (Level2Exception, 491); (Level1Exception, 492)]
            (Some "Test.c") 476).1
  = [].
Proof. vm_compute. reflexivity. Qed.

Example audit_pass_no_catch :
  stderr (audit_pass single_try defaultContext_ref [] (Some "Test.c") 99).1
  = [no_catch_message "Test.c" 99].
Proof. vm_compute. reflexivity. Qed.

(** Only recorded clauses count: the third clause below repeats the second,
    which drew a warning and so was not recorded; it is reported as
    superfluous after the first, as the second was. *)
Example audit_pass_repeat_of_unrecorded :
  stderr (audit_pass single_try defaultContext_ref
            [(Exception, 10); (RuntimeException, 12); (RuntimeException, 14)]
            (Some "Test.c") 8).1
  = [superfluous_message "RuntimeException" "Test.c" 12 "Exception" 10;
     superfluous_message "RuntimeException" "Test.c" 14 "Exception" 10].
Proof. vm_compute. reflexivity. Qed.

(** ** The frame state machine *)


Lemma evolves_weaken b ex ex' : evolves b ex ex' → evolves true ex ex'.
Proof. intros (? & ? & ? & ? & ? & ?). by repeat split. Qed.



Lemma quiet_weaken b h h' : quiet b h h' → quiet true h h'.
Proof. intros H a ex' Ha. destruct (H a ex' Ha) as (ex & ? & ?%evolves_weaken). eauto. Qed.











(** What the routines do to the handles. *)
Lemma handles_fprintf_stderr text w : handles (fprintf_stderr text w) = handles w.
Proof. by destruct w. Qed.





Lemma handles_destroy_context cfg r w : handles (destroy_context cfg r w) = handles w.
Proof.
  unfold destroy_context. destruct (MULTI_THREADING cfg); [by destruct w |].
  destruct (read_context w r); [| done]. by rewrite handles_write_context.
Qed.
















Lemma signal_traps_handles cfg a f i s b k w :
  handles (signal_traps cfg a f i s b k w).2 = handles w ∧
  thread_self (signal_traps cfg a f i s b k w).2 = thread_self w.
Proof. by destruct (signal_traps_same_memory cfg a f i s b k w) as (_ & ? & _ & _ & _ & ?). Qed.

Lemma ExceptInstallHandlers_frame cfg w r w' stored :
  ExceptInstallHandlers cfg w r = Some (w', stored) →
  handles w' = handles w ∧ thread_self w' = thread_self w.
Proof.
  unfold ExceptInstallHandlers. destruct (read_context w r) as [ctx |]; simpl; [| done].
  destruct (exStack ctx); [by intros [= <- <-] |].
  destruct (MULTI_THREADING cfg && SHARE_HANDLERS cfg).
  - case_decide.
    + destruct (signal_traps cfg _ _ _ _ _ _ _) as [[[[[a f] i] s] b] w1] eqn:Ht.
      intros [= <- <-].
      pose proof (signal_traps_handles cfg ExceptThrowSignal_handler ExceptThrowSignal_handler
                    ExceptThrowSignal_handler ExceptThrowSignal_handler
                    ExceptThrowSignal_handler
                    (sharedSigBusHandler (set_numThreadsTry (numThreadsTry w + 1)
                       (write_context r (set_exStack (Some []) ctx) w)))
                    (set_numThreadsTry (numThreadsTry w + 1)
                       (write_context r (set_exStack (Some []) ctx) w))) as [Hh Ht'].
      rewrite Ht in Hh, Ht'. simpl in Hh, Ht'.
      split; [destruct w1 | destruct w1]; simpl in *; rewrite ?Hh, ?Ht'; by destruct w, r.
    + intros [= <- <-]. by destruct w, r.
  - destruct (signal_traps cfg _ _ _ _ _ _ _) as [[[[[a f] i] s] b] w1] eqn:Ht.
    intros [= <- <-].
    pose proof (signal_traps_handles cfg ExceptThrowSignal_handler ExceptThrowSignal_handler
                  ExceptThrowSignal_handler ExceptThrowSignal_handler
                  ExceptThrowSignal_handler (sigBusHandler (set_exStack (Some []) ctx)) w)
      as [Hh Ht'].
    rewrite Ht in Hh, Ht'. simpl in Hh, Ht'.
    rewrite handles_write_context. split; [done |]. by destruct w1, r.
Qed.

Lemma ExceptGetContext_thread cfg w t c :
  MULTI_THREADING cfg = true →
  t = thread_self w →
  read_context w (thread_context t) = Some c →
  ExceptGetContext cfg w None = Some (thread_context t).
Proof.
  intros Hmt -> Hc. unfold ExceptGetContext. rewrite Hmt. simpl in Hc.
  destruct (pContextHash w) as [h |]; simpl in Hc; [| done]. by rewrite Hc.
Qed.

(** ExceptTry puts a fresh, zeroed handle on the stack of the context of
    the flow; no other handle changes. *)
Lemma ExceptTry_spec cfg w pC file line w1 :
  valid_pC cfg w pC →
  ExceptTry cfg w pC file line = (w1, Return ()) →
  ∃ r new ctx1,
    ExceptGetContext cfg w1 pC = Some r ∧
    handles w !! new = None ∧
    handles w1 = <[new := set_tryLine line (set_tryFile file
                            (set_first (bool_decide (pC = None)) Except_zero))]> (handles w) ∧
    read_context w1 r = Some ctx1 ∧ pEx ctx1 = Some new.
Proof.
  intros Hvalid. unfold ExceptTry.
  set (w0 := if MULTI_THREADING cfg then _ else w).
  assert (handles w0 = handles w ∧ thread_self w0 = thread_self w) as [Hh0 Ht0].
  { subst w0. destruct (MULTI_THREADING cfg); [| done].
    destruct (pContextHash w); [done | by destruct w]. }
  assert (∀ x, pC = Some x → resolve_pC cfg w0 pC = Some x) as Hres by (by intros x ->).
  destruct (match resolve_pC cfg w0 pC with
            | Some _ => (w0, resolve_pC cfg w0 pC)
            | None => ExceptCreateContext cfg w0
            end) as [wc pCc] eqn:Hc.
  assert (handles wc = handles w ∧ thread_self wc = thread_self w ∧
          (pC = None → MULTI_THREADING cfg = true →
           pCc = Some (thread_context (thread_self w)) ∨ pCc = None) ∧
          (∀ x, pC = Some x → pCc = Some x) ∧
          (MULTI_THREADING cfg = false → pC = None → pCc = Some defaultContext_ref ∨ pCc = None))
    as (Hhc & Htc & Hnone & Hsome & Hsingle).
  { destruct (resolve_pC cfg w0 pC) as [x |] eqn:Hr.
    - injection Hc as <- <-. split_and!.
      + done.
      + done.
      + intros -> Hmt. simpl in Hr. unfold ExceptGetContext in Hr. rewrite Hmt in Hr.
        destruct (pContextHash w0) as [h |]; [| done].
        destruct (h !! thread_self w0); [| done]. injection Hr as <-. left. by rewrite Ht0.
      + intros y Hy. by specialize (Hres y Hy).
      + intros Hmt ->. simpl in Hr. unfold ExceptGetContext in Hr. rewrite Hmt in Hr. by left.
    - unfold ExceptCreateContext in Hc. destruct (MULTI_THREADING cfg) eqn:Hmt.
      + injection Hc as <- <-. split_and!.
        * by destruct w0.
        * by destruct w0.
        * intros _ _. left. by rewrite Ht0.
        * intros y Hy. by specialize (Hres y Hy).
        * done.
      + injection Hc as <- <-. split_and!.
        * done.
        * done.
        * done.
        * intros y Hy. by specialize (Hres y Hy).
        * intros _ _. by right. }
  destruct pCc as [r |]; simpl; [| done].
  destruct (ExceptInstallHandlers cfg wc r) as [[wI stored] |] eqn:Hinst; simpl; [| done].
  destruct (ExceptInstallHandlers_frame _ _ _ _ _ Hinst) as [HhI HtI].
  destruct (read_context wI r) as [ctx |] eqn:Hctx; simpl; [| done].
  destruct (exStack ctx) as [stack |]; simpl; [| done].
  set (new := fresh ({[0%nat]} ∪ dom (handles wI))).
  set (ctx1 := set_exStack _ _).
  intros [= <-].
  assert (read_context (set_handles (<[new := set_tryLine line (set_tryFile file
             (set_first (bool_decide (pC = None)) Except_zero))]> (handles wI))
             (write_context r ctx1 wI)) r = Some ctx1) as Hctx1.
  { rewrite read_context_set_handles. by apply read_write_context with (c0 := ctx). }
  exists r, new, ctx1. split_and!.
  - destruct (MULTI_THREADING cfg) eqn:Hmt.
    + destruct pC as [x |].
      * rewrite (Hsome x eq_refl) in *. unfold ExceptGetContext. rewrite Hmt.
        destruct Hvalid as [? | [_ ?]]; [done |]. by destruct (pContextHash _).
      * destruct (Hnone eq_refl eq_refl) as [[= ->] | ?]; [| done].
        eapply ExceptGetContext_thread; [done | | exact Hctx1].
        rewrite <- Htc, <- HtI. by destruct wI.
    + unfold ExceptGetContext. rewrite Hmt. f_equal.
      destruct pC as [x |].
      * specialize (Hsome x eq_refl). injection Hsome as ->.
        destruct Hvalid as [? | [_ Hx]]; [done |].
        unfold ExceptGetContext in Hx. rewrite Hmt in Hx. by injection Hx.
      * destruct (Hsingle eq_refl eq_refl) as [[= ->] | ?]; done.
  - apply not_elem_of_dom. rewrite <- Hhc, <- HhI.
    pose proof (is_fresh ({[0%nat]} ∪ dom (handles wI))) as Hf. fold new in Hf. set_solver.
  - rewrite handles_set_handles. by rewrite HhI, Hhc.
  - exact Hctx1.
  - subst ctx1. by destruct ctx.
Qed.





(** The rethrow test reaches its stores by 'try', 'try' and 'throw'. *)
Lemma rethrow_thrown_reachable : reachable linux_single rethrow_thrown.
Proof.
  apply reachable_step
    with (w := rethrow_inner_try)
         (op := op_throw (Some defaultContext_ref) (ClassPtr Exception) (StrPtr "Hello")
                  (Some "Test.c") 574).
  - apply reachable_step
      with (w := rethrow_outer_try) (op := op_try (Some defaultContext_ref) (Some "Test.c") 571).
    + apply reachable_step
        with (w := start test_classes) (op := op_try None (Some "Test.c") 570).
      * apply reachable_initial. by repeat split.
      * apply step_try with (r := defaultContext_ref); [by left |].
        vm_compute. reflexivity.
    + apply step_try with (r := defaultContext_ref).
      * right. split; [eauto | reflexivity].
      * vm_compute. reflexivity.
  - apply step_throw with (o := LongJmp (jb_try 2)).
    + right. split; [eauto | reflexivity].
    + vm_compute. reflexivity.
    + discriminate.
Defined.



(** Read on the clauses of the statement, the description of the auditor
    does not hold: a third clause [catch (RuntimeException, e)] at line 14
    repeats the clause of line 12, and yet it is reported as superfluous after
    the clause of line 10, because the clause of line 12 was not recorded. *)
Lemma audit_as_specified_fails : ¬ audit_as_specified.
Proof.
  intros H.
  destruct (H single_try audit_two defaultContext_ref 1%nat (handle_at audit_two 1)
              [mkCheck Exception 10] [(Exception, 10); (RuntimeException, 12)]
              RuntimeException (except_class_define "RuntimeException" (Some Exception))
              "Test.c" 14 8 false) as ((previous & Hin & Hrun) & _).
  - vm_compute. reflexivity.
  - vm_compute. reflexivity.
  - vm_compute. reflexivity.
  - vm_compute. reflexivity.
  - exists 12. set_solver.
  - assert (previous = 12) as ->.
    { apply elem_of_cons in Hin as [Heq | Hin]; [discriminate Heq |].
      apply list_elem_of_singleton in Hin. by injection Hin as <-. }
    apply (f_equal (λ x, stderr x.1)) in Hrun. vm_compute in Hrun. discriminate Hrun.
Qed.

(** * Further properties *)

(** ** More on reading and writing the store *)

Lemma write_context_id w r c : read_context w r = Some c → write_context r c w = w.
Proof.
  destruct r as [| t]; simpl.
  - intros [= <-]. by destruct w.
  - destruct w as [? ? ? [h |] ? ? ? ? ? ? ? ? ?]; simpl; [| done].
    intros Hc. by rewrite insert_id.
Qed.

Lemma write_context_twice r c c' w :
  write_context r c' (write_context r c w) = write_context r c' w.
Proof.
  destruct r as [| t]; destruct w as [? ? ? [h |] ? ? ? ? ? ? ? ? ?]; simpl; try done.
  by rewrite insert_insert_eq.
Qed.

Lemma write_context_set_handles r c h w :
  write_context r c (set_handles h w) = set_handles h (write_context r c w).
Proof. by destruct r, w. Qed.

Lemma set_handles_twice h h' w : set_handles h' (set_handles h w) = set_handles h' w.
Proof. by destruct w. Qed.

Lemma set_handles_id w : set_handles (handles w) w = w.
Proof. by destruct w. Qed.

Lemma ExceptGetScope_top cfg w pC r c top stack ex :
  resolve_pC cfg w pC = Some r →
  read_context w r = Some c →
  exStack c = Some (top :: stack) →
  pEx c = Some top →
  handles w !! top = Some ex →
  ExceptGetScope cfg w pC = Some (e_scope ex).
Proof.
  intros Hres Hc Hs Hp Hex. unfold ExceptGetScope. rewrite Hres, Hc. simpl.
  rewrite Hp, Hs. simpl. rewrite LifoPeek_top. simpl. by rewrite Hex.
Qed.

(** ** The class tree as an order *)

Lemma on_chain_trans classes c b a :
  on_chain classes c b → on_chain classes b a → on_chain classes c a.
Proof.
  induction 1 as [| c p b Hp _ IH]; [done |].
  intros Ha. eapply on_chain_up; [exact Hp | by apply IH].
Qed.

(** Along a chain the distance to the root goes down, and stays the same
    only where the chain has not moved. *)
Lemma on_chain_rooted classes c b n :
  on_chain classes c b → rooted classes c n →
  ∃ m, rooted classes b m ∧ (m ≤ n)%nat ∧ (m = n → b = c).
Proof.
  intros Hchain. revert n.
  induction Hchain as [c | c p b Hp _ IH]; intros n Hn.
  - exists n. done.
  - inversion Hn as [c' Hroot | c' p' n' Hp' Hrooted]; subst.
    + pose proof (parent_of_inj _ _ _ _ Hp Hroot). done.
    + pose proof (parent_of_inj _ _ _ _ Hp Hp') as [= ->].
      destruct (IH _ Hrooted) as (m & Hm & Hle & _).
      exists m. split; [done |]. split; lia.
Qed.

(** X1. on classes whose parent links lead to a root, derivation is
    transitive: a class derived from [b] is derived from every class that
    [b] is derived from. *)
Theorem ExceptIsDerived_transitive (classes : gmap nat Class) (c b a : ClassRef) (n : nat) :
  rooted classes c n →
  ExceptIsDerived classes c b = Some true →
  ExceptIsDerived classes b a = Some true →
  ExceptIsDerived classes c a = Some true.
Proof.
  intros Hc Hcb Hba.
  destruct (ExceptIsDerived_rooted _ _ _ b Hc) as (x & Hx & Hxb).
  rewrite Hcb in Hx. injection Hx as <-.
  pose proof (proj1 Hxb eq_refl) as Hchain.
  destruct (on_chain_rooted _ _ _ _ Hchain Hc) as (m & Hm & _).
  destruct (ExceptIsDerived_rooted _ _ _ a Hm) as (y & Hy & Hya).
  rewrite Hba in Hy. injection Hy as <-.
  destruct (ExceptIsDerived_rooted _ _ _ a Hc) as (z & Hz & Hza).
  rewrite Hz. f_equal. apply Hza.
  eapply on_chain_trans; [exact Hchain | by apply Hya].
Qed.

Lemma Level2Exception_rooted : rooted test_classes Level2Exception 3.
Proof.
  apply rooted_child with (p := Level1Exception); [by eexists |].
  apply rooted_child with (p := Exception); [by eexists |].
  apply rooted_child with (p := Throwable); [by eexists |].
  apply rooted_root. by eexists.
Defined.

Lemma ExceptIsDerived_transitive_witness :
  ExceptIsDerived test_classes Level2Exception Throwable = Some true.
Proof.
  apply (ExceptIsDerived_transitive test_classes Level2Exception Level1Exception Throwable 3
           Level2Exception_rooted); reflexivity.
Defined.

(** X2. ... and antisymmetric: two classes derived from each other are the
    same class. *)
Theorem ExceptIsDerived_antisymmetric (classes : gmap nat Class) (c b : ClassRef) (n : nat) :
  rooted classes c n →
  ExceptIsDerived classes c b = Some true →
  ExceptIsDerived classes b c = Some true →
  c = b.
Proof.
  intros Hc Hcb Hbc.
  destruct (ExceptIsDerived_rooted _ _ _ b Hc) as (x & Hx & Hxb).
  rewrite Hcb in Hx. injection Hx as <-.
  pose proof (proj1 Hxb eq_refl) as Hchain.
  destruct (on_chain_rooted _ _ _ _ Hchain Hc) as (m & Hm & Hle & Heq).
  destruct (ExceptIsDerived_rooted _ _ _ c Hm) as (y & Hy & Hyc).
  rewrite Hbc in Hy. injection Hy as <-.
  pose proof (proj1 Hyc eq_refl) as Hback.
  destruct (on_chain_rooted _ _ _ _ Hback Hm) as (k & Hk & Hle' & _).
  pose proof (rooted_inj _ _ _ _ Hk Hc) as ->.
  symmetry. apply Heq. lia.
Qed.

Lemma Throwable_rooted : rooted test_classes Throwable 0.
Proof. apply rooted_root. by eexists. Defined.

Lemma ExceptIsDerived_antisymmetric_witness : Throwable = Throwable.
Proof.
  apply (ExceptIsDerived_antisymmetric test_classes Throwable Throwable 0 Throwable_rooted);
    reflexivity.
Defined.

(** ** The signal handlers: installed and put back *)

Lemma traps_NoDup cfg :
  NoDup (traps cfg).*1 →
  SIGABRT cfg ≠ SIGFPE cfg ∧ SIGABRT cfg ≠ SIGILL cfg ∧ SIGABRT cfg ≠ SIGSEGV cfg ∧
  SIGFPE cfg ≠ SIGILL cfg ∧ SIGFPE cfg ≠ SIGSEGV cfg ∧ SIGILL cfg ≠ SIGSEGV cfg ∧
  Some (SIGABRT cfg) ≠ SIGBUS cfg ∧ Some (SIGFPE cfg) ≠ SIGBUS cfg ∧
  Some (SIGILL cfg) ≠ SIGBUS cfg ∧ Some (SIGSEGV cfg) ≠ SIGBUS cfg.
Proof.
  unfold traps. destruct (SIGBUS cfg) as [bus |]; simpl; intros Hnd;
    rewrite !NoDup_cons, !not_elem_of_cons in Hnd; destruct_and!;
    repeat split; try done; congruence.
Qed.

Lemma signal_spec sig h w :
  (signal sig h w).1 = handler_of w sig ∧
  (∀ sig', handler_of (signal sig h w).2 sig' = if decide (sig' = sig) then h else handler_of w sig') ∧
  numThreadsTry (signal sig h w).2 = numThreadsTry w.
Proof.
  unfold signal, handler_of. destruct w; simpl. split; [done |]. split; [| done].
  intros sig'. case_decide; by simplify_map_eq.
Qed.

Lemma signal_traps_spec cfg a f i s b k w :
  NoDup (traps cfg).*1 →
  (signal_traps cfg a f i s b k w).1
  = (handler_of w (SIGABRT cfg), handler_of w (SIGFPE cfg), handler_of w (SIGILL cfg),
     handler_of w (SIGSEGV cfg),
     match SIGBUS cfg with Some bus => handler_of w bus | None => k end) ∧
  (∀ sig, handler_of (signal_traps cfg a f i s b k w).2 sig = trapped cfg a f i s b w sig) ∧
  numThreadsTry (signal_traps cfg a f i s b k w).2 = numThreadsTry w.
Proof.
  intros (H1 & H2 & H3 & H4 & H5 & H6 & B1 & B2 & B3 & B4)%traps_NoDup.
  unfold signal_traps, trapped.
  destruct (signal (SIGABRT cfg) a w) as [o1 w1] eqn:E1.
  destruct (signal (SIGFPE cfg) f w1) as [o2 w2] eqn:E2.
  destruct (signal (SIGILL cfg) i w2) as [o3 w3] eqn:E3.
  destruct (signal (SIGSEGV cfg) s w3) as [o4 w4] eqn:E4.
  pose proof (signal_spec (SIGABRT cfg) a w) as (A1 & A2 & A3). rewrite E1 in A1, A2, A3.
  pose proof (signal_spec (SIGFPE cfg) f w1) as (F1 & F2 & F3). rewrite E2 in F1, F2, F3.
  pose proof (signal_spec (SIGILL cfg) i w2) as (I1 & I2 & I3). rewrite E3 in I1, I2, I3.
  pose proof (signal_spec (SIGSEGV cfg) s w3) as (S1 & S2 & S3). rewrite E4 in S1, S2, S3.
  cbn [fst snd] in *. subst o1 o2 o3 o4.
  assert (Hw4 : ∀ sig, handler_of w4 sig =
            if decide (sig = SIGSEGV cfg) then s
            else if decide (sig = SIGILL cfg) then i
            else if decide (sig = SIGFPE cfg) then f
            else if decide (sig = SIGABRT cfg) then a
            else handler_of w sig).
  { intros sig. rewrite S2, I2, F2, A2. done. }
  assert (Hsaved : handler_of w1 (SIGFPE cfg) = handler_of w (SIGFPE cfg) ∧
                   handler_of w2 (SIGILL cfg) = handler_of w (SIGILL cfg) ∧
                   handler_of w3 (SIGSEGV cfg) = handler_of w (SIGSEGV cfg)).
  { rewrite I2, !F2, !A2. repeat case_decide; done. }
  destruct Hsaved as (-> & -> & ->).
  destruct (SIGBUS cfg) as [bus |] eqn:Ebus.
  - destruct (signal bus b w4) as [o5 w5] eqn:E5.
    pose proof (signal_spec bus b w4) as (U1 & U2 & U3). rewrite E5 in U1, U2, U3.
    cbn [fst snd] in *. subst o5. split; [| split].
    + rewrite Hw4. repeat case_decide; simplify_eq; done.
    + intros sig. rewrite U2, Hw4. repeat case_decide; simplify_eq; done.
    + congruence.
  - cbn [fst snd]. split; [done |]. split; [| congruence].
    intros sig. rewrite Hw4. repeat case_decide; simplify_eq; done.
Qed.

Lemma handler_of_same w w' :
  dispositions w' = dispositions w → ∀ sig, handler_of w' sig = handler_of w sig.
Proof. unfold handler_of. by intros ->. Qed.

Lemma dispositions_write_context r c w : dispositions (write_context r c w) = dispositions w.
Proof. destruct r, w; done. Qed.

Lemma trapped_traps cfg a f i s b w sig :
  sig ∉ (traps cfg).*1 → trapped cfg a f i s b w sig = handler_of w sig.
Proof.
  unfold trapped, traps. intros Hsig.
  destruct (SIGBUS cfg) as [bus |]; simpl in Hsig;
    rewrite !not_elem_of_cons in Hsig; destruct_and!;
    repeat case_decide; simplify_eq; done.
Qed.

Lemma trapped_same cfg h w sig :
  sig ∈ (traps cfg).*1 → trapped cfg h h h h h w sig = h.
Proof.
  unfold trapped, traps. intros Hsig.
  destruct (SIGBUS cfg) as [bus |]; simpl in Hsig;
    rewrite !elem_of_cons in Hsig; destruct_or!; try (by apply elem_of_nil in Hsig);
    repeat case_decide; simplify_eq; done.
Qed.

(** Putting back what [signal_traps] has found in place undoes it. *)
Lemma trapped_undo cfg a f i s b k w w1 sig :
  (∀ sig, handler_of w1 sig = trapped cfg a f i s b w sig) →
  trapped cfg (handler_of w (SIGABRT cfg)) (handler_of w (SIGFPE cfg))
    (handler_of w (SIGILL cfg)) (handler_of w (SIGSEGV cfg))
    (match SIGBUS cfg with Some bus => handler_of w bus | None => k end) w1 sig
  = handler_of w sig.
Proof.
  intros Hw1. unfold trapped at 1. rewrite Hw1. unfold trapped.
  destruct (SIGBUS cfg) as [bus |]; repeat case_decide; simplify_eq; done.
Qed.

(** X3. with private handlers, the handlers that ExceptInstallHandlers
    replaces are put back by ExceptRestoreHandlers. *)
Theorem install_restore_private (cfg : Config) (w : World) (r : ContextRef) (ctx : Context) :
  MULTI_THREADING cfg && SHARE_HANDLERS cfg = false →
  NoDup (traps cfg).*1 →
  read_context w r = Some ctx →
  exStack ctx = None →
  ∃ w1 w2 : World,
    ExceptInstallHandlers cfg w r = Some (w1, true) ∧
    (∀ sig, sig ∈ (traps cfg).*1 → handler_of w1 sig = ExceptThrowSignal_handler) ∧
    (∀ sig, sig ∉ (traps cfg).*1 → handler_of w1 sig = handler_of w sig) ∧
    ExceptRestoreHandlers cfg w1 r = Some (w2, true) ∧
    (∀ sig, handler_of w2 sig = handler_of w sig).
Proof.
  intros Hcfg Hnd Hctx Hstack.
  unfold ExceptInstallHandlers, ExceptRestoreHandlers. rewrite Hctx. cbn [mbind option_bind].
  rewrite Hstack, Hcfg.
  set (h := ExceptThrowSignal_handler).
  pose proof (signal_traps_spec cfg h h h h h (sigBusHandler (set_exStack (Some []) ctx)) w Hnd)
    as (Hold & Hnew & _).
  pose proof (signal_traps_same_memory cfg h h h h h
                (sigBusHandler (set_exStack (Some []) ctx)) w) as Hsame.
  destruct (signal_traps cfg h h h h h _ w) as [[[[[a f] i] s] b] w1] eqn:E1.
  cbn [fst snd] in Hold, Hnew, Hsame. injection Hold as -> -> -> -> ->.
  eexists _, _. split; [reflexivity |].
  assert (Hw1 : ∀ sig, handler_of (write_context r
                  (set_context_handlers (handler_of w (SIGABRT cfg)) (handler_of w (SIGFPE cfg))
                     (handler_of w (SIGILL cfg)) (handler_of w (SIGSEGV cfg))
                     match SIGBUS cfg with
                     | Some bus => handler_of w bus
                     | None => sigBusHandler (set_exStack (Some []) ctx)
                     end (set_exStack (Some []) ctx)) w1) sig
                = trapped cfg h h h h h w sig).
  { intros sig. rewrite <- Hnew. apply handler_of_same, dispositions_write_context. }
  split; [| split].
  - intros sig Hsig. rewrite Hw1. by apply trapped_same.
  - intros sig Hsig. rewrite Hw1. by apply trapped_traps.
  - erewrite read_write_context;
      [| by rewrite (same_memory_read_context w w1) ].
    cbn [mbind option_bind]. split; [reflexivity |].
    intros sig.
    match goal with
    | |- handler_of (signal_traps cfg ?a' ?f' ?i' ?s' ?b' ?k' ?w').2 sig = _ =>
        pose proof (signal_traps_spec cfg a' f' i' s' b' k' w' Hnd) as (_ & Hback & _)
    end.
    rewrite Hback. destruct ctx. simpl. by apply (trapped_undo cfg h h h h h).
Qed.

Lemma install_restore_private_witness :
  ∃ w1 w2 : World,
    ExceptInstallHandlers linux_single (start test_classes) defaultContext_ref = Some (w1, true) ∧
    (∀ sig, sig ∈ (traps linux_single).*1 → handler_of w1 sig = ExceptThrowSignal_handler) ∧
    (∀ sig, sig ∉ (traps linux_single).*1 → handler_of w1 sig = handler_of (start test_classes) sig) ∧
    ExceptRestoreHandlers linux_single w1 defaultContext_ref = Some (w2, true) ∧
    (∀ sig, handler_of w2 sig = handler_of (start test_classes) sig).
Proof.
  apply (install_restore_private linux_single (start test_classes) defaultContext_ref
           Context_zero).
  - reflexivity.
  - apply (bool_decide_unpack _). vm_compute. exact I.
  - reflexivity.
  - reflexivity.
Defined.

Lemma numThreadsTry_write_context r c w : numThreadsTry (write_context r c w) = numThreadsTry w.
Proof. destruct r, w; done. Qed.

Lemma numThreadsTry_set_numThreadsTry n w : numThreadsTry (set_numThreadsTry n w) = n.
Proof. by destruct w. Qed.

Lemma dispositions_set_numThreadsTry n w :
  dispositions (set_numThreadsTry n w) = dispositions w.
Proof. by destruct w. Qed.

Lemma dispositions_set_shared_handlers a f i s b w :
  dispositions (set_shared_handlers a f i s b w) = dispositions w.
Proof. by destruct w. Qed.

Lemma numThreadsTry_set_shared_handlers a f i s b w :
  numThreadsTry (set_shared_handlers a f i s b w) = numThreadsTry w.
Proof. by destruct w. Qed.

Lemma trapped_ext cfg a f i s b w w' sig :
  (∀ sig, handler_of w' sig = handler_of w sig) →
  trapped cfg a f i s b w' sig = trapped cfg a f i s b w sig.
Proof. intros H. unfold trapped. by rewrite H. Qed.

Lemma shared_handlers_stored n a f i s b w :
  let w' := set_numThreadsTry n (set_shared_handlers a f i s b w) in
  sharedSigAbrtHandler w' = a ∧ sharedSigFpeHandler w' = f ∧ sharedSigIllHandler w' = i ∧
  sharedSigSegvHandler w' = s ∧ sharedSigBusHandler w' = b ∧
  numThreadsTry w' = n ∧ dispositions w' = dispositions w.
Proof. by destruct w. Qed.

(** X4. with shared handlers, the thread that enters a 'try' while no other
    is inside one saves the handlers and installs the package's, the thread
    that is the last to leave puts them back; in between the count of threads
    goes up and down and the handlers stay. *)
Theorem install_restore_shared (cfg : Config) (w : World) (r : ContextRef) (ctx : Context) :
  MULTI_THREADING cfg && SHARE_HANDLERS cfg = true →
  NoDup (traps cfg).*1 →
  read_context w r = Some ctx →
  exStack ctx = None →
  ∃ w1 w2 : World,
    ExceptInstallHandlers cfg w r = Some (w1, bool_decide (numThreadsTry w = 0)) ∧
    numThreadsTry w1 = numThreadsTry w + 1 ∧
    (∀ sig, handler_of w1 sig =
            if decide (numThreadsTry w = 0 ∧ sig ∈ (traps cfg).*1)
            then ExceptThrowSignal_handler else handler_of w sig) ∧
    ExceptRestoreHandlers cfg w1 r = Some (w2, bool_decide (numThreadsTry w = 0)) ∧
    numThreadsTry w2 = numThreadsTry w ∧
    (∀ sig, handler_of w2 sig = handler_of w sig).
Proof.
  intros Hcfg Hnd Hctx Hstack.
  unfold ExceptInstallHandlers, ExceptRestoreHandlers. rewrite Hctx. cbn [mbind option_bind].
  rewrite Hstack, Hcfg.
  destruct (decide (numThreadsTry w = 0)) as [Hn | Hn].
  - rewrite (bool_decide_eq_true_2 _ Hn).
    set (h := ExceptThrowSignal_handler).
    assert (∃ w0, w0 = set_numThreadsTry (numThreadsTry w + 1)
                         (write_context r (set_exStack (Some []) ctx) w))
      as [w0 Ew0] by (by eexists).
    rewrite <- Ew0.
    assert (Hw0 : ∀ sig, handler_of w0 sig = handler_of w sig).
    { apply handler_of_same. subst w0.
      by rewrite dispositions_set_numThreadsTry, dispositions_write_context. }
    assert (Hc0 : numThreadsTry w0 = numThreadsTry w + 1).
    { subst w0. apply numThreadsTry_set_numThreadsTry. }
    clear Ew0.
    pose proof (signal_traps_spec cfg h h h h h (sharedSigBusHandler w0) w0 Hnd)
      as (Hold & Hnew & Hcount).
    destruct (signal_traps cfg h h h h h _ w0) as [[[[[a f] i] s] b] w1] eqn:E1.
    cbn [fst snd] in Hold, Hnew, Hcount.
    assert (Hb : match SIGBUS cfg with
                 | Some bus => handler_of w0 bus
                 | None => sharedSigBusHandler w0
                 end
                 = match SIGBUS cfg with
                   | Some bus => handler_of w bus
                   | None => sharedSigBusHandler w0
                   end) by (destruct (SIGBUS cfg); [apply Hw0 | done]).
    rewrite !Hw0, Hb in Hold. clear Hb. injection Hold as -> -> -> -> ->.
    eexists _, _. split; [reflexivity |].
    rewrite numThreadsTry_set_shared_handlers, Hcount.
    split; [done |]. split.
    + intros sig. rewrite (handler_of_same w1) by apply dispositions_set_shared_handlers.
      rewrite Hnew. rewrite (trapped_ext _ _ _ _ _ _ w) by done. case_decide as Hsig.
      * apply trapped_same. by destruct Hsig.
      * destruct (decide (sig ∈ (traps cfg).*1)) as [Hin | Hout]; [by destruct Hsig |].
        by rewrite trapped_traps.
    + rewrite Hc0. replace (numThreadsTry w + 1 - 1) with 0 by lia.
      rewrite decide_True by done. split; [reflexivity |].
      match goal with
      | |- context [signal_traps cfg ?a' ?f' ?i' ?s' ?b' ?k' ?w'] =>
          pose proof (signal_traps_spec cfg a' f' i' s' b' k' w' Hnd) as (_ & Hback & Hc);
          pose proof (shared_handlers_stored 0 (handler_of w (SIGABRT cfg))
                        (handler_of w (SIGFPE cfg)) (handler_of w (SIGILL cfg))
                        (handler_of w (SIGSEGV cfg))
                        match SIGBUS cfg with
                        | Some bus => handler_of w bus
                        | None => sharedSigBusHandler w0
                        end w1) as (Ea & Ef & Ei & Es & Eb & En & Ed)
      end.
      cbn zeta in *. cbn [snd].
      split.
      * rewrite Hc, En. lia.
      * intros sig. rewrite Hback, Ea, Ef, Ei, Es, Eb.
        rewrite (trapped_ext _ _ _ _ _ _ w1) by (by apply handler_of_same).
        apply (trapped_undo cfg h h h h h).
        intros sig'. rewrite Hnew. by apply trapped_ext.
  - rewrite (bool_decide_eq_false_2 _ Hn).
    eexists _, _. split; [reflexivity |].
    rewrite numThreadsTry_set_numThreadsTry. split; [done |].
    split.
    + intros sig. rewrite decide_False by tauto.
      apply handler_of_same.
      by rewrite dispositions_set_numThreadsTry, dispositions_write_context.
    + replace (numThreadsTry w + 1 - 1) with (numThreadsTry w) by lia.
      rewrite decide_False by done. split; [reflexivity |].
      rewrite numThreadsTry_set_numThreadsTry. split; [done |].
      intros sig. apply handler_of_same.
      by rewrite !dispositions_set_numThreadsTry, dispositions_write_context.
Qed.

Lemma install_restore_shared_witness :
  ∃ w1 w2 : World,
    ExceptInstallHandlers linux_shared thread_started (thread_context 1)
    = Some (w1, bool_decide (numThreadsTry thread_started = 0)) ∧
    numThreadsTry w1 = numThreadsTry thread_started + 1 ∧
    (∀ sig, handler_of w1 sig =
            if decide (numThreadsTry thread_started = 0 ∧ sig ∈ (traps linux_shared).*1)
            then ExceptThrowSignal_handler else handler_of thread_started sig) ∧
    ExceptRestoreHandlers linux_shared w1 (thread_context 1)
    = Some (w2, bool_decide (numThreadsTry thread_started = 0)) ∧
    numThreadsTry w2 = numThreadsTry thread_started ∧
    (∀ sig, handler_of w2 sig = handler_of thread_started sig).
Proof.
  apply (install_restore_shared linux_shared thread_started (thread_context 1) Context_zero).
  - reflexivity.
  - apply (bool_decide_unpack _). vm_compute. exact I.
  - reflexivity.
  - reflexivity.
Defined.

Lemma same_frames_dom w w' : same_frames w w' → dom (handles w') = dom (handles w).
Proof.
  intros (_ & _ & _ & Hh). apply set_eq. intros a. rewrite !elem_of_dom.
  specialize (Hh a). destruct (handles w' !! a), (handles w !! a); simpl in Hh;
    split; intros [? ?]; eauto; done.
Qed.

Lemma same_frames_getClass_kept w w' : same_frames w w' → getClass_kept w w'.
Proof.
  intros (_ & _ & _ & Hh) a ex' Ha. specialize (Hh a). rewrite Ha in Hh.
  destruct (handles w !! a) as [ex |]; [| done]. exists ex. split; [done |].
  simpl in Hh. congruence.
Qed.

Lemma getClass_kept_trans w1 w2 w3 :
  getClass_kept w1 w2 → getClass_kept w2 w3 → getClass_kept w1 w3.
Proof.
  intros H12 H23 a ex3 Ha. destruct (H23 a ex3 Ha) as (ex2 & H2 & E2).
  destruct (H12 a ex2 H2) as (ex1 & H1 & E1). exists ex1. split; [done | congruence].
Qed.

Lemma getClass_kept_unset w w' : getClass_kept w w' → getClass_unset w → getClass_unset w'.
Proof.
  intros Hk Hu a ex' Ha. destruct (Hk a ex' Ha) as (ex & Hex & ->). by apply Hu with a.
Qed.

Lemma same_frames_refl w : same_frames w w.
Proof. done. Qed.

Lemma same_frames_trans w1 w2 w3 : same_frames w1 w2 → same_frames w2 w3 → same_frames w1 w3.
Proof.
  intros (? & ? & ? & H12) (? & ? & ? & H23).
  split_and!; [congruence | congruence | congruence |].
  intros a. by rewrite H23, H12.
Qed.

Lemma same_frames_insert w top ex ex' :
  handles w !! top = Some ex →
  e_getClass ex' = e_getClass ex →
  same_frames w (set_handles (<[top := ex']> (handles w)) w).
Proof.
  intros Hex Hg. destruct w; simpl in *. split_and!; [done | done | done |]. intros a. simpl.
  destruct (decide (a = top)) as [-> | Hne].
  - rewrite lookup_insert_eq, Hex. simpl. by rewrite Hg.
  - by rewrite lookup_insert_ne.
Qed.

Lemma same_frames_fprintf text w : same_frames w (fprintf_stderr text w).
Proof. by destruct w. Qed.

Lemma same_frames_same_memory w w' : same_memory w w' → same_frames w w'.
Proof.
  intros (_ & Hh & ? & ? & _ & ?). split_and!; [congruence | congruence | congruence |].
  intros a. by rewrite Hh.
Qed.

Lemma same_frames_read_context w w' r : same_frames w w' → read_context w' r = read_context w r.
Proof. intros (Hd & Hp & _). destruct r; simpl; congruence. Qed.

Lemma same_frames_ExceptGetContext cfg w w' pC :
  same_frames w w' → ExceptGetContext cfg w' pC = ExceptGetContext cfg w pC.
Proof. intros (_ & Hp & Ht & _). unfold ExceptGetContext. by rewrite Hp, Ht. Qed.

Lemma same_frames_frames_ok cfg w w' : same_frames w w' → frames_ok cfg w → frames_ok cfg w'.
Proof.
  intros Hs. unfold frames_ok. rewrite (same_frames_ExceptGetContext _ _ _ _ Hs).
  pose proof (same_frames_dom _ _ Hs) as Hh.
  destruct Hs as (Hd & Hp & Ht & _).
  destruct (ExceptGetContext cfg w None) as [r |].
  - intros (c & Hc & ?). exists c. rewrite Hh. split; [| done].
    destruct r; simpl in *; congruence.
  - intros He. apply dom_empty_iff_L. rewrite Hh, He. apply dom_empty_L.
Qed.

Lemma and_then_same_frames {A B : Type} (w : World) (m : World * Outcome A)
    (k : World → A → World * Outcome B) :
  same_frames w m.1 →
  (∀ w1 a, same_frames w1 (k w1 a).1) →
  same_frames w (m >>> k).1.
Proof.
  intros Hm Hk. destruct m as [w1 [a | | | |]]; simpl in *; try done.
  by apply same_frames_trans with w1.
Qed.

Lemma throw_lost_same_frames w p file line : same_frames w (throw_lost w p file line).1.
Proof. unfold throw_lost. destruct (read_name w p), file; by destruct w. Qed.

Lemma ExceptThrow_same_frames cfg w pC p pData file line :
  same_frames w (ExceptThrow cfg w pC p pData file line).1.
Proof.
  unfold ExceptThrow.
  destruct (resolve_pC cfg w pC) as [r |]; [| apply throw_lost_same_frames].
  destruct (read_context w r) as [ctx |]; [| done].
  destruct (exStack ctx) as [stack |]; [| apply throw_lost_same_frames].
  case_decide; [apply throw_lost_same_frames |].
  destruct (read_notRethrown w p) as [nr |]; [| done].
  destruct (deref_pEx w r) as [[top ex] |] eqn:Hd; [| done].
  apply deref_pEx_Some in Hd as (ctx' & _ & _ & Hex).
  destruct (if decide (nr = 0) then _ else _) as [ex' |] eqn:Hst; simpl; [| done].
  apply same_frames_insert with ex; [done |].
  case_decide; [injection Hst as <-; by destruct ex |].
  destruct p; [| done]. injection Hst as <-. by destruct ex.
Qed.

Lemma AssertAction_same_frames cfg w pC doAbort expr file line :
  same_frames w (AssertAction cfg w pC doAbort expr file line).1.
Proof.
  unfold AssertAction. destruct (ExceptGetScope cfg w pC) as [scope |]; [| done].
  case_decide; [apply ExceptThrow_same_frames |].
  destruct expr, file; simpl; try done; apply same_frames_fprintf.
Qed.

Lemma update_pEx_same_frames f w r w' :
  (∀ top ex, e_getClass (f top ex) = e_getClass ex) →
  update_pEx f w r = Some w' → same_frames w w'.
Proof.
  intros Hf. unfold update_pEx.
  destruct (deref_pEx w r) as [[top ex] |] eqn:Hd; simpl; [| done].
  intros [= <-]. apply deref_pEx_Some in Hd as (ctx & _ & _ & Hex).
  by apply same_frames_insert with ex.
Qed.

Lemma ExceptCatch_same_frames cfg w pC class :
  same_frames w (ExceptCatch cfg w pC class).1.
Proof.
  unfold ExceptCatch.
  destruct (resolve_pC cfg w pC ≫= _) as [[top ex] |] eqn:Hd; [| done].
  destruct (resolve_pC cfg w pC) as [r |]; [| done]. simpl in Hd.
  apply deref_pEx_Some in Hd as (ctx & _ & _ & Hex).
  case_decide; [| done].
  destruct (e_class ex ≫= _) as [[|] |]; simpl; try done.
  apply same_frames_insert with ex; [done | by destruct ex].
Qed.

Lemma catch_macro_same_frames cfg w r class : same_frames w (catch_macro cfg w r class).1.
Proof.
  unfold catch_macro. destruct (deref_pEx w r) as [[top ex] |]; [| done].
  case_decide; [done |].
  apply and_then_same_frames; [apply ExceptCatch_same_frames |].
  intros w1 [|]; [| done].
  destruct (update_pEx _ w1 r) as [w' |] eqn:Hu; [| done]. simpl.
  apply update_pEx_same_frames in Hu; [done |]. by intros ? [].
Qed.

Lemma finally_scope_same_frames cfg w pC : same_frames w (finally_scope cfg w pC).1.
Proof.
  unfold finally_scope.
  destruct (ExceptGetContext cfg w pC ≫= _) as [w' |] eqn:H; [| done].
  destruct (ExceptGetContext cfg w pC) as [r |]; [| done]. simpl in *.
  apply update_pEx_same_frames in H; [done |]. by intros ? [].
Qed.

Lemma ready_decrement_same_frames cfg w pC : same_frames w (ready_decrement cfg w pC).1.
Proof.
  unfold ready_decrement.
  destruct (ExceptGetContext cfg w pC) as [r |]; [| done]. simpl.
  destruct (deref_pEx w r) as [[top ex] |]; [| done]. simpl.
  destruct (update_pEx _ w r) as [w' |] eqn:Hu; [| done]. simpl.
  apply update_pEx_same_frames in Hu; [done |]. by intros ? [].
Qed.

Lemma ExceptReturn_same_frames cfg w pC : same_frames w (ExceptReturn cfg w pC).1.
Proof.
  unfold ExceptReturn.
  destruct (resolve_pC cfg w pC) as [r |]; [| done]. simpl.
  destruct (deref_pEx w r) as [[top ex] |] eqn:Hd; [| done]. simpl.
  apply deref_pEx_Some in Hd as (ctx & _ & _ & Hex).
  apply same_frames_insert with ex; [done | by destruct ex].
Qed.

Lemma return_macro_same_frames cfg w pC site : same_frames w (return_macro cfg w pC site).1.
Proof.
  unfold return_macro. destruct (ExceptGetScope cfg w pC) as [[] |]; try done;
    (destruct (ExceptGetContext cfg w pC ≫= _) as [w' |] eqn:H; [| done];
     destruct (ExceptGetContext cfg w pC) as [r |]; [| done]; simpl in H;
     apply same_frames_trans with w'; [| apply ExceptReturn_same_frames];
     apply update_pEx_same_frames in H; [done |]; by intros ? []).
Qed.

Lemma ExceptThrowSignal_same_frames cfg w number :
  same_frames w (ExceptThrowSignal cfg w number).1.
Proof.
  unfold ExceptThrowSignal. destruct (signal_class cfg number) as [class |]; [| done].
  destruct (classes _ !! class) as [cl |]; [| by destruct w].
  eapply same_frames_trans; [| apply ExceptThrow_same_frames]. by destruct w.
Qed.

Lemma store_checkList_same_frames w top ex v :
  handles w !! top = Some ex → same_frames w (store_checkList w top ex v).
Proof. intros Hex. apply same_frames_insert with ex; [done | by destruct ex]. Qed.

Lemma ExceptCheckBegin_same_frames w r checked file line :
  same_frames w (ExceptCheckBegin w r checked file line).1.
Proof.
  unfold ExceptCheckBegin. destruct (deref_pEx w r) as [[top ex] |] eqn:Hd; [| done].
  apply deref_pEx_Some in Hd as (ctx & _ & _ & Hex).
  destruct (e_checkList ex) as [l |], checked; try done.
  - case_decide; [destruct file |]; simpl; try done.
    + apply same_frames_trans with (fprintf_stderr (no_catch_message s line) w);
        [apply same_frames_fprintf |].
      apply store_checkList_same_frames. by rewrite handles_fprintf_stderr.
    + by apply store_checkList_same_frames.
  - by apply store_checkList_same_frames.
Qed.

Lemma ExceptCheck_same_frames w r checked class file line :
  same_frames w (ExceptCheck w r checked class file line).1.
Proof.
  unfold ExceptCheck. destruct checked; [done |].
  destruct (deref_pEx w r) as [[top ex] |] eqn:Hd; [| done]. simpl.
  apply deref_pEx_Some in Hd as (ctx & _ & _ & Hex).
  destruct (e_checkList ex) as [l |]; [| done]. simpl.
  destruct (ExceptCheck_loop (classes w) class file line l) as [[text |] |]; simpl.
  - apply same_frames_fprintf.
  - by apply store_checkList_same_frames.
  - done.
Qed.

(** *** ExceptTry and ExceptFinally keep the frames in order *)

Lemma ExceptGetContext_single cfg w pC :
  MULTI_THREADING cfg = false → ExceptGetContext cfg w pC = Some defaultContext_ref.
Proof. intros Hmt. unfold ExceptGetContext. by rewrite Hmt. Qed.

Lemma ExceptGetContext_multi cfg w r :
  MULTI_THREADING cfg = true →
  ExceptGetContext cfg w None = Some r →
  r = thread_context (thread_self w) ∧ is_Some (read_context w r).
Proof.
  intros Hmt. unfold ExceptGetContext. rewrite Hmt.
  destruct (pContextHash w) as [h |] eqn:Hh; [| done].
  destruct (h !! thread_self w) as [c |] eqn:Hc; [| done].
  intros [= <-]. split; [done |]. simpl. rewrite Hh. simpl. by rewrite Hc.
Qed.

Lemma read_context_set_numThreadsTry n w r :
  read_context (set_numThreadsTry n w) r = read_context w r.
Proof. by destruct w, r. Qed.

Lemma read_context_set_shared_handlers a f i s b w r :
  read_context (set_shared_handlers a f i s b w) r = read_context w r.
Proof. by destruct w, r. Qed.

(** What ExceptInstallHandlers does to the context it is given. *)
Lemma ExceptInstallHandlers_context cfg w r c w' stored :
  read_context w r = Some c →
  ExceptInstallHandlers cfg w r = Some (w', stored) →
  ∃ c', read_context w' r = Some c' ∧ exStack c' = Some (stack_of c) ∧ pEx c' = pEx c.
Proof.
  intros Hc. unfold ExceptInstallHandlers. rewrite Hc. simpl. unfold stack_of.
  destruct (exStack c) as [stack |] eqn:Hs; [intros [= <- <-]; by exists c |].
  destruct (MULTI_THREADING cfg && SHARE_HANDLERS cfg).
  - set (w0 := set_numThreadsTry _ _).
    assert (read_context w0 r = Some (set_exStack (Some []) c)) as H0.
    { subst w0. rewrite read_context_set_numThreadsTry.
      by apply read_write_context with (c0 := c). }
    case_decide.
    + pose proof (signal_traps_same_memory cfg ExceptThrowSignal_handler
                    ExceptThrowSignal_handler ExceptThrowSignal_handler
                    ExceptThrowSignal_handler ExceptThrowSignal_handler
                    (sharedSigBusHandler w0) w0) as Hsame.
      destruct (signal_traps cfg _ _ _ _ _ _ w0) as [[[[[a f] i] s] b] w1].
      simpl in Hsame.
      intros [= <- <-]. exists (set_exStack (Some []) c).
      split; [| by destruct c].
      rewrite read_context_set_shared_handlers.
      by rewrite (same_memory_read_context _ _ r Hsame).
    + intros [= <- <-]. exists (set_exStack (Some []) c). split; [done | by destruct c].
  - pose proof (signal_traps_same_memory cfg ExceptThrowSignal_handler
                  ExceptThrowSignal_handler ExceptThrowSignal_handler
                  ExceptThrowSignal_handler ExceptThrowSignal_handler
                  (sigBusHandler (set_exStack (Some []) c)) w) as Hsame.
    destruct (signal_traps cfg _ _ _ _ _ _ w) as [[[[[a f] i] s] b] w1].
    simpl in Hsame.
    intros [= <- <-]. eexists. split.
    + apply read_write_context with (c0 := c).
      by rewrite (same_memory_read_context _ _ r Hsame).
    + by destruct c.
Qed.

(** The context in which ExceptTry works: that of the flow, or a new one. *)
Lemma ExceptTry_context cfg w pC :
  valid_pC cfg w pC →
  frames_ok cfg w →
  let w0 := if MULTI_THREADING cfg
            then match pContextHash w with
                 | None => set_pContextHash (Some ∅) w
                 | Some _ => w
                 end
            else w in
  let res := match resolve_pC cfg w0 pC with
             | None => ExceptCreateContext cfg w0
             | Some _ => (w0, resolve_pC cfg w0 pC)
             end in
  ∃ r c, res.2 = Some r ∧ read_context res.1 r = Some c ∧
         pEx c = head (stack_of c) ∧ NoDup (stack_of c) ∧
         dom (handles res.1) = list_to_set (stack_of c) ∧
         (if MULTI_THREADING cfg then r = thread_context (thread_self res.1)
          else r = defaultContext_ref).
Proof.
  intros Hvalid Hok. unfold frames_ok in Hok.
  destruct (MULTI_THREADING cfg) eqn:Hmt; cbn zeta.
  - (* multi-threading *)
    destruct pC as [x |].
    + destruct Hvalid as [? | [_ Hx]]; [done |]. simpl. rewrite <- Hx in Hok.
      destruct (ExceptGetContext_multi _ _ _ Hmt (eq_sym Hx)) as [-> _].
      destruct Hok as (c & Hc & Hok).
      assert (is_Some (pContextHash w)) as [h Hh].
      { simpl in Hc. by destruct (pContextHash w). }
      rewrite Hh. simpl. destruct Hok as (? & ? & ?).
      by exists (thread_context (thread_self w)), c.
    + simpl. unfold ExceptGetContext in *. rewrite Hmt in *.
      destruct (pContextHash w) as [h |] eqn:Hh.
      * rewrite Hh. destruct (h !! thread_self w) as [c0 |] eqn:Hc0.
        -- simpl. destruct Hok as (c & Hc & ? & ? & ?).
           by exists (thread_context (thread_self w)), c.
        -- unfold ExceptCreateContext. rewrite Hmt, Hh. simpl.
           exists (thread_context (thread_self w)), Context_zero.
           split; [by destruct w |]. split.
           { destruct w; simpl in *. by rewrite lookup_insert_eq. }
           split; [done |]. split; [constructor |]. split; [| by destruct w].
           destruct w; simpl in *. rewrite Hok. apply dom_empty_L.
      * replace (pContextHash (set_pContextHash (Some ∅) w)) with (Some (∅ : gmap Z Context))
          by (by destruct w).
        replace (thread_self (set_pContextHash (Some ∅) w)) with (thread_self w)
          by (by destruct w).
        rewrite lookup_empty. unfold ExceptCreateContext. rewrite Hmt. simpl.
        exists (thread_context (thread_self w)), Context_zero.
        split; [by destruct w |]. split.
        { destruct w; simpl in *. by rewrite lookup_insert_eq. }
        split; [done |]. split; [constructor |]. split; [| by destruct w].
        destruct w; simpl in *. rewrite Hok. apply dom_empty_L.
  - (* single-threading *)
    rewrite (ExceptGetContext_single _ _ _ Hmt) in Hok. destruct Hok as (c & Hc & ? & ? & ?).
    assert (resolve_pC cfg w pC = Some defaultContext_ref) as ->.
    { destruct pC as [x |]; simpl.
      - destruct Hvalid as [? | [_ Hx]]; [done |].
        by rewrite (ExceptGetContext_single _ _ _ Hmt) in Hx.
      - by apply ExceptGetContext_single. }
    simpl. by exists defaultContext_ref, c.
Qed.

Lemma ExceptTry_frames cfg w pC file line w1 :
  valid_pC cfg w pC →
  frames_ok cfg w →
  ExceptTry cfg w pC file line = (w1, Return ()) →
  frames_ok cfg w1.
Proof.
  intros Hvalid Hok. unfold ExceptTry.
  pose proof (ExceptTry_context cfg w pC Hvalid Hok) as Hctx. cbn zeta in Hctx.
  destruct (match resolve_pC cfg _ pC with
            | Some _ => _
            | None => _
            end) as [wc pCc].
  destruct Hctx as (r & c & Hr & Hc & Hp & Hnd & Hdom & Hflow). simpl in Hr, Hc, Hdom, Hflow.
  subst pCc. simpl.
  destruct (ExceptInstallHandlers cfg wc r) as [[wI stored] |] eqn:Hinst; simpl; [| done].
  destruct (ExceptInstallHandlers_frame _ _ _ _ _ Hinst) as [HhI HtI].
  destruct (ExceptInstallHandlers_context _ _ _ _ _ _ Hc Hinst) as (cI & HcI & HsI & HpI).
  rewrite HcI. simpl. rewrite HsI. simpl.
  set (new := fresh ({[0%nat]} ∪ dom (handles wI))).
  set (ctx1 := set_exStack _ _).
  intros [= <-].
  assert (new ∉ dom (handles wc)) as Hnew.
  { rewrite <- HhI. pose proof (is_fresh ({[0%nat]} ∪ dom (handles wI))) as Hf.
    fold new in Hf. intros Hin. apply Hf. apply elem_of_union. by right. }
  match goal with |- frames_ok cfg (set_handles (<[new := ?e]> _) ?W) => set (ex0 := e) end.
  assert (read_context (set_handles (<[new := ex0]> (handles wI)) (write_context r ctx1 wI)) r
          = Some ctx1) as Hctx1.
  { rewrite read_context_set_handles. by apply read_write_context with (c0 := cI). }
  unfold frames_ok.
  assert (ExceptGetContext cfg (set_handles (<[new := ex0]> (handles wI))
                                  (write_context r ctx1 wI)) None = Some r) as ->.
  { destruct (MULTI_THREADING cfg) eqn:Hmt.
    - subst r. eapply ExceptGetContext_thread; [done | | exact Hctx1].
      rewrite <- HtI. by destruct wI.
    - subst r. by apply ExceptGetContext_single. }
  exists ctx1. split; [done |].
  assert (stack_of ctx1 = new :: stack_of c) as ->.
  { subst ctx1. by destruct cI. }
  split; [by destruct cI |]. split.
  - apply NoDup_cons. split; [| done].
    intros Hin. apply Hnew. rewrite Hdom. by apply elem_of_list_to_set.
  - rewrite handles_set_handles, dom_insert_L, HhI, Hdom. done.
Qed.

Lemma valid_pC_resolve cfg w pC :
  valid_pC cfg w pC → resolve_pC cfg w pC = ExceptGetContext cfg w None.
Proof. intros [-> | [[r ->] Hr]]; [done | by rewrite <- Hr]. Qed.

Lemma valid_pC_ExceptGetContext cfg w pC :
  valid_pC cfg w pC → ExceptGetContext cfg w pC = ExceptGetContext cfg w None.
Proof.
  intros [-> | [[r ->] Hr]]; [done |].
  rewrite <- Hr. unfold ExceptGetContext in *.
  destruct (MULTI_THREADING cfg); [done | by injection Hr as ->].
Qed.

(** Giving up the context of the flow once its stack is empty. *)
Lemma destroy_context_frames cfg w r c :
  ExceptGetContext cfg w None = Some r →
  read_context w r = Some c →
  pEx c = None →
  stack_of c = [] →
  dom (handles w) = ∅ →
  frames_ok cfg (destroy_context cfg r w).
Proof.
  intros Hr Hc Hp Hs Hdom. unfold frames_ok, destroy_context.
  destruct (MULTI_THREADING cfg) eqn:Hmt.
  - destruct (ExceptGetContext_multi _ _ _ Hmt Hr) as [-> _].
    unfold ExceptGetContext. rewrite Hmt.
    replace (thread_self (set_pContextHash _ w)) with (thread_self w) by (by destruct w).
    replace (pContextHash (set_pContextHash (delete (thread_self w) <$> pContextHash w) w))
      with (delete (thread_self w) <$> pContextHash w) by (by destruct w).
    replace (handles (set_pContextHash _ w)) with (handles w) by (by destruct w).
    destruct (pContextHash w) as [h |]; simpl; [| by apply dom_empty_iff_L].
    rewrite lookup_delete_eq. by apply dom_empty_iff_L.
  - rewrite (ExceptGetContext_single _ _ _ Hmt) in Hr. injection Hr as <-.
    rewrite Hc. rewrite (ExceptGetContext_single _ _ _ Hmt).
    exists (set_exStack None c). split; [by apply read_write_context with (c0 := c) |].
    rewrite handles_write_context. destruct c; simpl in *. subst. split_and!; [done | constructor | done].
Qed.

Lemma ExceptFinally_frames cfg w pC w' o :
  valid_pC cfg w pC →
  frames_ok cfg w →
  ExceptFinally cfg w pC = (w', o) →
  o ≠ Fault →
  frames_ok cfg w'.
Proof.
  intros Hvalid Hok. unfold ExceptFinally. rewrite (valid_pC_resolve _ _ _ Hvalid).
  unfold frames_ok in Hok.
  destruct (ExceptGetContext cfg w None) as [r |] eqn:Hr; simpl; [| by intros [= <- <-]].
  destruct Hok as (c & Hc & Hp & Hnd & Hdom). rewrite Hc. simpl.
  unfold stack_of in *.
  destruct (exStack c) as [[| popped stack] |] eqn:Hs; simpl in *;
    [by intros [= <- <-] | | by intros [= <- <-]].
  destruct (handles w !! popped) as [ex |] eqn:Hex; [| by intros [= <- <-]].
  apply NoDup_cons in Hnd as [Hnotin Hnd].
  set (top := if decide (LifoCount stack = 0) then None else LifoPeek stack 1).
  set (c1 := set_pEx top (set_exStack (Some stack) c)).
  set (w1 := write_context r c1 (set_handles (delete popped (handles w)) w)).
  assert (read_context w1 r = Some c1) as Hc1.
  { subst w1. apply read_write_context with (c0 := c). by rewrite read_context_set_handles. }
  assert (ExceptGetContext cfg w1 None = Some r) as Hr1.
  { destruct (MULTI_THREADING cfg) eqn:Hmt.
    - destruct (ExceptGetContext_multi _ _ _ Hmt Hr) as [-> _].
      eapply ExceptGetContext_thread; [done | | exact Hc1].
      subst w1. by destruct w.
    - rewrite (ExceptGetContext_single _ _ _ Hmt) in Hr. injection Hr as <-.
      by apply ExceptGetContext_single. }
  assert (pEx c1 = head stack) as Hp1.
  { subst c1 top. destruct c; simpl. destruct stack as [| x stack']; [done |].
    rewrite decide_False by apply LifoCount_cons. apply LifoPeek_top. }
  assert (exStack c1 = Some stack) as Hs1 by (subst c1; by destruct c).
  assert (dom (handles w1) = list_to_set stack) as Hdom1.
  { subst w1. rewrite handles_write_context, handles_set_handles, dom_delete_L, Hdom.
    simpl. apply set_eq. intros a. rewrite elem_of_difference, elem_of_union,
      elem_of_singleton, elem_of_list_to_set.
    split; [intros [[-> | ?] ?]; done |].
    intros Ha. split; [by right |]. intros ->. done. }
  assert (frames_ok cfg w1) as Hok1.
  { unfold frames_ok. rewrite Hr1. exists c1. unfold stack_of. by rewrite Hs1. }
  case_decide as Hcount.
  - (* outermost level *)
    assert (stack = []) as -> by (by destruct stack).
    unfold finally_outermost.
    destruct (ExceptRestoreHandlers cfg w1 r) as [[w2 restored] |] eqn:Hres;
      [| by intros [= <- <-]].
    apply ExceptRestoreHandlers_spec in Hres as [Hsame%same_frames_same_memory _].
    assert (∀ w3, same_frames w2 w3 → frames_ok cfg (destroy_context cfg r w3)) as Hdone.
    { intros w3 H3. pose proof (same_frames_trans _ _ _ Hsame H3) as H13.
      apply destroy_context_frames with c1.
      - by rewrite (same_frames_ExceptGetContext _ _ _ _ H13).
      - by rewrite (same_frames_read_context _ _ _ H13).
      - done.
      - unfold stack_of. by rewrite Hs1.
      - by rewrite (same_frames_dom _ _ H13), Hdom1. }
    case_decide; [| intros [= <- <-] _; by apply Hdone].
    case_decide.
    + pose proof (AssertAction_same_frames cfg w2 (Some r) (DO_ABORT cfg) (e_pData ex)
                    (e_file ex) (e_line ex)) as Ha.
      destruct (AssertAction cfg w2 _ _ _ _ _) as [w3 [[] | | | |]]; simpl in *;
        intros [= <- <-] Ho; try done.
      * by apply Hdone.
      * eapply same_frames_frames_ok; [| exact Hok1]. by eapply same_frames_trans.
      * eapply same_frames_frames_ok; [| exact Hok1]. by eapply same_frames_trans.
      * eapply same_frames_frames_ok; [| exact Hok1]. by eapply same_frames_trans.
    + destruct (e_class ex ≫= _) as [[[cl derived] clr] |]; [| by intros [= <- <-]].
      destruct (derived && restored); [intros [= <- <-] _; by apply Hdone |].
      case_decide.
      * destruct (deref_JMP_BUF (e_pData ex)); intros [= <- <-] _; by apply Hdone.
      * destruct (e_file ex); [| by intros [= <- <-]].
        intros [= <- <-] _. apply Hdone, same_frames_fprintf.
  - (* inner level *)
    intros Hrun _.
    replace w' with (finally_inner cfg w1 r ex).1 by (by rewrite Hrun).
    eapply same_frames_frames_ok; [| exact Hok1].
    unfold finally_inner. case_decide; [| done].
    destruct (bool_decide (e_class ex = Some ReturnEvent) && e_first ex).
    + by destruct (deref_JMP_BUF (e_pData ex)).
    + destruct (e_class ex) as [cl |]; [| done].
      apply and_then_same_frames; [apply ExceptThrow_same_frames | done].
Qed.

Lemma step_frames cfg w op w' : step cfg w op w' → frames_ok cfg w → frames_ok cfg w'.
Proof.
  intros Hstep Hok. destruct Hstep as
    [ pC file line w' r Hv H | pC p pData file line w' o Hv H Ho | r class w' taken Hr H
    | pC w' o Hv H Ho | pC inner w' o Hv H Ho | pC site w' o Hv H Ho | number w' o H Ho
    | pC expr file line w' o Hv H Ho | r checked file line w' o Hr H Ho
    | r checked class file line w' o Hr H Ho ].
  - unfold try_macro in H.
    destruct (ExceptTry cfg w pC file line) as [w1 [[] | | | |]] eqn:Htry; cbn [and_then] in H;
      try done.
    pose proof (ExceptTry_frames _ _ _ _ _ _ Hv Hok Htry) as Hok1.
    destruct (ExceptGetContext cfg w1 pC ≫= _) as [[w2 r2] |] eqn:Hu; [| done].
    injection H as <- <-.
    destruct (ExceptGetContext cfg w1 pC) as [r1 |]; [| done]. simpl in Hu.
    destruct (update_pEx _ w1 r1) as [w3 |] eqn:Hu3; [| done]. simpl in Hu.
    injection Hu as <- <-.
    eapply same_frames_frames_ok; [| exact Hok1].
    eapply update_pEx_same_frames; [| exact Hu3]. by intros ? [].
  - eapply same_frames_frames_ok; [| exact Hok].
    replace w' with (throw_macro cfg w pC p pData file line).1 by (by rewrite H).
    apply ExceptThrow_same_frames.
  - eapply same_frames_frames_ok; [| exact Hok].
    replace w' with (catch_macro cfg w r class).1 by (by rewrite H).
    apply catch_macro_same_frames.
  - eapply same_frames_frames_ok; [| exact Hok].
    replace w' with (finally_scope cfg w pC).1 by (by rewrite H).
    apply finally_scope_same_frames.
  - (* the tests of 'finally': a decrement, and ExceptFinally or not *)
    assert (∀ w0 w1 o1, same_frames w w0 → finally_outer_test cfg w0 pC = (w1, o1) →
                        o1 ≠ Fault → frames_ok cfg w1) as Houter.
    { intros w0 w1 o1 H0 Hrun Ho1.
      pose proof (same_frames_frames_ok _ _ _ H0 Hok) as Hok0.
      assert (valid_pC cfg w0 pC) as Hv0.
      { destruct Hv as [-> | [? Hv]]; [by left | right; split; [done |]].
        by rewrite (same_frames_ExceptGetContext _ _ _ _ H0). }
      unfold finally_outer_test in Hrun.
      destruct (ExceptGetContext cfg w0 pC ≫= _) as [[top ex] |];
        [| injection Hrun as <- <-; done].
      case_decide.
      - pose proof (ready_decrement_same_frames cfg w0 pC) as Hd.
        destruct (ready_decrement cfg w0 pC) as [w2 [a | | | |]]; simpl in *;
          injection Hrun as <- <-; by eapply same_frames_frames_ok.
      - destruct (ExceptFinally cfg w0 pC) as [w2 o2] eqn:Hfin.
        assert (w1 = w2 ∧ (o2 = Fault → o1 = Fault)) as [-> Hf].
        { destruct o2; simpl in Hrun; injection Hrun as <- <-; done. }
        eapply ExceptFinally_frames; [exact Hv0 | exact Hok0 | exact Hfin |].
        intros ->. by apply Ho1, Hf. }
    unfold finally_tests in H. destruct inner; [| by eapply (Houter w)].
    pose proof (ready_decrement_same_frames cfg w pC) as Hd.
    destruct (ready_decrement cfg w pC) as [w2 [ready | | | |]]; simpl in *;
      try (injection H as <- <-; by eapply same_frames_frames_ok).
    case_decide; [injection H as <- <-; by eapply same_frames_frames_ok |].
    by eapply (Houter w2).
  - eapply same_frames_frames_ok; [| exact Hok].
    replace w' with (return_macro cfg w pC site).1 by (by rewrite H).
    apply return_macro_same_frames.
  - eapply same_frames_frames_ok; [| exact Hok].
    replace w' with (ExceptThrowSignal cfg w number).1 by (by rewrite H).
    apply ExceptThrowSignal_same_frames.
  - eapply same_frames_frames_ok; [| exact Hok].
    replace w' with (AssertAction cfg w pC (DO_ABORT cfg) expr file line).1 by (by rewrite H).
    apply AssertAction_same_frames.
  - eapply same_frames_frames_ok; [| exact Hok].
    replace w' with (ExceptCheckBegin w r checked file line).1 by (by rewrite H).
    apply ExceptCheckBegin_same_frames.
  - eapply same_frames_frames_ok; [| exact Hok].
    replace w' with (ExceptCheck w r checked class file line).1 by (by rewrite H).
    apply ExceptCheck_same_frames.
Qed.

(** X5. in every store that a program can reach, the frames of the flow
    are in order: [pC->pEx] is the top of the frame stack, or NULL when the
    stack is empty or given up; no handle is on the stack twice; and the
    handles allocated are exactly those on the stack (none has leaked, none
    on the stack is freed). *)
Theorem reachable_frames_ok (cfg : Config) (w : World) :
  reachable cfg w → frames_ok cfg w.
Proof.
  induction 1 as [w (Hh & Hd & Hp & _) | w op w' _ IH Hstep].
  - unfold frames_ok, ExceptGetContext. rewrite Hp.
    destruct (MULTI_THREADING cfg); [done |].
    exists Context_zero. simpl. rewrite Hd, Hh. split_and!; [done | done | constructor | done].
  - by eapply step_frames.
Qed.

Lemma reachable_frames_ok_witness : frames_ok linux_single rethrow_thrown.
Proof. exact (reachable_frames_ok linux_single rethrow_thrown rethrow_thrown_reachable). Defined.

(** *** The [getClass] member *)

Lemma getClass_kept_handles w w' : handles w' = handles w → getClass_kept w w'.
Proof. intros Hh a ex' Ha. rewrite Hh in Ha. by exists ex'. Qed.

Lemma finally_outermost_getClass_kept cfg w r ex :
  getClass_kept w (finally_outermost cfg w r ex).1.
Proof.
  unfold finally_outermost.
  destruct (ExceptRestoreHandlers cfg w r) as [[w2 restored] |] eqn:Hres;
    [| by apply getClass_kept_handles].
  apply ExceptRestoreHandlers_spec in Hres as [Hsame%same_frames_same_memory _].
  apply same_frames_getClass_kept in Hsame.
  assert (∀ w3, getClass_kept w2 w3 → getClass_kept w (destroy_context cfg r w3)) as Hdone.
  { intros w3 H3. eapply getClass_kept_trans; [exact Hsame |].
    eapply getClass_kept_trans; [exact H3 |].
    apply getClass_kept_handles, handles_destroy_context. }
  case_decide; [| by apply Hdone, getClass_kept_handles].
  case_decide.
  - pose proof (AssertAction_same_frames cfg w2 (Some r) (DO_ABORT cfg) (e_pData ex)
                  (e_file ex) (e_line ex)) as Ha%same_frames_getClass_kept.
    destruct (AssertAction cfg w2 _ _ _ _ _) as [w3 [[] | | | |]]; simpl in *;
      [by apply Hdone | by eapply getClass_kept_trans ..].
  - destruct (e_class ex ≫= _) as [[[cl derived] clr] |]; [| done].
    destruct (derived && restored); [by apply Hdone, getClass_kept_handles |].
    case_decide.
    + destruct (deref_JMP_BUF (e_pData ex)); by apply Hdone, getClass_kept_handles.
    + destruct (e_file ex); [| done].
      apply Hdone, getClass_kept_handles, handles_fprintf_stderr.
Qed.

Lemma finally_inner_same_frames cfg w r ex : same_frames w (finally_inner cfg w r ex).1.
Proof.
  unfold finally_inner. case_decide; [| done].
  destruct (bool_decide (e_class ex = Some ReturnEvent) && e_first ex).
  - by destruct (deref_JMP_BUF (e_pData ex)).
  - destruct (e_class ex) as [cl |]; [| done].
    apply and_then_same_frames; [apply ExceptThrow_same_frames | done].
Qed.

Lemma ExceptFinally_getClass_kept cfg w pC : getClass_kept w (ExceptFinally cfg w pC).1.
Proof.
  unfold ExceptFinally.
  destruct (resolve_pC cfg w pC ≫= _) as [[[r ctx] [[popped |] stack]] |];
    try by apply getClass_kept_handles.
  destruct (handles w !! popped) as [ex |]; [| by apply getClass_kept_handles].
  set (w1 := write_context r _ _).
  assert (getClass_kept w w1) as H1.
  { subst w1. intros a ex' Ha. rewrite handles_write_context, handles_set_handles in Ha.
    apply lookup_delete_Some in Ha as [_ Ha]. by exists ex'. }
  case_decide.
  - eapply getClass_kept_trans; [exact H1 | apply finally_outermost_getClass_kept].
  - eapply getClass_kept_trans; [exact H1 |].
    apply same_frames_getClass_kept, finally_inner_same_frames.
Qed.

Lemma step_getClass_unset cfg w op w' :
  step cfg w op w' → getClass_unset w → getClass_unset w'.
Proof.
  intros Hstep Hok. destruct Hstep as
    [ pC file line w' r Hv H | pC p pData file line w' o Hv H Ho | r class w' taken Hr H
    | pC w' o Hv H Ho | pC inner w' o Hv H Ho | pC site w' o Hv H Ho | number w' o H Ho
    | pC expr file line w' o Hv H Ho | r checked file line w' o Hr H Ho
    | r checked class file line w' o Hr H Ho ].
  - unfold try_macro in H.
    destruct (ExceptTry cfg w pC file line) as [w1 [[] | | | |]] eqn:Htry; cbn [and_then] in H;
      try done.
    destruct (ExceptTry_spec _ _ _ _ _ _ Hv Htry) as (r1 & new & ctx1 & _ & Hnew & Hh1 & _).
    destruct (ExceptGetContext cfg w1 pC ≫= _) as [[w2 r2] |] eqn:Hu; [| done].
    injection H as <- <-.
    destruct (ExceptGetContext cfg w1 pC) as [r0 |]; [| done]. simpl in Hu.
    destruct (update_pEx _ w1 r0) as [w3 |] eqn:Hu3; [| done]. simpl in Hu.
    injection Hu as <- <-.
    eapply getClass_kept_unset.
    { eapply same_frames_getClass_kept, update_pEx_same_frames; [| exact Hu3]. by intros ? []. }
    intros a ex Ha. rewrite Hh1 in Ha. destruct (decide (a = new)) as [-> | Hne].
    + rewrite lookup_insert_eq in Ha. by injection Ha as <-.
    + rewrite lookup_insert_ne in Ha by done. by apply Hok with a.
  - eapply getClass_kept_unset; [| exact Hok]. apply same_frames_getClass_kept.
    replace w' with (throw_macro cfg w pC p pData file line).1 by (by rewrite H).
    apply ExceptThrow_same_frames.
  - eapply getClass_kept_unset; [| exact Hok]. apply same_frames_getClass_kept.
    replace w' with (catch_macro cfg w r class).1 by (by rewrite H).
    apply catch_macro_same_frames.
  - eapply getClass_kept_unset; [| exact Hok]. apply same_frames_getClass_kept.
    replace w' with (finally_scope cfg w pC).1 by (by rewrite H).
    apply finally_scope_same_frames.
  - eapply getClass_kept_unset; [| exact Hok].
    replace w' with (finally_tests cfg w pC inner).1 by (by rewrite H).
    assert (∀ w0, getClass_kept w0 (finally_outer_test cfg w0 pC).1) as Houter.
    { intros w0. unfold finally_outer_test.
      destruct (ExceptGetContext cfg w0 pC ≫= _) as [[top ex] |];
        [| by apply getClass_kept_handles].
      case_decide.
      - pose proof (ready_decrement_same_frames cfg w0 pC) as Hd%same_frames_getClass_kept.
        by destruct (ready_decrement cfg w0 pC) as [w2 [a | | | |]].
      - pose proof (ExceptFinally_getClass_kept cfg w0 pC) as Hf.
        by destruct (ExceptFinally cfg w0 pC) as [w2 [a | | | |]]. }
    unfold finally_tests. destruct inner; [| apply Houter].
    pose proof (ready_decrement_same_frames cfg w pC) as Hd%same_frames_getClass_kept.
    destruct (ready_decrement cfg w pC) as [w2 [ready | | | |]]; simpl in *; try done.
    case_decide; [done |]. eapply getClass_kept_trans; [exact Hd | apply Houter].
  - eapply getClass_kept_unset; [| exact Hok]. apply same_frames_getClass_kept.
    replace w' with (return_macro cfg w pC site).1 by (by rewrite H).
    apply return_macro_same_frames.
  - eapply getClass_kept_unset; [| exact Hok]. apply same_frames_getClass_kept.
    replace w' with (ExceptThrowSignal cfg w number).1 by (by rewrite H).
    apply ExceptThrowSignal_same_frames.
  - eapply getClass_kept_unset; [| exact Hok]. apply same_frames_getClass_kept.
    replace w' with (AssertAction cfg w pC (DO_ABORT cfg) expr file line).1 by (by rewrite H).
    apply AssertAction_same_frames.
  - eapply getClass_kept_unset; [| exact Hok]. apply same_frames_getClass_kept.
    replace w' with (ExceptCheckBegin w r checked file line).1 by (by rewrite H).
    apply ExceptCheckBegin_same_frames.
  - eapply getClass_kept_unset; [| exact Hok]. apply same_frames_getClass_kept.
    replace w' with (ExceptCheck w r checked class file line).1 by (by rewrite H).
    apply ExceptCheck_same_frames.
Qed.

(** X6. no routine of the package ever assigns the [getClass] member of an
    exception handle: in every store that a program can reach it is NULL in
    every handle (as calloc left it). *)
Theorem reachable_getClass_unset (cfg : Config) (w : World) :
  reachable cfg w →
  ∀ (a : nat) (ex : Except), handles w !! a = Some ex → e_getClass ex = false.
Proof.
  induction 1 as [w (Hh & _) | w op w' _ IH Hstep].
  - intros a ex Ha. by rewrite Hh, lookup_empty in Ha.
  - by eapply step_getClass_unset.
Qed.

Lemma reachable_getClass_unset_witness :
  e_getClass (handle_at rethrow_thrown 2) = false ∧
  e_getMessage (handle_at rethrow_thrown 2) = true.
Proof.
  split; [| vm_compute; reflexivity].
  apply (reachable_getClass_unset linux_single rethrow_thrown rethrow_thrown_reachable 2%nat).
  vm_compute. reflexivity.
Defined.

(** X7. a 'try' statement inside an enclosing one, whose 'try' block ends
    without an exception and whose 'finally' block is empty, leaves the store
    exactly as it found it. *)
Theorem try_finally_nested (cfg : Config) (w : World) (pC : option ContextRef)
    (r : ContextRef) (c : Context) (x : nat) (stack : list nat) (file : option string)
    (line : Z) :
  valid_pC cfg w pC →
  ExceptGetContext cfg w None = Some r →
  read_context w r = Some c →
  exStack c = Some (x :: stack) →
  pEx c = Some x →
  ∃ w1 : World,
    try_macro cfg w pC file line = (w1, Return r) ∧
    (e_scope <$> current cfg w1) = Some TRY ∧
    finally_macro_empty cfg w1 pC = (w, Return (Some 0)).
Proof.
  intros Hvalid Hr Hc Hs Hp.
  assert (resolve_pC cfg w pC = Some r) as Hres.
  { destruct Hvalid as [-> | [[y ->] Hy]]; [done |]. simpl. congruence. }
  (* ExceptTry *)
  set (new := fresh ({[0%nat]} ∪ dom (handles w))).
  assert (handles w !! new = None) as Hnew.
  { apply not_elem_of_dom. pose proof (is_fresh ({[0%nat]} ∪ dom (handles w))) as Hf.
    fold new in Hf. intros Hin. apply Hf, elem_of_union. by right. }
  set (ex0 := set_tryLine line (set_tryFile file
                (set_first (bool_decide (pC = None)) Except_zero))).
  set (c1 := set_exStack (Some (new :: x :: stack)) (set_pEx (Some new) c)).
  assert (ExceptTry cfg w pC file line
          = (set_handles (<[new := ex0]> (handles w)) (write_context r c1 w), Return ())) as Htry.
  { unfold ExceptTry.
    assert ((if MULTI_THREADING cfg
             then match pContextHash w with
                  | Some _ => w
                  | None => set_pContextHash (Some ∅) w
                  end
             else w) = w) as ->.
    { destruct (MULTI_THREADING cfg) eqn:Hmt; [| done].
      destruct (pContextHash w) eqn:Hh; [done |].
      unfold ExceptGetContext in Hr. by rewrite Hmt, Hh in Hr. }
    rewrite Hres. simpl.
    unfold ExceptInstallHandlers. rewrite Hc. simpl. rewrite Hs. simpl. rewrite Hc. simpl.
    rewrite Hs. simpl. done. }
  set (w1 := set_handles (<[new := ex0]> (handles w)) (write_context r c1 w)) in *.
  assert (read_context w1 r = Some c1) as Hc1.
  { subst w1. rewrite read_context_set_handles. by apply read_write_context with (c0 := c). }
  assert (∀ p, valid_pC cfg w p → ∀ h c', ExceptGetContext cfg
            (set_handles h (write_context r c' w)) p = Some r) as Hget.
  { intros p Hv h c'. rewrite ExceptGetContext_set_handles.
    unfold valid_pC, ExceptGetContext in *.
    destruct (MULTI_THREADING cfg); [| done].
    destruct p as [y |].
    - destruct Hv as [? | [_ Hy]]; [done |].
      destruct (pContextHash (write_context r c' w)); congruence.
    - destruct r as [| t]; destruct w as [? ? ? [hh |] ? ? ? ? ? ? ? ? self]; simpl in *;
        try done.
      destruct (hh !! self) eqn:Ht; [| done]. injection Hr as <-.
      by rewrite lookup_insert_eq. }
  assert (deref_pEx w1 r = Some (new, ex0)) as Hd1.
  { apply deref_pEx_Some. exists c1. split_and!; [done | by destruct c |].
    subst w1. rewrite handles_set_handles. apply lookup_insert_eq. }
  set (ex1 := set_scope TRY (set_throwBuf (jb_try new) (set_ready 1
                (set_finalBuf (jb_finally new) ex0)))).
  set (w2 := set_handles (<[new := ex1]> (handles w)) (write_context r c1 w)).
  assert (try_macro cfg w pC file line = (w2, Return r)) as Hmacro.
  { unfold try_macro. rewrite Htry. cbn [and_then]. subst w1. rewrite (Hget pC Hvalid). simpl.
    rewrite (update_pEx_Some _ _ _ _ _ Hd1). simpl.
    rewrite handles_set_handles, set_handles_twice, insert_insert_eq. done. }
  exists w2. split; [exact Hmacro |].
  assert (∀ e, deref_pEx (set_handles (<[new := e]> (handles w)) (write_context r c1 w)) r
               = Some (new, e)) as Hd.
  { intros e. apply deref_pEx_Some. exists c1. split_and!.
    - rewrite read_context_set_handles. by apply read_write_context with (c0 := c).
    - by destruct c.
    - rewrite handles_set_handles. apply lookup_insert_eq. }
  split.
  { unfold current. subst w2. rewrite (Hget None (or_introl eq_refl)). simpl.
    by rewrite Hd. }
  (* 'finally' *)
  unfold finally_macro_empty. subst w2.
  rewrite (finally_scope_top _ _ _ r new ex1) by (by rewrite ?Hget, ?Hd).
  cbn [and_then]. rewrite handles_set_handles, set_handles_twice, insert_insert_eq.
  rewrite (finally_tests_block _ _ _ r new (set_scope FINALLY ex1))
    by (by rewrite ?Hget, ?Hd).
  cbn [and_then]. rewrite handles_set_handles, set_handles_twice, insert_insert_eq.
  rewrite (finally_tests_leave _ _ _ r new
             (set_ready (e_ready (set_scope FINALLY ex1) - 1) (set_scope FINALLY ex1)))
    by (by rewrite ?Hget, ?Hd).
  rewrite handles_set_handles, set_handles_twice, insert_insert_eq.
  set (ex4 := set_ready _ _).
  (* ExceptFinally *)
  unfold ExceptFinally.
  assert (resolve_pC cfg (set_handles (<[new := ex4]> (handles w)) (write_context r c1 w)) pC
          = Some r) as ->.
  { destruct pC as [y |]; [| by apply (Hget None (or_introl eq_refl))].
    simpl. destruct Hvalid as [? | [_ Hy]]; [done | congruence]. }
  simpl. rewrite read_context_set_handles.
  rewrite (read_write_context w r c1 c Hc). simpl.
  assert (exStack c1 = Some (new :: x :: stack)) as -> by (by destruct c).
  simpl. rewrite handles_set_handles, lookup_insert_eq. rewrite LifoPeek_top.
  rewrite delete_insert_id by done.
  rewrite set_handles_twice, write_context_set_handles, write_context_twice.
  assert (set_pEx (Some x) (set_exStack (Some (x :: stack)) c1) = c) as ->.
  { subst c1. destruct c; simpl in *. by subst. }
  rewrite (write_context_id _ _ _ Hc), set_handles_id.
  unfold finally_inner. rewrite decide_False by done. done.
Qed.

Lemma try_finally_nested_witness :
  ∃ w1 : World,
    try_macro linux_single rethrow_outer_try (Some defaultContext_ref) (Some "Test.c") 571
    = (w1, Return defaultContext_ref) ∧
    (e_scope <$> current linux_single w1) = Some TRY ∧
    finally_macro_empty linux_single w1 (Some defaultContext_ref)
    = (rethrow_outer_try, Return (Some 0)).
Proof.
  apply (try_finally_nested linux_single rethrow_outer_try (Some defaultContext_ref)
           defaultContext_ref (defaultContext rethrow_outer_try) 1%nat []).
  - right. split; [eauto | reflexivity].
  - reflexivity.
  - reflexivity.
  - vm_compute. reflexivity.
  - vm_compute. reflexivity.
Defined.

(** X8. 'return' in a 'try' or 'catch' block of the first 'try' statement of
    a function that was called inside 'try' statements of its callers. The
    macro makes the frame hold a pending ReturnEvent and jumps to the
    'finally' code; after the 'finally' block ExceptFinally frees the frame
    and jumps to the place of the 'return'. The frames of the callers stay
    as they are. *)
Theorem return_leaves_first_frame (cfg : Config) (w : World) (pC : option ContextRef)
    (r : ContextRef) (c : Context) (top below : nat) (rest : list nat) (ex : Except)
    (site : nat) :
  valid_pC cfg w pC →
  ExceptGetContext cfg w None = Some r →
  read_context w r = Some c →
  exStack c = Some (top :: below :: rest) →
  pEx c = Some top →
  handles w !! top = Some ex →
  e_scope ex = TRY ∨ e_scope ex = CATCH →
  e_ready ex = 1 →
  e_first ex = true →
  ∃ w1 : World,
    return_macro cfg w pC site = (w1, LongJmp (e_finalBuf ex)) ∧
    (λ e, (e_state e, e_class e)) <$> current cfg w1 = Some (PENDING, Some ReturnEvent) ∧
    finally_macro_empty cfg w1 pC
    = (set_handles (delete top (handles w))
         (write_context r (set_pEx (Some below) (set_exStack (Some (below :: rest)) c)) w),
       LongJmp (jb_return site)).
Proof.
  intros Hvalid Hr Hc Hs Hp Hex Hscope Hready Hfirst.
  assert (resolve_pC cfg w pC = Some r) as Hres.
  { destruct Hvalid as [-> | [[y ->] Hy]]; [done |]. simpl. congruence. }
  assert (∀ h, ExceptGetContext cfg (set_handles h w) pC = Some r) as Hget.
  { intros h. rewrite ExceptGetContext_set_handles.
    destruct Hvalid as [-> | [[y ->] Hy]]; [done |].
    rewrite Hr in Hy. injection Hy as ->. unfold ExceptGetContext in *.
    destruct (MULTI_THREADING cfg); [by destruct (pContextHash w) | done]. }
  assert (∀ e, deref_pEx (set_handles (<[top := e]> (handles w)) w) r = Some (top, e)) as Hd.
  { intros e. apply deref_pEx_Some. exists c. split_and!.
    - by rewrite read_context_set_handles.
    - done.
    - rewrite handles_set_handles. apply lookup_insert_eq. }
  assert (deref_pEx w r = Some (top, ex)) as Hd0.
  { apply deref_pEx_Some. by exists c. }
  set (exR := set_state PENDING (set_class (Some ReturnEvent)
                (set_pData (JmpBufPtr (jb_return site)) ex))).
  assert (return_macro cfg w pC site
          = (set_handles (<[top := exR]> (handles w)) w, LongJmp (e_finalBuf ex))) as Hret.
  { unfold return_macro.
    rewrite (ExceptGetScope_top _ _ _ _ _ _ _ _ Hres Hc Hs Hp Hex).
    specialize (Hget (handles w)). rewrite set_handles_id in Hget.
    assert (∀ X : World * Outcome unit,
              match e_scope ex with
              | OUTSIDE => (w, Return ())
              | _ => X
              end = X) as -> by (by destruct Hscope as [-> | ->]).
    rewrite Hget. simpl. rewrite (update_pEx_Some _ _ _ _ _ Hd0). simpl.
    unfold ExceptReturn. rewrite resolve_pC_set_handles, Hres. simpl. rewrite Hd.
    rewrite handles_set_handles, set_handles_twice, insert_insert_eq.
    by destruct ex. }
  eexists. split; [exact Hret |]. split.
  { unfold current. specialize (Hget (<[top := exR]> (handles w))).
    assert (ExceptGetContext cfg (set_handles (<[top := exR]> (handles w)) w) None = Some r)
      as -> by (by rewrite ExceptGetContext_set_handles).
    simpl. rewrite Hd. by destruct ex. }
  unfold finally_macro_empty.
  rewrite (finally_scope_top _ _ _ r top exR) by (by rewrite ?Hget, ?Hd).
  cbn [and_then]. rewrite handles_set_handles, set_handles_twice, insert_insert_eq.
  rewrite (finally_tests_block _ _ _ r top (set_scope FINALLY exR))
    by (rewrite ?Hget, ?Hd; try done; destruct ex; simpl in *; lia).
  cbn [and_then]. rewrite handles_set_handles, set_handles_twice, insert_insert_eq.
  rewrite (finally_tests_leave _ _ _ r top
             (set_ready (e_ready (set_scope FINALLY exR) - 1) (set_scope FINALLY exR)))
    by (rewrite ?Hget, ?Hd; try done; destruct ex; simpl in *; lia).
  rewrite handles_set_handles, set_handles_twice, insert_insert_eq.
  set (ex4 := set_ready _ _).
  unfold ExceptFinally. rewrite resolve_pC_set_handles, Hres. simpl.
  rewrite read_context_set_handles, Hc. simpl. rewrite Hs. simpl.
  rewrite handles_set_handles, lookup_insert_eq, LifoPeek_top.
  rewrite delete_insert_eq, set_handles_twice, write_context_set_handles.
  unfold finally_inner.
  assert (e_state ex4 = PENDING ∧ e_class ex4 = Some ReturnEvent ∧ e_first ex4 = true ∧
          e_pData ex4 = JmpBufPtr (jb_return site)) as (-> & -> & -> & ->).
  { subst ex4 exR. by destruct ex. }
  rewrite decide_True by done. by rewrite bool_decide_eq_true_2.
Qed.

Lemma return_leaves_first_frame_witness :
  ∃ w1 : World,
    return_macro linux_single called_try None 7
    = (w1, LongJmp (e_finalBuf (handle_at called_try 2))) ∧
    (λ e, (e_state e, e_class e)) <$> current linux_single w1
    = Some (PENDING, Some ReturnEvent) ∧
    finally_macro_empty linux_single w1 None
    = (set_handles (delete 2%nat (handles called_try))
         (write_context defaultContext_ref
            (set_pEx (Some 1%nat) (set_exStack (Some [1%nat]) (defaultContext called_try)))
            called_try),
       LongJmp (jb_return 7)).
Proof.
  apply (return_leaves_first_frame linux_single called_try None defaultContext_ref
           (defaultContext called_try) 2%nat 1%nat [] (handle_at called_try 2) 7).
  - by left.
  - reflexivity.
  - reflexivity.
  - vm_compute. reflexivity.
  - vm_compute. reflexivity.
  - vm_compute. reflexivity.
  - left. vm_compute. reflexivity.
  - vm_compute. reflexivity.
  - vm_compute. reflexivity.
Defined.

(** X9. an exception thrown in a 'finally' block. The block is entered
    with [ready] counted down to 0; the throw stores the new exception in
    the frame in place of what it held, and jumps to the 'finally' code
    again, where the tests now lead past the block to ExceptFinally: the
    block is not run a second time. *)
Theorem throw_in_finally_block (cfg : Config) (w : World) (pC : option ContextRef)
    (r : ContextRef) (c : Context) (top : nat) (stack : list nat) (ex : Except)
    (class : ClassRef) (cl : Class) (pData : VoidPtr) (file : option string) (line : Z) :
  valid_pC cfg w pC →
  ExceptGetContext cfg w None = Some r →
  read_context w r = Some c →
  exStack c = Some (top :: stack) →
  pEx c = Some top →
  handles w !! top = Some ex →
  e_ready ex = 1 →
  classes w !! class = Some cl →
  c_notRethrown cl ≠ 0 →
  ∃ (w1 w2 w3 : World) (ex3 : Except),
    finally_scope cfg w pC = (w1, Return ()) ∧
    finally_tests cfg w1 pC false = (w2, Return None) ∧
    throw_macro cfg w2 pC (ClassPtr class) pData file line = (w3, LongJmp (e_finalBuf ex)) ∧
    deref_pEx w3 r = Some (top, ex3) ∧
    e_state ex3 = PENDING ∧
    descriptor ex3 = (Some class, pData, file, line) ∧
    ∃ w4 : World,
      finally_scope cfg w3 pC = (w4, Return ()) ∧
      finally_tests cfg w4 pC false
      = ExceptFinally cfg w4 pC >>> λ w v, (w, Return (Some v)).
Proof.
  intros Hvalid Hr Hc Hs Hp Hex Hready Hcl Hnr.
  assert (resolve_pC cfg w pC = Some r) as Hres.
  { destruct Hvalid as [-> | [[y ->] Hy]]; [done |]. simpl. congruence. }
  assert (∀ h, ExceptGetContext cfg (set_handles h w) pC = Some r) as Hget.
  { intros h. rewrite ExceptGetContext_set_handles.
    destruct Hvalid as [-> | [[y ->] Hy]]; [done |].
    rewrite Hr in Hy. injection Hy as ->. unfold ExceptGetContext in *.
    destruct (MULTI_THREADING cfg); [by destruct (pContextHash w) | done]. }
  assert (∀ e, deref_pEx (set_handles (<[top := e]> (handles w)) w) r = Some (top, e)) as Hd.
  { intros e. apply deref_pEx_Some. exists c. split_and!.
    - by rewrite read_context_set_handles.
    - done.
    - rewrite handles_set_handles. apply lookup_insert_eq. }
  assert (deref_pEx w r = Some (top, ex)) as Hd0.
  { apply deref_pEx_Some. by exists c. }
  pose proof (Hget (handles w)) as Hget0. rewrite set_handles_id in Hget0.
  set (ex1 := set_scope FINALLY ex).
  set (ex2 := set_ready (e_ready ex1 - 1) ex1).
  set (ex3 := set_state PENDING (set_methods (set_line line (set_file file
                (set_pData pData (set_class (Some class) ex2)))))).
  exists (set_handles (<[top := ex1]> (handles w)) w),
         (set_handles (<[top := ex2]> (handles w)) w),
         (set_handles (<[top := ex3]> (handles w)) w), ex3.
  split; [by apply finally_scope_top with r |].
  split.
  { rewrite (finally_tests_block _ _ _ r top ex1)
      by (rewrite ?Hget, ?Hd; try done; destruct ex; simpl in *; lia).
    by rewrite handles_set_handles, set_handles_twice, insert_insert_eq. }
  split.
  { unfold throw_macro.
    rewrite (ExceptThrow_in_frame cfg _ pC r c top stack top ex2 (ClassPtr class)
               (c_notRethrown cl) pData file line).
    - rewrite decide_False by done. simpl.
      rewrite handles_set_handles, set_handles_twice, insert_insert_eq.
      f_equal. by destruct ex.
    - by rewrite resolve_pC_set_handles.
    - by rewrite read_context_set_handles.
    - done.
    - done.
    - rewrite handles_set_handles. apply lookup_insert_eq.
    - simpl. rewrite classes_set_handles, Hcl. done. }
  split; [apply Hd |]. split; [by destruct ex |]. split; [by destruct ex |].
  exists (set_handles (<[top := set_scope FINALLY ex3]> (handles w)) w). split.
  { rewrite (finally_scope_top _ _ _ r top ex3) by (by rewrite ?Hget, ?Hd).
    by rewrite handles_set_handles, set_handles_twice, insert_insert_eq. }
  unfold finally_tests, finally_outer_test. rewrite Hget. simpl. rewrite Hd.
  rewrite decide_False; [done |]. destruct ex; simpl in *. lia.
Qed.

Lemma throw_in_finally_block_witness :
  ∃ (w1 w2 w3 : World) (ex3 : Except),
    finally_scope linux_single single_try (Some defaultContext_ref) = (w1, Return ()) ∧
    finally_tests linux_single w1 (Some defaultContext_ref) false = (w2, Return None) ∧
    throw_macro linux_single w2 (Some defaultContext_ref) (ClassPtr Exception) NULL
      (Some "Test.c") 300
    = (w3, LongJmp (e_finalBuf (handle_at single_try 1))) ∧
    deref_pEx w3 defaultContext_ref = Some (1%nat, ex3) ∧
    e_state ex3 = PENDING ∧
    descriptor ex3 = (Some Exception, NULL, Some "Test.c", 300) ∧
    ∃ w4 : World,
      finally_scope linux_single w3 (Some defaultContext_ref) = (w4, Return ()) ∧
      finally_tests linux_single w4 (Some defaultContext_ref) false
      = ExceptFinally linux_single w4 (Some defaultContext_ref) >>> λ w v, (w, Return (Some v)).
Proof.
  apply (throw_in_finally_block linux_single single_try (Some defaultContext_ref)
           defaultContext_ref (defaultContext single_try) 1%nat [] (handle_at single_try 1)
           Exception (except_class_define "Exception" (Some Throwable))).
  - right. split; [eauto | reflexivity].
  - reflexivity.
  - reflexivity.
  - vm_compute. reflexivity.
  - vm_compute. reflexivity.
  - vm_compute. reflexivity.
  - vm_compute. reflexivity.
  - vm_compute. reflexivity.
  - simpl. lia.
Defined.

Lemma ExceptCheck_loop_total classes class file line l n :
  rooted classes class n →
  (∀ k, k ∈ l → is_Some (classes !! k_class k)) →
  is_Some (ExceptCheck_loop classes class (Some file) line l).
Proof.
  intros Hroot. assert (is_Some (classes !! class)) as [cl Hcl].
  { inversion Hroot as [? (cl & ? & _) | ? ? ? (cl & ? & _)]; eauto. }
  induction l as [| k l IH]; intros Hl; simpl; [eauto |].
  case_decide.
  - rewrite Hcl. simpl. eauto.
  - destruct (ExceptIsDerived_rooted _ _ _ (k_class k) Hroot) as (b & -> & _). simpl.
    destruct b.
    + rewrite Hcl. simpl. destruct (Hl k) as [by_cl ->]; [by left |]. simpl. eauto.
    + apply IH. intros k' Hk'. apply Hl. by right.
Qed.

Lemma auditing_deref w r top ex l msgs :
  deref_pEx w r = Some (top, ex) →
  deref_pEx (auditing w top ex l msgs) r = Some (top, set_checkList (Some l) ex).
Proof.
  intros (c & Hc & Hp & Hex)%deref_pEx_Some. apply deref_pEx_Some. exists c.
  unfold auditing. split_and!.
  - by rewrite read_context_set_stderr, read_context_set_handles.
  - done.
  - destruct w; simpl. apply lookup_insert_eq.
Qed.

Lemma auditing_fprintf w top ex l msgs text :
  fprintf_stderr text (auditing w top ex l msgs) = auditing w top ex l (msgs ++ [text]).
Proof. unfold auditing, fprintf_stderr. destruct w; simpl. by rewrite app_assoc. Qed.

Lemma auditing_store w top ex l msgs v :
  store_checkList (auditing w top ex l msgs) top (set_checkList (Some l) ex) (Some v)
  = auditing w top ex v msgs.
Proof.
  unfold auditing, store_checkList. destruct w, ex; simpl. by rewrite insert_insert_eq.
Qed.

Lemma auditing_classes w top ex l msgs : classes (auditing w top ex l msgs) = classes w.
Proof. by destruct w. Qed.

(** The clauses of the statement, gone through by the audit. *)
Lemma audit_clauses_spec w r top ex file clauses : ∀ l msgs,
  deref_pEx w r = Some (top, ex) →
  (∀ class line, (class, line) ∈ clauses → ∃ n, rooted (classes w) class n) →
  (∀ k, k ∈ l → is_Some (classes w !! k_class k)) →
  ∃ l' msgs',
    audit_clauses (auditing w top ex l msgs) r clauses (Some file)
    = (auditing w top ex (l ++ l') (msgs ++ msgs'), Return false) ∧
    (length l' + length msgs' = length clauses)%nat ∧
    (l = [] → clauses ≠ [] → l' ≠ []).
Proof.
  induction clauses as [| [class line] clauses IH]; intros l msgs Hd Hroot Hl.
  - exists [], []. simpl. by rewrite !app_nil_r.
  - destruct (Hroot class line) as [n Hn]; [by left |].
    assert (is_Some (classes w !! class)) as Hcl.
    { inversion Hn as [? (cl & ? & _) | ? ? ? (cl & ? & _)]; eauto. }
    destruct (ExceptCheck_loop_total (classes w) class file line l n Hn Hl) as [found Hfound].
    cbn [audit_clauses].
    rewrite (ExceptCheck_found _ r top (set_checkList (Some l) ex) l class (Some file) line found);
      [| by apply auditing_deref | by destruct ex | by rewrite auditing_classes].
    destruct found as [text |]; cbn [and_then].
    + rewrite auditing_fprintf.
      destruct (IH l (msgs ++ [text]) Hd) as (l' & msgs' & Hrun & Hlen & Hne);
        [intros c0 l0 H0; apply (Hroot c0 l0); by right | done |].
      exists l', (text :: msgs'). rewrite Hrun. split_and!.
      * by rewrite <- app_assoc.
      * simpl. lia.
      * intros -> _. simpl in Hfound. done.
    + rewrite auditing_store.
      destruct (IH (l ++ [mkCheck class line]) msgs Hd) as (l' & msgs' & Hrun & Hlen & Hne);
        [intros c0 l0 H0; apply (Hroot c0 l0); by right | |].
      { intros k [Hk | ->%list_elem_of_singleton]%elem_of_app; [by apply Hl | done]. }
      exists (mkCheck class line :: l'), msgs'. rewrite Hrun. split_and!.
      * by rewrite <- app_assoc.
      * simpl. lia.
      * done.
Qed.

(** X10. the audit pass of a 'try' statement (DEBUG defined) changes
    nothing in the store but stderr: it ends with the flag set, the check list
    freed and the frame as it was. For a statement without 'catch' clause it
    writes the one warning that says so; else it writes fewer lines than
    there are clauses (the first clause is always recorded). *)
Theorem audit_pass_only_prints (w : World) (r : ContextRef) (top : nat) (ex : Except)
    (clauses : list (ClassRef * Z)) (file : string) (line : Z) :
  deref_pEx w r = Some (top, ex) →
  e_checkList ex = None →
  (∀ class l, (class, l) ∈ clauses → ∃ n, rooted (classes w) class n) →
  ∃ msgs : list string,
    audit_pass w r clauses (Some file) line = (set_stderr (stderr w ++ msgs) w, Return true) ∧
    (clauses = [] → msgs = [no_catch_message file line]) ∧
    (clauses ≠ [] → (length msgs < length clauses)%nat).
Proof.
  intros Hd Hnull Hroot.
  pose proof Hd as (c & Hc & Hp & Hex)%deref_pEx_Some.
  assert (ExceptCheckBegin w r false (Some file) line = (auditing w top ex [] [], Return false))
    as Hbegin.
  { unfold ExceptCheckBegin. rewrite Hd, Hnull. unfold auditing, store_checkList.
    rewrite app_nil_r. by destruct w. }
  destruct (audit_clauses_spec w r top ex file clauses [] [] Hd Hroot)
    as (l' & msgs' & Hrun & Hlen & Hne); [by intros k Hk%elem_of_nil |].
  assert (∀ msgs, set_stderr (stderr w ++ msgs)
                    (set_handles (<[top := ex]> (handles w)) w)
                  = set_stderr (stderr w ++ msgs) w) as Hback.
  { intros msgs. rewrite insert_id by done. by destruct w. }
  unfold audit_pass. rewrite Hbegin. cbn [and_then]. rewrite Hrun. cbn [and_then].
  simpl app. unfold ExceptCheckBegin. rewrite (auditing_deref _ _ _ _ _ _ Hd).
  assert (e_checkList (set_checkList (Some l') ex) = Some l') as -> by (by destruct ex).
  destruct clauses as [| cl clauses].
  - assert (l' = []) as -> by (destruct l'; [done | simpl in Hlen; lia]).
    assert (msgs' = []) as -> by (destruct msgs'; [done | simpl in Hlen; lia]).
    rewrite decide_True by done.
    exists [no_catch_message file line]. split; [| done].
    f_equal. rewrite auditing_fprintf. unfold auditing, store_checkList. simpl app.
    rewrite <- Hback. destruct w, ex; simpl in *. subst. by rewrite insert_insert_eq.
  - rewrite decide_False by (destruct l'; [by exfalso; apply Hne | done]).
    exists msgs'. split; [| split; [done |]].
    + f_equal. unfold auditing, store_checkList.
      rewrite <- Hback. destruct w, ex; simpl in *. subst. by rewrite insert_insert_eq.
    + intros _. destruct l'; [by exfalso; apply Hne |]. simpl in *. lia.
Qed.

Lemma audit_pass_only_prints_witness :
  ∃ msgs : list string,
    audit_pass single_try defaultContext_ref [(RuntimeException, 490); (Level2Exception, 491)]
      (Some "Test.c") 476
    = (set_stderr (stderr single_try ++ msgs) single_try, Return true) ∧
    ([(RuntimeException, 490%Z); (Level2Exception, 491%Z)] = [] →
     msgs = [no_catch_message "Test.c" 476]) ∧
    ([(RuntimeException, 490%Z); (Level2Exception, 491%Z)] ≠ [] →
     (length msgs < length [(RuntimeException, 490%Z); (Level2Exception, 491%Z)])%nat).
Proof.
  apply (audit_pass_only_prints single_try defaultContext_ref 1%nat (handle_at single_try 1)).
  - vm_compute. reflexivity.
  - vm_compute. reflexivity.
  - intros class l Hin. change (classes single_try) with test_classes.
    apply test_classes_rooted.
    apply elem_of_cons in Hin as [[= -> _] | Hin]; [by eexists |].
    apply list_elem_of_singleton in Hin as [= -> _]. by eexists.
Defined.

(** *** The methods of a caught exception *)

(** X11. what a handler sees of a thrown exception. A class thrown in a
    'try' block with data, file and line, and a 'catch' clause for a class it
    is derived from: the clause is taken, and in its block [e->getData()]
    ([e] is the top of the frame stack) gives the data and [e->getMessage()]
    the text made of the name of the thrown class and the file and line of the
    throw (if that text fits the buffer of the context). *)
Theorem caught_exception_methods (cfg : Config) (w : World) (pC : option ContextRef)
    (r : ContextRef) (c : Context) (top : nat) (stack : list nat) (ex : Except)
    (thrown class : ClassRef) (cl : Class) (pData : VoidPtr) (file : string) (line : Z) :
  valid_pC cfg w pC →
  ExceptGetContext cfg w None = Some r →
  read_context w r = Some c →
  exStack c = Some (top :: stack) →
  pEx c = Some top →
  handles w !! top = Some ex →
  e_scope ex = TRY →
  e_ready ex = 1 →
  classes w !! thrown = Some cl →
  c_notRethrown cl = 1 →
  ExceptIsDerived (classes w) thrown class = Some true →
  (String.length (message_text (c_name cl) file line) < 1024)%nat →
  ∃ w1 w2 : World,
    throw_macro cfg w pC (ClassPtr thrown) pData (Some file) line
    = (w1, LongJmp (e_throwBuf ex)) ∧
    catch_macro cfg w1 r class = (w2, Return true) ∧
    (ctx ← read_context w2 r; frames ← exStack ctx; LifoPeek frames 1) = Some top ∧
    call_method w2 top e_getData (ExceptGetData cfg w2) = Return pData ∧
    call_method w2 top e_getMessage (ExceptGetMessage cfg w2)
    = Return (message_text (c_name cl) file line) ∧
    ExceptGetClass cfg w2 = Return (Some thrown).
Proof.
  intros Hvalid Hr Hc Hs Hp Hex Hscope Hready Hcl Hnr Hder Hlen.
  assert (resolve_pC cfg w pC = Some r) as Hres.
  { destruct Hvalid as [-> | [[y ->] Hy]]; [done |]. simpl. congruence. }
  set (ex1 := set_state PENDING (set_methods (set_line line (set_file (Some file)
                (set_pData pData (set_class (Some thrown) ex)))))).
  set (ex2 := set_scope CATCH (set_state CAUGHT ex1)).
  exists (set_handles (<[top := ex1]> (handles w)) w),
         (set_handles (<[top := ex2]> (handles w)) w).
  assert (∀ e, deref_pEx (set_handles (<[top := e]> (handles w)) w) r = Some (top, e)) as Hd.
  { intros e. apply deref_pEx_Some. exists c. split_and!.
    - by rewrite read_context_set_handles.
    - done.
    - rewrite handles_set_handles. apply lookup_insert_eq. }
  split_and!.
  - unfold throw_macro.
    rewrite (ExceptThrow_in_frame cfg w pC r c top stack top ex (ClassPtr thrown) 1
               pData (Some file) line); try done.
    + simpl. unfold throw_dispatch. subst ex1. destruct ex; simpl in *. by subst.
    + simpl. rewrite Hcl. simpl. by rewrite Hnr.
  - unfold catch_macro. rewrite Hd.
    rewrite decide_False by (subst ex1; destruct ex; simpl in *; lia).
    unfold ExceptCatch. simpl. rewrite Hd.
    rewrite decide_True by (by destruct ex).
    assert (e_class ex1 = Some thrown) as -> by (by destruct ex).
    simpl. rewrite classes_set_handles, Hder. cbn [and_then].
    rewrite handles_set_handles, set_handles_twice, insert_insert_eq.
    rewrite (update_pEx_Some _ _ r top (set_state CAUGHT ex1)) by apply Hd.
    by rewrite handles_set_handles, set_handles_twice, insert_insert_eq.
  - rewrite read_context_set_handles, Hc. simpl. rewrite Hs. apply LifoPeek_top.
  - unfold call_method, ExceptGetData.
    rewrite handles_set_handles, lookup_insert_eq.
    assert (e_getData ex2 = true) as -> by (by destruct ex).
    rewrite ExceptGetContext_set_handles, Hr. simpl. rewrite Hd. by destruct ex.
  - unfold call_method, ExceptGetMessage.
    rewrite handles_set_handles, lookup_insert_eq.
    assert (e_getMessage ex2 = true) as -> by (by destruct ex).
    rewrite ExceptGetContext_set_handles, Hr. simpl. rewrite Hd. simpl.
    assert (e_class ex2 = Some thrown ∧ e_file ex2 = Some file ∧ e_line ex2 = line)
      as (-> & -> & ->) by (by destruct ex).
    simpl. rewrite classes_set_handles, Hcl. simpl. by rewrite decide_True.
  - unfold ExceptGetClass. rewrite ExceptGetContext_set_handles, Hr. simpl. rewrite Hd.
    by destruct ex.
Qed.

Lemma caught_exception_methods_witness :
  ∃ w1 w2 : World,
    throw_macro linux_single single_try (Some defaultContext_ref) (ClassPtr Level2Exception)
      (StrPtr "Hello") (Some "Test.c") 82
    = (w1, LongJmp (e_throwBuf (handle_at single_try 1))) ∧
    catch_macro linux_single w1 defaultContext_ref Level1Exception = (w2, Return true) ∧
    (ctx ← read_context w2 defaultContext_ref; frames ← exStack ctx; LifoPeek frames 1)
    = Some 1%nat ∧
    call_method w2 1 e_getData (ExceptGetData linux_single w2) = Return (StrPtr "Hello") ∧
    call_method w2 1 e_getMessage (ExceptGetMessage linux_single w2)
    = Return (message_text "Level2Exception" "Test.c" 82) ∧
    ExceptGetClass linux_single w2 = Return (Some Level2Exception).
Proof.
  apply (caught_exception_methods linux_single single_try (Some defaultContext_ref)
           defaultContext_ref (defaultContext single_try) 1%nat [] (handle_at single_try 1)
           Level2Exception Level1Exception
           (except_class_define "Level2Exception" (Some Level1Exception))).
  - right. split; [eauto | reflexivity].
  - reflexivity.
  - reflexivity.
  - vm_compute. reflexivity.
  - vm_compute. reflexivity.
  - vm_compute. reflexivity.
  - vm_compute. reflexivity.
  - vm_compute. reflexivity.
  - vm_compute. reflexivity.
  - reflexivity.
  - vm_compute. reflexivity.
  - apply Nat.ltb_lt. vm_compute. reflexivity.
Defined.

(** The loop of ExceptPrintTryTrace goes down the stack. *)
Lemma ExceptPrintTryTrace_loop_spec w rest : ∀ pre tries n,
  n = Z.of_nat (length pre) + 1 →
  Forall2 (λ a (t : string * Z), ∃ ex, handles w !! a = Some ex ∧
                                       e_tryFile ex = Some t.1 ∧ e_tryLine ex = t.2)
          rest tries →
  ExceptPrintTryTrace_loop w (pre ++ rest) n (length rest)
  = Some (map (λ t, trace_line t.1 t.2) tries).
Proof.
  induction rest as [| a rest IH]; intros pre tries n Hn Hall.
  - apply Forall2_nil_inv_l in Hall as ->. done.
  - apply Forall2_cons_inv_l in Hall as ([f l] & tries' & (ex & Hex & Hf & Hl) & Hall & ->).
    simpl in *. unfold LifoPeek, LifoCount.
    rewrite decide_True by (rewrite length_app; simpl; lia).
    replace (Z.to_nat (n - 1)) with (length pre) by lia.
    rewrite lookup_app_r by lia. rewrite Nat.sub_diag. simpl.
    rewrite Hex. simpl. rewrite Hf. simpl.
    replace (pre ++ a :: rest) with ((pre ++ [a]) ++ rest) by (by rewrite <- app_assoc).
    rewrite (IH (pre ++ [a]) tries' (n + 1)); [by rewrite Hl | | done].
    rewrite length_app. simpl. lia.
Qed.

(** X12. the trace that [e->printTryTrace(0)] writes: the line that names
    the class of the exception, then one line for each frame on the stack,
    from the innermost 'try' statement to the outermost, with the file and
    line of that 'try'. With NULL or stderr as argument the lines go to
    stderr. *)
Theorem ExceptPrintTryTrace_innermost_first (cfg : Config) (w : World) (r : ContextRef)
    (c : Context) (stack : list nat) (top : nat) (ex : Except) (class : ClassRef) (cl : Class)
    (tries : list (string * Z)) :
  ExceptGetContext cfg w None = Some r →
  read_context w r = Some c →
  exStack c = Some stack →
  pEx c = Some top →
  handles w !! top = Some ex →
  e_class ex = Some class →
  classes w !! class = Some cl →
  Forall2 (λ a (t : string * Z), ∃ ex, handles w !! a = Some ex ∧
                                       e_tryFile ex = Some t.1 ∧ e_tryLine ex = t.2)
          stack tries →
  let printed := set_stderr (stderr w ++ trace_header cfg w (c_name cl)
                               :: map (λ t, trace_line t.1 t.2) tries) w in
  ExceptPrintTryTrace cfg w file_NULL = (printed, Return ()) ∧
  ExceptPrintTryTrace cfg w file_stderr = (printed, Return ()) ∧
  ∀ id, ExceptPrintTryTrace cfg w (file_other id) = (w, Return ()).
Proof.
  intros Hr Hc Hs Hp Hex Hclass Hcl Hall printed.
  assert (deref_pEx w r = Some (top, ex)) as Hd.
  { apply deref_pEx_Some. by exists c. }
  unfold ExceptPrintTryTrace. rewrite Hr. simpl. rewrite Hc. simpl. rewrite Hd. simpl.
  rewrite Hclass. simpl. rewrite Hcl. simpl. rewrite Hs. simpl.
  unfold LifoCount. rewrite Nat2Z.id.
  pose proof (ExceptPrintTryTrace_loop_spec w stack [] tries 1 eq_refl Hall) as Hloop.
  simpl in Hloop. rewrite Hloop. done.
Qed.

Lemma ExceptPrintTryTrace_innermost_first_witness :
  let printed := set_stderr (stderr rethrow_caught ++ trace_header linux_single rethrow_caught
                               "Exception"
                               :: map (λ t, trace_line t.1 t.2)
                                    [("Test.c"%string, 571); ("Test.c"%string, 570)])
                   rethrow_caught in
  ExceptPrintTryTrace linux_single rethrow_caught file_NULL = (printed, Return ()) ∧
  ExceptPrintTryTrace linux_single rethrow_caught file_stderr = (printed, Return ()) ∧
  ∀ id, ExceptPrintTryTrace linux_single rethrow_caught (file_other id)
        = (rethrow_caught, Return ()).
Proof.
  apply (ExceptPrintTryTrace_innermost_first linux_single rethrow_caught defaultContext_ref
           (defaultContext rethrow_caught) [2%nat; 1%nat] 2%nat (handle_at rethrow_caught 2)
           Exception (except_class_define "Exception" (Some Throwable))).
  - reflexivity.
  - reflexivity.
  - vm_compute. reflexivity.
  - vm_compute. reflexivity.
  - vm_compute. reflexivity.
  - vm_compute. reflexivity.
  - vm_compute. reflexivity.
  - repeat constructor; eexists; (split; [vm_compute; reflexivity | split; reflexivity]).
Defined.

(** *** Allocation *)

(** X13. an allocation that fails inside a 'try' statement does not return:
    the routine of "Alloc.c" throws OutOfMemoryError with no data and the file
    and line of the call, so that the frame holds that exception as pending
    and control goes to the 'catch' clauses (from a 'try' block) or to the
    'finally' code. An allocation that succeeds gives the pointer and leaves
    the store as it is. *)
Theorem Alloc_throws_OutOfMemoryError (cfg : Config) (w : World) (pC : option ContextRef)
    (r : ContextRef) (c : Context) (top : nat) (stack : list nat) (ex : Except) (cl : Class)
    (file : option string) (line : Z) :
  resolve_pC cfg w pC = Some r →
  read_context w r = Some c →
  exStack c = Some (top :: stack) →
  pEx c = Some top →
  handles w !! top = Some ex →
  e_scope ex = TRY ∨ e_scope ex = CATCH ∨ e_scope ex = FINALLY →
  classes w !! OutOfMemoryError = Some cl →
  c_notRethrown cl = 1 →
  ∃ (w' : World) (ex' : Except),
    AllocMalloc cfg w pC NULL file line
    = (w', LongJmp (if decide (e_scope ex = TRY) then e_throwBuf ex else e_finalBuf ex)) ∧
    AllocCalloc cfg w pC NULL file line = AllocMalloc cfg w pC NULL file line ∧
    AllocRealloc cfg w pC NULL file line = AllocMalloc cfg w pC NULL file line ∧
    deref_pEx w' r = Some (top, ex') ∧
    e_state ex' = PENDING ∧
    descriptor ex' = (Some OutOfMemoryError, NULL, file, line) ∧
    ∀ pMem, pMem ≠ NULL →
      AllocMalloc cfg w pC pMem file line = (w, Return pMem) ∧
      AllocCalloc cfg w pC pMem file line = (w, Return pMem) ∧
      AllocRealloc cfg w pC pMem file line = (w, Return pMem).
Proof.
  intros Hres Hc Hs Hp Hex Hscope Hcl Hnr.
  set (ex' := set_state PENDING (set_methods (set_line line (set_file file
                (set_pData NULL (set_class (Some OutOfMemoryError) ex)))))).
  exists (set_handles (<[top := ex']> (handles w)) w), ex'. split_and!.
  - unfold AllocMalloc.
    rewrite (ExceptThrow_in_frame cfg w pC r c top stack top ex (ClassPtr OutOfMemoryError) 1
               NULL file line); try done.
    + simpl. unfold throw_dispatch.
      assert (e_scope (set_methods (set_line line (set_file file (set_pData NULL
                (set_class (Some OutOfMemoryError) ex))))) = e_scope ex) as -> by (by destruct ex).
      destruct Hscope as [-> | [-> | ->]]; simpl; by destruct ex.
    + simpl. rewrite Hcl. simpl. by rewrite Hnr.
  - done.
  - done.
  - apply deref_pEx_Some. exists c. split_and!.
    + by rewrite read_context_set_handles.
    + done.
    + rewrite handles_set_handles. apply lookup_insert_eq.
  - by destruct ex.
  - by destruct ex.
  - intros pMem Hp'. by destruct pMem.
Qed.

Lemma Alloc_throws_OutOfMemoryError_witness :
  ∃ (w' : World) (ex' : Except),
    AllocMalloc linux_single single_try (Some defaultContext_ref) NULL (Some "Test.c") 120
    = (w', LongJmp (if decide (e_scope (handle_at single_try 1) = TRY)
                    then e_throwBuf (handle_at single_try 1)
                    else e_finalBuf (handle_at single_try 1))) ∧
    AllocCalloc linux_single single_try (Some defaultContext_ref) NULL (Some "Test.c") 120
    = AllocMalloc linux_single single_try (Some defaultContext_ref) NULL (Some "Test.c") 120 ∧
    AllocRealloc linux_single single_try (Some defaultContext_ref) NULL (Some "Test.c") 120
    = AllocMalloc linux_single single_try (Some defaultContext_ref) NULL (Some "Test.c") 120 ∧
    deref_pEx w' defaultContext_ref = Some (1%nat, ex') ∧
    e_state ex' = PENDING ∧
    descriptor ex' = (Some OutOfMemoryError, NULL, Some "Test.c", 120) ∧
    ∀ pMem, pMem ≠ NULL →
      AllocMalloc linux_single single_try (Some defaultContext_ref) pMem (Some "Test.c") 120
      = (single_try, Return pMem) ∧
      AllocCalloc linux_single single_try (Some defaultContext_ref) pMem (Some "Test.c") 120
      = (single_try, Return pMem) ∧
      AllocRealloc linux_single single_try (Some defaultContext_ref) pMem (Some "Test.c") 120
      = (single_try, Return pMem).
Proof.
  apply (Alloc_throws_OutOfMemoryError linux_single single_try (Some defaultContext_ref)
           defaultContext_ref (defaultContext single_try) 1%nat [] (handle_at single_try 1)
           (except_class_define "OutOfMemoryError" (Some Exception))).
  - reflexivity.
  - reflexivity.
  - vm_compute. reflexivity.
  - vm_compute. reflexivity.
  - vm_compute. reflexivity.
  - left. vm_compute. reflexivity.
  - vm_compute. reflexivity.
  - reflexivity.
Defined.

(** X14. the hash value of every key is an index of the table, so that the
    line "INVALID HashValue" is never written. *)
Theorem HashValue_in_range (key : Z) :
  0 ≤ (HashValue key).1 < HASH_SIZE ∧ (HashValue key).2 = None.
Proof.
  unfold HashValue. cbn [fst snd].
  set (x := Z.land ((key * 40503) mod 2 ^ 32) 65535).
  assert (0 ≤ x < 65536) as Hx.
  { subst x. change 65535 with (Z.ones 16). rewrite Z.land_ones by lia.
    apply Z.mod_pos_bound. lia. }
  unfold HASH_SIZE. rewrite (Z.mod_small (256 * x)) by lia.
  rewrite Z.shiftr_div_pow2 by lia.
  assert (0 ≤ 256 * x / 2 ^ 16 < 256) as Hv.
  { split; [apply Z.div_pos; lia |]. apply Z.div_lt_upper_bound; lia. }
  split; [exact Hv |]. rewrite decide_False; [done | lia].
Qed.

(** *** The buffer as a stack *)




Lemma holds_stack_bound pLifo stack :
  holds_stack pLifo stack → (length stack ≤ length (Lifo_c.pObjects pLifo))%nat.
Proof.
  intros (_ & _ & _ & Htake). pose proof (f_equal length Htake) as Hlen.
  rewrite length_take, length_fmap, length_reverse in Hlen. lia.
Qed.









(** ** The doubly linked list *)

Lemma ListNode_eta nd :
  List_c.mkListNode (List_c.pNext nd) (List_c.pPrev nd) (List_c.pData nd) = nd.
Proof. by destruct nd. Qed.

Lemma first_or_app l1 l2 d : first_or (l1 ++ l2) d = first_or l1 (first_or l2 d).
Proof. by destruct l1. Qed.

Lemma last_or_cons x l d : last_or (x :: l) d = last_or l x.1.
Proof.
  revert x d. induction l as [| y l IH]; intros x d; [done |].
  transitivity (last_or (y :: l) d); [done |]. by rewrite (IH y d), (IH y x.1).
Qed.

Lemma last_or_app l1 l2 d : last_or (l1 ++ l2) d = last_or l2 (last_or l1 d).
Proof.
  revert d. induction l1 as [| x l1 IH]; intros d; [done |].
  by rewrite <- app_comm_cons, !last_or_cons, IH.
Qed.

Lemma first_or_elem l d : l ≠ [] → first_or l d ∈ l.*1.
Proof. destruct l as [| [a v] l]; [done |]. intros _. by left. Qed.

Lemma last_or_elem l d : l ≠ [] → last_or l d ∈ l.*1.
Proof.
  revert d. induction l as [| [a v] l IH]; intros d; [done |]. intros _.
  rewrite last_or_cons. destruct l as [| y l]; [by left |].
  right. by apply IH.
Qed.

Lemma first_or_ring l d : first_or l d ∈ d :: l.*1.
Proof. destruct l as [| [a v] l]; [by left |]. right. by left. Qed.

Lemma last_or_ring l d : last_or l d ∈ d :: l.*1.
Proof.
  destruct (decide (l = [])) as [-> | Hl]; [by left |]. right. by apply last_or_elem.
Qed.

Lemma first_or_indep l d d' : l ≠ [] → first_or l d = first_or l d'.
Proof. by destruct l. Qed.

Lemma last_or_indep l d d' : l ≠ [] → last_or l d = last_or l d'.
Proof. destruct l as [| x l]; [done |]. intros _. by rewrite !last_or_cons. Qed.

Lemma linked_app h b l1 l2 a :
  linked h b (l1 ++ l2) a ↔ linked h b l1 (first_or l2 a) ∧ linked h (last_or l1 b) l2 a.
Proof.
  revert b. induction l1 as [| [x v] l1 IH]; intros b; simpl; [tauto |].
  rewrite IH, first_or_app, last_or_cons. simpl. tauto.
Qed.

Lemma linked_frame h h' b l a :
  (∀ x nd, x ∈ l.*1 → h !! x = Some nd → h' !! x = Some nd) →
  linked h b l a → linked h' b l a.
Proof.
  revert b. induction l as [| [x v] l IH]; intros b Hf; simpl; [done |].
  intros [Hx Hl]. split; [apply Hf; [by left | done] |].
  apply IH; [| done]. intros y nd Hy. apply Hf. by right.
Qed.

Lemma rewired_other h h' p p_next n n_prev except x :
  rewired h h' p p_next n n_prev except →
  x ≠ except → x ≠ p → x ≠ n → h' !! x = h !! x.
Proof.
  intros Hr ? ? ?. rewrite (Hr x) by done.
  destruct (h !! x) as [nd |]; [| done]. simpl.
  by rewrite !decide_False, ListNode_eta by done.
Qed.

Lemma linked_set_after h h' b l a p_next n n_prev except :
  rewired h h' (last_or l b) p_next n n_prev except →
  NoDup l.*1 → except ∉ l.*1 → n ∉ l.*1 →
  linked h b l a → linked h' b l (if decide (l = []) then a else p_next).
Proof.
  revert b. induction l as [| [x v] l IH]; intros b Hr Hnd He Hn; simpl; [done |].
  rewrite last_or_cons in Hr. simpl in *.
  apply NoDup_cons in Hnd as [Hx Hnd].
  apply not_elem_of_cons in He as [? He]. apply not_elem_of_cons in Hn as [? Hn].
  intros [Hhx Hl]. split.
  - rewrite (Hr x) by done. rewrite Hhx. simpl. rewrite (decide_False (P := x = n)) by done.
    destruct l as [| y l]; simpl; [by rewrite decide_True |].
    rewrite decide_False; [done |]. intros Heq. apply Hx.
    pose proof (last_or_elem (y :: l) x) as Hin. rewrite <- Heq in Hin. by apply Hin.
  - specialize (IH x Hr Hnd He Hn Hl). destruct l; [done |]. done.
Qed.

Lemma linked_set_before h h' b l a p p_next n_prev except :
  rewired h h' p p_next (first_or l a) n_prev except →
  NoDup l.*1 → except ∉ l.*1 → p ∉ l.*1 →
  linked h b l a → linked h' (if decide (l = []) then b else n_prev) l a.
Proof.
  destruct l as [| [x v] l]; intros Hr Hnd He Hp; simpl; [done |].
  simpl in *. apply NoDup_cons in Hnd as [Hx Hnd].
  apply not_elem_of_cons in He as [? He]. apply not_elem_of_cons in Hp as [? Hp].
  intros [Hhx Hl]. split.
  - rewrite (Hr x) by done. rewrite Hhx. simpl.
    by rewrite (decide_False (P := x = p)), decide_True.
  - apply (linked_frame h); [| done]. intros y nd Hy Hhy.
    rewrite (rewired_other _ _ _ _ _ _ _ _ Hr); [done | | |]; intros ->; tauto.
Qed.

Lemma linked_alloc h b l a x : linked h b l a → x ∈ l.*1 → is_Some (h !! x).
Proof.
  revert b. induction l as [| [y v] l IH]; intros b; simpl; [by intros _ ?%elem_of_nil |].
  intros [Hy Hl] [-> | Hx]%elem_of_cons; [by eexists | by eapply IH].
Qed.

Lemma holds_list_alloc {d} h pList cells x :
  holds_ring d h pList cells → x ∈ List_c.pHead pList :: cells.*1 → is_Some (h !! x).
Proof.
  intros (_ & _ & Hd & Hl & _) [-> | Hx]%elem_of_cons; [by eexists |].
  by eapply linked_alloc.
Qed.

Lemma holds_list_frame {d} h h' pList cells :
  holds_ring d h pList cells →
  (∀ x, x ∈ List_c.pHead pList :: cells.*1 → h' !! x = h !! x) →
  holds_ring d h' pList cells.
Proof.
  intros (Hnd & Hc & Hd & Hl & Hcur) Hf. split_and!; [done | done | | | done].
  - rewrite Hf; [done | by left].
  - apply (linked_frame h); [| done]. intros x nd Hx Hhx. rewrite Hf; [done | by right].
Qed.

(** The facts on the addresses that the proofs on a ring split at some place
    need. *)
Lemma ring_split_facts (head : nat) (l1 l2 : list (nat * option nat)) :
  NoDup (head :: (l1 ++ l2).*1) →
  NoDup (l1.*1) ∧ NoDup (l2.*1) ∧ (head ∉ l1.*1) ∧ (head ∉ l2.*1) ∧
  (last_or l1 head ∉ l2.*1) ∧ (first_or l2 head ∉ l1.*1) ∧
  (l1 ≠ [] → head ≠ last_or l1 head) ∧ (l2 ≠ [] → head ≠ first_or l2 head).
Proof.
  rewrite fmap_app. intros [[H1 H2]%not_elem_of_app (N1 & N12 & N2)%NoDup_app]%NoDup_cons.
  split_and!; try done.
  - intros Hin. pose proof (last_or_ring l1 head) as [Heq | Hl]%elem_of_cons.
    + rewrite Heq in Hin. done.
    + by apply (N12 _ Hl).
  - intros Hin. pose proof (first_or_ring l2 head) as [Heq | Hl]%elem_of_cons.
    + rewrite Heq in Hin. done.
    + by apply (N12 _ Hin).
  - intros Hl Heq. apply H1. rewrite Heq. by apply last_or_elem.
  - intros Hl Heq. apply H2. rewrite Heq. by apply first_or_elem.
Qed.

(** Two neighbours of the ring point to each other. *)
Lemma ring_neighbours {d} h pList l1 l2 :
  holds_ring d h pList (l1 ++ l2) →
  ∃ ndp ndn,
    h !! last_or l1 (List_c.pHead pList) = Some ndp ∧
    List_c.pNext ndp = Some (first_or l2 (List_c.pHead pList)) ∧
    h !! first_or l2 (List_c.pHead pList) = Some ndn ∧
    List_c.pPrev ndn = Some (last_or l1 (List_c.pHead pList)).
Proof.
  intros (Hnd & Hc & Hd & Hl & Hcur).
  apply linked_app in Hl as [Hl1 Hl2].
  rewrite first_or_app, last_or_app in Hd.
  assert (∃ ndp, h !! last_or l1 (List_c.pHead pList) = Some ndp ∧
                 List_c.pNext ndp = Some (first_or l2 (List_c.pHead pList))) as (ndp & ? & ?).
  { destruct (decide (l1 = [])) as [-> | Hne]; [by eexists |].
    destruct (exists_last Hne) as (l & [a v] & ->). apply linked_app in Hl1 as [_ Hl1].
    rewrite last_or_app. simpl in *. destruct Hl1 as [Ha _]. by eexists. }
  assert (∃ ndn, h !! first_or l2 (List_c.pHead pList) = Some ndn ∧
                 List_c.pPrev ndn = Some (last_or l1 (List_c.pHead pList))) as (ndn & ? & ?).
  { destruct l2 as [| [a v] l2]; [by eexists |]. destruct Hl2 as [Ha _]. by eexists. }
  by exists ndp, ndn.
Qed.

(** The node of a cell. *)
Lemma ring_cell {d} h pList l1 c v l2 :
  holds_ring d h pList (l1 ++ (c, v) :: l2) →
  h !! c = Some (List_c.mkListNode (Some (first_or l2 (List_c.pHead pList)))
                                   (Some (last_or l1 (List_c.pHead pList)))
                                   (Lifo_c.assigned v)).
Proof.
  intros (Hnd & Hc & Hd & Hl & Hcur). apply linked_app in Hl as [_ [Hl _]]. done.
Qed.

Lemma holds_insert h h' pList l1 l2 new v c :
  holds_list h pList (l1 ++ l2) →
  h !! new = None →
  h' !! new = Some (List_c.mkListNode (Some (first_or l2 (List_c.pHead pList)))
                                      (Some (last_or l1 (List_c.pHead pList)))
                                      (Lifo_c.assigned v)) →
  rewired h h' (last_or l1 (List_c.pHead pList)) new (first_or l2 (List_c.pHead pList)) new new →
  c = List_c.count pList + 1 →
  holds_list h' (List_c.mkList (List_c.pHead pList) (Some new) c) (l1 ++ (new, v) :: l2).
Proof.
  intros Hh Hnew Hnew' Hr ->.
  assert (new ∉ List_c.pHead pList :: (l1 ++ l2).*1) as Hfresh.
  { intros Hin. destruct (holds_list_alloc _ _ _ _ Hh Hin) as [? ?]. congruence. }
  destruct Hh as (Hnd & Hc & Hd & Hl & Hcur).
  pose proof (ring_split_facts _ _ _ Hnd) as (N1 & N2 & H1 & H2 & Hp & Hn & Hp' & Hn').
  apply linked_app in Hl as [Hl1 Hl2].
  rewrite fmap_app in Hfresh, Hnd.
  apply not_elem_of_cons in Hfresh as [Hnh [F1 F2]%not_elem_of_app].
  set (head := List_c.pHead pList) in *.
  unfold holds_list, holds_ring. simpl. split_and!.
  - rewrite fmap_app. simpl. rewrite <- Permutation_middle, (Permutation_swap new).
    apply NoDup_cons. split; [| done].
    rewrite !not_elem_of_cons, not_elem_of_app. by split_and!.
  - rewrite Hc, !length_app. simpl. lia.
  - rewrite (Hr head) by done. rewrite Hd. simpl. f_equal. f_equal.
    + rewrite !first_or_app. simpl. unfold first_or at 1. simpl.
      destruct (decide (l1 = [])) as [-> | Hne]; simpl; [by rewrite decide_True |].
      rewrite decide_False by auto. f_equal. by apply first_or_indep.
    + rewrite !last_or_app, last_or_cons. simpl.
      destruct (decide (l2 = [])) as [-> | Hne]; simpl; [by rewrite decide_True |].
      rewrite decide_False by auto. f_equal. by apply last_or_indep.
  - apply linked_app. simpl. split_and!; [| done |].
    + pose proof (linked_set_after _ _ _ _ _ _ _ _ _ Hr N1 F1 Hn Hl1) as Hl'.
      destruct (decide (l1 = [])) as [-> | ?]; done.
    + pose proof (linked_set_before _ _ _ _ _ _ _ _ _ Hr N2 F2 Hp Hl2) as Hl'.
      destruct (decide (l2 = [])) as [-> | ?]; done.
  - intros last [= <-]. rewrite fmap_app. simpl.
    rewrite elem_of_cons, elem_of_app, elem_of_cons. tauto.
Qed.

Lemma holds_remove h h' pList l1 c v l2 cur cnt :
  holds_list h pList (l1 ++ (c, v) :: l2) →
  rewired h h' (last_or l1 (List_c.pHead pList)) (first_or l2 (List_c.pHead pList))
               (first_or l2 (List_c.pHead pList)) (last_or l1 (List_c.pHead pList)) c →
  cnt = List_c.count pList - 1 →
  (∀ x, cur = Some x → x ∈ List_c.pHead pList :: (l1 ++ l2).*1) →
  holds_list h' (List_c.mkList (List_c.pHead pList) cur cnt) (l1 ++ l2).
Proof.
  intros (Hnd & Hc & Hd & Hl & _) Hr -> Hcur.
  assert (NoDup (List_c.pHead pList :: (l1 ++ l2).*1) ∧ c ∉ List_c.pHead pList :: (l1 ++ l2).*1)
    as [Hnd' Hc'].
  { revert Hnd. rewrite !fmap_app. simpl.
    rewrite <- Permutation_middle, (Permutation_swap c).
    rewrite NoDup_cons. tauto. }
  pose proof (ring_split_facts _ _ _ Hnd') as (N1 & N2 & H1 & H2 & Hp & Hn & Hp' & Hn').
  apply linked_app in Hl as [Hl1 [Hcell Hl2]].
  rewrite fmap_app in Hc'.
  apply not_elem_of_cons in Hc' as [Hnh [F1 F2]%not_elem_of_app].
  set (head := List_c.pHead pList) in *.
  unfold holds_list, holds_ring. simpl. split_and!; [done | | | | done].
  - rewrite Hc, !length_app. simpl. lia.
  - rewrite (Hr head) by done. rewrite Hd. simpl. f_equal. f_equal.
    + rewrite !first_or_app. simpl. unfold first_or at 3. simpl.
      destruct (decide (l1 = [])) as [-> | Hne]; simpl; [by rewrite decide_True |].
      rewrite decide_False by auto. f_equal. by apply first_or_indep.
    + rewrite !last_or_app, last_or_cons. simpl.
      destruct (decide (l2 = [])) as [-> | Hne]; simpl; [by rewrite decide_True |].
      rewrite decide_False by auto. f_equal. by apply last_or_indep.
  - apply linked_app. split.
    + pose proof (linked_set_after _ _ _ _ _ _ _ _ _ Hr N1 F1 Hn Hl1) as Hl'.
      destruct (decide (l1 = [])) as [-> | ?]; done.
    + pose proof (linked_set_before _ _ _ _ _ _ _ _ _ Hr N2 F2 Hp Hl2) as Hl'.
      destruct (decide (l2 = [])) as [-> | ?]; done.
Qed.

Ltac heap_step :=
  first [ rewrite lookup_insert_eq
        | rewrite lookup_insert_ne by done
        | rewrite lookup_delete_eq
        | rewrite lookup_delete_ne by done
        | match goal with H : ?h !! ?x = _ |- context [?h !! ?x] => rewrite H end ];
  simpl.

Ltac heap_unfold :=
  unfold List_c.set_data, List_c.malloc, List_c.next, List_c.prev, List_c.data,
    List_c.set_next, List_c.set_prev, List_c.free, List_c.incr, List_c.decr; simpl.

Lemma add_after_rewired h new last n ndp ndn (hd : nat) c v :
  h !! new = None → h !! last = Some ndp → List_c.pNext ndp = Some n →
  h !! n = Some ndn → c < List_c.INT_MAX →
  ∃ h', List_c.ListAddAfter new h (List_c.mkList hd (Some last) c) v
        = Some (h', List_c.mkList hd (Some new) (c + 1)) ∧
        h' !! new = Some (List_c.mkListNode (Some n) (Some last) (Lifo_c.assigned v)) ∧
        rewired h h' last new n new new.
Proof.
  intros Hnew Hp Hpn Hn Hc.
  assert (last ≠ new) by (intros ->; congruence).
  assert (n ≠ new) by (intros ->; congruence).
  destruct ndp as [pn pp pd]. destruct ndn as [nn np dn]. simpl in *. subst pn.
  unfold List_c.ListAddAfter. heap_unfold. rewrite decide_True by done.
  destruct (decide (last = n)) as [-> | Hne].
  - assert (pp = np ∧ pd = dn ∧ nn = Some n) as (-> & -> & ->) by (split_and!; congruence).
    repeat heap_step. eexists. split; [done |]. split; [by rewrite lookup_insert_eq |].
    intros x Hx. rewrite lookup_insert_ne by done.
    destruct (decide (x = n)) as [-> | ?]; repeat heap_step; [done |].
    destruct (h !! x) as [y |]; [| done]. simpl. by rewrite ListNode_eta.
  - repeat heap_step. eexists. split; [done |]. split; [by rewrite lookup_insert_eq |].
    intros x Hx. rewrite lookup_insert_ne by done.
    destruct (decide (x = last)) as [-> | ?]; [| destruct (decide (x = n)) as [-> | ?]];
      repeat heap_step; rewrite ?decide_True, ?decide_False by done; try done.
    destruct (h !! x) as [y |]; [| done]. simpl. by rewrite ListNode_eta.
Qed.

Ltac rewired_cases h p n :=
  let x := fresh "x" in
  intros x ?; rewrite ?lookup_insert_ne, ?lookup_delete_ne by done;
  destruct (decide (x = p)) as [-> | ?]; [| destruct (decide (x = n)) as [-> | ?]];
  repeat heap_step; rewrite ?decide_True, ?decide_False by done; try done;
  destruct (h !! x); [| done]; simpl; by rewrite ListNode_eta.

Lemma add_before_rewired h new last p ndp ndn (hd : nat) c v :
  h !! new = None → h !! last = Some ndn → List_c.pPrev ndn = Some p →
  h !! p = Some ndp → c < List_c.INT_MAX →
  ∃ h', List_c.ListAddBefore new h (List_c.mkList hd (Some last) c) v
        = Some (h', List_c.mkList hd (Some new) (c + 1)) ∧
        h' !! new = Some (List_c.mkListNode (Some last) (Some p) (Lifo_c.assigned v)) ∧
        rewired h h' p new last new new.
Proof.
  intros Hnew Hn Hnp Hp Hc.
  assert (last ≠ new) by (intros ->; congruence).
  assert (p ≠ new) by (intros ->; congruence).
  destruct ndp as [pn pp pd]. destruct ndn as [nn np dn]. simpl in *. subst np.
  unfold List_c.ListAddBefore. heap_unfold. rewrite decide_True by done.
  destruct (decide (p = last)) as [-> | Hne].
  - assert (pp = Some last ∧ pd = dn ∧ nn = pn) as (-> & -> & ->) by (split_and!; congruence).
    repeat heap_step. eexists. split; [done |]. split; [by rewrite lookup_insert_eq |].
    rewired_cases h last last.
  - repeat heap_step. eexists. split; [done |]. split; [by rewrite lookup_insert_eq |].
    rewired_cases h p last.
Qed.

Lemma remove_last_rewired h last p n ndp ndn (hd : nat) c v :
  h !! last = Some (List_c.mkListNode (Some n) (Some p) (Lifo_c.assigned v)) →
  h !! p = Some ndp → h !! n = Some ndn → last ≠ p → last ≠ n → List_c.INT_MIN < c →
  ∃ h', List_c.ListRemoveLast h (List_c.mkList hd (Some last) c)
        = Some (h', List_c.mkList hd (Some n) (c - 1), v) ∧
        h' !! last = None ∧
        rewired h h' p n n p last.
Proof.
  intros Hl Hp Hn Hlp Hln Hc.
  destruct ndp as [pn pp pd]. destruct ndn as [nn np dn].
  unfold List_c.ListRemoveLast. heap_unfold. rewrite decide_True by done.
  destruct (decide (p = n)) as [-> | Hne].
  - assert (pp = np ∧ pd = dn ∧ nn = pn) as (-> & -> & ->) by (split_and!; congruence).
    repeat heap_step. eexists. split; [done |]. split; [by rewrite lookup_delete_eq |].
    rewired_cases h n n.
  - repeat heap_step. eexists. split; [done |]. split; [by rewrite lookup_delete_eq |].
    rewired_cases h p n.
Qed.




Lemma ring_size {d} h pList cells :
  holds_ring d h pList cells → (length cells < size h)%nat.
Proof.
  intros Hh. pose proof Hh as (Hnd & _).
  assert (list_to_set (C := gset nat) (List_c.pHead pList :: cells.*1) ⊆ dom h) as Hsub.
  { intros x Hx%elem_of_list_to_set. apply elem_of_dom. by eapply holds_list_alloc. }
  apply subseteq_size in Hsub. rewrite size_list_to_set, size_dom in Hsub by done.
  simpl in Hsub. rewrite length_fmap in Hsub. lia.
Qed.

Lemma holds_list_cursor {d} h pList cells cur :
  holds_ring d h pList cells →
  (∀ x, cur = Some x → x ∈ List_c.pHead pList :: cells.*1) →
  holds_ring d h (List_c.mkList (List_c.pHead pList) cur (List_c.count pList)) cells.
Proof. intros (? & ? & ? & ? & _) Hcur. by split_and!. Qed.

Lemma ListCreate_spec h new :
  h !! new = None →
  ∃ h', List_c.ListCreate new h = Some (h', List_c.mkList new None 0) ∧
        holds_list h' (List_c.mkList new None 0) [] ∧
        ∀ x, x ≠ new → h' !! x = h !! x.
Proof.
  intros Hnew. unfold List_c.ListCreate. heap_unfold. repeat heap_step.
  eexists. split; [done |]. split.
  - split_and!; simpl; try done.
    + apply NoDup_singleton.
    + by rewrite lookup_insert_eq.
  - intros x Hx. by rewrite !lookup_insert_ne.
Qed.

Lemma ListAddAfter_spec h pList l1 l2 new v :
  holds_list h pList (l1 ++ l2) →
  List_c.pNodeLast pList = Some (last_or l1 (List_c.pHead pList)) →
  h !! new = None →
  List_c.count pList < List_c.INT_MAX →
  ∃ h' pList',
    List_c.ListAddAfter new h pList v = Some (h', pList') ∧
    holds_list h' pList' (l1 ++ (new, v) :: l2) ∧
    List_c.pHead pList' = List_c.pHead pList ∧ List_c.pNodeLast pList' = Some new ∧
    ∀ x, x ≠ new → x ∉ List_c.pHead pList :: (l1 ++ l2).*1 → h' !! x = h !! x.
Proof.
  intros Hh Hlast Hnew Hc.
  destruct (ring_neighbours _ _ _ _ Hh) as (ndp & ndn & Hp & Hpn & Hn & Hnp).
  destruct (add_after_rewired h new _ _ _ _ (List_c.pHead pList) _ v Hnew Hp Hpn Hn Hc)
    as (h' & Hrun & Hn' & Hr).
  exists h', (List_c.mkList (List_c.pHead pList) (Some new) (List_c.count pList + 1)).
  split_and!; try done.
  - destruct pList as [hd cur c]. simpl in *. by subst cur.
  - by eapply holds_insert.
  - intros x Hx Hring. rewrite fmap_app in Hring.
    eapply rewired_other; [done | done | |]; intros ->; apply Hring.
    + pose proof (last_or_ring l1 (List_c.pHead pList)) as Hin.
      rewrite !elem_of_cons, elem_of_app in *. tauto.
    + pose proof (first_or_ring l2 (List_c.pHead pList)) as Hin.
      rewrite !elem_of_cons, elem_of_app in *. tauto.
Qed.

Lemma ListAddBefore_spec h pList l1 l2 new v :
  holds_list h pList (l1 ++ l2) →
  List_c.pNodeLast pList = Some (first_or l2 (List_c.pHead pList)) →
  h !! new = None →
  List_c.count pList < List_c.INT_MAX →
  ∃ h' pList',
    List_c.ListAddBefore new h pList v = Some (h', pList') ∧
    holds_list h' pList' (l1 ++ (new, v) :: l2) ∧
    List_c.pHead pList' = List_c.pHead pList ∧ List_c.pNodeLast pList' = Some new ∧
    ∀ x, x ≠ new → x ∉ List_c.pHead pList :: (l1 ++ l2).*1 → h' !! x = h !! x.
Proof.
  intros Hh Hlast Hnew Hc.
  destruct (ring_neighbours _ _ _ _ Hh) as (ndp & ndn & Hp & Hpn & Hn & Hnp).
  destruct (add_before_rewired h new _ _ _ _ (List_c.pHead pList) _ v Hnew Hn Hnp Hp Hc)
    as (h' & Hrun & Hn' & Hr).
  exists h', (List_c.mkList (List_c.pHead pList) (Some new) (List_c.count pList + 1)).
  split_and!; try done.
  - destruct pList as [hd cur c]. simpl in *. by subst cur.
  - by eapply holds_insert.
  - intros x Hx Hring. rewrite fmap_app in Hring.
    eapply rewired_other; [done | done | |]; intros ->; apply Hring.
    + pose proof (last_or_ring l1 (List_c.pHead pList)) as Hin.
      rewrite !elem_of_cons, elem_of_app in *. tauto.
    + pose proof (first_or_ring l2 (List_c.pHead pList)) as Hin.
      rewrite !elem_of_cons, elem_of_app in *. tauto.
Qed.

Lemma ListAddHead_spec h pList cells new v :
  holds_list h pList cells →
  h !! new = None →
  List_c.count pList < List_c.INT_MAX →
  ∃ h' pList',
    List_c.ListAddHead new h pList v = Some (h', pList') ∧
    holds_list h' pList' ((new, v) :: cells) ∧
    List_c.pHead pList' = List_c.pHead pList ∧ List_c.pNodeLast pList' = Some new ∧
    ∀ x, x ≠ new → x ∉ List_c.pHead pList :: cells.*1 → h' !! x = h !! x.
Proof.
  intros Hh Hnew Hc.
  apply (holds_list_cursor _ _ _ (Some (List_c.pHead pList))) in Hh;
    [| intros x [= <-]; by left].
  by apply (ListAddAfter_spec _ _ [] cells new v) in Hh.
Qed.


Lemma ring_frame h h' p p_next n n_prev except (head : nat) (ring : list nat) :
  rewired h h' p p_next n n_prev except →
  p ∈ head :: ring → n ∈ head :: ring → except ∈ head :: ring →
  ∀ x, x ∉ head :: ring → h' !! x = h !! x.
Proof.
  intros Hr Hp Hn He x Hx. eapply rewired_other; [done | | |]; by intros ->.
Qed.

Lemma count_positive {d} h pList cells :
  holds_ring d h pList cells →
  (cells = [] → List_c.count pList = 0) ∧ (cells ≠ [] → List_c.count pList > 0).
Proof.
  intros (_ & -> & _). destruct cells; simpl; split; try done; intros _; lia.
Qed.

Lemma ListRemoveLast_spec h pList l1 c v l2 :
  holds_list h pList (l1 ++ (c, v) :: l2) →
  List_c.pNodeLast pList = Some c →
  ∃ h' pList',
    List_c.ListRemoveLast h pList = Some (h', pList', v) ∧
    holds_list h' pList' (l1 ++ l2) ∧
    List_c.pHead pList' = List_c.pHead pList ∧
    List_c.pNodeLast pList' = Some (first_or l2 (List_c.pHead pList)) ∧
    h' !! c = None ∧
    ∀ x, x ∉ List_c.pHead pList :: (l1 ++ (c, v) :: l2).*1 → h' !! x = h !! x.
Proof.
  intros Hh Hlast.
  pose proof (ring_cell _ _ _ _ _ _ Hh) as Hc.
  pose proof Hh as (Hnd & Hcount & Hd & Hl & _).
  assert (holds_list h pList ((l1 ++ [(c, v)]) ++ l2)) as Hh1 by by rewrite <- app_assoc.
  destruct (ring_neighbours _ _ _ _ Hh) as (ndp & _ & Hp & _ & _ & _).
  destruct (ring_neighbours _ _ _ _ Hh1) as (_ & ndn & _ & _ & Hn & _).
  set (head := List_c.pHead pList) in *.
  assert (c ∉ head :: (l1 ++ l2).*1) as Hfresh.
  { revert Hnd. rewrite !fmap_app. simpl.
    rewrite <- Permutation_middle, (Permutation_swap c), NoDup_cons. tauto. }
  assert (last_or l1 head ∈ head :: (l1 ++ l2).*1) as Hpin.
  { pose proof (last_or_ring l1 head). rewrite fmap_app.
    rewrite !elem_of_cons, elem_of_app in *. tauto. }
  assert (first_or l2 head ∈ head :: (l1 ++ l2).*1) as Hnin.
  { pose proof (first_or_ring l2 head). rewrite fmap_app.
    rewrite !elem_of_cons, elem_of_app in *. tauto. }
  destruct (remove_last_rewired h c _ _ _ _ head (List_c.count pList) v Hc Hp Hn)
    as (h' & Hrun & Hfree & Hr).
  { intros ->. done. }
  { intros ->. done. }
  { rewrite Hcount. unfold List_c.INT_MIN. lia. }
  exists h', (List_c.mkList head (Some (first_or l2 head)) (List_c.count pList - 1)).
  split_and!; try done.
  - destruct pList as [hd cur cnt]. simpl in *. by subst cur.
  - eapply holds_remove; [done | done | done |]. by intros x [= <-].
  - intros x Hx. eapply rewired_other; [done | | |]; intros ->; apply Hx.
    + rewrite fmap_app. simpl. rewrite !elem_of_cons, elem_of_app, elem_of_cons. tauto.
    + revert Hpin. rewrite !fmap_app. simpl.
      rewrite !elem_of_cons, !elem_of_app, elem_of_cons. tauto.
    + revert Hnin. rewrite !fmap_app. simpl.
      rewrite !elem_of_cons, !elem_of_app, elem_of_cons. tauto.
Qed.



Lemma ListHead_spec h pList cells :
  holds_list h pList cells →
  match cells with
  | [] => List_c.ListHead h pList = Some (pList, None)
  | (a, v) :: _ =>
      List_c.ListHead h pList
      = Some (List_c.mkList (List_c.pHead pList) (Some a) (List_c.count pList), v)
  end.
Proof.
  intros Hh. pose proof Hh as (Hnd & Hcount & Hd & Hl & _).
  unfold List_c.ListHead. destruct cells as [| [a v] cells].
  - by rewrite decide_True.
  - rewrite decide_False by (rewrite Hcount; simpl; lia).
    destruct Hl as [Ha _]. unfold List_c.next, List_c.data. rewrite Hd. simpl.
    change (first_or ((a, v) :: cells) (List_c.pHead pList)) with a. by rewrite Ha.
Qed.

Lemma ListTail_spec h pList cells :
  holds_list h pList cells →
  match last cells with
  | None => List_c.ListTail h pList = Some (pList, None)
  | Some (a, v) =>
      List_c.ListTail h pList
      = Some (List_c.mkList (List_c.pHead pList) (Some a) (List_c.count pList), v)
  end.
Proof.
  intros Hh. pose proof Hh as (Hnd & Hcount & Hd & Hl & _).
  unfold List_c.ListTail. destruct (decide (cells = [])) as [-> | Hne].
  - by rewrite decide_True.
  - destruct (exists_last Hne) as (l & [a v] & ->). rewrite last_snoc.
    rewrite decide_False by (rewrite Hcount, length_app; simpl; lia).
    pose proof (ring_cell _ _ _ _ _ _ Hh) as Ha.
    rewrite last_or_app in Hd. change (last_or [(a, v)] _) with a in Hd.
    unfold List_c.prev, List_c.data. rewrite Hd. simpl. by rewrite Ha.
Qed.

Lemma ListLast_spec h pList l1 c v l2 :
  holds_list h pList (l1 ++ (c, v) :: l2) →
  List_c.pNodeLast pList = Some c →
  List_c.ListLast h pList = Some v.
Proof.
  intros Hh Hlast. unfold List_c.ListLast, List_c.data. rewrite Hlast.
  by rewrite (ring_cell _ _ _ _ _ _ Hh).
Qed.

Lemma ListLast_dummy h pList cells :
  holds_list h pList cells →
  List_c.pNodeLast pList = Some (List_c.pHead pList) →
  List_c.ListLast h pList = None.
Proof.
  intros (_ & _ & Hd & _) Hlast. unfold List_c.ListLast, List_c.data.
  by rewrite Hlast, Hd.
Qed.

(** ListNext from the node before [l2] (the last cell of [l1], or the dummy
    node): the first cell of [l2], or the end of the list. *)
Lemma ListNext_spec h pList l1 l2 :
  holds_list h pList (l1 ++ l2) →
  List_c.pNodeLast pList = Some (last_or l1 (List_c.pHead pList)) →
  match l2 with
  | [] => List_c.ListNext h pList
          = Some (List_c.mkList (List_c.pHead pList) None (List_c.count pList), None)
  | (a, v) :: _ =>
      List_c.ListNext h pList
      = Some (List_c.mkList (List_c.pHead pList) (Some a) (List_c.count pList), v)
  end.
Proof.
  intros Hh Hlast.
  destruct (ring_neighbours _ _ _ _ Hh) as (ndp & _ & Hp & Hpn & _ & _).
  unfold List_c.ListNext, List_c.next. rewrite Hlast, Hp. simpl. rewrite Hpn. simpl.
  destruct l2 as [| [a v] l2].
  - by rewrite decide_True.
  - pose proof (ring_cell _ _ _ _ _ _ Hh) as Ha.
    destruct Hh as (Hnd & _). change (first_or ((a, v) :: l2) (List_c.pHead pList)) with a.
    rewrite decide_False.
    + unfold List_c.data. by rewrite Ha.
    + intros ->. apply NoDup_cons in Hnd as [Hnd _]. apply Hnd.
      rewrite fmap_app, elem_of_app. right. by left.
Qed.

Lemma ListPrev_spec h pList l1 l2 :
  holds_list h pList (l1 ++ l2) →
  List_c.pNodeLast pList = Some (first_or l2 (List_c.pHead pList)) →
  match last l1 with
  | None => List_c.ListPrev h pList
            = Some (List_c.mkList (List_c.pHead pList) None (List_c.count pList), None)
  | Some (a, v) =>
      List_c.ListPrev h pList
      = Some (List_c.mkList (List_c.pHead pList) (Some a) (List_c.count pList), v)
  end.
Proof.
  intros Hh Hlast.
  destruct (ring_neighbours _ _ _ _ Hh) as (_ & ndn & _ & _ & Hn & Hnp).
  unfold List_c.ListPrev, List_c.prev. rewrite Hlast, Hn. simpl. rewrite Hnp. simpl.
  destruct (decide (l1 = [])) as [-> | Hne].
  - by rewrite decide_True.
  - destruct (exists_last Hne) as (l & [a v] & ->). rewrite last_snoc.
    rewrite <- app_assoc in Hh. pose proof (ring_cell _ _ _ _ _ _ Hh) as Ha.
    destruct Hh as (Hnd & _). rewrite last_or_app. change (last_or [(a, v)] _) with a.
    rewrite decide_False.
    + unfold List_c.data. by rewrite Ha.
    + intros ->. apply NoDup_cons in Hnd as [Hnd _]. apply Hnd.
      rewrite fmap_app, elem_of_app. right. by left.
Qed.









Lemma ListDestroy_loop_spec withData h head b cells fuel :
  linked h b cells head → NoDup cells.*1 → head ∉ cells.*1 → (length cells < fuel)%nat →
  ∃ h', List_c.ListDestroy_loop withData h head (first_or cells head) fuel
        = Some (h', if withData then cells.*2 else []) ∧
        ∀ x, h' !! x = if decide (x ∈ cells.*1) then None else h !! x.
Proof.
  revert h b cells. induction fuel as [| fuel IH]; intros h b cells Hl Hnd Hh Hf; [lia |].
  destruct cells as [| [a d] rest]; simpl in *.
  - exists h. split.
    + change (first_or [] head) with head. rewrite decide_False by (intros ?; done).
      by destruct withData.
    + intros x. by rewrite ?decide_False by apply not_elem_of_nil.
  - apply not_elem_of_cons in Hh as [Hah Hh]. destruct Hl as [Ha Hl].
    apply NoDup_cons in Hnd as [Har Hnd].
    destruct (IH (delete a h) a rest) as (h' & Hrun & Hh'); [| done | done | lia |].
    { apply (linked_frame h); [| done]. intros x nd Hx Hhx.
      rewrite lookup_delete_ne; [done |]. by intros ->. }
    exists h'. split.
    + change (first_or ((a, d) :: rest) head) with a. rewrite decide_True by done.
      unfold List_c.data, List_c.next, List_c.free. rewrite Ha. simpl.
      destruct withData; simpl; by rewrite Hrun.
    + intros x. rewrite Hh'. destruct (decide (x = a)) as [-> | Hxa].
      * rewrite decide_False by done. rewrite decide_True by by left.
        by rewrite lookup_delete_eq.
      * rewrite lookup_delete_ne by done.
        destruct (decide (x ∈ rest.*1)).
        -- rewrite decide_True; [done |]. by right.
        -- rewrite decide_False; [done |]. rewrite elem_of_cons. tauto.
Qed.

Lemma ListDestroy_with_spec withData h pList cells :
  holds_list h pList cells →
  ∃ h', List_c.ListDestroy_with withData h pList
        = Some (h', if withData then cells.*2 else []) ∧
        ∀ x, h' !! x = if decide (x ∈ List_c.pHead pList :: cells.*1) then None else h !! x.
Proof.
  intros Hh. pose proof (ring_size _ _ _ Hh). destruct Hh as (Hnd & _ & Hd & Hl & _).
  apply NoDup_cons in Hnd as [Hh Hnd].
  destruct (ListDestroy_loop_spec withData h _ _ cells (S (size h)) Hl Hnd Hh)
    as (h' & Hrun & Hh'); [lia |].
  exists (delete (List_c.pHead pList) h'). split.
  { unfold List_c.ListDestroy_with.
    assert (List_c.next h (List_c.pHead pList) = Some (first_or cells (List_c.pHead pList)))
      as -> by (unfold List_c.next; by rewrite Hd).
    cbn -[List_c.ListDestroy_loop]. rewrite Hrun. cbn -[List_c.ListDestroy_loop].
    unfold List_c.free. by rewrite Hh', decide_False, Hd by done. }
  intros x. destruct (decide (x = List_c.pHead pList)) as [-> | Hx].
  - rewrite lookup_delete_eq, decide_True; [done | by left].
  - rewrite lookup_delete_ne, Hh' by done.
    destruct (decide (x ∈ cells.*1)).
    + rewrite decide_True; [done |]. by right.
    + rewrite decide_False; [done |]. rewrite elem_of_cons. tauto.
Qed.

Lemma ring_7_9_built :
  (List_c.ListCreate 10 ∅ ≫= λ '(h, l),
     List_c.ListAddTail 11 h l (Some 7%nat) ≫= λ '(h, l), List_c.ListAddTail 12 h l (Some 9%nat))
  = Some (ring_7_9, list_7_9).
Proof. by vm_compute. Qed.

Lemma ring_7_9_holds cur :
  cur ∈ [10; 11; 12]%nat →
  holds_list ring_7_9 (List_c.mkList 10 (Some cur) 2) [(11, Some 7); (12, Some 9)]%nat.
Proof.
  intros Hcur. split_and!; try done.
  - apply (bool_decide_unpack _). by vm_compute.
  - by intros ? [= <-].
Defined.



(** X18. Walking a well-formed list. ListHead and ListTail return the first
    and the last value and make that node the last accessed one (on the empty
    list they return NULL and leave the last accessed node as it is). With
    the last accessed node on a user node, ListNext and ListPrev move it to
    the following and the preceding user node and return its value; past the
    tail, respectively the head, they return NULL and reset it. *)
Theorem List_walk (h : List_c.Heap) (pList : List_c.List) (cells : list (nat * option nat)) :
  holds_list h pList cells →
  let at_node a := List_c.mkList (List_c.pHead pList) a (List_c.count pList) in
  List_c.ListHead h pList
  = Some (match cells with [] => (pList, None) | (a, w) :: _ => (at_node (Some a), w) end) ∧
  List_c.ListTail h pList
  = Some (match last cells with None => (pList, None) | Some (a, w) => (at_node (Some a), w) end) ∧
  ∀ l1 c v l2, cells = l1 ++ (c, v) :: l2 → List_c.pNodeLast pList = Some c →
    List_c.ListNext h pList
    = Some (match l2 with [] => (at_node None, None) | (a, w) :: _ => (at_node (Some a), w) end) ∧
    List_c.ListPrev h pList
    = Some (match last l1 with None => (at_node None, None) | Some (a, w) => (at_node (Some a), w) end).
Proof.
  intros Hh at_node. split_and!.
  - pose proof (ListHead_spec _ _ _ Hh) as Hhead. by destruct cells as [| [a w] ?].
  - pose proof (ListTail_spec _ _ _ Hh) as Htail. by destruct (last cells) as [[a w] |].
  - intros l1 c v l2 -> Hcur. split.
    + assert (holds_list h pList ((l1 ++ [(c, v)]) ++ l2)) as Hh1 by by rewrite <- app_assoc.
      pose proof (ListNext_spec _ _ _ _ Hh1) as Hn. rewrite last_or_app in Hn.
      specialize (Hn Hcur). by destruct l2 as [| [a w] ?].
    + pose proof (ListPrev_spec _ _ _ _ Hh Hcur) as Hp.
      by destruct (last l1) as [[a w] |].
Qed.

Lemma List_walk_witness :
  List_c.ListHead ring_7_9 list_7_9 = Some (list_7_9_at_7, Some 7%nat) ∧
  List_c.ListTail ring_7_9 list_7_9 = Some (list_7_9, Some 9%nat) ∧
  List_c.ListNext ring_7_9 list_7_9 = Some (List_c.mkList 10 None 2, None) ∧
  List_c.ListPrev ring_7_9 list_7_9 = Some (list_7_9_at_7, Some 7%nat).
Proof.
  destruct (List_walk ring_7_9 list_7_9 [(11, Some 7); (12, Some 9)]%nat)
    as (Hhead & Htail & Hstep).
  - apply ring_7_9_holds. by vm_compute; right; right; left.
  - destruct (Hstep [(11, Some 7)]%nat 12%nat (Some 9%nat) [] eq_refl eq_refl) as [Hn Hp].
    by split_and!.
Defined.

(** X19. Editing at the last accessed node [c] of a well-formed list.
    ListLast returns the value of [c]; ListAddBefore and ListAddAfter link a
    new node just before and just after [c] and make it the last accessed
    node; ListRemoveLast unlinks and frees [c], returns its value, and makes
    the node that followed [c] the last accessed one. When [c] was the tail,
    that node is the dummy head node: the last accessed node is not reset,
    ListLast then reads the data of the dummy node, which nothing ever
    assigned, and ListNext starts again at the head of the list. *)
Theorem List_edit_at_last (h : List_c.Heap) (pList : List_c.List)
    (l1 : list (nat * option nat)) (c : nat) (v : option nat) (l2 : list (nat * option nat))
    (new : nat) (w : option nat) :
  holds_list h pList (l1 ++ (c, v) :: l2) →
  List_c.pNodeLast pList = Some c →
  h !! new = None →
  List_c.count pList < List_c.INT_MAX →
  List_c.ListLast h pList = Some v ∧
  (∃ h' pList', List_c.ListAddBefore new h pList w = Some (h', pList') ∧
                holds_list h' pList' (l1 ++ (new, w) :: (c, v) :: l2) ∧
                List_c.pNodeLast pList' = Some new) ∧
  (∃ h' pList', List_c.ListAddAfter new h pList w = Some (h', pList') ∧
                holds_list h' pList' (l1 ++ (c, v) :: (new, w) :: l2) ∧
                List_c.pNodeLast pList' = Some new) ∧
  (∃ h' pList', List_c.ListRemoveLast h pList = Some (h', pList', v) ∧
                holds_list h' pList' (l1 ++ l2) ∧ h' !! c = None ∧
                List_c.pNodeLast pList' = Some (first_or l2 (List_c.pHead pList)) ∧
                (l2 = [] →
                   List_c.ListLast h' pList' = None ∧
                   List_c.ListNext h' pList'
                   = Some (match l1 with
                           | [] => (List_c.mkList (List_c.pHead pList) None
                                                  (List_c.count pList'), None)
                           | (a, u) :: _ =>
                               (List_c.mkList (List_c.pHead pList) (Some a)
                                              (List_c.count pList'), u)
                           end))).
Proof.
  intros Hh Hcur Hnew Hc. split_and!.
  - by eapply ListLast_spec.
  - destruct (ListAddBefore_spec _ _ l1 ((c, v) :: l2) new w Hh Hcur Hnew Hc)
      as (h' & l' & ? & ? & _ & ? & _).
    by exists h', l'.
  - assert (holds_list h pList ((l1 ++ [(c, v)]) ++ l2)) as Hh1 by by rewrite <- app_assoc.
    destruct (ListAddAfter_spec _ _ _ _ new w Hh1) as (h' & l' & ? & Hh' & _ & ? & _);
      [by rewrite last_or_app | done | done |].
    exists h', l'. rewrite <- app_assoc in Hh'. by split_and!.
  - destruct (ListRemoveLast_spec _ _ _ _ _ _ Hh Hcur) as (h' & l' & ? & Hh' & Hhd & Hc' & ? & _).
    exists h', l'. split_and!; try done. intros ->. rewrite app_nil_r in Hh'. split.
    + apply (ListLast_dummy _ _ _ Hh'). by rewrite Hc', Hhd.
    + pose proof (ListNext_spec _ _ [] l1 Hh') as Hn. rewrite !Hhd in Hn.
      specialize (Hn Hc'). by destruct l1 as [| [a u] ?].
Qed.

Lemma List_edit_at_last_witness :
  ∃ h' pList', List_c.ListRemoveLast ring_7_9 list_7_9 = Some (h', pList', Some 9%nat) ∧
               List_c.pNodeLast pList' = Some 10%nat ∧
               List_c.ListLast h' pList' = None ∧
               List_c.ListNext h' pList' = Some (List_c.mkList 10 (Some 11%nat) 1, Some 7%nat).
Proof.
  destruct (List_edit_at_last ring_7_9 list_7_9 [(11, Some 7)]%nat 12 (Some 9%nat) [] 13
              (Some 5%nat)) as (_ & _ & _ & (h' & l' & Hrun & _ & _ & Hc & Hd)).
  - apply ring_7_9_holds. by vm_compute; right; right; left.
  - reflexivity.
  - by vm_compute.
  - by vm_compute.
  - destruct (Hd eq_refl) as [Hlast Hnext]. exists h', l'. split_and!; try done.
    rewrite Hnext. vm_compute in Hrun. by injection Hrun as <- <-.
Defined.



(** X21. ListDestroy and ListDestroyData end on a well-formed list, and free
    the dummy node and every user node of its ring, and no other node.
    ListDestroyData passes the values of the list to [free] as well, from
    head to tail; ListDestroy frees no value. *)
Theorem ListDestroy_frees_the_ring (h : List_c.Heap) (pList : List_c.List)
    (cells : list (nat * option nat)) :
  holds_list h pList cells →
  ∃ h', List_c.ListDestroy h pList = Some (h', []) ∧
        List_c.ListDestroyData h pList = Some (h', cells.*2) ∧
        ∀ x, h' !! x = if decide (x ∈ List_c.pHead pList :: cells.*1) then None else h !! x.
Proof.
  intros Hh.
  destruct (ListDestroy_with_spec false _ _ _ Hh) as (h1 & Hrun1 & Hh1).
  destruct (ListDestroy_with_spec true _ _ _ Hh) as (h2 & Hrun2 & Hh2).
  assert (h2 = h1) as -> by (apply map_eq; intros x; by rewrite Hh1, Hh2).
  by exists h1.
Qed.

Lemma ListDestroy_frees_the_ring_witness :
  List_c.ListDestroyData ring_7_9 list_7_9 = Some (∅, [Some 7; Some 9]%nat).
Proof.
  destruct (ListDestroy_frees_the_ring ring_7_9 list_7_9 [(11, Some 7); (12, Some 9)]%nat)
    as (h' & _ & Hrun & Hh').
  - apply ring_7_9_holds. by vm_compute; right; right; left.
  - rewrite Hrun. f_equal. f_equal. apply map_eq. intros x. rewrite Hh'.
    case_decide as Hx; [done |]. unfold ring_7_9.
    rewrite !lookup_insert_ne; [done | | |]; intros <-; apply Hx; simpl.
    + by right; right; left.
    + by right; left.
    + by left.
Defined.

(** ** Splitting and concatenating lists *)

Lemma linked_first_prev h b l a x v rest nd :
  linked h b l a → l = (x, v) :: rest → h !! x = Some nd → List_c.pPrev nd = Some b.
Proof. intros Hl -> Hx. destruct Hl as [Hx' _]. rewrite Hx' in Hx. by injection Hx as <-. Qed.

Lemma linked_last_next h b l a x nd :
  linked h b l a → l ≠ [] → x = last_or l b → h !! x = Some nd → List_c.pNext nd = Some a.
Proof.
  intros Hl Hne -> Hx. destruct (exists_last Hne) as (l' & [y v] & ->).
  apply linked_app in Hl as [_ [Hy _]]. rewrite last_or_app in Hx.
  change (last_or [(y, v)] _) with y in Hx. rewrite Hy in Hx. by injection Hx as <-.
Qed.

(** The nodes of a segment keep their links and data, but for the [pNext]
    of the last one and the [pPrev] of the first one. *)
Lemma linked_override h h' b b' l a a' :
  linked h b l a → NoDup l.*1 →
  (∀ x nd, x ∈ l.*1 → h !! x = Some nd →
     h' !! x = Some (List_c.mkListNode
                       (if decide (x = last_or l b) then Some a' else List_c.pNext nd)
                       (if decide (x = first_or l a) then Some b' else List_c.pPrev nd)
                       (List_c.pData nd))) →
  linked h' b' l a'.
Proof.
  revert b b'. induction l as [| [x v] l IH]; intros b b' Hl Hnd Hh'; [done |].
  destruct Hl as [Hx Hl]. simpl in Hnd. apply NoDup_cons in Hnd as [Hxl Hnd].
  split.
  - rewrite (Hh' x _ ltac:(by left) Hx). simpl.
    change (first_or ((x, v) :: l) a) with x. rewrite (decide_True (P := x = x)) by done.
    rewrite last_or_cons. simpl. destruct l as [| [y w] l]; [by rewrite decide_True |].
    rewrite decide_False; [done |]. intros Heq. apply Hxl.
    pose proof (last_or_elem ((y, w) :: l) x) as Hin. rewrite <- Heq in Hin. by apply Hin.
  - destruct (decide (l = [])) as [-> | Hne]; [done |].
    apply (IH x x Hl Hnd). intros z nd Hz Hhz.
    rewrite (Hh' z nd ltac:(by right) Hhz). rewrite last_or_cons. simpl.
    f_equal. f_equal.
    change (first_or ((x, v) :: l) a) with x.
    rewrite (decide_False (P := z = x)) by (by intros ->).
    case_decide as Hzf; [| done]. destruct l as [| [y w] l]; [done |].
    change (first_or ((y, w) :: l) a) with y in Hzf. subst z.
    by rewrite (linked_first_prev _ _ _ _ _ _ _ _ Hl eq_refl Hhz).
Qed.

Lemma ListSplit_loop_spec h b l stop cO cN fuel :
  linked h b l stop → stop ∉ l.*1 → (length l < fuel)%nat →
  List_c.INT_MIN + Z.of_nat (length l) ≤ cO →
  cN + Z.of_nat (length l) ≤ List_c.INT_MAX →
  List_c.ListSplit_loop h stop (first_or l stop) cO cN fuel
  = Some (cO - Z.of_nat (length l), cN + Z.of_nat (length l)).
Proof.
  revert b l cO cN. induction fuel as [| fuel IH]; intros b l cO cN Hl Hs Hf HO HN; [lia |].
  destruct l as [| [x v] l].
  - change (first_or [] stop) with stop. simpl. rewrite decide_False by (intros ?; done).
    f_equal. f_equal; lia.
  - destruct Hl as [Hx Hl]. simpl in Hs. apply not_elem_of_cons in Hs as [Hsx Hs].
    change (first_or ((x, v) :: l) stop) with x. cbn -[List_c.ListSplit_loop] in *.
    change (List_c.ListSplit_loop h stop x cO cN (S fuel))
      with (if decide (x ≠ stop) then
              countOrg ← List_c.decr cO; countNew ← List_c.incr cN;
              pNext ← List_c.next h x;
              List_c.ListSplit_loop h stop pNext countOrg countNew fuel
            else Some (cO, cN)).
    rewrite decide_True by done. unfold List_c.decr, List_c.incr, List_c.next.
    rewrite !decide_True by lia. rewrite Hx. cbn -[List_c.ListSplit_loop].
    rewrite (IH x l); [f_equal; f_equal; lia | done | done | lia | lia | lia].
Qed.

Ltac heap_eta h x :=
  repeat heap_step; rewrite ?decide_True, ?decide_False by done; try done;
  try (destruct (h !! x); [| done]; simpl; by rewrite ?ListNode_eta).

Lemma concat_both_heap h (hd ha fa la ld : nat) ndd nda ndfa ndla ndld curd cura cd ca :
  h !! hd = Some ndd → List_c.pPrev ndd = Some ld →
  h !! ha = Some nda → List_c.pNext nda = Some fa → List_c.pPrev nda = Some la →
  h !! fa = Some ndfa → h !! la = Some ndla → h !! ld = Some ndld →
  hd ≠ ha → fa ≠ hd → fa ≠ ha → fa ≠ ld → la ≠ hd → la ≠ ha → la ≠ ld → ld ≠ hd → ld ≠ ha →
  ca > 0 → cd > 0 → cd + ca ≤ List_c.INT_MAX →
  ∃ h', List_c.ListConcat h (List_c.mkList hd curd cd) (List_c.mkList ha cura ca)
        = Some (h', List_c.mkList hd None (cd + ca)) ∧
        ∀ x, h' !! x
             = if decide (x = ha) then None
               else (λ nd, List_c.mkListNode
                             (if decide (x = la) then Some hd
                              else if decide (x = ld) then Some fa else List_c.pNext nd)
                             (if decide (x = fa) then Some ld
                              else if decide (x = hd) then Some la else List_c.pPrev nd)
                             (List_c.pData nd)) <$> h !! x.
Proof.
  intros Hd Hdp Ha Han Hap Hfa Hla Hld.
  intros ? ? ? ? ? ? ? ? ? Hca Hcd Hsum.
  destruct ndd as [dn dp dd]. destruct nda as [an ap ad]. destruct ndfa as [fn fp fd].
  destruct ndla as [lan lap lad]. destruct ndld as [ldn ldp ldd]. simpl in *. subst dp an ap.
  unfold List_c.ListConcat. simpl.
  rewrite (decide_True (P := ca > 0)), (decide_True (P := cd > 0)) by done.
  rewrite decide_True by (unfold List_c.INT_MIN; lia). heap_unfold.
  destruct (decide (fa = la)) as [-> | Hne].
  - assert (fn = lan ∧ fp = lap ∧ fd = lad) as (-> & -> & ->) by (split_and!; congruence).
    repeat heap_step. eexists. split; [done |]. intros x.
    destruct (decide (x = ha)) as [-> | ?]; [by rewrite lookup_delete_eq |].
    rewrite lookup_delete_ne by done.
    destruct (decide (x = la)) as [-> | ?]; [heap_eta h la |].
    destruct (decide (x = ld)) as [-> | ?]; [heap_eta h ld |].
    destruct (decide (x = hd)) as [-> | ?]; [heap_eta h hd |].
    heap_eta h x.
  - repeat heap_step. eexists. split; [done |]. intros x.
    destruct (decide (x = ha)) as [-> | ?]; [by rewrite lookup_delete_eq |].
    rewrite lookup_delete_ne by done.
    destruct (decide (x = la)) as [-> | ?]; [heap_eta h la |].
    destruct (decide (x = ld)) as [-> | ?]; [heap_eta h ld |].
    destruct (decide (x = fa)) as [-> | ?]; [heap_eta h fa |].
    destruct (decide (x = hd)) as [-> | ?]; [heap_eta h hd |].
    heap_eta h x.
Qed.

Lemma concat_add_heap h (hd ha fa la : nat) dd nda ndfa ndla curd cura cd ca :
  h !! hd = Some (List_c.mkListNode (Some hd) (Some hd) dd) →
  h !! ha = Some nda → List_c.pNext nda = Some fa → List_c.pPrev nda = Some la →
  h !! fa = Some ndfa → h !! la = Some ndla →
  hd ≠ ha → fa ≠ hd → fa ≠ ha → la ≠ hd → la ≠ ha →
  ca > 0 → cd = 0 → ca ≤ List_c.INT_MAX →
  ∃ h', List_c.ListConcat h (List_c.mkList hd curd cd) (List_c.mkList ha cura ca)
        = Some (h', List_c.mkList hd None (cd + ca)) ∧
        ∀ x, h' !! x
             = if decide (x = ha) then None
               else (λ nd, List_c.mkListNode
                             (if decide (x = hd) then Some fa
                              else if decide (x = la) then Some hd else List_c.pNext nd)
                             (if decide (x = fa) then Some hd
                              else if decide (x = hd) then Some la else List_c.pPrev nd)
                             (List_c.pData nd)) <$> h !! x.
Proof.
  intros Hd Ha Han Hap Hfa Hla.
  intros ? ? ? ? ? Hca -> Hsum.
  destruct nda as [an ap ad]. destruct ndfa as [fn fp fd].
  destruct ndla as [lan lap lad]. simpl in *. subst an ap.
  unfold List_c.ListConcat. simpl.
  rewrite (decide_True (P := ca > 0)) by done.
  rewrite decide_True by (unfold List_c.INT_MIN; lia). heap_unfold.
  destruct (decide (fa = la)) as [-> | Hne].
  - assert (fn = lan ∧ fp = lap ∧ fd = lad) as (-> & -> & ->) by (split_and!; congruence).
    repeat heap_step. eexists. split; [done |]. intros x.
    destruct (decide (x = ha)) as [-> | ?]; [by rewrite lookup_delete_eq |].
    rewrite lookup_delete_ne by done.
    destruct (decide (x = la)) as [-> | ?]; [heap_eta h la |].
    destruct (decide (x = hd)) as [-> | ?]; [heap_eta h hd |].
    heap_eta h x.
  - repeat heap_step. eexists. split; [done |]. intros x.
    destruct (decide (x = ha)) as [-> | ?]; [by rewrite lookup_delete_eq |].
    rewrite lookup_delete_ne by done.
    destruct (decide (x = la)) as [-> | ?]; [heap_eta h la |].
    destruct (decide (x = fa)) as [-> | ?]; [heap_eta h fa |].
    destruct (decide (x = hd)) as [-> | ?]; [heap_eta h hd |].
    heap_eta h x.
Qed.

Lemma ring_disjoint_facts (hd ha : nat) (c1 c2 : list (nat * option nat)) :
  NoDup ((hd :: c1.*1) ++ (ha :: c2.*1)) →
  NoDup (hd :: (c1 ++ c2).*1) ∧ hd ≠ ha ∧ (ha ∉ c1.*1) ∧ (ha ∉ c2.*1) ∧ (hd ∉ c1.*1) ∧
  (hd ∉ c2.*1) ∧ (∀ x, x ∈ c1.*1 → x ∉ c2.*1) ∧ NoDup (c1.*1) ∧ NoDup (c2.*1).
Proof.
  intros (N1 & N12 & N2)%NoDup_app.
  apply NoDup_cons in N1 as [H1 N1]. apply NoDup_cons in N2 as [H2 N2].
  assert (∀ x, x ∈ c1.*1 → x ∉ c2.*1) as Hdis.
  { intros x Hx Hx'. apply (N12 x); by right. }
  split_and!; try done.
  - rewrite fmap_app. apply NoDup_cons. split.
    + rewrite not_elem_of_app. split; [done |]. intros Hin. apply (N12 hd); [by left | by right].
    + apply NoDup_app. by split_and!.
  - intros ->. apply (N12 ha); by left.
  - intros Hin. apply (N12 ha); [by right | by left].
  - intros Hin. apply (N12 hd); [by left | by right].
Qed.

Ltac neq_by_mem :=
  let Heq := fresh in
  intros Heq;
  match goal with
  | Hin : ?a ∈ ?L, Hnot : ?b ∉ ?L |- _ =>
      first [ rewrite Heq in Hin; exact (Hnot Hin) | rewrite <- Heq in Hin; exact (Hnot Hin) ]
  end.

Lemma ListConcat_spec {d1 d2} h pListDst pListAdd c1 c2 :
  holds_ring d1 h pListDst c1 →
  holds_ring d2 h pListAdd c2 →
  NoDup ((List_c.pHead pListDst :: c1.*1) ++ (List_c.pHead pListAdd :: c2.*1)) →
  List_c.count pListDst + List_c.count pListAdd ≤ List_c.INT_MAX →
  ∃ h' pList',
    List_c.ListConcat h pListDst pListAdd = Some (h', pList') ∧
    holds_ring d1 h' pList' (c1 ++ c2) ∧
    List_c.pHead pList' = List_c.pHead pListDst ∧ List_c.pNodeLast pList' = None ∧
    h' !! List_c.pHead pListAdd = None ∧
    ∀ x, x ∉ (List_c.pHead pListDst :: c1.*1) ++ (List_c.pHead pListAdd :: c2.*1) →
         h' !! x = h !! x.
Proof.
  intros H1 H2 Hnd Hsum.
  pose proof (ring_disjoint_facts _ _ _ _ Hnd)
    as (Hnd' & Hne & Ha1 & Ha2 & Hd1 & Hd2 & Hdis & N1 & N2).
  destruct (count_positive _ _ _ H1) as [Hc10 Hc1]. destruct (count_positive _ _ _ H2) as [Hc20 Hc2].
  destruct H1 as (_ & Hcd & Hhd & Hl1 & _). destruct H2 as (_ & Hca & Hha & Hl2 & _).
  destruct pListDst as [hd curd cd]. destruct pListAdd as [ha cura ca]. simpl in *.
  destruct (decide (c2 = [])) as [-> | Hne2].
  { (* nothing is added *)
    assert (ca = 0) as Hz by by apply Hc20.
    exists (delete ha h), (List_c.mkList hd None (cd + ca)). split_and!; try done.
    - unfold List_c.ListConcat. simpl. rewrite !(decide_False (P := ca > 0)) by lia.
      rewrite decide_True by (unfold List_c.INT_MIN; lia). unfold List_c.free. simpl. by rewrite Hha.
    - rewrite app_nil_r in *. split_and!; simpl; try done.
      + lia.
      + by rewrite lookup_delete_ne.
      + apply (linked_frame h); [| done]. intros x nd Hx Hhx.
        rewrite lookup_delete_ne; [done |]. by intros <-.
    - by rewrite lookup_delete_eq.
    - intros x Hx. rewrite lookup_delete_ne; [done |]. intros <-. apply Hx.
      repeat (rewrite elem_of_cons || rewrite elem_of_app). tauto. }
  specialize (Hc2 Hne2).
  assert (first_or c2 ha ∈ c2.*1) as Hfa by by apply first_or_elem.
  assert (last_or c2 ha ∈ c2.*1) as Hla by by apply last_or_elem.
  destruct (linked_alloc _ _ _ _ _ Hl2 Hfa) as [ndfa Hndfa].
  destruct (linked_alloc _ _ _ _ _ Hl2 Hla) as [ndla Hndla].
  destruct (decide (c1 = [])) as [-> | Hne1].
  { (* the destination is empty *)
    destruct (concat_add_heap h hd ha _ _ d1 _ _ _ curd cura cd ca Hhd Hha eq_refl eq_refl
                Hndfa Hndla) as (h' & Hrun & Hh'); try done; try neq_by_mem.
    { lia. }
    exists h', (List_c.mkList hd None (cd + ca)). split_and!; try done.
    - simpl. split_and!; simpl; try done.
      + rewrite Hcd, Hca. simpl. lia.
      + rewrite Hh', decide_False, Hhd by done. simpl. rewrite decide_True by done.
        rewrite !(decide_False (P := hd = first_or c2 ha)) by neq_by_mem.
        rewrite (decide_True (P := hd = hd)) by done.
        f_equal. f_equal; f_equal; by apply first_or_indep || by apply last_or_indep.
      + apply (linked_override h _ ha _ _ ha); [done | done |].
        intros x nd Hx Hhx. rewrite Hh', decide_False, Hhx by neq_by_mem. simpl.
        rewrite !(decide_False (P := x = hd)) by neq_by_mem. done.
    - by rewrite Hh', decide_True.
    - intros x Hx. rewrite Hh'. rewrite decide_False.
      + destruct (h !! x) as [nd |] eqn:Hhx; [| done]. simpl.
        rewrite !decide_False; [by rewrite ListNode_eta | ..]; intros ->; apply Hx;
          repeat (rewrite elem_of_cons || rewrite elem_of_app); tauto.
      + intros ->. apply Hx. repeat (rewrite elem_of_cons || rewrite elem_of_app); tauto. }
  specialize (Hc1 Hne1).
  assert (last_or c1 hd ∈ c1.*1) as Hld by by apply last_or_elem.
  destruct (linked_alloc _ _ _ _ _ Hl1 Hld) as [ndld Hndld].
  destruct (concat_both_heap h hd ha _ _ _ _ _ _ _ _ curd cura cd ca Hhd eq_refl Hha eq_refl
              eq_refl Hndfa Hndla Hndld) as (h' & Hrun & Hh'); try done;
    try (pose proof (Hdis _ Hld); neq_by_mem).
  exists h', (List_c.mkList hd None (cd + ca)). split_and!; try done.
  - simpl. split_and!; simpl; try done.
    + rewrite Hcd, Hca, length_app. lia.
    + rewrite Hh', decide_False, Hhd by done. simpl.
      rewrite !(decide_False (P := hd = last_or c2 ha)) by neq_by_mem.
      rewrite !(decide_False (P := hd = last_or c1 hd)) by neq_by_mem.
      rewrite !(decide_False (P := hd = first_or c2 ha)) by neq_by_mem.
      rewrite (decide_True (P := hd = hd)) by done.
      rewrite first_or_app, last_or_app.
      f_equal. f_equal; f_equal; by apply first_or_indep || by apply last_or_indep.
    + apply linked_app. split.
      * apply (linked_override h _ hd _ _ hd); [done | done |].
        intros x nd Hx Hhx. rewrite Hh', decide_False, Hhx by neq_by_mem. simpl.
        pose proof (Hdis x Hx) as Hx2.
        rewrite !(decide_False (P := x = last_or c2 ha)) by neq_by_mem.
        rewrite !(decide_False (P := x = first_or c2 ha)) by neq_by_mem.
        rewrite !(decide_False (P := x = hd)) by neq_by_mem.
        rewrite (first_or_indep c2 hd ha) by done.
        f_equal. f_equal. case_decide as Hxf; [| done].
        destruct c1 as [| [y w] c1]; [done |]. change (first_or _ hd) with y in Hxf. subst x.
        by rewrite (linked_first_prev _ _ _ _ _ _ _ _ Hl1 eq_refl Hhx).
      * apply (linked_override h _ ha _ _ ha); [done | done |].
        intros x nd Hx Hhx. rewrite Hh', decide_False, Hhx by neq_by_mem. simpl.
        assert (x ∉ c1.*1) as Hx1 by (intros ?; by apply (Hdis x)).
        rewrite !(decide_False (P := x = last_or c1 hd)) by neq_by_mem.
        rewrite !(decide_False (P := x = hd)) by neq_by_mem. done.
  - by rewrite Hh', decide_True.
  - intros x Hx. rewrite Hh'. rewrite decide_False.
    + destruct (h !! x) as [nd |] eqn:Hhx; [| done]. simpl.
      rewrite !decide_False; [by rewrite ListNode_eta | ..]; intros ->; apply Hx;
        repeat (rewrite elem_of_cons || rewrite elem_of_app); tauto.
    + intros ->. apply Hx. repeat (rewrite elem_of_cons || rewrite elem_of_app); tauto.
Qed.

Lemma split_empty_heap withBefore h (nh hd cur : nat) first cnt :
  h !! nh = None →
  (if withBefore : bool then List_c.next h hd else List_c.next h cur) = Some first →
  first = (if withBefore then cur else hd) →
  hd ≠ nh → cur ≠ nh → cnt > 0 →
  (if withBefore then List_c.ListSplitBefore nh h (List_c.mkList hd (Some cur) cnt)
   else List_c.ListSplitAfter nh h (List_c.mkList hd (Some cur) cnt))
  = Some (<[nh := List_c.mkListNode (Some nh) (Some nh) (Lifo_c.assigned None)]> h,
          List_c.mkList hd (Some cur) cnt, Some (List_c.mkList nh None 0)).
Proof.
  intros Hnh Hfirst -> ? ? Hc.
  assert (∀ y, y ≠ nh →
            List_c.next (<[nh := List_c.mkListNode None None (Lifo_c.assigned None)]>
                           (<[nh := List_c.mkListNode None None Lifo_c.indeterminate]> h)) y
            = List_c.next h y) as Hnext.
  { intros y Hy. unfold List_c.next. by rewrite !lookup_insert_ne. }
  destruct withBefore.
  - unfold List_c.ListSplitBefore. cbn -[List_c.ListSplit_loop List_c.next].
    rewrite decide_True by done. unfold List_c.set_data, List_c.malloc.
    rewrite lookup_insert_eq. cbn -[List_c.ListSplit_loop List_c.next].
    rewrite Hnext, Hfirst by done. cbn -[List_c.next]. rewrite decide_False by (intros ?; done).
    cbn. unfold List_c.set_next, List_c.set_prev. repeat heap_step.
    by rewrite !insert_insert_eq.
  - unfold List_c.ListSplitAfter. cbn -[List_c.ListSplit_loop List_c.next].
    rewrite decide_True by done. unfold List_c.set_data, List_c.malloc.
    rewrite lookup_insert_eq. cbn -[List_c.ListSplit_loop List_c.next].
    rewrite Hnext, Hfirst by done. cbn -[List_c.next]. rewrite decide_False by (intros ?; done).
    cbn. unfold List_c.set_next, List_c.set_prev. repeat heap_step.
    by rewrite !insert_insert_eq.
Qed.

Lemma split_before_heap h (nh hd cur f1 e1 : nat) ndh ndc ndf nde cnt cO cN :
  h !! nh = None →
  h !! hd = Some ndh → List_c.pNext ndh = Some f1 →
  h !! cur = Some ndc → List_c.pPrev ndc = Some e1 →
  h !! f1 = Some ndf → h !! e1 = Some nde →
  f1 ≠ hd → f1 ≠ cur → e1 ≠ hd → e1 ≠ cur → cnt > 0 →
  (let h0 := <[nh := List_c.mkListNode None None (Lifo_c.assigned None)]>
               (<[nh := List_c.mkListNode None None Lifo_c.indeterminate]> h) in
   List_c.ListSplit_loop h0 cur f1 cnt 0 (S (size h0)) = Some (cO, cN)) →
  cN ≠ 0 →
  ∃ h', List_c.ListSplitBefore nh h (List_c.mkList hd (Some cur) cnt)
        = Some (h', List_c.mkList hd (Some cur) cO, Some (List_c.mkList nh None cN)) ∧
        h' !! nh = Some (List_c.mkListNode (Some f1) (Some e1) (Lifo_c.assigned None)) ∧
        ∀ x, x ≠ nh →
          h' !! x = (λ nd, List_c.mkListNode
                             (if decide (x = e1) then Some nh
                              else if decide (x = hd) then Some cur else List_c.pNext nd)
                             (if decide (x = f1) then Some nh
                              else if decide (x = cur) then Some hd else List_c.pPrev nd)
                             (List_c.pData nd)) <$> h !! x.
Proof.
  intros Hnh Hhd Hhn Hcur Hcp Hf1 He1 ? ? ? ? Hc Hloop HcN.
  assert (hd ≠ nh) by (intros ->; congruence). assert (cur ≠ nh) by (intros ->; congruence).
  assert (f1 ≠ nh) by (intros ->; congruence). assert (e1 ≠ nh) by (intros ->; congruence).
  destruct ndh as [hn hp hdd]. destruct ndc as [cn cp cdd]. destruct ndf as [fn fp fdd].
  destruct nde as [en ep edd]. simpl in Hhn, Hcp. subst hn cp.
  cbv zeta in Hloop.
  assert (List_c.next (<[nh := List_c.mkListNode None None (Lifo_c.assigned None)]>
                         (<[nh := List_c.mkListNode None None Lifo_c.indeterminate]> h)) hd
          = Some f1) as Hnext.
  { unfold List_c.next. by rewrite !lookup_insert_ne, Hhd. }
  unfold List_c.ListSplitBefore. cbn -[List_c.ListSplit_loop List_c.next].
  rewrite decide_True by done. unfold List_c.set_data, List_c.malloc.
  rewrite lookup_insert_eq. cbn -[List_c.ListSplit_loop List_c.next].
  rewrite Hnext. cbn -[List_c.ListSplit_loop List_c.next]. rewrite Hloop.
  cbn -[List_c.next]. rewrite decide_False by done. heap_unfold.
  destruct (decide (f1 = e1)) as [-> | ?]; destruct (decide (hd = cur)) as [-> | ?].
  - assert (fn = en ∧ fp = ep ∧ fdd = edd) as (-> & -> & ->) by (split_and!; congruence).
    assert (cn = Some e1 ∧ hp = Some e1 ∧ hdd = cdd) as (-> & -> & ->)
      by (split_and!; congruence).
    repeat heap_step. eexists. split; [done |]. split; [heap_eta h nh |]. intros x ?.
    destruct (decide (x = e1)) as [-> | ?]; [heap_eta h e1 |].
    destruct (decide (x = cur)) as [-> | ?]; [heap_eta h cur |].
    heap_eta h x.
  - assert (fn = en ∧ fp = ep ∧ fdd = edd) as (-> & -> & ->) by (split_and!; congruence).
    repeat heap_step. eexists. split; [done |]. split; [heap_eta h nh |]. intros x ?.
    destruct (decide (x = e1)) as [-> | ?]; [heap_eta h e1 |].
    destruct (decide (x = hd)) as [-> | ?]; [heap_eta h hd |].
    destruct (decide (x = cur)) as [-> | ?]; [heap_eta h cur |].
    heap_eta h x.
  - assert (cn = Some f1 ∧ hp = Some e1 ∧ hdd = cdd) as (-> & -> & ->)
      by (split_and!; congruence).
    repeat heap_step. eexists. split; [done |]. split; [heap_eta h nh |]. intros x ?.
    destruct (decide (x = e1)) as [-> | ?]; [heap_eta h e1 |].
    destruct (decide (x = f1)) as [-> | ?]; [heap_eta h f1 |].
    destruct (decide (x = cur)) as [-> | ?]; [heap_eta h cur |].
    heap_eta h x.
  - repeat heap_step. eexists. split; [done |]. split; [heap_eta h nh |]. intros x ?.
    destruct (decide (x = e1)) as [-> | ?]; [heap_eta h e1 |].
    destruct (decide (x = hd)) as [-> | ?]; [heap_eta h hd |].
    destruct (decide (x = f1)) as [-> | ?]; [heap_eta h f1 |].
    destruct (decide (x = cur)) as [-> | ?]; [heap_eta h cur |].
    heap_eta h x.
Qed.

Lemma split_after_heap h (nh hd cur f2 e2 : nat) ndh ndc ndf nde cnt cO cN :
  h !! nh = None →
  h !! cur = Some ndc → List_c.pNext ndc = Some f2 →
  h !! hd = Some ndh → List_c.pPrev ndh = Some e2 →
  h !! f2 = Some ndf → h !! e2 = Some nde →
  f2 ≠ hd → f2 ≠ cur → e2 ≠ hd → e2 ≠ cur → cnt > 0 →
  (let h0 := <[nh := List_c.mkListNode None None (Lifo_c.assigned None)]>
               (<[nh := List_c.mkListNode None None Lifo_c.indeterminate]> h) in
   List_c.ListSplit_loop h0 hd f2 cnt 0 (S (size h0)) = Some (cO, cN)) →
  cN ≠ 0 →
  ∃ h', List_c.ListSplitAfter nh h (List_c.mkList hd (Some cur) cnt)
        = Some (h', List_c.mkList hd (Some cur) cO, Some (List_c.mkList nh None cN)) ∧
        h' !! nh = Some (List_c.mkListNode (Some f2) (Some e2) (Lifo_c.assigned None)) ∧
        ∀ x, x ≠ nh →
          h' !! x = (λ nd, List_c.mkListNode
                             (if decide (x = e2) then Some nh
                              else if decide (x = cur) then Some hd else List_c.pNext nd)
                             (if decide (x = f2) then Some nh
                              else if decide (x = hd) then Some cur else List_c.pPrev nd)
                             (List_c.pData nd)) <$> h !! x.
Proof.
  intros Hnh Hcur Hcn Hhd Hhp Hf2 He2 ? ? ? ? Hc Hloop HcN.
  assert (hd ≠ nh) by (intros ->; congruence). assert (cur ≠ nh) by (intros ->; congruence).
  assert (f2 ≠ nh) by (intros ->; congruence). assert (e2 ≠ nh) by (intros ->; congruence).
  destruct ndh as [hn hp hdd]. destruct ndc as [cn cp cdd]. destruct ndf as [fn fp fdd].
  destruct nde as [en ep edd]. simpl in Hhp, Hcn. subst hp cn.
  cbv zeta in Hloop.
  assert (List_c.next (<[nh := List_c.mkListNode None None (Lifo_c.assigned None)]>
                         (<[nh := List_c.mkListNode None None Lifo_c.indeterminate]> h)) cur
          = Some f2) as Hnext.
  { unfold List_c.next. by rewrite !lookup_insert_ne, Hcur. }
  unfold List_c.ListSplitAfter. cbn -[List_c.ListSplit_loop List_c.next].
  rewrite decide_True by done. unfold List_c.set_data, List_c.malloc.
  rewrite lookup_insert_eq. cbn -[List_c.ListSplit_loop List_c.next].
  rewrite Hnext. cbn -[List_c.ListSplit_loop List_c.next]. rewrite Hloop.
  cbn -[List_c.next]. rewrite decide_False by done. heap_unfold.
  destruct (decide (f2 = e2)) as [-> | ?]; destruct (decide (hd = cur)) as [-> | ?].
  - assert (fn = en ∧ fp = ep ∧ fdd = edd) as (-> & -> & ->) by (split_and!; congruence).
    assert (hn = Some e2 ∧ cp = Some e2 ∧ hdd = cdd) as (-> & -> & ->)
      by (split_and!; congruence).
    repeat heap_step. eexists. split; [done |]. split; [heap_eta h nh |]. intros x ?.
    destruct (decide (x = e2)) as [-> | ?]; [heap_eta h e2 |].
    destruct (decide (x = cur)) as [-> | ?]; [heap_eta h cur |].
    heap_eta h x.
  - assert (fn = en ∧ fp = ep ∧ fdd = edd) as (-> & -> & ->) by (split_and!; congruence).
    repeat heap_step. eexists. split; [done |]. split; [heap_eta h nh |]. intros x ?.
    destruct (decide (x = e2)) as [-> | ?]; [heap_eta h e2 |].
    destruct (decide (x = cur)) as [-> | ?]; [heap_eta h cur |].
    destruct (decide (x = hd)) as [-> | ?]; [heap_eta h hd |].
    heap_eta h x.
  - assert (hn = Some f2 ∧ cp = Some e2 ∧ hdd = cdd) as (-> & -> & ->)
      by (split_and!; congruence).
    repeat heap_step. eexists. split; [done |]. split; [heap_eta h nh |]. intros x ?.
    destruct (decide (x = e2)) as [-> | ?]; [heap_eta h e2 |].
    destruct (decide (x = cur)) as [-> | ?]; [heap_eta h cur |].
    destruct (decide (x = f2)) as [-> | ?]; [heap_eta h f2 |].
    heap_eta h x.
  - repeat heap_step. eexists. split; [done |]. split; [heap_eta h nh |]. intros x ?.
    destruct (decide (x = e2)) as [-> | ?]; [heap_eta h e2 |].
    destruct (decide (x = cur)) as [-> | ?]; [heap_eta h cur |].
    destruct (decide (x = f2)) as [-> | ?]; [heap_eta h f2 |].
    destruct (decide (x = hd)) as [-> | ?]; [heap_eta h hd |].
    heap_eta h x.
Qed.

Lemma holds_ring_fresh {d} h pList cells nh :
  holds_ring d h pList cells → h !! nh = None → nh ∉ List_c.pHead pList :: cells.*1.
Proof. intros Hh Hnh Hin. destruct (holds_list_alloc _ _ _ _ Hh Hin). congruence. Qed.

Lemma holds_ring_empty h nh cnt :
  h !! nh = Some (List_c.mkListNode (Some nh) (Some nh) (Lifo_c.assigned None)) → cnt = 0 →
  holds_ring (Lifo_c.assigned None) h (List_c.mkList nh None cnt) [].
Proof. intros Hnh ->. split_and!; simpl; try done. apply NoDup_singleton. Qed.

Lemma ListSplitBefore_spec {d} h pList l1 l2 nh :
  holds_ring d h pList (l1 ++ l2) →
  List_c.pNodeLast pList = Some (first_or l2 (List_c.pHead pList)) →
  l1 ++ l2 ≠ [] →
  h !! nh = None →
  List_c.count pList ≤ List_c.INT_MAX →
  ∃ h' pListOrg pListNew,
    List_c.ListSplitBefore nh h pList = Some (h', pListOrg, Some pListNew) ∧
    holds_ring d h' pListOrg l2 ∧
    holds_ring (Lifo_c.assigned None) h' pListNew l1 ∧
    List_c.pHead pListOrg = List_c.pHead pList ∧
    List_c.pNodeLast pListOrg = List_c.pNodeLast pList ∧
    List_c.pHead pListNew = nh ∧ List_c.pNodeLast pListNew = None ∧
    ∀ x, x ≠ nh → x ∉ List_c.pHead pList :: (l1 ++ l2).*1 → h' !! x = h !! x.
Proof.
  intros Hh Hcur Hne Hnh Hmax.
  pose proof (holds_ring_fresh _ _ _ _ Hh Hnh) as Hfresh.
  destruct (count_positive _ _ _ Hh) as [_ Hpos]. specialize (Hpos Hne).
  destruct (ring_neighbours _ _ _ _ Hh) as (nde & ndc & He1 & Hen & Hc & Hcp).
  pose proof Hh as (Hnd & Hcnt & Hhd & Hl & _).
  pose proof (ring_split_facts _ _ _ Hnd) as (N1 & N2 & H1 & H2 & Hp & Hn & Hp' & Hn').
  apply linked_app in Hl as [Hl1 Hl2].
  destruct pList as [hd cur' cnt]. simpl in *. subst cur'.
  set (cur := first_or l2 hd) in *. set (e1 := last_or l1 hd) in *.
  rewrite fmap_app in Hfresh.
  apply not_elem_of_cons in Hfresh as [Hnh_hd [Hnh1 Hnh2]%not_elem_of_app].
  assert (cur ≠ nh) as Hnc.
  { intros Heq. pose proof (first_or_ring l2 hd) as [? | ?]%elem_of_cons; subst cur; congruence. }
  destruct (decide (l1 = [])) as [-> | Hne1].
  { (* nothing stands before the last accessed node *)
    simpl in *. pose proof (split_empty_heap true h nh hd cur cur cnt Hnh) as Hrun.
    simpl in Hrun. rewrite Hrun; [| unfold List_c.next; by rewrite Hhd | done..].
    eexists _, _, _. split; [done |]. split_and!; simpl; try done.
    - apply (holds_list_frame h); [done |]. intros x Hx. rewrite lookup_insert_ne; [done |].
      intros <-. by apply (holds_ring_fresh _ _ _ _ Hh Hnh).
    - apply holds_ring_empty; [by rewrite lookup_insert_eq | done].
    - intros x Hx _. by rewrite lookup_insert_ne. }
  set (f1 := first_or l1 cur) in *.
  assert (f1 ∈ l1.*1) as Hf1 by by apply first_or_elem.
  assert (e1 ∈ l1.*1) as He1' by by apply last_or_elem.
  destruct (linked_alloc _ _ _ _ _ Hl1 Hf1) as [ndf Hndf].
  assert (first_or (l1 ++ l2) hd = f1) as Hfirst.
  { rewrite first_or_app. by apply first_or_indep. }
  rewrite Hfirst in Hhd.
  set (h0 := <[nh := List_c.mkListNode None None (Lifo_c.assigned None)]>
               (<[nh := List_c.mkListNode None None Lifo_c.indeterminate]> h)).
  assert (∀ x, x ≠ nh → h0 !! x = h !! x) as Hh0.
  { intros x Hx. unfold h0. by rewrite !lookup_insert_ne. }
  assert (holds_ring d h0 (List_c.mkList hd (Some cur) cnt) (l1 ++ l2)) as Hh0'.
  { apply (holds_list_frame h); [done |]. intros x Hx. apply Hh0. intros ->.
    by apply (holds_ring_fresh _ _ _ _ Hh Hnh). }
  pose proof (ring_size _ _ _ Hh0') as Hsize. rewrite length_app in Hsize.
  assert (List_c.ListSplit_loop h0 cur f1 cnt 0 (S (size h0))
          = Some (cnt - Z.of_nat (length l1), 0 + Z.of_nat (length l1))) as Hloop.
  { apply (ListSplit_loop_spec h0 hd); [| done | lia | | ].
    - apply (linked_frame h); [| done]. intros x nd Hx Hhx. rewrite Hh0; [done |].
      by intros ->.
    - rewrite Hcnt, length_app. unfold List_c.INT_MIN. lia.
    - rewrite Hcnt, length_app in Hmax. lia. }
  destruct (split_before_heap h nh hd cur f1 e1 _ _ _ _ cnt
              (cnt - Z.of_nat (length l1)) (0 + Z.of_nat (length l1))
              Hnh Hhd eq_refl Hc Hcp Hndf He1)
    as (h' & Hrun & Hnh' & Hh'); try neq_by_mem; try done.
  { destruct l1; [done |]. simpl. lia. }
  assert (∀ x, x ∈ l1.*1 → x ≠ nh ∧ x ≠ hd ∧ x ≠ cur) as Hin1.
  { intros x Hx. split_and!; neq_by_mem. }
  assert (∀ x, x ∈ l2.*1 → x ≠ nh ∧ x ≠ hd ∧ x ≠ e1 ∧ x ≠ f1) as Hin2.
  { intros x Hx. assert (x ∉ l1.*1).
    { intros Hx1. apply NoDup_cons in Hnd as [_ Hnd]. rewrite fmap_app in Hnd.
      apply NoDup_app in Hnd as (_ & Hdis & _). by apply (Hdis x). }
    split_and!; neq_by_mem. }
  eexists h', _, _. split; [exact Hrun |]. split_and!; simpl; try done.
  - (* the original list *)
    split_and!; simpl.
    + apply NoDup_cons. split; [done | done].
    + rewrite Hcnt, length_app. lia.
    + rewrite Hh', Hhd by done. simpl.
      rewrite (decide_False (P := hd = e1)), (decide_True (P := hd = hd)) by (done || neq_by_mem).
      rewrite (decide_False (P := hd = f1)) by neq_by_mem.
      f_equal. f_equal. destruct (decide (l2 = [])) as [-> | Hne2].
      * by rewrite decide_True.
      * rewrite decide_False by (by apply Hn'). rewrite last_or_app. f_equal.
        by apply last_or_indep.
    + apply (linked_override h _ e1 _ _ hd); [done | done |].
      intros x nd Hx Hhx. destruct (Hin2 x Hx) as (? & ? & ? & ?).
      rewrite Hh', Hhx by done. simpl. rewrite !(decide_False (P := x = e1)) by done.
      rewrite !(decide_False (P := x = hd)), !(decide_False (P := x = f1)) by done.
      f_equal. f_equal. case_decide as Hlast; [| done].
      apply (linked_last_next _ _ _ _ x _ Hl2); [by intros -> | done | done].
    + intros x [= <-]. apply first_or_ring.
  - (* the new list *)
    split_and!; simpl; try done.
    + apply NoDup_cons. split; [done | done].
    + rewrite Hnh'. f_equal. f_equal; f_equal; by apply first_or_indep || by apply last_or_indep.
    + apply (linked_override h _ hd _ _ cur); [done | done |].
      intros x nd Hx Hhx. destruct (Hin1 x Hx) as (? & ? & ?).
      rewrite Hh', Hhx by done. simpl.
      by rewrite !(decide_False (P := x = hd)), !(decide_False (P := x = cur)) by done.
  - intros x Hx Hring. rewrite Hh' by done. rewrite fmap_app in Hring.
    destruct (h !! x) as [nd |]; [| done]. simpl.
    rewrite !decide_False; [by rewrite ListNode_eta | ..]; intros ->; apply Hring.
    + pose proof (first_or_ring l2 hd) as Hin. repeat (rewrite elem_of_cons || rewrite elem_of_app).
      rewrite elem_of_cons in Hin. tauto.
    + repeat (rewrite elem_of_cons || rewrite elem_of_app). tauto.
    + by left.
    + repeat (rewrite elem_of_cons || rewrite elem_of_app). tauto.
Qed.

Lemma ListSplitAfter_spec {d} h pList l1 l2 nh :
  holds_ring d h pList (l1 ++ l2) →
  List_c.pNodeLast pList = Some (last_or l1 (List_c.pHead pList)) →
  l1 ++ l2 ≠ [] →
  h !! nh = None →
  List_c.count pList ≤ List_c.INT_MAX →
  ∃ h' pListOrg pListNew,
    List_c.ListSplitAfter nh h pList = Some (h', pListOrg, Some pListNew) ∧
    holds_ring d h' pListOrg l1 ∧
    holds_ring (Lifo_c.assigned None) h' pListNew l2 ∧
    List_c.pHead pListOrg = List_c.pHead pList ∧
    List_c.pNodeLast pListOrg = List_c.pNodeLast pList ∧
    List_c.pHead pListNew = nh ∧ List_c.pNodeLast pListNew = None ∧
    ∀ x, x ≠ nh → x ∉ List_c.pHead pList :: (l1 ++ l2).*1 → h' !! x = h !! x.
Proof.
  intros Hh Hcur Hne Hnh Hmax.
  pose proof (holds_ring_fresh _ _ _ _ Hh Hnh) as Hfresh.
  destruct (count_positive _ _ _ Hh) as [_ Hpos]. specialize (Hpos Hne).
  destruct (ring_neighbours _ _ _ _ Hh) as (ndc & ndf & Hc & Hcn & Hf2 & Hfp).
  pose proof Hh as (Hnd & Hcnt & Hhd & Hl & _).
  pose proof (ring_split_facts _ _ _ Hnd) as (N1 & N2 & H1 & H2 & Hp & Hn & Hp' & Hn').
  apply linked_app in Hl as [Hl1 Hl2].
  destruct pList as [hd cur' cnt]. simpl in *. subst cur'.
  set (cur := last_or l1 hd) in *. set (f2 := first_or l2 hd) in *.
  rewrite fmap_app in Hfresh.
  apply not_elem_of_cons in Hfresh as [Hnh_hd [Hnh1 Hnh2]%not_elem_of_app].
  assert (cur ≠ nh) as Hnc.
  { intros Heq. pose proof (last_or_ring l1 hd) as [? | ?]%elem_of_cons; subst cur; congruence. }
  destruct (decide (l2 = [])) as [-> | Hne2].
  { (* nothing stands after the last accessed node *)
    rewrite app_nil_r in *. simpl in *.
    pose proof (split_empty_heap false h nh hd cur hd cnt Hnh) as Hrun.
    simpl in Hrun. rewrite Hrun; [| unfold List_c.next; by rewrite Hc | done..].
    eexists _, _, _. split; [done |]. split_and!; simpl; try done.
    - apply (holds_list_frame h); [done |]. intros x Hx. rewrite lookup_insert_ne; [done |].
      intros <-. by apply (holds_ring_fresh _ _ _ _ Hh Hnh).
    - apply holds_ring_empty; [by rewrite lookup_insert_eq | done].
    - intros x Hx _. by rewrite lookup_insert_ne. }
  set (e2 := last_or l2 cur) in *.
  assert (f2 ∈ l2.*1) as Hf2' by by apply first_or_elem.
  assert (e2 ∈ l2.*1) as He2' by by apply last_or_elem.
  destruct (linked_alloc _ _ _ _ _ Hl2 He2') as [nde Hnde].
  assert (last_or (l1 ++ l2) hd = e2) as Hlast by by rewrite last_or_app.
  rewrite Hlast in Hhd.
  set (h0 := <[nh := List_c.mkListNode None None (Lifo_c.assigned None)]>
               (<[nh := List_c.mkListNode None None Lifo_c.indeterminate]> h)).
  assert (∀ x, x ≠ nh → h0 !! x = h !! x) as Hh0.
  { intros x Hx. unfold h0. by rewrite !lookup_insert_ne. }
  assert (holds_ring d h0 (List_c.mkList hd (Some cur) cnt) (l1 ++ l2)) as Hh0'.
  { apply (holds_list_frame h); [done |]. intros x Hx. apply Hh0. intros ->.
    by apply (holds_ring_fresh _ _ _ _ Hh Hnh). }
  pose proof (ring_size _ _ _ Hh0') as Hsize. rewrite length_app in Hsize.
  assert (List_c.ListSplit_loop h0 hd f2 cnt 0 (S (size h0))
          = Some (cnt - Z.of_nat (length l2), 0 + Z.of_nat (length l2))) as Hloop.
  { apply (ListSplit_loop_spec h0 cur); [| done | lia | | ].
    - apply (linked_frame h); [| done]. intros x nd Hx Hhx. rewrite Hh0; [done |].
      by intros ->.
    - rewrite Hcnt, length_app. unfold List_c.INT_MIN. lia.
    - rewrite Hcnt, length_app in Hmax. lia. }
  destruct (split_after_heap h nh hd cur f2 e2 _ _ _ _ cnt
              (cnt - Z.of_nat (length l2)) (0 + Z.of_nat (length l2))
              Hnh Hc Hcn Hhd eq_refl Hf2 Hnde)
    as (h' & Hrun & Hnh' & Hh'); try neq_by_mem; try done.
  { destruct l2; [done |]. simpl. lia. }
  assert (∀ x, x ∈ l2.*1 → x ≠ nh ∧ x ≠ hd ∧ x ≠ cur) as Hin2.
  { intros x Hx. split_and!; neq_by_mem. }
  assert (∀ x, x ∈ l1.*1 → x ≠ nh ∧ x ≠ hd ∧ x ≠ e2 ∧ x ≠ f2) as Hin1.
  { intros x Hx. assert (x ∉ l2.*1).
    { intros Hx2. apply NoDup_cons in Hnd as [_ Hnd]. rewrite fmap_app in Hnd.
      apply NoDup_app in Hnd as (_ & Hdis & _). by apply (Hdis x). }
    split_and!; neq_by_mem. }
  eexists h', _, _. split; [exact Hrun |]. split_and!; simpl; try done.
  - (* the original list *)
    split_and!; simpl.
    + apply NoDup_cons. split; [done | done].
    + rewrite Hcnt, length_app. lia.
    + rewrite Hh', Hhd by done. simpl.
      rewrite (decide_False (P := hd = e2)), (decide_True (P := hd = hd)) by (done || neq_by_mem).
      rewrite (decide_False (P := hd = f2)) by neq_by_mem.
      f_equal. f_equal. destruct (decide (l1 = [])) as [-> | Hne1].
      * by rewrite decide_True.
      * rewrite decide_False by (by apply Hp'). rewrite first_or_app. f_equal.
        by apply first_or_indep.
    + apply (linked_override h _ hd _ _ f2); [done | done |].
      intros x nd Hx Hhx. destruct (Hin1 x Hx) as (? & ? & ? & ?).
      rewrite Hh', Hhx by done. simpl. rewrite !(decide_False (P := x = e2)) by done.
      rewrite !(decide_False (P := x = hd)), !(decide_False (P := x = f2)) by done.
      f_equal. f_equal. case_decide as Hfirst; [| done].
      destruct l1 as [| [y w] l1]; [done |]. change (first_or _ f2) with y in Hfirst. subst x.
      by rewrite (linked_first_prev _ _ _ _ _ _ _ _ Hl1 eq_refl Hhx).
    + intros x [= <-]. apply last_or_ring.
  - (* the new list *)
    split_and!; simpl; try done.
    + apply NoDup_cons. split; [done | done].
    + rewrite Hnh'. f_equal. f_equal; f_equal; by apply first_or_indep || by apply last_or_indep.
    + apply (linked_override h _ cur _ _ hd); [done | done |].
      intros x nd Hx Hhx. destruct (Hin2 x Hx) as (? & ? & ?).
      rewrite Hh', Hhx by done. simpl.
      by rewrite !(decide_False (P := x = hd)), !(decide_False (P := x = cur)) by done.
  - intros x Hx Hring. rewrite Hh' by done. rewrite fmap_app in Hring.
    destruct (h !! x) as [nd |]; [| done]. simpl.
    rewrite !decide_False; [by rewrite ListNode_eta | ..]; intros ->; apply Hring.
    + by left.
    + repeat (rewrite elem_of_cons || rewrite elem_of_app). tauto.
    + pose proof (last_or_ring l1 hd) as Hin. repeat (rewrite elem_of_cons || rewrite elem_of_app).
      rewrite elem_of_cons in Hin. tauto.
    + repeat (rewrite elem_of_cons || rewrite elem_of_app). tauto.
Qed.

(** X22. Splitting a non-empty list at its last accessed node, and
    concatenating. ListSplitAfter leaves in the list the nodes up to the last
    accessed one and returns a new list with the nodes after it;
    ListSplitBefore leaves the last accessed node and the nodes after it and
    returns a new list with the nodes before it. The nodes themselves are
    relinked, not copied; the last accessed node of the original list is
    kept, the one of the new list is not set, and the data of the new dummy
    node is NULL. ListConcat appends the nodes of the second list to the
    first, frees the dummy node of the second and resets the last accessed
    node; after ListSplitAfter it gives the original list back. *)
Theorem List_split_concat (h : List_c.Heap) (pList : List_c.List)
    (l1 l2 : list (nat * option nat)) (newHead : nat) :
  holds_list h pList (l1 ++ l2) →
  l1 ++ l2 ≠ [] →
  h !! newHead = None →
  List_c.count pList ≤ List_c.INT_MAX →
  (List_c.pNodeLast pList = Some (last_or l1 (List_c.pHead pList)) →
   ∃ h' pListOrg pListNew,
     List_c.ListSplitAfter newHead h pList = Some (h', pListOrg, Some pListNew) ∧
     holds_list h' pListOrg l1 ∧
     holds_ring (Lifo_c.assigned None) h' pListNew l2 ∧
     List_c.pNodeLast pListOrg = List_c.pNodeLast pList ∧
     List_c.pNodeLast pListNew = None ∧
     ∃ h'' pListDst,
       List_c.ListConcat h' pListOrg pListNew = Some (h'', pListDst) ∧
       holds_list h'' pListDst (l1 ++ l2) ∧ h'' !! newHead = None) ∧
  (List_c.pNodeLast pList = Some (first_or l2 (List_c.pHead pList)) →
   ∃ h' pListOrg pListNew,
     List_c.ListSplitBefore newHead h pList = Some (h', pListOrg, Some pListNew) ∧
     holds_list h' pListOrg l2 ∧
     holds_ring (Lifo_c.assigned None) h' pListNew l1 ∧
     List_c.pNodeLast pListOrg = List_c.pNodeLast pList ∧
     List_c.pNodeLast pListNew = None) ∧
  (∀ d pListAdd cells,
     holds_ring d h pListAdd cells →
     NoDup ((List_c.pHead pList :: (l1 ++ l2).*1) ++ (List_c.pHead pListAdd :: cells.*1)) →
     List_c.count pList + List_c.count pListAdd ≤ List_c.INT_MAX →
     ∃ h' pListDst,
       List_c.ListConcat h pList pListAdd = Some (h', pListDst) ∧
       holds_list h' pListDst ((l1 ++ l2) ++ cells) ∧
       List_c.pNodeLast pListDst = None ∧
       h' !! List_c.pHead pListAdd = None).
Proof.
  intros Hh Hne Hnh Hmax. split_and!.
  - intros Hcur.
    destruct (ListSplitAfter_spec _ _ _ _ newHead Hh Hcur Hne Hnh Hmax)
      as (h' & org & new & Hrun & Horg & Hnew & Hhd & Hcur' & Hnhd & Hncur & _).
    exists h', org, new. split_and!; try done.
    pose proof (holds_ring_fresh _ _ _ _ Hh Hnh) as Hfresh.
    destruct Hh as (Hnd & Hcnt & _).
    destruct (ListConcat_spec h' org new l1 l2 Horg Hnew) as (h'' & dst & ? & ? & _ & _ & ? & _).
    + rewrite Hhd, Hnhd. rewrite fmap_app in Hnd, Hfresh.
      apply NoDup_cons in Hnd as [Hhd' Hnd]. apply NoDup_app in Hnd as (N1 & N12 & N2).
      apply not_elem_of_cons in Hfresh as [? Hfresh].
      rewrite not_elem_of_app in Hhd', Hfresh. apply NoDup_app. split_and!.
      * apply NoDup_cons. tauto.
      * intros x Hx Hx'. apply elem_of_cons in Hx as [Hx | Hx];
          apply elem_of_cons in Hx' as [Hx' | Hx']; subst;
          first [tauto | congruence | by apply (N12 x)].
      * apply NoDup_cons. tauto.
    + destruct Horg as (_ & -> & _). destruct Hnew as (_ & -> & _).
      rewrite Hcnt, length_app in Hmax. lia.
    + exists h'', dst. rewrite Hnhd in *. by split_and!.
  - intros Hcur.
    destruct (ListSplitBefore_spec _ _ _ _ newHead Hh Hcur Hne Hnh Hmax)
      as (h' & org & new & Hrun & Horg & Hnew & Hhd & Hcur' & Hnhd & Hncur & _).
    by exists h', org, new.
  - intros d pListAdd cells Hadd Hnd Hsum.
    destruct (ListConcat_spec h pList pListAdd _ _ Hh Hadd Hnd Hsum)
      as (h' & dst & ? & ? & _ & ? & ? & _).
    by exists h', dst.
Qed.

Lemma List_split_concat_witness :
  ∃ h' pListOrg pListNew,
    List_c.ListSplitAfter 13 ring_7_9 list_7_9_at_7 = Some (h', pListOrg, Some pListNew) ∧
    holds_list h' pListOrg [(11%nat, Some 7%nat)] ∧
    holds_ring (Lifo_c.assigned None) h' pListNew [(12%nat, Some 9%nat)].
Proof.
  destruct (List_split_concat ring_7_9 list_7_9_at_7 [(11, Some 7)]%nat [(12, Some 9)]%nat 13)
    as (Hafter & _).
  - apply ring_7_9_holds. by vm_compute; right; left.
  - done.
  - by vm_compute.
  - by vm_compute.
  - destruct (Hafter eq_refl) as (h' & org & new & ? & ? & ? & _). by exists h', org, new.
Defined.

(** ** The hash table *)

Lemma bind_insert_perm {A C : Type} (f : A → list C) (l : list A) (i : nat) (x : A) :
  l !! i = Some x →
  ∃ rest, l ≫= f ≡ₚ f x ++ rest ∧
          (∀ y, <[i := y]> l ≫= f ≡ₚ f y ++ rest) ∧
          (∀ j z, j ≠ i → l !! j = Some z → f z ⊆ rest).
Proof.
  intros Hi. pose proof (lookup_lt_Some _ _ _ Hi) as Hlt.
  exists ((take i l ≫= f) ++ (drop (S i) l ≫= f)). split_and!.
  - rewrite <- (take_drop_middle l i x Hi) at 1. rewrite bind_app, bind_cons.
    by rewrite Permutation_app_swap_app.
  - intros y. rewrite insert_take_drop by done. rewrite bind_app, bind_cons.
    by rewrite Permutation_app_swap_app.
  - intros j z Hj Hz c Hc. apply elem_of_app.
    destruct (decide (j < i)%nat) as [Hlt' | Hge].
    + left. apply list_elem_of_bind. exists z. split; [done |].
      apply list_elem_of_lookup. exists j. by rewrite lookup_take_lt.
    + right. apply list_elem_of_bind. exists z. split; [done |].
      apply list_elem_of_lookup. exists (j - S i)%nat. rewrite lookup_drop.
      by replace (S i + (j - S i))%nat with j by lia.
Qed.

Lemma HashValue_index k : (Hash_c.index k < Z.to_nat HASH_SIZE)%nat.
Proof.
  unfold Hash_c.index, HashValue. cbn [fst].
  set (x := Z.land ((k * 40503) mod 2 ^ 32) 65535).
  assert (0 ≤ x < 65536) as Hx.
  { subst x. change 65535 with (Z.ones 16). rewrite Z.land_ones by lia.
    apply Z.mod_pos_bound. lia. }
  unfold HASH_SIZE. rewrite (Z.mod_small (256 * x)) by lia.
  rewrite Z.shiftr_div_pow2 by lia.
  assert (0 ≤ 256 * x / 2 ^ 16 < 256); [| lia].
  split; [apply Z.div_pos; lia |]. apply Z.div_lt_upper_bound; lia.
Qed.

Lemma holds_buckets_lookup h hn pHash B k :
  holds_buckets h hn pHash B →
  ∃ b, B !! Hash_c.index k = Some b ∧
       Hash_c.pNodeLists pHash !! Hash_c.index k = Some b.1 ∧
       holds_list h b.1 (cells_of b.2).
Proof.
  intros (Hl & Hlen & _ & Hb & _).
  destruct (lookup_lt_is_Some_2 B (Hash_c.index k)) as [b Hi].
  { rewrite Hlen. apply HashValue_index. }
  exists b. split_and!; [done | | by eapply Hb].
  by rewrite Hl, list_lookup_fmap, Hi.
Qed.

Lemma cells_of_nodes entries : (cells_of entries).*1 = t_node <$> entries.
Proof. unfold cells_of. rewrite <- list_fmap_compose. done. Qed.

Lemma holds_buckets_alloc h hn pHash B x :
  holds_buckets h hn pHash B → x ∈ B ≫= ring_of → is_Some (h !! x).
Proof.
  intros (_ & _ & _ & Hb & _) (b & Hx & [i Hi]%list_elem_of_lookup)%list_elem_of_bind.
  apply (holds_list_alloc _ _ _ _ (Hb _ _ Hi)). by rewrite cells_of_nodes.
Qed.

Lemma stored_insert B i b k :
  (i < length B)%nat →
  stored (<[i := b]> B) k
  = if decide (Hash_c.index k = i) then t_data <$> filter (λ t, t_key t = k) b.2
    else stored B k.
Proof.
  intros Hi. unfold stored. case_decide as Hk.
  - by rewrite Hk, list_lookup_insert_eq.
  - by rewrite list_lookup_insert_ne.
Qed.

(** A bucket is replaced: the conditions under which the table stays well
    formed. *)
Lemma holds_buckets_update h hn pHash B i l entries h' hn' l' entries' c' :
  holds_buckets h hn pHash B →
  B !! i = Some (l, entries) →
  holds_list h' l' (cells_of entries') →
  (∀ x, is_Some (h !! x) → x ∉ ring_of (l, entries) → h' !! x = h !! x) →
  (∀ x, x ∈ ring_of (l', entries') → x ∈ ring_of (l, entries) ∨ h !! x = None) →
  NoDup (t_hnode <$> entries') →
  (∀ t, t ∈ entries' →
     hn' !! t_hnode t = Some (Hash_c.mkHashNode (Some (t_data t)) (t_key t)) ∧
     (t_hnode t ∈ t_hnode <$> entries ∨ hn !! t_hnode t = None)) →
  (∀ x, is_Some (hn !! x) → x ∉ t_hnode <$> entries → hn' !! x = hn !! x) →
  c' = Hash_c.count pHash + Z.of_nat (length entries') - Z.of_nat (length entries) →
  holds_buckets h' hn' (Hash_c.mkHash (<[i := l']> (Hash_c.pNodeLists pHash)) c')
                (<[i := (l', entries')]> B).
Proof.
  intros HB Hi Hl' Hframe Hring Hnd' Hent Hhn ->.
  pose proof HB as (Hl & Hlen & Hc & Hb & Hrings & Hhnodes & Hnodes).
  destruct (bind_insert_perm ring_of B i _ Hi) as (rest_r & Hr & Hr' & Hrsub).
  destruct (bind_insert_perm snd B i _ Hi) as (rest_e & He & He' & Hesub).
  cbn [fst snd] in *.
  assert (∀ x, x ∈ rest_r → is_Some (h !! x) ∧ x ∉ ring_of (l, entries)) as Hrest_r.
  { intros x Hx. split.
    - apply (holds_buckets_alloc _ _ _ _ _ HB). rewrite Hr, elem_of_app. by right.
    - intros Hx'. rewrite Hr in Hrings. apply NoDup_app in Hrings as (_ & Hdis & _).
      by apply (Hdis x). }
  assert (∀ t, t ∈ rest_e →
            hn !! t_hnode t = Some (Hash_c.mkHashNode (Some (t_data t)) (t_key t)) ∧
            t_hnode t ∉ t_hnode <$> entries) as Hrest_e.
  { intros t Ht. split.
    - apply Hnodes. rewrite He, elem_of_app. by right.
    - intros Ht'. rewrite He, fmap_app in Hhnodes.
      apply NoDup_app in Hhnodes as (_ & Hdis & _). apply (Hdis _ Ht').
      by apply list_elem_of_fmap_2. }
  split_and!; simpl.
  - by rewrite Hl, list_fmap_insert.
  - by rewrite length_insert.
  - rewrite (He' (l', entries')), length_app, Hc, He, length_app. simpl. lia.
  - intros j b Hj. destruct (decide (j = i)) as [-> | Hne].
    + rewrite list_lookup_insert_eq in Hj by (by eapply lookup_lt_Some). by injection Hj as <-.
    + rewrite list_lookup_insert_ne in Hj by done.
      apply (holds_list_frame h); [by eapply Hb |].
      intros x Hx. rewrite cells_of_nodes in Hx.
      destruct (Hrest_r x) as [? ?]; [by apply (Hrsub j b Hne Hj) |]. by apply Hframe.
  - rewrite (Hr' (l', entries')). apply NoDup_app. split_and!.
    + destruct Hl' as (Hnd & _). by rewrite cells_of_nodes in Hnd.
    + intros x Hx Hx'. destruct (Hrest_r x Hx') as [[nd Hnd] ?].
      destruct (Hring x Hx) as [? | ?]; [done | congruence].
    + rewrite Hr in Hrings. by apply NoDup_app in Hrings as (_ & _ & ?).
  - rewrite (He' (l', entries')), fmap_app. apply NoDup_app. split_and!.
    + done.
    + intros x (t & -> & Ht)%list_elem_of_fmap (t' & Heq & Ht')%list_elem_of_fmap.
      destruct (Hrest_e t' Ht') as [Hn' Hnot]. rewrite <- Heq in Hn', Hnot.
      destruct (Hent t Ht) as [_ [? | ?]]; [done | congruence].
    + rewrite He, fmap_app in Hhnodes. by apply NoDup_app in Hhnodes as (_ & _ & ?).
  - intros t. rewrite (He' (l', entries')), elem_of_app. simpl. intros [Ht | Ht].
    + by apply Hent.
    + destruct (Hrest_e t Ht) as [Hn' Hnot]. rewrite Hhn; [done | by eexists | done].
Qed.

Lemma cells_of_app e1 e2 : cells_of (e1 ++ e2) = cells_of e1 ++ cells_of e2.
Proof. unfold cells_of. by rewrite fmap_app. Qed.

Lemma ListNext_examining h nodeList done t todo :
  holds_list h nodeList (cells_of (done ++ t :: todo)) →
  List_c.pNodeLast nodeList = Some (t_node t) →
  ∃ nodeList' pNode,
    List_c.ListNext h nodeList = Some (nodeList', pNode) ∧
    holds_list h nodeList' (cells_of ((done ++ [t]) ++ todo)) ∧
    List_c.pHead nodeList' = List_c.pHead nodeList ∧
    examining nodeList' pNode todo.
Proof.
  intros Hh Hcur.
  assert (holds_list h nodeList (cells_of (done ++ [t]) ++ cells_of todo)) as Hh1.
  { by rewrite <- cells_of_app, <- app_assoc. }
  pose proof (ListNext_spec _ _ _ _ Hh1) as Hn.
  rewrite cells_of_app, last_or_app in Hn. specialize (Hn Hcur).
  rewrite <- cells_of_app in Hh1.
  destruct todo as [| t' todo]; simpl in Hn; eexists _, _; (split; [exact Hn |]).
  - split_and!; try done. by apply holds_list_cursor.
  - split_and!; try done. apply holds_list_cursor; [done |].
    intros x [= <-]. right. rewrite cells_of_nodes, fmap_app, elem_of_app. right. by left.
Qed.

Lemma HashLookup_loop_S h hn nodeList p k fuel :
  Hash_c.HashLookup_loop h hn nodeList (Some p) k (S fuel)
  = node ← hn !! p;
    if decide (Hash_c.key node = k) then Some (nodeList, Hash_c.pData node)
    else '(nodeList, pNode) ← List_c.ListNext h nodeList;
         Hash_c.HashLookup_loop h hn nodeList pNode k fuel.
Proof. done. Qed.

Lemma HashRemove_loop_S h hn nodeList p k fuel :
  Hash_c.HashRemove_loop h hn nodeList (Some p) k (S fuel)
  = node ← hn !! p;
    if decide (Hash_c.key node = k) then
      '(h, nodeList, _) ← List_c.ListRemoveLast h nodeList;
      node ← hn !! p;
      Some (h, delete p hn, nodeList, true, Hash_c.pData node)
    else '(nodeList, pNode) ← List_c.ListNext h nodeList;
         Hash_c.HashRemove_loop h hn nodeList pNode k fuel.
Proof. done. Qed.

Lemma HashLookup_loop_spec h hn nodeList done todo pNode k fuel :
  holds_list h nodeList (cells_of (done ++ todo)) →
  examining nodeList pNode todo →
  (∀ t, t ∈ todo →
     hn !! t_hnode t = Some (Hash_c.mkHashNode (Some (t_data t)) (t_key t))) →
  (length todo < fuel)%nat →
  ∃ nodeList',
    Hash_c.HashLookup_loop h hn nodeList pNode k fuel
    = Some (nodeList', t_data <$> head (filter (λ t, t_key t = k) todo)) ∧
    holds_list h nodeList' (cells_of (done ++ todo)) ∧
    List_c.pHead nodeList' = List_c.pHead nodeList.
Proof.
  revert nodeList done pNode fuel.
  induction todo as [| t todo IH]; intros nodeList done pNode fuel Hh Hex Hhn Hf;
    (destruct fuel as [| fuel]; [simpl in Hf; lia |]); simpl in Hex.
  - subst pNode. by exists nodeList.
  - destruct Hex as [-> Hcur]. pose proof (Hhn t ltac:(by left)) as Hnode.
    destruct (decide (t_key t = k)) as [Hk | Hk].
    + exists nodeList. split_and!; [| done | done].
      rewrite HashLookup_loop_S, Hnode. cbn -[filter].
      by rewrite decide_True, filter_cons_True by done.
    + destruct (ListNext_examining _ _ _ _ _ Hh Hcur)
        as (l' & pNode' & Hnext & Hh' & Hhd & Hex').
      destruct (IH l' (done ++ [t]) pNode' fuel) as (l'' & Hrun & Hh'' & Hhd'');
        [done | done | | simpl in Hf; lia |].
      { intros t' Ht'. apply Hhn. by right. }
      exists l''. rewrite <- app_assoc in Hh''. split_and!; [| done | congruence].
      rewrite HashLookup_loop_S, Hnode. cbn -[filter Hash_c.HashLookup_loop].
      rewrite decide_False by done. rewrite Hnext. cbn -[filter Hash_c.HashLookup_loop].
      by rewrite Hrun, filter_cons_False by done.
Qed.

Lemma HashRemove_loop_absent h hn nodeList done todo pNode k fuel :
  holds_list h nodeList (cells_of (done ++ todo)) →
  examining nodeList pNode todo →
  (∀ t, t ∈ todo →
     hn !! t_hnode t = Some (Hash_c.mkHashNode (Some (t_data t)) (t_key t))) →
  (length todo < fuel)%nat →
  (∀ t, t ∈ todo → t_key t ≠ k) →
  ∃ nodeList',
    Hash_c.HashRemove_loop h hn nodeList pNode k fuel = Some (h, hn, nodeList', false, None) ∧
    holds_list h nodeList' (cells_of (done ++ todo)) ∧
    List_c.pHead nodeList' = List_c.pHead nodeList.
Proof.
  revert nodeList done pNode fuel.
  induction todo as [| t todo IH]; intros nodeList done pNode fuel Hh Hex Hhn Hf Hk;
    (destruct fuel as [| fuel]; [simpl in Hf; lia |]); simpl in Hex.
  - subst pNode. by exists nodeList.
  - destruct Hex as [-> Hcur]. pose proof (Hhn t ltac:(by left)) as Hnode.
    destruct (ListNext_examining _ _ _ _ _ Hh Hcur)
      as (l' & pNode' & Hnext & Hh' & Hhd & Hex').
    destruct (IH l' (done ++ [t]) pNode' fuel) as (l'' & Hrun & Hh'' & Hhd'');
      [done | done | | simpl in Hf; lia | |].
    { intros t' Ht'. apply Hhn. by right. }
    { intros t' Ht'. apply Hk. by right. }
    exists l''. rewrite <- app_assoc in Hh''. split_and!; [| done | congruence].
    rewrite HashRemove_loop_S, Hnode. cbn -[Hash_c.HashRemove_loop].
    rewrite decide_False by (apply Hk; by left). rewrite Hnext.
    cbn -[Hash_c.HashRemove_loop]. by rewrite Hrun.
Qed.

Lemma HashRemove_loop_found h hn nodeList done skipped t todo pNode k fuel :
  holds_list h nodeList (cells_of (done ++ skipped ++ t :: todo)) →
  examining nodeList pNode (skipped ++ t :: todo) →
  (∀ t', t' ∈ skipped ++ t :: todo →
     hn !! t_hnode t' = Some (Hash_c.mkHashNode (Some (t_data t')) (t_key t'))) →
  (length (skipped ++ t :: todo) < fuel)%nat →
  (∀ t', t' ∈ skipped → t_key t' ≠ k) →
  t_key t = k →
  ∃ h' nodeList',
    Hash_c.HashRemove_loop h hn nodeList pNode k fuel
    = Some (h', delete (t_hnode t) hn, nodeList', true, Some (t_data t)) ∧
    holds_list h' nodeList' (cells_of (done ++ skipped ++ todo)) ∧
    List_c.pHead nodeList' = List_c.pHead nodeList ∧
    h' !! t_node t = None ∧
    ∀ x, x ∉ List_c.pHead nodeList :: (t_node <$> done ++ skipped ++ t :: todo) →
         h' !! x = h !! x.
Proof.
  revert nodeList done pNode fuel.
  induction skipped as [| s skipped IH]; intros nodeList done pNode fuel Hh Hex Hhn Hf Hk Ht;
    (destruct fuel as [| fuel]; [simpl in Hf; lia |]); simpl in Hex;
    destruct Hex as [-> Hcur].
  - pose proof (Hhn t ltac:(by left)) as Hnode. rewrite app_nil_l, cells_of_app in Hh.
    destruct (ListRemoveLast_spec h nodeList (cells_of done) (t_node t) (Some (t_hnode t))
                (cells_of todo) Hh Hcur)
      as (h' & l' & Hrun & Hh' & Hhd & _ & Hfree & Hframe).
    exists h', l'.
    rewrite <- cells_of_app in Hh'.
    change (cells_of done ++ (t_node t, Some (t_hnode t)) :: cells_of todo)
      with (cells_of done ++ cells_of (t :: todo)) in Hframe.
    rewrite <- cells_of_app, cells_of_nodes in Hframe.
    split_and!; try done.
    rewrite HashRemove_loop_S, Hnode. cbn -[Hash_c.HashRemove_loop].
    rewrite decide_True by done. by rewrite Hrun.
  - pose proof (Hhn s ltac:(by left)) as Hnode.
    destruct (ListNext_examining _ _ _ _ _ Hh Hcur)
      as (l' & pNode' & Hnext & Hh' & Hhd & Hex').
    destruct (IH l' (done ++ [s]) pNode' fuel) as (h' & l'' & Hrun & Hh'' & Hhd'' & Hfree & Hfr);
      [done | done | | simpl in Hf; lia | | done |].
    { intros t' Ht'. apply Hhn. by right. }
    { intros t' Ht'. apply Hk. by right. }
    exists h', l''. rewrite <- !app_assoc in Hh'', Hfr. rewrite Hhd in Hfr.
    split_and!; [| done | congruence | done | done].
    rewrite HashRemove_loop_S, Hnode. cbn -[Hash_c.HashRemove_loop].
    rewrite decide_False by (apply Hk; by left). rewrite Hnext.
    cbn -[Hash_c.HashRemove_loop]. by rewrite Hrun.
Qed.

Lemma holds_buckets_entries h hn pHash B i l entries :
  holds_buckets h hn pHash B →
  B !! i = Some (l, entries) →
  holds_list h l (cells_of entries) ∧
  NoDup (t_hnode <$> entries) ∧
  (∀ t, t ∈ entries →
     hn !! t_hnode t = Some (Hash_c.mkHashNode (Some (t_data t)) (t_key t))).
Proof.
  intros (_ & _ & _ & Hb & _ & Hhnodes & Hnodes) Hi.
  destruct (bind_insert_perm snd B i _ Hi) as (rest_e & He & _). cbn [snd] in He.
  split_and!.
  - apply (Hb _ _ Hi).
  - rewrite He, fmap_app in Hhnodes. by apply NoDup_app in Hhnodes as (? & _).
  - intros t Ht. apply Hnodes. rewrite He, elem_of_app. by left.
Qed.

Lemma ListHead_examining h nodeList entries :
  holds_list h nodeList (cells_of entries) →
  ∃ nodeList' pNode,
    List_c.ListHead h nodeList = Some (nodeList', pNode) ∧
    holds_list h nodeList' (cells_of entries) ∧
    List_c.pHead nodeList' = List_c.pHead nodeList ∧
    examining nodeList' pNode entries.
Proof.
  intros Hh. pose proof (ListHead_spec _ _ _ Hh) as Hhead.
  destruct entries as [| t entries]; cbn [cells_of fmap list_fmap] in Hhead;
    eexists _, _; (split; [exact Hhead |]).
  - by split_and!.
  - split_and!; try done. apply holds_list_cursor; [done |].
    intros x [= <-]. right. by left.
Qed.

Lemma first_match_split (k : Z) (entries : list Entry) :
  (∀ t, t ∈ entries → t_key t ≠ k) ∨
  ∃ skipped t todo, entries = skipped ++ t :: todo ∧
                    (∀ t', t' ∈ skipped → t_key t' ≠ k) ∧ t_key t = k.
Proof.
  induction entries as [| t entries IH].
  - left. by intros t ?%elem_of_nil.
  - destruct (decide (t_key t = k)) as [Hk | Hk].
    + right. exists [], t, entries. split_and!; [done | | done]. by intros t' ?%elem_of_nil.
    + destruct IH as [Hno | (skipped & t' & todo & -> & Hs & Ht')].
      * left. by intros t' [-> | ?]%elem_of_cons; [| apply Hno].
      * right. exists (t :: skipped), t', todo. split_and!; [done | | done].
        by intros t'' [-> | ?]%elem_of_cons; [| apply Hs].
Qed.

Lemma filter_key_absent (k : Z) (entries : list Entry) :
  (∀ t, t ∈ entries → t_key t ≠ k) → filter (λ t, t_key t = k) entries = [].
Proof.
  induction entries as [| t entries IH]; intros Hk; [done |].
  rewrite filter_cons_False by (apply Hk; by left). apply IH. intros t' ?. apply Hk. by right.
Qed.

Lemma head_fmap_list {A C : Type} (f : A → C) (l : list A) : head (f <$> l) = f <$> head l.
Proof. by destruct l. Qed.

Lemma stored_bucket B k l entries :
  B !! Hash_c.index k = Some (l, entries) →
  stored B k = t_data <$> filter (λ t, t_key t = k) entries.
Proof. intros Hi. unfold stored. by rewrite Hi. Qed.

Lemma HashLookup_spec h hn pHash B k :
  holds_buckets h hn pHash B →
  ∃ pHash' B',
    Hash_c.HashLookup h hn pHash k = Some (pHash', head (stored B k)) ∧
    holds_buckets h hn pHash' B' ∧
    (∀ k', stored B' k' = stored B k') ∧
    Hash_c.HashCount pHash' = Hash_c.HashCount pHash.
Proof.
  intros HB. destruct (holds_buckets_lookup _ _ _ _ k HB) as ([l entries] & Hi & Hli & _).
  destruct (holds_buckets_entries _ _ _ _ _ _ _ HB Hi) as (Hh & Hnd & Hhn).
  destruct (ListHead_examining _ _ _ Hh) as (l1 & pNode & Hhead & Hh1 & Hhd1 & Hex).
  pose proof (ring_size _ _ _ Hh) as Hsize. unfold cells_of in Hsize.
  rewrite length_fmap in Hsize.
  destruct (HashLookup_loop_spec h hn l1 [] entries pNode k (S (size h)) Hh1 Hex Hhn)
    as (l2 & Hloop & Hh2 & Hhd2); [lia |].
  exists (Hash_c.mkHash (<[Hash_c.index k := l2]> (Hash_c.pNodeLists pHash))
                        (Hash_c.count pHash)),
         (<[Hash_c.index k := (l2, entries)]> B).
  split_and!.
  - unfold Hash_c.HashLookup. rewrite Hli. cbn -[Hash_c.HashLookup_loop].
    rewrite Hhead. cbn -[Hash_c.HashLookup_loop]. rewrite Hloop. cbn.
    by rewrite (stored_bucket _ _ _ _ Hi), head_fmap_list.
  - eapply holds_buckets_update; try done.
    + intros x Hx. left. unfold ring_of in *. cbn [fst snd] in *. congruence.
    + intros t Ht. split; [by apply Hhn |]. left. by apply list_elem_of_fmap_2.
    + lia.
  - intros k'. rewrite stored_insert by by eapply lookup_lt_Some.
    case_decide as Hk; [| done]. rewrite <- Hk in Hi. by rewrite (stored_bucket _ _ _ _ Hi).
  - done.
Qed.

Lemma HashAdd_spec h hn pHash B k d newNode new :
  holds_buckets h hn pHash B →
  hn !! newNode = None →
  h !! new = None →
  Hash_c.count pHash < List_c.INT_MAX →
  ∃ h' pHash' B',
    Hash_c.HashAdd newNode new h hn pHash k (Some d)
    = Some (h', <[newNode := Hash_c.mkHashNode (Some d) k]> hn, pHash') ∧
    holds_buckets h' (<[newNode := Hash_c.mkHashNode (Some d) k]> hn) pHash' B' ∧
    (∀ k', stored B' k' = if decide (k' = k) then d :: stored B k else stored B k') ∧
    Hash_c.HashCount pHash' = Hash_c.HashCount pHash + 1.
Proof.
  intros HB HnewNode Hnew Hc.
  destruct (holds_buckets_lookup _ _ _ _ k HB) as ([l entries] & Hi & Hli & _).
  destruct (holds_buckets_entries _ _ _ _ _ _ _ HB Hi) as (Hh & Hnd & Hhn).
  pose proof HB as (_ & _ & Hcount & _).
  destruct (ListAddHead_spec _ _ _ new (Some newNode) Hh Hnew)
    as (h' & l' & Hadd & Hh' & Hhd & _ & Hframe).
  { destruct Hh as (_ & -> & _). rewrite Hcount in Hc.
    pose proof (bind_insert_perm snd B _ _ Hi) as (rest & He & _). cbn [snd] in He.
    rewrite He, length_app in Hc. unfold cells_of. rewrite length_fmap. lia. }
  set (t := mkEntry new newNode k d).
  exists h', (Hash_c.mkHash (<[Hash_c.index k := l']> (Hash_c.pNodeLists pHash))
                            (Hash_c.count pHash + 1)),
         (<[Hash_c.index k := (l', t :: entries)]> B).
  split_and!.
  - unfold Hash_c.HashAdd. rewrite Hli. cbn. rewrite Hadd. cbn.
    unfold List_c.incr. by rewrite decide_True.
  - eapply holds_buckets_update; try done.
    + intros x [nd Hx] Hring. apply Hframe; [congruence |]. by rewrite cells_of_nodes.
    + unfold ring_of. cbn [fst snd fmap list_fmap]. rewrite Hhd.
      intros x [-> | [-> | Hx]%elem_of_cons]%elem_of_cons.
      * left. by left.
      * by right.
      * left. by right.
    + cbn [fmap list_fmap]. apply NoDup_cons. split; [| done].
      intros (t' & Heq & Ht')%list_elem_of_fmap. specialize (Hhn t' Ht'). simpl in Heq. congruence.
    + intros t' [-> | Ht']%elem_of_cons.
      * split; [by rewrite lookup_insert_eq | by right].
      * split; [| left; by apply list_elem_of_fmap_2].
        specialize (Hhn t' Ht'). rewrite lookup_insert_ne; [done |]. congruence.
    + intros x [nd Hx] _. rewrite lookup_insert_ne; [done |]. congruence.
    + simpl. lia.
  - intros k'. rewrite stored_insert by by eapply lookup_lt_Some. cbn [snd].
    destruct (decide (k' = k)) as [-> | Hk].
    + rewrite decide_True by done. rewrite filter_cons_True by done.
      by rewrite (stored_bucket _ _ _ _ Hi).
    + case_decide as Hidx; [| done]. rewrite filter_cons_False by (simpl; congruence).
      rewrite <- Hidx in Hi. by rewrite (stored_bucket _ _ _ _ Hi).
  - done.
Qed.

Lemma HashRemove_spec h hn pHash B k :
  holds_buckets h hn pHash B →
  ∃ h' hn' pHash' B',
    Hash_c.HashRemove h hn pHash k = Some (h', hn', pHash', head (stored B k)) ∧
    holds_buckets h' hn' pHash' B' ∧
    (∀ k', stored B' k' = if decide (k' = k) then tail (stored B k) else stored B k') ∧
    Hash_c.HashCount pHash'
    = Hash_c.HashCount pHash - (if decide (stored B k = []) then 0 else 1).
Proof.
  intros HB. destruct (holds_buckets_lookup _ _ _ _ k HB) as ([l entries] & Hi & Hli & _).
  destruct (holds_buckets_entries _ _ _ _ _ _ _ HB Hi) as (Hh & Hnd & Hhn).
  destruct (ListHead_examining _ _ _ Hh) as (l1 & pNode & Hhead & Hh1 & Hhd1 & Hex).
  pose proof (ring_size _ _ _ Hh) as Hsize. unfold cells_of in Hsize.
  rewrite length_fmap in Hsize.
  pose proof (lookup_lt_Some _ _ _ Hi) as Hlt.
  rewrite (stored_bucket _ _ _ _ Hi).
  destruct (first_match_split k entries) as [Hno | (skipped & t & todo & -> & Hs & Ht)].
  - destruct (HashRemove_loop_absent h hn l1 [] entries pNode k (S (size h)) Hh1 Hex Hhn)
      as (l2 & Hloop & Hh2 & Hhd2); [lia | done |].
    rewrite (filter_key_absent _ _ Hno).
    exists h, hn, (Hash_c.mkHash (<[Hash_c.index k := l2]> (Hash_c.pNodeLists pHash))
                                 (Hash_c.count pHash)),
           (<[Hash_c.index k := (l2, entries)]> B).
    split_and!.
    + unfold Hash_c.HashRemove. rewrite Hli. cbn -[Hash_c.HashRemove_loop].
      rewrite Hhead. cbn -[Hash_c.HashRemove_loop]. by rewrite Hloop.
    + eapply holds_buckets_update; try done.
      * intros x Hx. left. unfold ring_of in *. cbn [fst snd] in *. congruence.
      * intros t Ht. split; [by apply Hhn |]. left. by apply list_elem_of_fmap_2.
      * lia.
    + intros k'. rewrite stored_insert by done. cbn [snd].
      destruct (decide (k' = k)) as [-> | Hk].
      * rewrite decide_True by done. by rewrite (filter_key_absent _ _ Hno).
      * case_decide as Hidx; [| done]. rewrite <- Hidx in Hi.
        by rewrite (stored_bucket _ _ _ _ Hi).
    + rewrite decide_True by done. unfold Hash_c.HashCount. simpl. lia.
  - destruct (HashRemove_loop_found h hn l1 [] skipped t todo pNode k (S (size h)) Hh1 Hex Hhn)
      as (h' & l2 & Hloop & Hh2 & Hhd2 & Hfree & Hframe); [rewrite length_app in *; lia | done..|].
    assert (filter (λ t, t_key t = k) (skipped ++ t :: todo)
            = t :: filter (λ t, t_key t = k) todo) as Hfilter.
    { by rewrite filter_app, (filter_key_absent _ _ Hs), filter_cons_True. }
    rewrite Hfilter. simpl in Hh2, Hframe.
    pose proof HB as (_ & _ & Hcount & _).
    pose proof (bind_insert_perm snd B _ _ Hi) as (rest & He & _). cbn [snd] in He.
    rewrite He, !length_app in Hcount. simpl in Hcount.
    exists h', (delete (t_hnode t) hn),
           (Hash_c.mkHash (<[Hash_c.index k := l2]> (Hash_c.pNodeLists pHash))
                          (Hash_c.count pHash - 1)),
           (<[Hash_c.index k := (l2, skipped ++ todo)]> B).
    rewrite fmap_app in Hnd. simpl in Hnd.
    apply NoDup_app in Hnd as (Hnd1 & Hnd12 & [Hnd2 Hnd3]%NoDup_cons).
    split_and!.
    + unfold Hash_c.HashRemove. rewrite Hli. cbn -[Hash_c.HashRemove_loop].
      rewrite Hhead. cbn -[Hash_c.HashRemove_loop]. rewrite Hloop. cbn.
      unfold List_c.decr. rewrite decide_True by (unfold List_c.INT_MIN; lia). done.
    + eapply holds_buckets_update; try done.
      * intros x _ Hx. apply Hframe. unfold ring_of in Hx. cbn [fst snd] in Hx. congruence.
      * unfold ring_of. cbn [fst snd]. rewrite Hhd2, Hhd1. intros x.
        rewrite !fmap_app, !elem_of_cons, !elem_of_app. simpl. rewrite elem_of_cons. tauto.
      * rewrite fmap_app. apply NoDup_app. split_and!; [done | | done].
        intros x Hx Hx'. apply (Hnd12 x Hx). by right.
      * intros t' Ht'. split.
        -- rewrite lookup_delete_ne.
           ++ apply Hhn. revert Ht'. rewrite !elem_of_app, elem_of_cons. tauto.
           ++ intros Heq. apply elem_of_app in Ht' as [Ht' | Ht'].
              ** apply (Hnd12 (t_hnode t')); [by apply list_elem_of_fmap_2 |].
                 rewrite <- Heq. by left.
              ** apply Hnd2. rewrite Heq. by apply list_elem_of_fmap_2.
        -- left. apply list_elem_of_fmap_2. revert Ht'.
           rewrite !elem_of_app, elem_of_cons. tauto.
      * intros x _ Hx. rewrite lookup_delete_ne; [done |]. intros <-. apply Hx.
        rewrite fmap_app, elem_of_app. right. by left.
      * rewrite !length_app. simpl. lia.
    + intros k'. rewrite stored_insert by done. cbn [snd].
      destruct (decide (k' = k)) as [-> | Hk].
      * rewrite decide_True by done.
        by rewrite filter_app, (filter_key_absent _ _ Hs).
      * case_decide as Hidx; [| done]. rewrite <- Hidx in Hi.
        rewrite (stored_bucket _ _ _ _ Hi).
        rewrite !filter_app, filter_cons_False; [done |]. simpl. congruence.
    + rewrite decide_False by done. done.
Qed.

Lemma HashCreate_loop_spec new rounds n h :
  (∀ j, (n ≤ j < n + rounds)%nat → h !! new j = None) →
  (∀ i j, (n ≤ i < j)%nat → (j < n + rounds)%nat → new i ≠ new j) →
  ∃ h', Hash_c.HashCreate_loop new h n rounds
        = Some (h', (λ j, List_c.mkList (new j) None 0) <$> seq n rounds) ∧
        (∀ j, (n ≤ j < n + rounds)%nat → holds_list h' (List_c.mkList (new j) None 0) []) ∧
        (∀ x, (∀ j, (n ≤ j < n + rounds)%nat → x ≠ new j) → h' !! x = h !! x).
Proof.
  revert n h. induction rounds as [| rounds IH]; intros n h Hfresh Hinj.
  - exists h. split_and!; [done | intros j ?; lia | done].
  - destruct (ListCreate_spec h (new n)) as (h1 & Hrun1 & Hh1 & Hf1); [apply Hfresh; lia |].
    destruct (IH (S n) h1) as (h' & Hrun & Hh' & Hf').
    { intros j Hj. rewrite Hf1; [apply Hfresh; lia |]. intros Heq. by apply (Hinj n j); [lia.. |]. }
    { intros i j Hi Hj. apply Hinj; lia. }
    exists h'. split_and!.
    + cbn -[List_c.ListCreate]. rewrite Hrun1. cbn -[List_c.ListCreate]. by rewrite Hrun.
    + intros j Hj. destruct (decide (j = n)) as [-> | Hne]; [| apply Hh'; lia].
      apply (holds_list_frame h1); [done |]. intros x [-> | ?%elem_of_nil]%elem_of_cons; [| done].
      apply Hf'. intros j' Hj'. apply Hinj; lia.
    + intros x Hx. rewrite Hf'; [apply Hf1, Hx; lia |]. intros j Hj. apply Hx. lia.
Qed.

Lemma bind_empty_buckets (f : nat → List_c.List) (l : list nat) :
  ((λ j, (f j, @nil Entry)) <$> l) ≫= snd = [].
Proof. induction l as [| j l IH]; [done |]. by rewrite fmap_cons, bind_cons, IH. Qed.

Lemma bind_empty_rings (new : nat → nat) (l : list nat) :
  ((λ j, (List_c.mkList (new j) None 0, @nil Entry)) <$> l) ≫= ring_of = new <$> l.
Proof. induction l as [| j l IH]; [done |]. by rewrite !fmap_cons, bind_cons, IH. Qed.

Lemma HashCreate_buckets new h hn :
  (∀ j, (j < Z.to_nat HASH_SIZE)%nat → h !! new j = None) →
  (∀ i j, (i < j)%nat → (j < Z.to_nat HASH_SIZE)%nat → new i ≠ new j) →
  let B := (λ j, (List_c.mkList (new j) None 0, [])) <$> seq 0 (Z.to_nat HASH_SIZE) in
  ∃ h' pHash,
    Hash_c.HashCreate new h = Some (h', pHash) ∧
    holds_buckets h' hn pHash B ∧
    Hash_c.HashCount pHash = 0 ∧
    (∀ x, (∀ j, (j < Z.to_nat HASH_SIZE)%nat → x ≠ new j) → h' !! x = h !! x).
Proof.
  intros Hfresh Hinj B.
  destruct (HashCreate_loop_spec new (Z.to_nat HASH_SIZE) 0 h) as (h' & Hrun & Hh' & Hf').
  { intros j Hj. apply Hfresh. lia. }
  { intros i j Hi Hj. apply Hinj; lia. }
  eexists h', _. split_and!.
  - unfold Hash_c.HashCreate. by rewrite Hrun.
  - subst B. split_and!; cbn [Hash_c.pNodeLists Hash_c.count].
    + by rewrite <- list_fmap_compose.
    + by rewrite length_fmap, length_seq.
    + by rewrite bind_empty_buckets.
    + intros i b [j [-> Hj]]%list_lookup_fmap_Some. apply lookup_seq in Hj as [-> ?].
      apply Hh'. lia.
    + rewrite bind_empty_rings. apply NoDup_fmap_2_strong; [| apply NoDup_seq].
      intros i j [_ ?]%elem_of_seq [_ ?]%elem_of_seq Heq.
      destruct (decide (i = j)) as [| Hne]; [done |]. exfalso.
      destruct (decide (i < j)%nat); [by apply (Hinj i j); [lia.. |] |].
      by apply (Hinj j i); [lia.. |].
    + rewrite bind_empty_buckets. apply NoDup_nil_2.
    + rewrite bind_empty_buckets. by intros t ?%elem_of_nil.
  - done.
  - intros x Hx. apply Hf'. intros j Hj. apply Hx. lia.
Qed.

Lemma HashCreate_spec new h hn :
  (∀ j, (j < Z.to_nat HASH_SIZE)%nat → h !! new j = None) →
  (∀ i j, (i < j)%nat → (j < Z.to_nat HASH_SIZE)%nat → new i ≠ new j) →
  ∃ h' pHash,
    Hash_c.HashCreate new h = Some (h', pHash) ∧
    holds_hash h' hn pHash (λ _, []) ∧
    Hash_c.HashCount pHash = 0 ∧
    (∀ x, (∀ j, (j < Z.to_nat HASH_SIZE)%nat → x ≠ new j) → h' !! x = h !! x).
Proof.
  intros Hfresh Hinj.
  destruct (HashCreate_buckets new h hn Hfresh Hinj) as (h' & pHash & Hrun & HB & Hc & Hf).
  exists h', pHash. split_and!; try done. eexists. split; [exact HB |].
  intros k. unfold stored.
  destruct (((λ j, (List_c.mkList (new j) None 0, [])) <$> seq 0 (Z.to_nat HASH_SIZE))
              !! Hash_c.index k) as [b |] eqn:Hb; [| done].
  apply list_lookup_fmap_Some in Hb as [j [-> _]]. done.
Qed.

Lemma HashLookup_stacks h hn pHash stacks k :
  holds_hash h hn pHash stacks →
  ∃ pHash', Hash_c.HashLookup h hn pHash k = Some (pHash', head (stacks k)) ∧
            holds_hash h hn pHash' stacks ∧
            Hash_c.HashCount pHash' = Hash_c.HashCount pHash.
Proof.
  intros (B & HB & Hst).
  destruct (HashLookup_spec _ _ _ _ k HB) as (pHash' & B' & Hrun & HB' & Hst' & Hc).
  exists pHash'. rewrite <- Hst. split_and!; [done | | done].
  exists B'. split; [done |]. intros k'. by rewrite Hst'.
Qed.

Lemma HashAdd_stacks h hn pHash stacks k d newNode new :
  holds_hash h hn pHash stacks →
  hn !! newNode = None →
  h !! new = None →
  Hash_c.HashCount pHash < List_c.INT_MAX →
  ∃ h' hn' pHash',
    Hash_c.HashAdd newNode new h hn pHash k (Some d) = Some (h', hn', pHash') ∧
    holds_hash h' hn' pHash' (λ k', if decide (k' = k) then d :: stacks k else stacks k') ∧
    Hash_c.HashCount pHash' = Hash_c.HashCount pHash + 1.
Proof.
  intros (B & HB & Hst) HnewNode Hnew Hc.
  destruct (HashAdd_spec _ _ _ _ k d _ _ HB HnewNode Hnew Hc)
    as (h' & pHash' & B' & Hrun & HB' & Hst' & Hc').
  eexists h', _, pHash'. split_and!; [done | | done].
  exists B'. split; [done |]. intros k'. rewrite Hst'. case_decide; by rewrite Hst.
Qed.

Lemma HashRemove_stacks h hn pHash stacks k :
  holds_hash h hn pHash stacks →
  ∃ h' hn' pHash',
    Hash_c.HashRemove h hn pHash k = Some (h', hn', pHash', head (stacks k)) ∧
    holds_hash h' hn' pHash' (λ k', if decide (k' = k) then tail (stacks k) else stacks k') ∧
    Hash_c.HashCount pHash'
    = Hash_c.HashCount pHash - (if decide (stacks k = []) then 0 else 1).
Proof.
  intros (B & HB & Hst).
  destruct (HashRemove_spec _ _ _ _ k HB) as (h' & hn' & pHash' & B' & Hrun & HB' & Hst' & Hc').
  exists h', hn', pHash'. split_and!; [by rewrite <- Hst | | by rewrite <- Hst].
  exists B'. split; [done |]. intros k'. rewrite Hst'. destruct (decide (k' = k)); by rewrite Hst.
Qed.

Lemma created_table_holds :
  holds_hash created_table.1 ∅ created_table.2 (λ _, []) ∧
  Hash_c.HashCount created_table.2 = 0 ∧
  ∀ x, (256 ≤ x)%nat → created_table.1 !! x = None.
Proof.
  destruct (HashCreate_spec id ∅ ∅) as (h' & pHash & Hrun & Hh & Hc & Hf).
  - done.
  - intros i j ? ?. unfold id. lia.
  - unfold created_table. rewrite Hrun. split_and!; [done | done |].
    intros x Hx. cbn [fst default]. rewrite Hf; [done |]. intros j Hj. unfold id.
    change (Z.to_nat HASH_SIZE) with 256%nat in Hj. lia.
Defined.

(** X23. The table of Hash.c holds, for every key, a stack of the data added
    under it. HashCreate makes a table in which every stack is empty.
    HashLookup returns the data added last under the key, or NULL when there
    is none, and changes no stack. HashAdd puts the data on the stack of
    the key (it does nothing when the data is NULL). HashRemove returns and
    removes the data added last under the key, or returns NULL. HashCount
    follows the number of stored data. *)
Theorem Hash_is_a_map_of_stacks (h : List_c.Heap) (hn : Hash_c.HashNodes)
    (pHash : Hash_c.Hash) (stacks : Z → list nat) (k : Z) (d newNode new : nat) :
  holds_hash h hn pHash stacks →
  hn !! newNode = None →
  h !! new = None →
  Hash_c.HashCount pHash < List_c.INT_MAX →
  (∀ alloc : nat → nat,
     (∀ j, (j < 256)%nat → h !! alloc j = None) →
     (∀ i j, (i < j < 256)%nat → alloc i ≠ alloc j) →
     ∃ h' pHash', Hash_c.HashCreate alloc h = Some (h', pHash') ∧
                  holds_hash h' hn pHash' (λ _, []) ∧ Hash_c.HashCount pHash' = 0) ∧
  (∃ pHash', Hash_c.HashLookup h hn pHash k = Some (pHash', head (stacks k)) ∧
             holds_hash h hn pHash' stacks ∧
             Hash_c.HashCount pHash' = Hash_c.HashCount pHash) ∧
  (∃ h' hn' pHash',
     Hash_c.HashAdd newNode new h hn pHash k (Some d) = Some (h', hn', pHash') ∧
     holds_hash h' hn' pHash' (λ k', if decide (k' = k) then d :: stacks k else stacks k') ∧
     Hash_c.HashCount pHash' = Hash_c.HashCount pHash + 1) ∧
  Hash_c.HashAdd newNode new h hn pHash k None = Some (h, hn, pHash) ∧
  (∃ h' hn' pHash',
     Hash_c.HashRemove h hn pHash k = Some (h', hn', pHash', head (stacks k)) ∧
     holds_hash h' hn' pHash' (λ k', if decide (k' = k) then tail (stacks k) else stacks k') ∧
     Hash_c.HashCount pHash'
     = Hash_c.HashCount pHash - (if decide (stacks k = []) then 0 else 1)).
Proof.
  intros Hh HnewNode Hnew Hc. split_and!.
  - intros alloc Hfresh Hinj.
    destruct (HashCreate_spec alloc h hn) as (h' & pHash' & ? & ? & ? & _).
    + intros j Hj. apply Hfresh. change (Z.to_nat HASH_SIZE) with 256%nat in Hj. lia.
    + intros i j ? Hj. apply Hinj. change (Z.to_nat HASH_SIZE) with 256%nat in Hj. lia.
    + by exists h', pHash'.
  - by apply HashLookup_stacks.
  - by apply HashAdd_stacks.
  - done.
  - by apply HashRemove_stacks.
Qed.

Lemma Hash_is_a_map_of_stacks_witness :
  ∃ h' hn' pHash',
    Hash_c.HashAdd 1000 300 created_table.1 ∅ created_table.2 5 (Some 77%nat)
    = Some (h', hn', pHash') ∧
    holds_hash h' hn' pHash' (λ k', if decide (k' = 5) then [77%nat] else []) ∧
    Hash_c.HashCount pHash' = 1.
Proof.
  destruct created_table_holds as (Hh & Hc & Hfree).
  destruct (Hash_is_a_map_of_stacks created_table.1 ∅ created_table.2 (λ _, []) 5 77 1000 300)
    as (_ & _ & (h' & hn' & pHash' & Hrun & Hh' & Hc') & _).
  - exact Hh.
  - reflexivity.
  - apply Hfree. lia.
  - rewrite Hc. by vm_compute.
  - exists h', hn', pHash'. split_and!; [done | done |]. rewrite Hc', Hc. done.
Defined.

(** X24. Used as the package does, with data added under a key only when
    HashLookup finds none, the table is a finite map from keys to data:
    HashLookup returns what the map holds for the key (NULL if nothing),
    HashAdd under a key that the map does not hold inserts the data, and
    HashRemove deletes the key and returns what the map held for it. *)
Theorem Hash_refines_finite_map (h : List_c.Heap) (hn : Hash_c.HashNodes)
    (pHash : Hash_c.Hash) (m : gmap Z nat) (k : Z) (d newNode new : nat) :
  holds_hash h hn pHash (λ k, option_list (m !! k)) →
  hn !! newNode = None →
  h !! new = None →
  Hash_c.HashCount pHash < List_c.INT_MAX →
  (∃ pHash', Hash_c.HashLookup h hn pHash k = Some (pHash', m !! k) ∧
             holds_hash h hn pHash' (λ k, option_list (m !! k))) ∧
  (m !! k = None →
   ∃ h' hn' pHash',
     Hash_c.HashAdd newNode new h hn pHash k (Some d) = Some (h', hn', pHash') ∧
     holds_hash h' hn' pHash' (λ k', option_list (<[k := d]> m !! k'))) ∧
  (∃ h' hn' pHash',
     Hash_c.HashRemove h hn pHash k = Some (h', hn', pHash', m !! k) ∧
     holds_hash h' hn' pHash' (λ k', option_list (delete k m !! k'))).
Proof.
  intros Hh HnewNode Hnew Hc. split_and!.
  - destruct (HashLookup_stacks _ _ _ _ k Hh) as (pHash' & Hrun & Hh' & _).
    exists pHash'. split; [| done]. rewrite Hrun. by destruct (m !! k).
  - intros Hk. destruct (HashAdd_stacks _ _ _ _ k d _ _ Hh HnewNode Hnew Hc)
      as (h' & hn' & pHash' & Hrun & (B & HB & Hst) & _).
    exists h', hn', pHash'. split; [done |]. exists B. split; [done |].
    intros k'. rewrite Hst. case_decide as Hk'.
    + subst k'. by rewrite lookup_insert_eq, Hk.
    + by rewrite lookup_insert_ne.
  - destruct (HashRemove_stacks _ _ _ _ k Hh) as (h' & hn' & pHash' & Hrun & (B & HB & Hst) & _).
    exists h', hn', pHash'. split; [rewrite Hrun; by destruct (m !! k) |].
    exists B. split; [done |]. intros k'. rewrite Hst. case_decide as Hk'.
    + subst k'. rewrite lookup_delete_eq. by destruct (m !! k).
    + by rewrite lookup_delete_ne.
Qed.

Lemma Hash_refines_finite_map_witness :
  ∃ pHash', Hash_c.HashLookup created_table.1 ∅ created_table.2 5 = Some (pHash', None).
Proof.
  destruct created_table_holds as (Hh & Hc & Hfree).
  destruct (Hash_refines_finite_map created_table.1 ∅ created_table.2 ∅ 5 77 1000 300)
    as ((pHash' & Hrun & _) & _).
  - exact Hh.
  - reflexivity.
  - apply Hfree. lia.
  - rewrite Hc. by vm_compute.
  - by exists pHash'.
Defined.

Lemma free_nodes_spec (ps : list nat) (hn : Hash_c.HashNodes) :
  NoDup ps → (∀ p, p ∈ ps → is_Some (hn !! p)) →
  ∃ hn', Hash_c.free_nodes (Some <$> ps) hn = Some hn' ∧
         ∀ x, hn' !! x = if decide (x ∈ ps) then None else hn !! x.
Proof.
  revert hn. induction ps as [| p ps IH]; intros hn Hnd Hall.
  - exists hn. split; [done |]. intros x. rewrite decide_False; [done | apply not_elem_of_nil].
  - apply NoDup_cons in Hnd as [Hp Hnd].
    destruct (Hall p) as [nd Hnd']; [by left |].
    destruct (IH (delete p hn) Hnd) as (hn' & Hrun & Hhn').
    { intros q Hq. rewrite lookup_delete_ne; [apply Hall; by right | by intros ->]. }
    exists hn'. split; [simpl; by rewrite Hnd' |].
    intros x. rewrite Hhn'. destruct (decide (x = p)) as [-> | Hne].
    + rewrite decide_False by done. rewrite lookup_delete_eq, decide_True; [done | by left].
    + rewrite lookup_delete_ne by done. destruct (decide (x ∈ ps)).
      * rewrite decide_True; [done | by right].
      * rewrite decide_False; [done |]. rewrite elem_of_cons. tauto.
Qed.

Lemma HashDestroyData_loop_S h hn nodeList p fuel :
  Hash_c.HashDestroyData_loop h hn nodeList (Some p) (S fuel)
  = node ← hn !! p;
    '(nodeList, pNode) ← List_c.ListNext h nodeList;
    '(nodeList, freed) ← Hash_c.HashDestroyData_loop h hn nodeList pNode fuel;
    Some (nodeList, Hash_c.pData node :: freed).
Proof. done. Qed.

Lemma HashDestroyData_loop_spec h hn nodeList done todo pNode fuel :
  holds_list h nodeList (cells_of (done ++ todo)) →
  examining nodeList pNode todo →
  (∀ t, t ∈ todo →
     hn !! t_hnode t = Some (Hash_c.mkHashNode (Some (t_data t)) (t_key t))) →
  (length todo < fuel)%nat →
  ∃ nodeList',
    Hash_c.HashDestroyData_loop h hn nodeList pNode fuel
    = Some (nodeList', Some <$> (t_data <$> todo)) ∧
    holds_list h nodeList' (cells_of (done ++ todo)) ∧
    List_c.pHead nodeList' = List_c.pHead nodeList.
Proof.
  revert nodeList done pNode fuel.
  induction todo as [| t todo IH]; intros nodeList done pNode fuel Hh Hex Hhn Hf;
    (destruct fuel as [| fuel]; [simpl in Hf; lia |]); simpl in Hex.
  - subst pNode. by exists nodeList.
  - destruct Hex as [-> Hcur]. pose proof (Hhn t ltac:(by left)) as Hnode.
    destruct (ListNext_examining _ _ _ _ _ Hh Hcur)
      as (l' & pNode' & Hnext & Hh' & Hhd & Hex').
    destruct (IH l' (done ++ [t]) pNode' fuel) as (l'' & Hrun & Hh'' & Hhd'');
      [done | done | | simpl in Hf; lia |].
    { intros t' Ht'. apply Hhn. by right. }
    exists l''. rewrite <- app_assoc in Hh''. split_and!; [| done | congruence].
    rewrite HashDestroyData_loop_S, Hnode. cbn -[Hash_c.HashDestroyData_loop].
    rewrite Hnext. cbn -[Hash_c.HashDestroyData_loop]. by rewrite Hrun.
Qed.

Lemma cells_of_values entries : (cells_of entries).*2 = Some <$> (t_hnode <$> entries).
Proof. unfold cells_of. by rewrite <- !list_fmap_compose. Qed.

Lemma HashDestroy_loop_spec withData rounds n h hn (B : list Bucket) :
  (n + rounds)%nat = length B →
  (∀ j b, (n ≤ j)%nat → B !! j = Some b → holds_list h b.1 (cells_of b.2)) →
  NoDup (drop n B ≫= ring_of) →
  NoDup (t_hnode <$> (drop n B ≫= snd)) →
  (∀ t, t ∈ drop n B ≫= snd →
     hn !! t_hnode t = Some (Hash_c.mkHashNode (Some (t_data t)) (t_key t))) →
  ∃ h' hn',
    Hash_c.HashDestroy_loop withData h hn B.*1 n rounds
    = Some (h', hn', if withData then Some <$> (t_data <$> (drop n B ≫= snd)) else []) ∧
    (∀ x, h' !! x = if decide (x ∈ drop n B ≫= ring_of) then None else h !! x) ∧
    (∀ x, hn' !! x = if decide (x ∈ t_hnode <$> (drop n B ≫= snd)) then None else hn !! x).
Proof.
  revert n h hn. induction rounds as [| rounds IH]; intros n h hn Hlen Hb Hrings Hhnodes Hnodes.
  - rewrite drop_ge by lia. exists h, hn. split_and!.
    + by destruct withData.
    + intros x. rewrite decide_False; [done | apply not_elem_of_nil].
    + intros x. rewrite decide_False; [done | apply not_elem_of_nil].
  - destruct (lookup_lt_is_Some_2 B n) as [[l entries] Hn]; [lia |].
    rewrite (drop_S _ _ _ Hn) in *. rewrite bind_cons in Hrings. rewrite bind_cons in Hhnodes. rewrite bind_cons in Hnodes.
    cbn [snd] in Hhnodes, Hnodes. rewrite fmap_app in Hhnodes.
    apply NoDup_app in Hrings as (Hr1 & Hr12 & Hr2).
    apply NoDup_app in Hhnodes as (Hn1 & Hn12 & Hn2).
    pose proof (Hb n _ ltac:(lia) Hn) as Hh. cbn [fst snd] in Hh.
    pose proof (ring_size _ _ _ Hh) as Hsize. unfold cells_of in Hsize.
    rewrite length_fmap in Hsize.
    assert (∃ l2, (if withData then
                     '(nodeList, pNode) ← List_c.ListHead h l;
                     Hash_c.HashDestroyData_loop h hn nodeList pNode (S (size h))
                   else Some (l, []))
                  = Some (l2, if withData then Some <$> (t_data <$> entries) else []) ∧
                  holds_list h l2 (cells_of entries) ∧
                  List_c.pHead l2 = List_c.pHead l) as (l2 & Hinner & Hh2 & Hhd2).
    { destruct withData; [| by exists l].
      destruct (ListHead_examining _ _ _ Hh) as (l1 & pNode & Hhead & Hh1 & Hhd1 & Hex).
      destruct (HashDestroyData_loop_spec h hn l1 [] entries pNode (S (size h)) Hh1 Hex)
        as (l2 & Hloop & Hh2 & Hhd2); [| lia |].
      { intros t Ht. apply Hnodes. rewrite elem_of_app. by left. }
      exists l2. split_and!; [| done | congruence].
      rewrite Hhead. cbn -[Hash_c.HashDestroyData_loop]. by rewrite Hloop. }
    destruct (ListDestroy_with_spec true _ _ _ Hh2) as (h1 & Hdestroy & Hh1).
    rewrite cells_of_values in Hdestroy. rewrite cells_of_nodes, Hhd2 in Hh1.
    destruct (free_nodes_spec (t_hnode <$> entries) hn Hn1) as (hn1 & Hfree & Hhn1).
    { intros p (t & -> & Ht)%list_elem_of_fmap. rewrite Hnodes; [done |].
      rewrite elem_of_app. by left. }
    destruct (IH (S n) h1 hn1) as (h' & hn' & Hrun & Hh' & Hhn'); [lia | | done | done | |].
    { intros j b Hj Hjb. apply (holds_list_frame h); [apply (Hb j); [lia | done] |].
      intros x Hx. rewrite Hh1. rewrite decide_False; [done |].
      intros Hx'. apply (Hr12 x Hx'). apply list_elem_of_bind. exists b. split.
      - by rewrite cells_of_nodes in Hx.
      - apply list_elem_of_lookup. exists (j - S n)%nat. rewrite lookup_drop. 
        by replace (S n + (j - S n))%nat with j by lia. }
    { intros t Ht. rewrite Hhn1. rewrite decide_False.
      - apply Hnodes. rewrite elem_of_app. by right.
      - intros Ht'. apply (Hn12 _ Ht'). by apply list_elem_of_fmap_2. }
    exists h', hn'. split_and!.
    + cbn -[Hash_c.HashDestroyData_loop List_c.ListDestroyData List_c.ListHead].
      rewrite list_lookup_fmap, Hn. cbn -[Hash_c.HashDestroyData_loop List_c.ListDestroyData List_c.ListHead].
      rewrite Hinner. cbn -[Hash_c.HashDestroyData_loop List_c.ListDestroyData List_c.ListHead].
      unfold List_c.ListDestroyData. rewrite Hdestroy.
      cbn -[Hash_c.HashDestroyData_loop List_c.ListDestroyData List_c.ListHead].
      rewrite Hfree. cbn -[Hash_c.HashDestroyData_loop List_c.ListDestroyData List_c.ListHead].
      rewrite Hrun. destruct withData; [| done].
      cbn [snd]. by rewrite !fmap_app.
    + intros x. rewrite Hh', Hh1. rewrite bind_cons.
      destruct (decide (x ∈ drop (S n) B ≫= ring_of)) as [Hx | Hx].
      * rewrite decide_True; [done |]. rewrite elem_of_app. by right.
      * unfold ring_of at 2. cbn [fst snd].
        destruct (decide (x ∈ List_c.pHead l :: (t_node <$> entries))) as [Hx' | Hx'].
        -- rewrite decide_True; [done |]. rewrite elem_of_app. by left.
        -- rewrite decide_False; [done |]. rewrite elem_of_app. tauto.
    + intros x. rewrite Hhn', Hhn1. rewrite bind_cons, fmap_app. cbn [snd].
      destruct (decide (x ∈ t_hnode <$> drop (S n) B ≫= snd)) as [Hx | Hx].
      * rewrite decide_True; [done |]. rewrite elem_of_app. by right.
      * destruct (decide (x ∈ t_hnode <$> entries)) as [Hx' | Hx'].
        -- rewrite decide_True; [done |]. rewrite elem_of_app. by left.
        -- rewrite decide_False; [done |]. rewrite elem_of_app. tauto.
Qed.

(** X25. HashDestroy and HashDestroyData end on a well-formed table, and
    free every list node (the dummy nodes too) and every hash node of the
    table, and no other node. HashDestroyData also passes the stored user
    data to [free], each once, bucket by bucket and in each bucket the most
    recently added first; HashDestroy frees no user data. *)
Theorem HashDestroy_frees_the_table (h : List_c.Heap) (hn : Hash_c.HashNodes)
    (pHash : Hash_c.Hash) (B : list Bucket) :
  holds_buckets h hn pHash B →
  ∃ h' hn',
    Hash_c.HashDestroy h hn pHash = Some (h', hn', []) ∧
    Hash_c.HashDestroyData h hn pHash = Some (h', hn', Some <$> (t_data <$> (B ≫= snd))) ∧
    (∀ x, h' !! x = if decide (x ∈ B ≫= ring_of) then None else h !! x) ∧
    (∀ x, hn' !! x = if decide (x ∈ t_hnode <$> (B ≫= snd)) then None else hn !! x).
Proof.
  intros (Hl & Hlen & _ & Hb & Hrings & Hhnodes & Hnodes).
  destruct (HashDestroy_loop_spec false (Z.to_nat HASH_SIZE) 0 h hn B)
    as (h1 & hn1 & Hrun1 & Hh1 & Hhn1); [done | by intros j b _; apply Hb | done..|].
  destruct (HashDestroy_loop_spec true (Z.to_nat HASH_SIZE) 0 h hn B)
    as (h2 & hn2 & Hrun2 & Hh2 & Hhn2); [done | by intros j b _; apply Hb | done..|].
  rewrite drop_0 in *.
  assert (h2 = h1) as -> by (apply map_eq; intros x; by rewrite Hh1, Hh2).
  assert (hn2 = hn1) as -> by (apply map_eq; intros x; by rewrite Hhn1, Hhn2).
  exists h1, hn1. unfold Hash_c.HashDestroy, Hash_c.HashDestroyData. rewrite Hl.
  by split_and!.
Qed.

Lemma created_table_buckets :
  ∃ B, holds_buckets created_table.1 ∅ created_table.2 B ∧
       ∀ x, (x < 256)%nat → x ∈ B ≫= ring_of.
Proof.
  destruct (HashCreate_buckets id ∅ ∅) as (h' & pHash & Hrun & HB & _).
  - done.
  - intros i j ? ?. unfold id. lia.
  - unfold created_table. rewrite Hrun. eexists. split; [exact HB |].
    intros x Hx. rewrite bind_empty_rings. apply list_elem_of_fmap. exists x. split; [done |].
    apply elem_of_seq. change (Z.to_nat HASH_SIZE) with 256%nat. lia.
Defined.

Lemma HashDestroy_frees_the_table_witness :
  ∃ h' hn', Hash_c.HashDestroy created_table.1 ∅ created_table.2 = Some (h', hn', []) ∧
            (∀ x, (x < 256)%nat → h' !! x = None).
Proof.
  destruct created_table_buckets as (B & HB & Hrings).
  destruct (HashDestroy_frees_the_table created_table.1 ∅ created_table.2 B HB)
    as (h' & hn' & Hrun & _ & Hh' & _).
  exists h', hn'. split; [done |]. intros x Hx. rewrite Hh', decide_True; [done |].
  by apply Hrings.
Defined.
